(* ===== verification/_CoqProject ===== *)
-Q . S2P
Prelude.v
LinkedList.v
Double.v
Gps.v
Daemon.v
Timer.v
NeighList.v
Wire.v
Utils.v
Scan.v
Database.v
RoadMap.v
NeighManager.v
NeighSpec.v
ConnManager.v
Events.v
EventLoop.v
Forwarding.v
MapManager.v
RoadMatching.v
Routes.v
RoutingManager.v
RoutingSpec.v
Boot.v
Skb.v
KernState.v
Ipenc.v
KernQueue.v
Netfilter.v
KernelDaemon.v
SimHeap.v
SimEvent.v
SimChain.v
SimQueues.v
SimTree.v
SimSplay.v
SimAgree.v
SimScheduler.v
SimPacket.v
PacketQueue.v
DropTail.v
PriQueue.v
AllocAddr.v
Address.v
Arp.v
LinkLayer.v
AodvQueue.v
AodvTable.v
Aodv.v
AodvMemory.v
AodvSpec.v
AodvAgent.v
MsvrNeigh.v
MsvrMap.v
SearchTree.v
CpcQueue.v
MsvrAgent.v
