(* ===== verification/Prelude.v ===== *)
(** * GeoSVR: a verified model of a map-based VANET routing daemon

    GeoSVR is a routing protocol for vehicles: a packet follows a route of roads, and at
    each hop it goes to a neighbour on the last road of its route that a neighbour is on.
    The repository has it twice: as a Linux daemon ([src/src/system]) and as an agent of
    the network simulator ns-2 ([src/src/ns2/msvr], with [src/src/ns2/cpc] and the parts of
    ns-2 that it runs on).  File names in the development are relative to [src/src].

    ** The daemon

    One thread waits in libevent for datagrams, netlink messages and timers, and calls a
    handler for each.  The handlers share one record, [Daemon.daemon]: the ring of
    neighbours, the neighbour entries, the timers, the datagrams sent.  [Timer.v],
    [NeighList.v], [NeighManager.v] and [ConnManager.v] define the handlers; [Events.v]
    defines the step relation of the event loop on top of them.

    - [LinkedList.v]: [list.cc], [list.h]; pointers in a heap, and the sequence they hold.
    - [Double.v], [Utils.v], [Wire.v], [Scan.v]: binary64 numbers, [utils.h], the memory
      images of integers and structures, numbers in text.
    - [Gps.v]: [gps_manager.cc].  [Daemon.v]: [packet.h], [neigh_list.h], [timer.h].
    - [Timer.v]: [timer.cc].  [NeighList.v]: [neigh_list.cc].
    - [RoadMap.v]: the two operations of the map that its users call, a class that
      [MapManager.v] implements.
    - [NeighManager.v]: [neigh_manager.cc].  [ConnManager.v]: the datagrams of
      [conn_manager.cc].
    - [NeighSpec.v]: the abstract neighbour table, a finite map without pointers or timers.
    - [Events.v], [EventLoop.v]: reachable states of the event loop; safety, refinement of
      the abstract table, what the timers guarantee, when a neighbour is forgotten.
    - [Forwarding.v]: the choice of the next hop.
    - [Database.v]: [database_manager.cc].  [MapManager.v]: [map_manager.cc].
      [RoadMatching.v], [Routes.v]: matching, import, candidate routes and their choice.
    - [RoutingManager.v], [RoutingSpec.v]: [routing_manager.cc] and the netlink half of
      [conn_manager.cc]; how route requests are answered.
    - [Boot.v]: [main.cc], [utils.cc] and the constructors.

    ** The kernel module

    The module [system/kernel_mod] keeps the packets of the host in a queue while it asks
    the daemon for a next hop, and sends, encapsulates or drops them as the answer says.
    Its handlers (the netfilter hook and the receiver of netlink messages) share the
    record [KernState.kernel].

    - [Skb.v]: packets as bytes in a buffer, the kernel's functions that move the borders
      of a buffer, the members of an IP header.  [KernState.v]: the state of the module
      and what leaves it.
    - [Ipenc.v]: [geosvr_ipenc.c]; encapsulation and decapsulation are inverse.
    - [KernQueue.v]: [geosvr_queue.c], [geosvr_netlink.c]; an answer empties the queue of
      the packets for its destination.
    - [Netfilter.v]: [geosvr_mod.c], [geosvr_mod.h]; what the hook does with a packet, and
      that the module stays well formed.
    - [KernelDaemon.v]: a request of the module, the daemon's answer and the packets it
      releases.

    ** The simulator

    - [SimHeap.v], [SimEvent.v], [SimChain.v], [SimQueues.v]: [ns2/common/scheduler.cc],
      [scheduler.h] and [heap.h]; the interface [EventQueueSpec] of event queues, and the
      list scheduler and the heap scheduler as its implementations.
    - [SimTree.v], [SimSplay.v]: [splay-scheduler.cc], binary trees on the links of the
      events, splaying, and the splay scheduler as a third implementation.
      [SimAgree.v]: the three schedulers dispatch the same events in the same order.
    - [SimScheduler.v]: the main loop of the scheduler and [timer-handler.cc], over any
      implementation of that interface.
    - [SimPacket.v]: [packet.h], [ip.h]; packets and the pool they are recycled in.
    - [PacketQueue.v], [DropTail.v], [PriQueue.v]: [queue.cc], [queue.h], [drop-tail.cc],
      [priqueue.cc]; the queue between the link layer and the radio, which prefers the
      packets of routing protocols, among them GeoSVR's.
    - [AllocAddr.v], [Address.v]: [ns2/routing/alloc-address.cc], [address.cc]; the bits of
      an address, and its decimal notation.
    - [Arp.v], [LinkLayer.v]: [ns2/mac/ll.cc], [arp.cc], [varp.cc]; the link layer under the
      agent, and what it promises: an abstract table of addresses, no packet lost.
    - [AodvQueue.v], [AodvTable.v], [Aodv.v]: [ns2/aodv]; the routing agent GeoSVR is compared
      with in simulations: its queue of waiting packets, which acts on their sequence, its
      routing table and its handlers.  [AodvMemory.v], [AodvSpec.v], [AodvAgent.v]: each
      handler on the packets, the table and the messages; every event leaves a consistent
      agent, whose routes are those of an abstract routing table.
    - [MsvrNeigh.v], [MsvrMap.v], [SearchTree.v]: positions, neighbours and the map of the
      agent; a concrete search tree for the witnesses.
    - [CpcQueue.v], [MsvrAgent.v]: the packets that wait for a route, the routing table,
      and the agent itself.

    ** Conventions

    A C++ function is a function from states to outcomes ([outcome] below): it returns, it
    aborts the process, or it is stuck at a fault that leaves the program without defined
    behaviour.  A fault is a value, so that "no fault" is a theorem and a fault that can be
    reached is one as well.  Integers are [Z] with the wrap-around of their width written
    out ([u8], [u16], [u32], [s8], [s32], ...).  A bracketed reference before a definition
    names the file, the lines and the function it models.

    What is not part of the repository is an argument: libevent and [malloc] are the
    classes [EventLib] and [Allocator] of [Daemon.v], the transcendental functions [Libm],
    Dijkstra's algorithm of the Boost Graph Library [ShortestPaths] and [Predecessors] with
    the documented properties of the predecessor map, the Linux kernel [Kernel] of [Skb.v]
    (checksums, routing decisions, larger buffers), the layout of a netlink message, which
    differs between machines, [NlLayout]; readings of the GPS receiver, rows of
    the database, results of system calls are arguments of the operations that consume
    them.  Each of these classes has a concrete instance, used by the witnesses.

    ** Fuel

    Loops whose end is not structural carry fuel, and running out of it is the fault
    [NoFuel], which the safety theorems exclude.  List traversals have one unit for each
    cell and one more; the walk along the predecessors of Dijkstra's algorithm the number
    of vertices plus one; reading a route's text one unit for each byte; the heap loops the
    number of entries plus one; the loops over events and packets the number of events or
    packets plus two; the loops that empty the module's queue one unit for each packet and
    one more; paths in the splay tree the number of events plus one; the aging of neighbours the number of
    neighbours plus one; walks along the ARP table the number of its entries plus one; the
    runs of free bits of an address the number of bits plus one; the doubling of the virtual
    ARP table 32; the queues of AODV one unit for each packet in memory and one more.  The
    number of candidate routes is bounded by the number of roads not yet used; where the
    loop for them does not end, the theorems say that no fuel is enough
    ([get_routes_parallel_diverges], [getPaths_builtin]).

    ** Not modelled

    Of the kernel module: its sockets and locks ([geosvr_netlink_init] and
    [geosvr_netlink_fini], which only register with the kernel), packets in several
    fragments, and the kernel's own functions, which are described by what they do to a
    buffer.  Log files and printing; destructors that run at the end of the process; the Tcl
    commands of the simulator's objects; gpsd ([system/lib]), which is third-party; the
    programs under [system/tests].  Of ns-2 only what GeoSVR's agent runs on is modelled, and AODV:
    the calendar and real-time schedulers, the other queue disciplines, the other
    routing protocols, transport, medium access and radio are not, nor are
    the router of a local area network, which the link layer asks for the next hop (an
    argument of [Arp.v]), and the back ends of [ns2/cpc] for Linux and Windows. *)

From stdpp Require Export base gmap list numbers option fin_maps fin_sets strings.
From Stdlib Require Export ZArith Lia.

Open Scope Z_scope.

(** ** Addresses

    A pointer is a natural number; [NULL] is zero. *)
Abbreviation addr := N (only parsing).
Abbreviation NULL := 0%N (only parsing).

(** ** Outcomes

    A C++ function is a function from states to outcomes: it returns a value and
    a new state, it aborts the process (GLib's [g_error], the macro [error] of
    log.h, which logs and calls [abort]), or it runs into one of the faults that
    leave the program without a defined behaviour. *)
Inductive fault :=
  | NullDeref        (** a null pointer is dereferenced *)
  | UseAfterFree     (** a pointer to memory that is not allocated is used *)
  | UninitRead       (** a variable is read that was never written *)
  | OutOfBounds      (** an array is accessed outside its bounds *)
  | DivByZero        (** an integer division by zero *)
  | NoFuel.          (** a loop of the model ran out of fuel *)

#[global] Instance fault_eq_dec : EqDecision fault.
Proof. solve_decision. Defined.

Inductive outcome (S A : Type) :=
  | Done (a : A) (s : S)
  | Abort (s : S)
  | Stuck (f : fault).
Arguments Done {S A} a s.
Arguments Abort {S A} s.
Arguments Stuck {S A} f.

Definition M (S A : Type) : Type := S → outcome S A.

#[global] Instance M_ret {S} : MRet (M S) := λ A a s, Done a s.
#[global] Instance M_bind {S} : MBind (M S) := λ A B k m s,
  match m s with
  | Done a s' => k a s'
  | Abort s' => Abort s'
  | Stuck f => Stuck f
  end.

Definition get {S} : M S S := λ s, Done s s.
Definition put {S} (s' : S) : M S unit := λ _, Done tt s'.
Definition gets {S A} (f : S → A) : M S A := λ s, Done (f s) s.
Definition modify {S} (f : S → S) : M S unit := λ s, Done tt (f s).
Definition stuck {S A} (f : fault) : M S A := λ _, Stuck f.
Definition abort {S A} : M S A := λ s, Abort s.
Definition skip {S} : M S unit := mret tt.

(** A pointer lookup: the cell at [a] of the heap [h], or the fault of the access. *)
Definition deref {S V} (h : S → gmap N V) (a : N) : M S V := λ s,
  if decide (a = 0%N) then Stuck NullDeref
  else match h s !! a with
       | Some v => Done v s
       | None => Stuck UseAfterFree
       end.

(** A pointer that must not be null, and an access within bounds. *)
Definition the {S A} (o : option A) : M S A :=
  match o with Some a => mret a | None => stuck NullDeref end.
Definition within {S A} (o : option A) : M S A :=
  match o with Some a => mret a | None => stuck OutOfBounds end.

(** [assert] of C, and an access to an array. *)
Definition assert_ {S} (b : bool) : M S unit := if b then skip else abort.
Definition at_ {A} (l : list A) (i : Z) : option A := if decide (0 ≤ i) then l !! Z.to_nat i else None.

(** Running a computation on a component of the state. *)
Definition zoom {S T A} (g : S → T) (p : T → S → S) (m : M T A) : M S A := λ s,
  match m (g s) with
  | Done a t => Done a (p t s)
  | Abort t => Abort (p t s)
  | Stuck f => Stuck f
  end.

(** ** Triples

    [wp m s Q] holds when [m], started in [s], does not reach a fault and [Q] holds
    of its result if it returns; an abort is a controlled end of the process.  [twp m s Q]
    holds when [m] returns, with a result of which [Q] holds. *)
Definition wpx {S A} (E : Prop) (m : M S A) (s : S) (Q : A → S → Prop) : Prop :=
  match m s with
  | Done a s' => Q a s'
  | Abort _ => E
  | Stuck _ => False
  end.
Abbreviation wp := (wpx True).
Abbreviation twp := (wpx False).

(** [returns m s a s'] : [m] started in [s] returns [a] in the state [s']. *)
Definition returns {S A} (m : M S A) (s : S) (a : A) (s' : S) : Prop := m s = Done a s'.

Section wp.
Context {S : Type} {E : Prop}.
Implicit Types (s : S).

Lemma wp_ret {A} (a : A) s (Q : A → S → Prop) : Q a s → wpx E (mret a) s Q.
Proof. done. Qed.

Lemma wp_bind {A B} (m : M S A) (k : A → M S B) s Q :
  wpx E m s (λ a s', wpx E (k a) s' Q) → wpx E (m ≫= k) s Q.
Proof. unfold wpx, mbind, M_bind. by destruct (m s). Qed.

Lemma wp_mono {A} (m : M S A) s (P Q : A → S → Prop) :
  wpx E m s P → (∀ a s', P a s' → Q a s') → wpx E m s Q.
Proof. unfold wpx. destruct (m s); naive_solver. Qed.

Lemma wp_done {A} (m : M S A) s a s' (Q : A → S → Prop) :
  m s = Done a s' → Q a s' → wpx E m s Q.
Proof. unfold wpx. by intros ->. Qed.

Lemma wp_gets {A} (f : S → A) s (Q : A → S → Prop) : Q (f s) s → wpx E (gets f) s Q.
Proof. done. Qed.

Lemma wp_modify (f : S → S) s (Q : unit → S → Prop) : Q tt (f s) → wpx E (modify f) s Q.
Proof. done. Qed.

Lemma wp_deref {V} (h : S → gmap N V) a v s (Q : V → S → Prop) :
  a ≠ 0%N → h s !! a = Some v → Q v s → wpx E (deref h a) s Q.
Proof. intros Ha Hv HQ. unfold wpx, deref. rewrite decide_False by done. by rewrite Hv. Qed.

Lemma wp_zoom {T A} (g : S → T) (p : T → S → S) (m : M T A) s (Q : A → S → Prop) :
  wpx E m (g s) (λ a t, Q a (p t s)) → wpx E (zoom g p m) s Q.
Proof. unfold wpx, zoom. by destruct (m (g s)). Qed.

Lemma bind_done {A B} (m : M S A) (k : A → M S B) s a s' :
  m s = Done a s' → (m ≫= k) s = k a s'.
Proof. unfold mbind, M_bind. by intros ->. Qed.

Lemma bind_ext {A B} (m m' : M S A) (k k' : A → M S B) s :
  m s = m' s → (∀ a s', k a s' = k' a s') → (m ≫= k) s = (m' ≫= k') s.
Proof. unfold mbind, M_bind. intros -> Hk. destruct (m' s); [apply Hk|done|done]. Qed.

Lemma ret_bind_at {A B} (a : A) (k : A → M S B) s : (mret a ≫= k) s = k a s.
Proof. done. Qed.

Lemma bind_assoc_at {A B C} (m : M S A) (k : A → M S B) (l : B → M S C) s :
  ((m ≫= k) ≫= l) s = (m ≫= λ a, k a ≫= l) s.
Proof. unfold mbind, M_bind. by destruct (m s). Qed.

Lemma deref_done {V} (h : S → gmap N V) a v s : a ≠ NULL → h s !! a = Some v → deref h a s = Done v s.
Proof. intros Ha Hv. unfold deref. by rewrite decide_False, Hv. Qed.

Lemma bind_done_inv {A B} (m : M S A) (k : A → M S B) s b s' :
  (m ≫= k) s = Done b s' → ∃ a t, m s = Done a t ∧ k a t = Done b s'.
Proof. unfold mbind, M_bind. destruct (m s); naive_solver. Qed.
End wp.

Lemma twp_inv {S A} (m : M S A) s Q : twp m s Q → ∃ a s', m s = Done a s' ∧ Q a s'.
Proof. unfold wpx. destruct (m s) as [a s'| |]; [|done|done]. by exists a, s'. Qed.

Create HintDb geosvr.
#[export] Hint Resolve wp_ret wp_gets wp_modify : geosvr.

(** One step of a symbolic execution: peel the first operation off the goal. *)
Ltac wp_step :=
  lazymatch goal with
  | |- wpx _ (mret _) _ _ => apply wp_ret
  | |- wpx _ (_ ≫= _) _ _ => apply wp_bind
  | |- wpx _ (gets _) _ _ => apply wp_gets
  | |- wpx _ (modify _) _ _ => apply wp_modify
  | |- wpx _ skip _ _ => apply wp_ret
  | |- wpx _ (zoom _ _ _) _ _ => apply wp_zoom
  | |- wpx _ (deref _ _) _ _ => eapply wp_deref
  | |- wpx _ (if decide ?P then _ else _) _ _ => case_decide
  | |- wpx _ (if ?b then _ else _) _ _ => let E := fresh "Eb" in destruct b eqn:E
  end.
Ltac wp_steps := repeat (wp_step; simpl).

(** ** Machine integers

    [wrap w x] is what a [w]-bit unsigned variable holds after [x] is stored in it;
    [swrap w x] is the two's-complement reading of the same bits. *)
Definition wrap (w x : Z) : Z := x `mod` 2 ^ w.
Definition swrap (w x : Z) : Z :=
  let u := wrap w x in if u <? 2 ^ (w - 1) then u else u - 2 ^ w.

Definition u8 := wrap 8.
Definition u16 := wrap 16.
Definition u32 := wrap 32.
Definition u64 := wrap 64.
Definition s8 := swrap 8.
Definition s32 := swrap 32.

Lemma wrap_range w x : 0 ≤ w → 0 ≤ wrap w x < 2 ^ w.
Proof. intros. apply Z.mod_pos_bound, Z.pow_pos_nonneg; lia. Qed.

Lemma wrap_small w x : 0 ≤ x < 2 ^ w → wrap w x = x.
Proof. apply Z.mod_small. Qed.

Lemma wrap_wrap w x : wrap w (wrap w x) = wrap w x.
Proof. unfold wrap. apply Zmod_mod. Qed.

Lemma swrap_range w x : 1 ≤ w → - 2 ^ (w - 1) ≤ swrap w x < 2 ^ (w - 1).
Proof.
  intros Hw. unfold swrap. pose proof (wrap_range w x ltac:(lia)) as Hr.
  assert (2 ^ w = 2 * 2 ^ (w - 1)) as E.
  { rewrite <- Z.pow_succ_r by lia. f_equal. lia. }
  destruct (Z.ltb_spec (wrap w x) (2 ^ (w - 1))); lia.
Qed.

Lemma swrap_small w x : 1 ≤ w → - 2 ^ (w - 1) ≤ x < 2 ^ (w - 1) → swrap w x = x.
Proof.
  intros Hw Hx. unfold swrap, wrap.
  assert (2 ^ w = 2 * 2 ^ (w - 1)) as E.
  { rewrite <- Z.pow_succ_r by lia. f_equal. lia. }
  destruct (decide (0 ≤ x)).
  - rewrite Z.mod_small by lia. destruct (Z.ltb_spec x (2 ^ (w - 1))); lia.
  - rewrite <- (Z_mod_plus_full x 1), Z.mod_small by lia.
    destruct (Z.ltb_spec (x + 1 * 2 ^ w) (2 ^ (w - 1))); lia.
Qed.

Lemma s32_small x : - 2 ^ 31 ≤ x < 2 ^ 31 → s32 x = x.
Proof. intros. by apply swrap_small. Qed.

Lemma s32_add a b : s32 (s32 a + b) = s32 (a + b).
Proof.
  assert (wrap 32 (s32 a + b) = wrap 32 (a + b)) as E.
  { unfold s32, swrap, wrap. cbv zeta. destruct (Z.ltb_spec (a `mod` 2 ^ 32) (2 ^ (32 - 1))).
    - by rewrite Zplus_mod_idemp_l.
    - replace (a `mod` 2 ^ 32 - 2 ^ 32 + b) with (a `mod` 2 ^ 32 + b + (-1) * 2 ^ 32) by lia.
      rewrite Z_mod_plus_full. by rewrite Zplus_mod_idemp_l. }
  unfold s32 at 1 3, swrap. by rewrite E.
Qed.

(** The largest [int], [std::numeric_limits<int>::max()]. *)
Definition INT_MAX : Z := 2147483647.

(** ** Generic lemmas *)

(** Integers without repetition in a range of [n] values are at most [n]. *)
Lemma NoDup_range_length (l : list Z) (n : Z) :
  NoDup l → (∀ x, x ∈ l → 0 ≤ x < n) → Z.of_nat (length l) ≤ Z.max 0 n.
Proof.
  intros Hnd Hr.
  assert (length l ≤ length (seqZ 0 n))%nat as Hle.
  { apply submseteq_length, NoDup_submseteq; [done|].
    intros x Hx. apply elem_of_seqZ. specialize (Hr x Hx). lia. }
  rewrite length_seqZ in Hle. lia.
Qed.

Lemma testbit_wrap w x j : 0 ≤ j < w → Z.testbit (wrap w x) j = Z.testbit x j.
Proof. intros. unfold wrap. by rewrite Z.mod_pow2_bits_low by lia. Qed.

Lemma testbit_s32 x j : 0 ≤ j < 32 → Z.testbit (s32 x) j = Z.testbit x j.
Proof.
  intros Hj. rewrite <- (testbit_wrap 32 x j Hj). unfold s32, swrap. cbv zeta.
  destruct (Z.ltb_spec (wrap 32 x) (2 ^ (32 - 1))); [done|].
  rewrite <- (testbit_wrap 32 (wrap 32 x - 2 ^ 32) j Hj), <- (testbit_wrap 32 (wrap 32 x) j Hj). f_equal.
  unfold wrap at 1 3. rewrite <- (Z_mod_plus_full (wrap 32 x - 2 ^ 32) 1 (2 ^ 32)). f_equal. lia.
Qed.

(** The bits above the highest are those of the sign. *)
Lemma testbit_s32_sign x j : 0 ≤ j → Z.testbit (s32 x) j = Z.testbit x (Z.min j 31).
Proof.
  intros Hj. destruct (decide (j < 31)); [by rewrite testbit_s32, Z.min_l by lia|].
  rewrite Z.min_r, <- (testbit_s32 x 31) by lia.
  assert (- 2 ^ 31 ≤ s32 x < 2 ^ 31) as Hx by (apply (swrap_range 32); lia).
  assert (∀ i, 31 ≤ i → Z.testbit (s32 x) i = bool_decide (s32 x < 0)) as Hi; [|by rewrite !Hi by lia].
  intros i Hi. assert (2 ^ 31 ≤ 2 ^ i) by (apply Z.pow_le_mono_r; lia). case_bool_decide.
  - destruct (Z.eq_dec (s32 x) (-1)) as [->|]; [by rewrite Z.bits_m1 by lia|].
    apply Z.bits_above_log2_neg; [done|]. apply Z.log2_lt_pow2; lia.
  - destruct (decide (s32 x = 0)) as [->|]; [by rewrite Z.bits_0|].
    apply Z.bits_above_log2; [lia|]. apply Z.log2_lt_pow2; lia.
Qed.

(** Two [int]s with the same 32 bits are equal. *)
Lemma s32_bits x y :
  - 2 ^ 31 ≤ x < 2 ^ 31 → - 2 ^ 31 ≤ y < 2 ^ 31 →
  (∀ j, 0 ≤ j < 32 → Z.testbit x j = Z.testbit y j) → x = y.
Proof.
  intros Hx Hy Hb. rewrite <- (s32_small x), <- (s32_small y) by done. unfold s32, swrap. cbv zeta.
  assert (wrap 32 x = wrap 32 y) as ->; [|done]. apply Z.bits_inj_iff'. intros j Hj.
  destruct (decide (j < 32)); [by rewrite !testbit_wrap, Hb|]. unfold wrap.
  by rewrite !Z.mod_pow2_bits_high by lia.
Qed.

(** ** Filtering lists *)

Lemma list_filter_same {A} (P : A → Prop) `{∀ x, Decision (P x)} (xs : list A) :
  (∀ x, x ∈ xs → P x) → filter P xs = xs.
Proof.
  induction xs as [|x xs IH]; [done|]. intros HP.
  rewrite filter_cons_True by (apply HP; set_solver). rewrite IH; [done|set_solver].
Qed.

Lemma list_filter_none {A} (P : A → Prop) `{∀ x, Decision (P x)} (xs : list A) :
  (∀ x, x ∈ xs → ¬ P x) → filter P xs = [].
Proof.
  induction xs as [|x xs IH]; [done|]. intros HP.
  rewrite filter_cons_False by (apply HP; by left). apply IH. intros y Hy. apply HP. by right.
Qed.

Lemma filter_ne_split (p1 p2 : list addr) e :
  NoDup (p1 ++ e :: p2) → filter (.≠ e) (p1 ++ e :: p2) = p1 ++ p2.
Proof.
  intros (_ & Hd & [He _]%NoDup_cons)%NoDup_app.
  rewrite filter_app, filter_cons_False by naive_solver.
  rewrite !(list_filter_same (.≠ e)); [done|intros x Hx; set_solver|intros x Hx -> ; set_solver].
Qed.
