(* ===== verification/LinkedList.v ===== *)
(** * The intrusive doubly-linked list

    [system/src/list.cc], [system/include/list.h] and their copies under [ns2/msvr].
    A list node is a pair of pointers embedded at the start of a structure; the head
    is a node of its own and the links form a ring through it.  The model is the
    heap of nodes, the three mutators with the C code's order of assignments, and the
    two traversal macros as loops over the pointers.  The representation predicate
    [ring] relates a heap to the sequence of nodes it stores; the operations are shown
    to act on that sequence. *)
From S2P Require Import Prelude.
Open Scope Z_scope.

(* [system/include/list.h:27-29] struct list_t *)
Record list_t := ListT { prev : addr; next : addr }.

#[global] Instance list_t_eq_dec : EqDecision list_t.
Proof. solve_decision. Defined.

Abbreviation cells := (gmap N list_t).

(* [system/include/list.h:31-32] LIST_NULL and LIST_SUCCESS *)
Definition LIST_NULL : Z := -1.
Definition LIST_SUCCESS : Z := 1.

(** Assignments through a pointer: [a->next = v] and [a->prev = v]. *)
Definition set_next (a v : addr) : M cells unit :=
  c ← deref id a; modify (λ h, <[a := ListT (prev c) v]> h).
Definition set_prev (a v : addr) : M cells unit :=
  c ← deref id a; modify (λ h, <[a := ListT v (next c)]> h).
Definition get_next (a : addr) : M cells addr := c ← deref id a; mret (next c).
Definition get_prev (a : addr) : M cells addr := c ← deref id a; mret (prev c).

(* [system/include/list.h:36-38] INIT_LIST_HEAD *)
Definition INIT_LIST_HEAD (h : addr) : M cells unit :=
  _ ← set_next h h; set_prev h h.

(* [system/src/list.cc:26-32] listelm_detach *)
Definition listelm_detach (p n : addr) : M cells Z :=
  _ ← set_prev n p;
  _ ← set_next p n;
  mret LIST_SUCCESS.

(* [system/src/list.cc:34-42] listelm_add *)
Definition listelm_add (le p n : addr) : M cells Z :=
  _ ← set_next p le;
  _ ← set_prev le p;
  _ ← set_next le n;
  _ ← set_prev n le;
  mret LIST_SUCCESS.

(* [system/src/list.cc:44-53] list_add *)
Definition list_add (head le : addr) : M cells Z :=
  if decide (head = NULL ∨ le = NULL) then mret LIST_NULL
  else
    n ← get_next head;
    _ ← listelm_add le head n;
    mret LIST_SUCCESS.

(* [system/src/list.cc:55-64] list_add_tail *)
Definition list_add_tail (head le : addr) : M cells Z :=
  if decide (head = NULL ∨ le = NULL) then mret LIST_NULL
  else
    p ← get_prev head;
    _ ← listelm_add le p head;
    mret LIST_SUCCESS.

(* [system/src/list.cc:66-76] list_detach *)
Definition list_detach (le : addr) : M cells Z :=
  if decide (le = NULL) then mret LIST_NULL
  else
    p ← get_prev le;
    n ← get_next le;
    _ ← listelm_detach p n;
    _ ← set_prev le NULL;
    _ ← set_next le NULL;
    mret LIST_SUCCESS.

(* [system/include/list.h:55-55] list_empty *)
Definition list_empty (head : addr) : M cells bool :=
  n ← get_next head; mret (bool_decide (head = n)).

(** ** The traversal macros

    A loop body works on a larger state [S] of which the list cells are a part, and on
    the local variables [b] of the function around it; it returns [inl r] when that
    function returns [r] and [inr b'] when the loop goes on.  The fuel is the number of
    cells plus one, taken when the loop is entered: a ring is never longer than that. *)
Section foreach.
Context {S A B : Type} (cells_of : S → cells).

Definition load_next (a : addr) : M S addr := c ← deref cells_of a; mret (next c).

Fixpoint foreach_loop (fuel : nat) (head cur : addr) (body : addr → B → M S (A + B))
    (b : B) : M S (A + B) :=
  match fuel with
  | O => stuck NoFuel
  | Datatypes.S fuel =>
      if decide (cur = head) then mret (inr b)
      else
        r ← body cur b;
        match r with
        | inl a => mret (inl a)
        | inr b' => n ← load_next cur; foreach_loop fuel head n body b'
        end
  end.

(* [system/include/list.h:48-49] list_foreach *)
Definition list_foreach (head : addr) (body : addr → B → M S (A + B)) (b : B)
    : M S (A + B) :=
  fuel ← gets (λ s, Datatypes.S (size (cells_of s)));
  cur ← load_next head;
  foreach_loop fuel head cur body b.

Fixpoint foreach_safe_loop (fuel : nat) (head pos tmp : addr)
    (body : addr → B → M S (A + B)) (b : B) : M S (A + B) :=
  match fuel with
  | O => stuck NoFuel
  | Datatypes.S fuel =>
      if decide (pos = head) then mret (inr b)
      else
        r ← body pos b;
        match r with
        | inl a => mret (inl a)
        | inr b' => n ← load_next tmp; foreach_safe_loop fuel head tmp n body b'
        end
  end.

(* [system/include/list.h:51-53] list_foreach_safe *)
Definition list_foreach_safe (head : addr) (body : addr → B → M S (A + B)) (b : B)
    : M S (A + B) :=
  fuel ← gets (λ s, Datatypes.S (size (cells_of s)));
  pos ← load_next head;
  tmp ← load_next pos;
  foreach_safe_loop fuel head pos tmp body b.

(** What a traversal computes when its body only reads: a fold that can stop early. *)
Fixpoint fold_until (f : addr → B → A + B) (xs : list addr) (b : B) : A + B :=
  match xs with
  | [] => inr b
  | x :: xs => match f x b with inl a => inl a | inr b' => fold_until f xs b' end
  end.
End foreach.

(** ** The representation predicate *)

Definition nxt (c : cells) (a : addr) : option addr := next <$> c !! a.
Definition prv (c : cells) (a : addr) : option addr := prev <$> c !! a.

(** Every node of the path [l] points to its successor and back. *)
Fixpoint linked (c : cells) (l : list addr) : Prop :=
  match l with
  | a :: (b :: _) as l' => nxt c a = Some b ∧ prv c b = Some a ∧ linked c l'
  | _ => True
  end.

(** The heap stores the sequence [xs] in the ring through [head]. *)
Definition ring (c : cells) (head : addr) (xs : list addr) : Prop :=
  NoDup (head :: xs) ∧ (0%N ∉ head :: xs) ∧ linked c (head :: xs ++ [head]).

(** The first node of a suffix of the ring, [head] when the suffix is empty. *)
Definition first (head : addr) (xs : list addr) : addr := default head (hd_error xs).

(** ** Lemmas *)

Lemma set_next_spec c a v :
  a ≠ 0%N → is_Some (c !! a) →
  ∃ c', set_next a v c = Done tt c' ∧ dom c' = dom c ∧
    (∀ x, nxt c' x = if decide (x = a) then Some v else nxt c x) ∧
    (∀ x, prv c' x = prv c x).
Proof.
  intros Ha [n Hn]. exists (<[a := ListT (prev n) v]> c).
  unfold set_next, deref, mbind, M_bind, modify, nxt, prv. simpl.
  rewrite decide_False, Hn by done. split_and!; [done| |intros x..].
  - rewrite dom_insert_lookup_L by eauto. done.
  - rewrite lookup_insert. case_decide; subst; [by rewrite decide_True by done|].
    by rewrite decide_False by done.
  - rewrite lookup_insert. case_decide; subst; [by rewrite Hn|done].
Qed.

Lemma set_prev_spec c a v :
  a ≠ 0%N → is_Some (c !! a) →
  ∃ c', set_prev a v c = Done tt c' ∧ dom c' = dom c ∧
    (∀ x, nxt c' x = nxt c x) ∧
    (∀ x, prv c' x = if decide (x = a) then Some v else prv c x).
Proof.
  intros Ha [n Hn]. exists (<[a := ListT v (next n)]> c).
  unfold set_prev, deref, mbind, M_bind, modify, nxt, prv. simpl.
  rewrite decide_False, Hn by done. split_and!; [done| |intros x..].
  - rewrite dom_insert_lookup_L by eauto. done.
  - rewrite lookup_insert. case_decide; subst; [by rewrite Hn|done].
  - rewrite lookup_insert. case_decide; subst; [by rewrite decide_True by done|].
    by rewrite decide_False by done.
Qed.

Lemma in_dom_nxt c a : is_Some (c !! a) ↔ is_Some (nxt c a).
Proof. unfold nxt. by rewrite fmap_is_Some. Qed.
Lemma in_dom_prv c a : is_Some (c !! a) ↔ is_Some (prv c a).
Proof. unfold prv. by rewrite fmap_is_Some. Qed.
Lemma dom_is_Some (c c' : cells) a : dom c' = dom c → is_Some (c !! a) → is_Some (c' !! a).
Proof. intros E. by rewrite <- !elem_of_dom, E. Qed.

(** Read a link through the assignments that produced its heap. *)
Ltac chase_links :=
  intros;
  repeat match goal with
  | H : ∀ x, nxt ?c x = _ |- context [nxt ?c _] => rewrite !H
  | H : ∀ x, prv ?c x = _ |- context [prv ?c _] => rewrite !H
  | |- context [decide _] => case_decide
  end; congruence.

Lemma get_next_spec c a b : a ≠ 0%N → nxt c a = Some b → get_next a c = Done b c.
Proof.
  intros Ha. unfold get_next, deref, nxt, mbind, M_bind. rewrite decide_False by done.
  simpl. destruct (c !! a); naive_solver.
Qed.
Lemma get_prev_spec c a b : a ≠ 0%N → prv c a = Some b → get_prev a c = Done b c.
Proof.
  intros Ha. unfold get_prev, deref, prv, mbind, M_bind. rewrite decide_False by done.
  simpl. destruct (c !! a); naive_solver.
Qed.

Lemma listelm_add_spec c le p n :
  le ≠ 0%N → p ≠ 0%N → n ≠ 0%N → le ≠ p → le ≠ n →
  is_Some (c !! le) → is_Some (c !! p) → is_Some (c !! n) →
  ∃ c', listelm_add le p n c = Done LIST_SUCCESS c' ∧ dom c' = dom c ∧
    nxt c' p = Some le ∧ prv c' le = Some p ∧ nxt c' le = Some n ∧ prv c' n = Some le ∧
    (∀ x, x ≠ p → x ≠ le → nxt c' x = nxt c x) ∧
    (∀ x, x ≠ n → x ≠ le → prv c' x = prv c x).
Proof.
  intros Hle Hp Hn Hlp Hln Dle Dp Dn.
  unfold listelm_add, mbind, M_bind.
  destruct (set_next_spec c p le) as (c1 & -> & E1 & N1 & P1); [done..|].
  destruct (set_prev_spec c1 le p) as (c2 & -> & E2 & N2 & P2);
    [done|by eapply dom_is_Some|].
  destruct (set_next_spec c2 le n) as (c3 & -> & E3 & N3 & P3);
    [done|eapply dom_is_Some; [|done]; congruence|].
  destruct (set_prev_spec c3 n le) as (c4 & -> & E4 & N4 & P4);
    [done|eapply dom_is_Some; [|done]; congruence|].
  exists c4. split; [done|]. split; [congruence|].
  split_and!; chase_links.
Qed.

Lemma list_detach_spec c le p n :
  le ≠ 0%N → p ≠ 0%N → n ≠ 0%N → le ≠ p → le ≠ n →
  prv c le = Some p → nxt c le = Some n →
  is_Some (c !! p) → is_Some (c !! n) →
  ∃ c', list_detach le c = Done LIST_SUCCESS c' ∧ dom c' = dom c ∧
    nxt c' p = Some n ∧ prv c' n = Some p ∧ c' !! le = Some (ListT NULL NULL) ∧
    (∀ x, x ≠ p → x ≠ le → nxt c' x = nxt c x) ∧
    (∀ x, x ≠ n → x ≠ le → prv c' x = prv c x).
Proof.
  intros Hle Hp Hn Hlp Hln Ep En Dp Dn.
  assert (is_Some (c !! le)) as Dle by (apply in_dom_nxt; eauto).
  unfold list_detach. rewrite decide_False by done.
  rewrite (bind_done _ _ _ _ _ (get_prev_spec c le p Hle Ep)).
  rewrite (bind_done _ _ _ _ _ (get_next_spec c le n Hle En)).
  unfold listelm_detach, mbind, M_bind.
  destruct (set_prev_spec c n p) as (c1 & -> & E1 & N1 & P1); [done..|].
  destruct (set_next_spec c1 p n) as (c2 & -> & E2 & N2 & P2);
    [done|by eapply dom_is_Some|]. simpl.
  destruct (set_prev_spec c2 le NULL) as (c3 & -> & E3 & N3 & P3);
    [done|eapply dom_is_Some; [|done]; congruence|].
  destruct (set_next_spec c3 le NULL) as (c4 & -> & E4 & N4 & P4);
    [done|eapply dom_is_Some; [|done]; congruence|].
  exists c4. split; [done|]. split; [congruence|].
  assert (nxt c4 le = Some 0%N ∧ prv c4 le = Some 0%N) as [X Y].
  { split; chase_links. }
  assert (c4 !! le = Some (ListT NULL NULL)) as Z.
  { unfold nxt, prv in X, Y. destruct (c4 !! le) as [[]|]; naive_solver. }
  clear X Y. split_and!; [| |done|..]; chase_links.
Qed.

Lemma linked_app c l1 a b l2 :
  linked c (l1 ++ a :: b :: l2) ↔
  linked c (l1 ++ [a]) ∧ nxt c a = Some b ∧ prv c b = Some a ∧ linked c (b :: l2).
Proof.
  induction l1 as [|x l1 IH]; simpl; [naive_solver|].
  destruct l1 as [|y l1]; simpl in *; [naive_solver|]. rewrite IH. naive_solver.
Qed.

(** A path survives changes to links that are not its own. *)
Lemma linked_frame c c' l :
  (∀ x, x ∈ removelast l → nxt c' x = nxt c x) →
  (∀ y, y ∈ tail l → prv c' y = prv c y) →
  linked c l → linked c' l.
Proof.
  induction l as [|a [|b l] IH]; [done..|].
  intros Hn Hp (Ea & Eb & Hl). split_and!.
  - rewrite Hn; [done|]. simpl. set_solver.
  - rewrite Hp; [done|]. simpl. set_solver.
  - apply IH; [..|done].
    + intros x Hx. apply Hn. change (x ∈ a :: removelast (b :: l)). set_solver.
    + intros y Hy. apply Hp. simpl in *. set_solver.
Qed.

Lemma lookup_links (c c' : cells) x :
  nxt c' x = nxt c x → prv c' x = prv c x → c' !! x = c !! x.
Proof.
  unfold nxt, prv. destruct (c !! x) as [[]|], (c' !! x) as [[]|]; naive_solver.
Qed.

Lemma ring_dom c head xs x : ring c head xs → x ∈ head :: xs → is_Some (c !! x).
Proof.
  intros (_ & _ & Hl) Hx. apply in_dom_nxt. apply list_elem_of_split in Hx as (l1 & l2 & E).
  change (head :: xs ++ [head]) with ((head :: xs) ++ [head]) in Hl. rewrite E in Hl.
  destruct l2 as [|y l2]; rewrite <- app_assoc in Hl; simpl in Hl;
    apply linked_app in Hl; naive_solver.
Qed.

(** The neighbours of a node of the ring, as a split of the closed path. *)
Lemma ring_split c head xs l1 p n l2 :
  ring c head xs → head :: xs ++ [head] = l1 ++ p :: n :: l2 →
  nxt c p = Some n ∧ prv c n = Some p ∧ p ∈ head :: xs ∧ n ∈ head :: xs ∧
  p ∉ l1 ∧ n ∉ l2 ∧ p ∉ removelast (n :: l2) ∧ n ∉ tail (l1 ++ [p]).
Proof.
  intros (Hnd & _ & Hl) E. rewrite E in Hl. apply linked_app in Hl as (_ & ? & ? & _).
  assert (head :: xs = l1 ++ p :: removelast (n :: l2)) as E1.
  { change (head :: xs ++ [head]) with ((head :: xs) ++ [head]) in E.
    apply (f_equal (@removelast _)) in E.
    rewrite removelast_last, removelast_app in E by done. exact E. }
  assert (xs ++ [head] = tail (l1 ++ [p]) ++ n :: l2) as E2.
  { apply (f_equal (@tail _)) in E. simpl in E. rewrite E. destruct l1; simpl; [done|].
    by rewrite <- app_assoc. }
  assert (NoDup (xs ++ [head])) as Hnd2.
  { rewrite Permutation_app_comm. exact Hnd. }
  rewrite E1 in Hnd. rewrite E2 in Hnd2.
  apply NoDup_app in Hnd as (_ & Hd & Hnd). apply NoDup_cons in Hnd as [Hp _].
  apply NoDup_app in Hnd2 as (_ & Hd2 & Hnd2). apply NoDup_cons in Hnd2 as [Hn _].
  split_and!; try done.
  - rewrite E1. set_solver.
  - assert (n ∈ xs ++ [head]) by (rewrite E2; set_solver). set_solver.
  - intros Hin. apply (Hd p Hin). set_solver.
  - intros Hin. apply (Hd2 n Hin). set_solver.
Qed.

Lemma linked_insert c c' l1 p le n l2 :
  linked c (l1 ++ p :: n :: l2) →
  p ∉ l1 → n ∉ l2 → p ∉ removelast (n :: l2) → n ∉ tail (l1 ++ [p]) → le ∉ l1 ++ p :: n :: l2 →
  nxt c' p = Some le → prv c' le = Some p → nxt c' le = Some n → prv c' n = Some le →
  (∀ x, x ≠ p → x ≠ le → nxt c' x = nxt c x) →
  (∀ x, x ≠ n → x ≠ le → prv c' x = prv c x) →
  linked c' (l1 ++ p :: le :: n :: l2).
Proof.
  intros Hl Hp1 Hn2 Hp2 Hn1 Hle ???? HN HP.
  apply linked_app in Hl as (Hl1 & _ & _ & Hl2).
  apply linked_app. split_and!; try done.
  - eapply linked_frame; [..|exact Hl1]; intros x Hx.
    + rewrite removelast_last in Hx. apply HN; set_solver.
    + apply HP; [set_solver|]. intros ->. apply Hle. destruct l1; set_solver.
  - cut (linked c' (n :: l2)); [done|].
    eapply linked_frame; [..|exact Hl2]; intros x Hx.
    + apply HN; [set_solver|]. intros ->. apply Hle.
      assert (le ∈ n :: l2); [|set_solver].
      clear -Hx. induction (n :: l2) as [|a [|b l] IH]; simpl in *; set_solver.
    + apply HP; set_solver.
Qed.

Lemma linked_remove c c' l1 p le n l2 :
  linked c (l1 ++ p :: le :: n :: l2) →
  p ∉ l1 → n ∉ l2 → p ∉ removelast (n :: l2) → n ∉ tail (l1 ++ [p]) →
  le ∉ l1 ++ [p] → le ∉ n :: l2 →
  nxt c' p = Some n → prv c' n = Some p →
  (∀ x, x ≠ p → x ≠ le → nxt c' x = nxt c x) →
  (∀ x, x ≠ n → x ≠ le → prv c' x = prv c x) →
  linked c' (l1 ++ p :: n :: l2).
Proof.
  intros Hl Hp1 Hn2 Hp2 Hn1 Hle1 Hle2 ?? HN HP.
  apply linked_app in Hl as (Hl1 & _ & _ & _ & _ & Hl2).
  apply linked_app. split_and!; try done.
  - eapply linked_frame; [..|exact Hl1]; intros x Hx.
    + rewrite removelast_last in Hx. apply HN; set_solver.
    + apply HP; [set_solver|]. intros ->. apply Hle1. destruct l1; set_solver.
  - eapply linked_frame; [..|exact Hl2]; intros x Hx.
    + apply HN; [set_solver|]. intros ->. apply Hle2.
      clear -Hx. induction (n :: l2) as [|a [|b l] IH]; simpl in *; set_solver.
    + apply HP; set_solver.
Qed.

Lemma NoDup_swap_head {A} (x y : A) l : NoDup (x :: l) → y ∉ x :: l → NoDup (x :: y :: l).
Proof. rewrite !NoDup_cons, !not_elem_of_cons. naive_solver. Qed.

(** A ring survives changes to cells that are not its own. *)
Lemma ring_frame c c' head xs :
  ring c head xs → (∀ x, x ∈ head :: xs → c' !! x = c !! x) → ring c' head xs.
Proof.
  intros (Hnd & H0 & Hl) Hc. split_and!; [done..|].
  change (head :: xs ++ [head]) with ((head :: xs) ++ [head]) in *.
  eapply linked_frame; [..|exact Hl]; intros x Hx; unfold nxt, prv; rewrite Hc; try done.
  - by rewrite removelast_last in Hx.
  - simpl in Hx. set_solver +Hx.
Qed.

(** [list_add] puts the node in front of the sequence. *)
Lemma list_add_ring c head xs le :
  ring c head xs → le ∉ head :: xs → le ≠ 0%N → is_Some (c !! le) →
  ∃ c', list_add head le c = Done LIST_SUCCESS c' ∧ ring c' head (le :: xs) ∧
    dom c' = dom c ∧ (∀ x, x ∉ le :: head :: xs → c' !! x = c !! x).
Proof.
  intros Hr Hle Hle0 Dle. pose proof Hr as (Hnd & H0 & Hl).
  assert (∃ n l2, xs ++ [head] = n :: l2) as (n & l2 & E0) by (destruct xs; simpl; eauto).
  assert (head :: xs ++ [head] = [] ++ head :: n :: l2) as E by by rewrite E0.
  destruct (ring_split _ _ _ _ _ _ _ Hr E) as (En & Ep & Ih & In & Hs).
  assert (head ≠ 0%N) by set_solver +H0. assert (n ≠ 0%N) by set_solver +H0 In.
  destruct (listelm_add_spec c le head n) as (c' & Eq & Ed & A1 & A2 & A3 & A4 & FN & FP);
    [done|done|done|set_solver +Hle|intros ->; done|done|by eapply ring_dom..|].
  exists c'. split_and!; [..|done|].
  - unfold list_add. rewrite decide_False by naive_solver.
    rewrite (bind_done _ _ _ _ _ (get_next_spec c head n ltac:(done) En)).
    by rewrite (bind_done _ _ _ _ _ Eq).
  - split_and!; [by apply NoDup_swap_head|set_solver +H0 Hle0|].
    simpl. rewrite E0. rewrite E in Hl. change (linked c' ([] ++ head :: le :: n :: l2)). destruct Hs as (?&?&?&?).
    eapply linked_insert; try done. rewrite <- E. set_solver +Hle.
  - intros x Hx. apply lookup_links; [apply FN|apply FP]; set_solver +Hx In.
Qed.

(** [list_add_tail] puts the node behind the sequence. *)
Lemma list_add_tail_ring c head xs le :
  ring c head xs → le ∉ head :: xs → le ≠ 0%N → is_Some (c !! le) →
  ∃ c', list_add_tail head le c = Done LIST_SUCCESS c' ∧ ring c' head (xs ++ [le]) ∧
    dom c' = dom c ∧ (∀ x, x ∉ le :: head :: xs → c' !! x = c !! x).
Proof.
  intros Hr Hle Hle0 Dle. pose proof Hr as (Hnd & H0 & Hl).
  assert (∃ p l1, head :: xs = l1 ++ [p]) as (p & l1 & E0).
  { destruct (exists_last (l := head :: xs)) as (l1 & p & ?); [done|]. eauto. }
  assert (head :: xs ++ [head] = l1 ++ p :: head :: []) as E.
  { change (head :: xs ++ [head]) with ((head :: xs) ++ [head]).
    by rewrite E0, <- app_assoc. }
  destruct (ring_split _ _ _ _ _ _ _ Hr E) as (En & Ep & Ip & _ & Hs).
  assert (head ≠ 0%N) by set_solver +H0. assert (p ≠ 0%N) by set_solver +H0 Ip.
  destruct (listelm_add_spec c le p head) as (c' & Eq & Ed & A1 & A2 & A3 & A4 & FN & FP);
    [done|done|done|intros ->; done|set_solver +Hle|done|
     by eapply ring_dom|eapply ring_dom; [done|set_solver +]|].
  exists c'. split_and!; [..|done|].
  - unfold list_add_tail. rewrite decide_False by naive_solver.
    rewrite (bind_done _ _ _ _ _ (get_prev_spec c head p ltac:(done) Ep)).
    by rewrite (bind_done _ _ _ _ _ Eq).
  - split_and!.
    + change (head :: xs ++ [le]) with ((head :: xs) ++ [le]).
      rewrite Permutation_app_comm. simpl. by apply NoDup_cons.
    + set_solver +H0 Hle0.
    + change (head :: (xs ++ [le]) ++ [head]) with (((head :: xs) ++ [le]) ++ [head]).
      rewrite E0. rewrite <- !app_assoc. simpl. rewrite E in Hl. destruct Hs as (?&?&?&?).
      eapply linked_insert; try done. rewrite <- E. set_solver +Hle.
  - intros x Hx. apply lookup_links; [apply FN|apply FP]; set_solver +Hx Ip.
Qed.

(** [list_detach] takes the node out of the sequence and clears its links. *)
Lemma list_detach_ring c head xs1 le xs2 :
  ring c head (xs1 ++ le :: xs2) →
  ∃ c', list_detach le c = Done LIST_SUCCESS c' ∧ ring c' head (xs1 ++ xs2) ∧
    dom c' = dom c ∧ c' !! le = Some (ListT NULL NULL) ∧
    (∀ x, x ∉ head :: xs1 ++ le :: xs2 → c' !! x = c !! x).
Proof.
  intros Hr. pose proof Hr as (Hnd & H0 & Hl).
  assert (∃ p l1, head :: xs1 = l1 ++ [p]) as (p & l1 & E1).
  { destruct (exists_last (l := head :: xs1)) as (l1 & p & ?); [done|]. eauto. }
  assert (∃ n l2, xs2 ++ [head] = n :: l2) as (n & l2 & E2) by (destruct xs2; simpl; eauto).
  assert (head :: (xs1 ++ le :: xs2) ++ [head] = l1 ++ p :: le :: n :: l2) as E.
  { change (head :: (xs1 ++ le :: xs2) ++ [head]) with (((head :: xs1) ++ le :: xs2) ++ [head]).
    rewrite E1, <- !app_assoc. simpl. by rewrite E2. }
  assert (head :: (xs1 ++ xs2) ++ [head] = l1 ++ p :: n :: l2) as E'.
  { change (head :: (xs1 ++ xs2) ++ [head]) with (((head :: xs1) ++ xs2) ++ [head]).
    rewrite E1, <- !app_assoc. simpl. by rewrite E2. }
  destruct (ring_split _ _ _ _ _ _ _ Hr E) as (_ & Ep & Ip & Ile & Hp1 & Hle2 & Hp2 & Hle1).
  assert (head :: (xs1 ++ le :: xs2) ++ [head] = (l1 ++ [p]) ++ le :: n :: l2) as E''
    by by rewrite E, <- app_assoc.
  destruct (ring_split _ _ _ _ _ _ _ Hr E'') as (En & _ & _ & In & Hle1' & Hn2 & Hle2' & Hn1).
  assert (le ∉ head :: xs1 ++ xs2 ∧ NoDup (head :: xs1 ++ xs2)) as [Hle Hnd'].
  { change (NoDup ((head :: xs1) ++ le :: xs2)) in Hnd.
    change (le ∉ (head :: xs1) ++ xs2 ∧ NoDup ((head :: xs1) ++ xs2)).
    rewrite <- NoDup_cons. by rewrite Permutation_middle. }
  assert (le ∉ n :: l2) as Hle3.
  { rewrite <- E2. set_solver +Hle. }
  assert (le ≠ 0%N ∧ p ≠ 0%N ∧ n ≠ 0%N) as (?&?&?)
    by (split_and!; intros X; apply H0; rewrite <- X; assumption).
  destruct (list_detach_spec c le p n) as (c' & Eq & Ed & A1 & A2 & A3 & FN & FP);
    [done|done|done|intros ->; apply Hle1'; set_solver +|intros ->; apply Hle3; set_solver +|done|done|by eapply ring_dom..|].
  exists c'. split_and!; [done| |done|done|].
  - split_and!; [done|set_solver +H0|]. rewrite E'. rewrite E in Hl.
    eapply linked_remove; try done.
    + intros Hx. apply Hp2. change (p ∈ le :: removelast (n :: l2)). by right.
    + intros Hx. apply Hn1. destruct l1; simpl in *; set_solver +Hx.
  - intros x Hx. apply lookup_links; [apply FN|apply FP]; set_solver +Hx Ip In.
Qed.

(** ** The traversals *)

Lemma ring_first c head xs1 xs2 :
  ring c head (xs1 ++ xs2) →
  ∀ p, last (head :: xs1) = Some p → p ≠ 0%N ∧ nxt c p = Some (first head xs2).
Proof.
  intros Hr p Hp.
  apply last_Some in Hp as [l1 E].
  assert (head :: (xs1 ++ xs2) ++ [head] = l1 ++ p :: first head xs2 :: tail (xs2 ++ [head])) as E'.
  { change (head :: (xs1 ++ xs2) ++ [head]) with (((head :: xs1) ++ xs2) ++ [head]).
    rewrite E, <- !app_assoc. by destruct xs2. }
  destruct (ring_split _ _ _ _ _ _ _ Hr E') as (En & _ & Ip & _).
  split; [|done]. intros ->. by destruct Hr as (_ & ? & _).
Qed.

Lemma ring_size c head xs : ring c head xs → (length xs < size c)%nat.
Proof.
  intros Hr. pose proof Hr as (Hnd & _ & _).
  assert (list_to_set (head :: xs) ⊆ dom c) as Hsub.
  { intros x Hx. rewrite elem_of_list_to_set in Hx.
    apply elem_of_dom. by eapply ring_dom. }
  apply subseteq_size in Hsub.
  rewrite size_list_to_set in Hsub by done. rewrite size_dom in Hsub.
  simpl in Hsub. lia.
Qed.

Lemma load_next_done {S} (cells_of : S → cells) s a b :
  a ≠ 0%N → nxt (cells_of s) a = Some b → load_next cells_of a s = Done b s.
Proof.
  intros Ha. unfold load_next, deref, nxt, mbind, M_bind. rewrite decide_False by done.
  destruct (cells_of s !! a); naive_solver.
Qed.

Section foreach_rules.
Context {S A B : Type} (cells_of : S → cells).

Lemma foreach_loop_pure s head pre xs (body : addr → B → M S (A + B)) f fuel b :
  ring (cells_of s) head (pre ++ xs) → (length xs < fuel)%nat →
  (∀ x b, x ∈ xs → body x b s = Done (f x b) s) →
  foreach_loop cells_of fuel head (first head xs) body b s = Done (fold_until f xs b) s.
Proof.
  revert pre fuel b. induction xs as [|x xs IH]; intros pre [|fuel] b Hr Hf Hb;
    simpl in *; try lia.
  { by rewrite decide_True by done. }
  assert (x ≠ head) as Hne.
  { destruct Hr as (Hnd & _). apply NoDup_cons in Hnd as [Hnd _]. set_solver +Hnd. }
  rewrite decide_False by done.
  rewrite (bind_done _ _ _ _ _ (Hb x b ltac:(set_solver +))).
  destruct (f x b) as [a|b']; [reflexivity|].
  assert (ring (cells_of s) head ((pre ++ [x]) ++ xs)) as Hr'
    by by rewrite <- app_assoc.
  destruct (ring_first _ _ _ _ Hr' x) as [Hx0 Hnx].
  { rewrite app_comm_cons. apply last_snoc. }
  rewrite (bind_done _ _ _ _ _ (load_next_done _ _ _ _ Hx0 Hnx)).
  eapply IH; [done|lia|]. intros; apply Hb. set_solver.
Qed.

(** A reading traversal visits the sequence in order, each node once. *)
Lemma list_foreach_pure s head xs (body : addr → B → M S (A + B)) f b :
  ring (cells_of s) head xs →
  (∀ x b, x ∈ xs → body x b s = Done (f x b) s) →
  list_foreach cells_of head body b s = Done (fold_until f xs b) s.
Proof.
  intros Hr Hb. unfold list_foreach.
  destruct (ring_first _ _ [] xs Hr head) as [H0 Hn]; [done|].
  rewrite (bind_done _ _ s (Datatypes.S (size (cells_of s))) s) by done.
  rewrite (bind_done _ _ _ _ _ (load_next_done _ _ _ _ H0 Hn)).
  apply foreach_loop_pure with (pre := []); [done| |done].
  pose proof (ring_size _ _ _ Hr). lia.
Qed.

Lemma wp_foreach_safe_loop {E} head xs (body : addr → B → M S (A + B))
    (I : list addr → B → S → Prop) (Q : A + B → S → Prop) fuel b s :
  (∀ rem b s, I rem b s → ∃ pre, ring (cells_of s) head (pre ++ rem)) →
  (∀ x rem b s, I (x :: rem) b s →
     wpx E (body x b) s (λ r s', match r with inl a => Q (inl a) s' | inr b' => I rem b' s' end)) →
  (∀ b s, I [] b s → Q (inr b) s) →
  I xs b s → (length xs < fuel)%nat →
  ∀ t, (xs = [] ∨ t = first head (tail xs)) →
  wpx E (foreach_safe_loop cells_of fuel head (first head xs) t body b) s Q.
Proof.
  intros HI Hstep Hend. revert fuel b s.
  induction xs as [|x xs IH]; intros [|fuel] b s HIx Hf t Ht; simpl in *; try lia.
  { rewrite decide_True by done. by apply Hend. }
  destruct Ht as [?| ->]; [done|].
  destruct (HI _ _ _ HIx) as (pre & Hr).
  assert (x ≠ head) as Hne.
  { destruct Hr as (Hnd & _). apply NoDup_cons in Hnd as [Hnd _]. set_solver +Hnd. }
  rewrite decide_False by done. apply wp_bind.
  eapply wp_mono; [by apply Hstep|]. intros [a|b'] s' HQ; [done|].
  destruct (HI _ _ _ HQ) as (pre' & Hr').
  assert (∃ y, first head xs ≠ 0%N ∧ nxt (cells_of s') (first head xs) = Some y ∧
            (xs = [] ∨ y = first head (tail xs))) as (y & H0 & Hy & Hy').
  { destruct xs as [|z xs]; simpl.
    - rewrite app_nil_r in Hr'.
      destruct (ring_first _ _ [] pre' Hr' head) as [? ?]; [done|]. eauto 6.
    - change (z :: xs) with ([z] ++ xs) in Hr'. rewrite app_assoc in Hr'.
      destruct (ring_first _ _ _ _ Hr' z) as [? ?]; [|eauto 6].
      rewrite app_comm_cons. apply last_snoc. }
  apply wp_bind. eapply wp_done; [by apply load_next_done|].
  apply IH; [done|lia|done].
Qed.

(** The safe traversal: the body may detach and free the node it is given. *)
Lemma wp_list_foreach_safe {E} head xs (body : addr → B → M S (A + B))
    (I : list addr → B → S → Prop) (Q : A + B → S → Prop) b s :
  (∀ rem b s, I rem b s → ∃ pre, ring (cells_of s) head (pre ++ rem)) →
  (∀ x rem b s, I (x :: rem) b s →
     wpx E (body x b) s (λ r s', match r with inl a => Q (inl a) s' | inr b' => I rem b' s' end)) →
  (∀ b s, I [] b s → Q (inr b) s) →
  ring (cells_of s) head xs → I xs b s →
  wpx E (list_foreach_safe cells_of head body b) s Q.
Proof.
  intros HI Hstep Hend Hr HIx. unfold list_foreach_safe.
  apply wp_bind, wp_gets, wp_bind.
  destruct (ring_first _ _ [] xs Hr head) as [H0 Hn]; [done|].
  eapply wp_done; [by apply load_next_done|]. apply wp_bind.
  pose proof (ring_size _ _ _ Hr) as Hsz.
  assert (∃ y, first head xs ≠ 0%N ∧ nxt (cells_of s) (first head xs) = Some y ∧
            (xs = [] ∨ y = first head (tail xs))) as (y & H0' & Hy & Hy').
  { destruct xs as [|z xs]; simpl; [eauto 6|].
    destruct (ring_first _ _ [z] xs Hr z) as [? ?]; [done|]. eauto 6. }
  eapply wp_done; [by apply load_next_done|].
  eapply wp_foreach_safe_loop; try done. lia.
Qed.
End foreach_rules.

(** ** Sequences of operations

    The abstract list is the sequence of its nodes.  A node can be added when it is not in
    the list, and detached when it is. *)
Inductive list_op := Add (a : addr) | AddTail (a : addr) | Detach (a : addr).

Definition exec_op (head : addr) (op : list_op) : M cells Z :=
  match op with
  | Add a => list_add head a
  | AddTail a => list_add_tail head a
  | Detach a => list_detach a
  end.

Fixpoint exec_ops (head : addr) (ops : list list_op) : M cells Z :=
  match ops with
  | [] => mret LIST_SUCCESS
  | op :: ops => _ ← exec_op head op; exec_ops head ops
  end.

Definition spec_op (head : addr) (op : list_op) (xs : list addr) : option (list addr) :=
  match op with
  | Add a => if decide (a ∈ NULL :: head :: xs) then None else Some (a :: xs)
  | AddTail a => if decide (a ∈ NULL :: head :: xs) then None else Some (xs ++ [a])
  | Detach a => if decide (a ∈ xs) then Some (filter (λ x, x ≠ a) xs) else None
  end.

Fixpoint spec_ops (head : addr) (ops : list list_op) (xs : list addr) : option (list addr) :=
  match ops with
  | [] => Some xs
  | op :: ops => ys ← spec_op head op xs; spec_ops head ops ys
  end.

Definition op_node (op : list_op) : addr :=
  match op with Add a | AddTail a | Detach a => a end.

Lemma filter_detached (a : addr) l1 l2 :
  NoDup (l1 ++ a :: l2) → filter (λ x, x ≠ a) (l1 ++ a :: l2) = l1 ++ l2.
Proof.
  intros Hnd. rewrite <- Permutation_middle in Hnd. apply NoDup_cons in Hnd as [Ha _].
  rewrite filter_app, filter_cons_False by tauto.
  rewrite not_elem_of_app in Ha. destruct Ha as [Ha1 Ha2].
  assert (∀ l : list addr, a ∉ l → filter (λ x, x ≠ a) l = l) as Hid.
  { induction l as [|x l IH]; [done|]. intros [Hx Hl]%not_elem_of_cons.
    rewrite filter_cons_True by congruence. by rewrite IH. }
  by rewrite !Hid.
Qed.

Lemma exec_op_refines head op c xs ys :
  ring c head xs → is_Some (c !! op_node op) → spec_op head op xs = Some ys →
  ∃ c', exec_op head op c = Done LIST_SUCCESS c' ∧ ring c' head ys ∧ dom c' = dom c.
Proof.
  intros Hr Hc Hs. destruct op as [a|a|a]; simpl in *; case_decide as D; try done;
    injection Hs as <-.
  - apply not_elem_of_cons in D as [Ha0 Ha].
    destruct (list_add_ring _ _ _ _ Hr Ha Ha0 Hc) as (c' & ? & ? & ? & _). eauto.
  - apply not_elem_of_cons in D as [Ha0 Ha].
    destruct (list_add_tail_ring _ _ _ _ Hr Ha Ha0 Hc) as (c' & ? & ? & ? & _). eauto.
  - apply list_elem_of_split in D as (l1 & l2 & ->).
    destruct (list_detach_ring _ _ _ _ _ Hr) as (c' & ? & ? & ? & _).
    destruct Hr as (Hnd & _). apply NoDup_cons in Hnd as [_ Hnd].
    rewrite filter_detached by done. eauto.
Qed.

(** C4. The three list operations implement a sequence: whatever operations are run on a
    well-formed ring, as long as the abstract list allows them, they succeed and leave a
    ring of the abstract result, on the same cells. *)
Theorem list_refines_sequence head ops c xs ys :
  ring c head xs → Forall (λ op, is_Some (c !! op_node op)) ops →
  spec_ops head ops xs = Some ys →
  ∃ c', exec_ops head ops c = Done LIST_SUCCESS c' ∧ ring c' head ys ∧ dom c' = dom c.
Proof.
  revert c xs. induction ops as [|op ops IH]; intros c xs Hr Hops Hs.
  { injection Hs as <-. by exists c. }
  apply Forall_cons in Hops as [Hop Hops]. simpl in Hs.
  apply bind_Some in Hs as (zs & Hz & Hs).
  destruct (exec_op_refines _ _ _ _ _ Hr Hop Hz) as (c1 & E1 & Hr1 & Hd1).
  destruct (IH c1 zs Hr1) as (c2 & E2 & Hr2 & Hd2); [|done|].
  { eapply Forall_impl; [exact Hops|]. intros o Ho. apply elem_of_dom. rewrite Hd1.
    by apply elem_of_dom. }
  exists c2. simpl. rewrite (bind_done _ _ _ _ _ E1). split_and!; [done..|congruence].
Qed.

Definition demo_cells : cells :=
  list_to_map [(1%N, ListT 1 1); (2%N, ListT NULL NULL); (3%N, ListT NULL NULL)].

Lemma list_refines_sequence_witness :
  ∃ c', exec_ops 1 [Add 2; AddTail 3; Detach 2; Add 2] demo_cells = Done LIST_SUCCESS c' ∧
    ring c' 1 [2; 3]%N ∧ dom c' = dom demo_cells.
Proof.
  apply (list_refines_sequence 1 [Add 2; AddTail 3; Detach 2; Add 2] demo_cells [] [2; 3]%N).
  - split; [by apply NoDup_singleton|]. split; [by intros ?%list_elem_of_singleton|].
    by vm_compute.
  - repeat constructor; vm_compute; eauto.
  - vm_compute. reflexivity.
Defined.

(** A node can be detached once: the second time its links are null, and following
    them faults. *)
Lemma list_detach_twice c head xs1 le xs2 c' :
  ring c head (xs1 ++ le :: xs2) → list_detach le c = Done LIST_SUCCESS c' →
  list_detach le c' = Stuck NullDeref.
Proof.
  intros Hr E. destruct (list_detach_ring _ _ _ _ _ Hr) as (c1 & E1 & _ & _ & Hle & _).
  assert (c1 = c') as -> by congruence.
  assert (le ≠ 0%N) as Hle0 by (destruct Hr as (_ & H0 & _); set_solver +H0).
  assert (∀ f : list_t → addr, (c0 ← deref id le; mret (f c0) : M cells addr) c' = Done (f (ListT NULL NULL)) c') as Hget.
  { intros f. unfold deref, mbind, M_bind. rewrite decide_False by done. simpl. by rewrite Hle. }
  unfold list_detach. rewrite decide_False by done.
  unfold get_prev. rewrite (bind_done _ _ _ _ _ (Hget prev)).
  unfold get_next. rewrite (bind_done _ _ _ _ _ (Hget next)). reflexivity.
Qed.

Lemma list_detach_twice_witness :
  ∃ c', list_detach 2 (default ∅ (match list_add 1 2 demo_cells with Done _ c => Some c | _ => None end))
      = Done LIST_SUCCESS c' ∧ list_detach 2 c' = Stuck NullDeref.
Proof.
  eexists. split; [vm_compute; reflexivity|].
  apply (list_detach_twice (default ∅ (match list_add 1 2 demo_cells with Done _ c => Some c | _ => None end))
    1 [] 2 []); [|vm_compute; reflexivity].
  split; [apply NoDup_cons; split; [by intros ?%list_elem_of_singleton|by apply NoDup_singleton]|].
  split; [|by vm_compute]. intros [?|?%list_elem_of_singleton]%elem_of_cons; done.
Defined.
