(* ===== verification/Double.v ===== *)
(** * IEEE 754 binary64

    The C++ type [double], with the operations and conversions the program uses.  The
    arithmetic is the executable specification of the Standard Library's [SpecFloat]
    at precision 53 and maximal exponent 1024, rounding to nearest even; no axioms are
    involved.  The functions of [<cmath>] whose results the C++ standard leaves to the
    implementation are the operations of the class [Libm]. *)
From Stdlib Require Import Floats.SpecFloat.
From S2P Require Import Prelude.
Open Scope Z_scope.

Definition double := spec_float.

#[global] Instance double_eq_dec : EqDecision double.
Proof. solve_decision. Defined.

Definition dadd : double → double → double := SFadd 53 1024.
Definition dsub : double → double → double := SFsub 53 1024.
Definition dmul : double → double → double := SFmul 53 1024.
Definition ddiv : double → double → double := SFdiv 53 1024.
Definition dsqrt : double → double := SFsqrt 53 1024.
Definition dopp : double → double := SFopp.
Definition fabs : double → double := SFabs.
Definition dlt : double → double → bool := SFltb.
Definition dle : double → double → bool := SFleb.
Definition deq : double → double → bool := SFeqb.

Declare Scope double_scope.
Delimit Scope double_scope with D.
Infix "+" := dadd : double_scope.
Infix "-" := dsub : double_scope.
Infix "*" := dmul : double_scope.
Infix "/" := ddiv : double_scope.
Infix "<?" := dlt : double_scope.
Infix "<=?" := dle : double_scope.
Infix "=?" := deq : double_scope.
Bind Scope double_scope with double.

(** The implicit conversion of an [int] to [double]. *)
Definition d_of_Z (z : Z) : double := binary_normalize 53 1024 z 0 false.

(** The decimal literal [m * 10^-k]; exact operands give the correctly rounded value. *)
Definition d_lit (m : Z) (k : Z) : double := ddiv (d_of_Z m) (d_of_Z (10 ^ k)).

Definition d_zero : double := S754_zero false.
Definition DBL_MAX : double := SFmax_float 53 1024.

Definition is_nan (x : double) : bool := match x with S754_nan => true | _ => false end.

(** The integral part, when there is one. *)
Definition dtrunc (x : double) : option Z :=
  match x with
  | S754_zero _ => Some 0
  | S754_finite s m e =>
      let a := if 0 <=? e then Z.pos m * 2 ^ e else Z.pos m / 2 ^ (- e) in
      Some (if s then - a else a)
  | _ => None
  end.

(** Conversions to integer types: [None] where the C++ standard leaves the behaviour
    undefined, because the truncated value is not a value of the type. *)
Definition d_to_u64 (x : double) : option Z :=
  z ← dtrunc x; if decide (0 ≤ z < 2 ^ 64) then Some z else None.
Definition d_to_s32 (x : double) : option Z :=
  z ← dtrunc x; if decide (- 2 ^ 31 ≤ z < 2 ^ 31) then Some z else None.

(** What [<cmath>] leaves to the implementation. *)
Class Libm := {
  cos : double → double;
  sin : double → double;
  acos : double → double;
  atan : double → double;
  atan2 : double → double → double;
}.

(** ** The order of doubles

    Every double but NaN has a key; the C++ comparisons compare keys lexicographically
    (signed zeros share one) and are false on NaN. *)
Definition dkey (x : double) : option (Z * Z * Z) :=
  match x with
  | S754_nan => None
  | S754_infinity true => Some (-2, 0, 0)
  | S754_infinity false => Some (2, 0, 0)
  | S754_zero _ => Some (0, 0, 0)
  | S754_finite false m e => Some (1, e, Z.pos m)
  | S754_finite true m e => Some (-1, - e, Z.neg m)
  end.

Definition klt (a b : Z * Z * Z) : Prop :=
  let '(a1, a2, a3) := a in let '(b1, b2, b3) := b in
  a1 < b1 ∨ (a1 = b1 ∧ (a2 < b2 ∨ (a2 = b2 ∧ a3 < b3))).

Lemma dkey_nan x : dkey x = None ↔ is_nan x = true.
Proof. by destruct x as [[]|[]| |[]]. Qed.

Definition dcmp (r : Z * Z * Z → Z * Z * Z → Prop) (x y : double) : Prop :=
  match dkey x, dkey y with Some a, Some b => r a b | _, _ => False end.

Lemma dlt_key x y : dlt x y = true ↔ dcmp klt x y.
Proof.
  unfold dlt, SFltb, dcmp.
  destruct x as [[]|[]| |[] m1 e1], y as [[]|[]| |[] m2 e2];
    simpl; try (split; [done|lia]); try (split; [intros _; lia|done]); try done.
  - change (Pos.compare_cont Eq m1 m2) with (Pos.compare m1 m2).
    destruct (Z.compare_spec e1 e2), (Pos.compare_spec m1 m2); simpl;
      split; intros; try done; lia.
  - change (Pos.compare_cont Eq m1 m2) with (Pos.compare m1 m2).
    destruct (Z.compare_spec e1 e2), (Pos.compare_spec m1 m2); simpl;
      split; intros; try done; lia.
Qed.

Lemma dle_key x y : dle x y = true ↔ dcmp (λ a b, ¬ klt b a) x y.
Proof.
  unfold dle, SFleb, dcmp.
  destruct x as [[]|[]| |[] m1 e1], y as [[]|[]| |[] m2 e2];
    simpl; try (split; [done|lia]); try (split; [intros _; lia|done]); try done.
  - change (Pos.compare_cont Eq m1 m2) with (Pos.compare m1 m2).
    destruct (Z.compare_spec e1 e2), (Pos.compare_spec m1 m2); simpl;
      split; intros; try done; lia.
  - change (Pos.compare_cont Eq m1 m2) with (Pos.compare m1 m2).
    destruct (Z.compare_spec e1 e2), (Pos.compare_spec m1 m2); simpl;
      split; intros; try done; lia.
Qed.

(** Decide a goal about comparisons of doubles from the order of their keys. *)
Ltac dorder :=
  intros;
  repeat match goal with
  | H : dlt _ _ = true |- _ => apply dlt_key in H
  | H : dle _ _ = true |- _ => apply dle_key in H
  | H : dlt _ _ = false |- _ => apply not_true_iff_false in H; rewrite dlt_key in H
  | H : dle _ _ = false |- _ => apply not_true_iff_false in H; rewrite dle_key in H
  | |- dlt _ _ = true => apply dlt_key
  | |- dle _ _ = true => apply dle_key
  | |- dlt _ _ = false => apply not_true_iff_false; rewrite dlt_key
  | |- dle _ _ = false => apply not_true_iff_false; rewrite dle_key
  | H : is_nan ?x = false |- _ =>
      apply not_true_iff_false in H; rewrite <- dkey_nan in H
  | |- is_nan ?x = false => apply not_true_iff_false; rewrite <- dkey_nan
  | |- _ ∧ _ => split
  end;
  unfold dcmp in *;
  repeat match goal with
  | |- context [dkey ?x] =>
      let k := fresh "k" in set (k := dkey x) in *; clearbody k; destruct k as [[[? ?] ?]|]
  | H : context [dkey ?x] |- _ =>
      let k := fresh "k" in set (k := dkey x) in *; clearbody k; destruct k as [[[? ?] ?]|]
  end; unfold klt in *; try done; try lia.

Lemma dlt_irrefl x : dlt x x = false.
Proof. dorder. Qed.
Lemma dlt_trans x y z : dlt x y = true → dlt y z = true → dlt x z = true.
Proof. dorder. Qed.
Lemma dlt_asym x y : dlt x y = true → dlt y x = false.
Proof. dorder. Qed.
Lemma dle_trans x y z : dle x y = true → dle y z = true → dle x z = true.
Proof. dorder. Qed.
Lemma dlt_dle x y : dlt x y = true → dle x y = true.
Proof. dorder. Qed.
Lemma dlt_dle_trans x y z : dlt x y = true → dle y z = true → dlt x z = true.
Proof. dorder. Qed.
Lemma dle_dlt_trans x y z : dle x y = true → dlt y z = true → dlt x z = true.
Proof. dorder. Qed.
Lemma dle_antilt x y : dle x y = true → dlt y x = false.
Proof. dorder. Qed.
Lemma dle_refl x : is_nan x = false → dle x x = true.
Proof. dorder. Qed.
Lemma dlt_false_dle x y :
  is_nan x = false → is_nan y = false → dlt x y = false → dle y x = true.
Proof. dorder. Qed.
Lemma dlt_not_nan x y : dlt x y = true → is_nan x = false ∧ is_nan y = false.
Proof. dorder. Qed.
Lemma deq_dle x y : deq x y = dle x y && dle y x.
Proof.
  unfold deq, dle, SFeqb, SFleb.
  destruct x as [[]|[]| |[] m1 e1], y as [[]|[]| |[] m2 e2]; try done; simpl;
    change (Pos.compare_cont Eq m1 m2) with (Pos.compare m1 m2);
    change (Pos.compare_cont Eq m2 m1) with (Pos.compare m2 m1);
    rewrite (Z.compare_antisym e1 e2), (Pos.compare_antisym m1 m2);
    by destruct (Z.compare e1 e2), (Pos.compare m1 m2).
Qed.
Lemma dlt_nan_l x y : is_nan x = true → dlt x y = false.
Proof. by destruct x. Qed.

(** No absolute value is below a non-positive number. *)
Lemma fabs_nonneg x y : dlt y d_zero = true → dlt (fabs x) y = false.
Proof.
  intros Hy. rewrite dlt_key in Hy. apply not_true_iff_false. rewrite dlt_key.
  unfold dcmp in *. destruct x as [[]|[]| |[] m1 e1], y as [[]|[]| |[] m2 e2];
    simpl in *; lia.
Qed.

Lemma fabs_nan x : is_nan (fabs x) = is_nan x.
Proof. by destruct x. Qed.

#[export] Hint Resolve dlt_trans dle_trans dlt_dle dlt_dle_trans dle_dlt_trans : geosvr.

(** The largest finite double is above every finite double the format holds. *)
Definition valid (x : double) : bool := valid_binary 53 1024 x.

Example d_lit_third : ddiv (d_of_Z 1) (d_of_Z 3) = S754_finite false 6004799503160661 (-54).
Proof. vm_compute. reflexivity. Qed.
Example d_lit_pi : d_lit 31415926 7 = S754_finite false 7074237631354954 (-51).
Proof. vm_compute. reflexivity. Qed.
Example d_trunc_neg : dtrunc (d_lit (-75) 1) = Some (-7).
Proof. vm_compute. reflexivity. Qed.

(** ** The type [float]

    IEEE 754 binary32, as it is stored in packets: conversions only. *)
Definition float := spec_float.

Definition resize (prec emax : Z) (x : spec_float) : spec_float :=
  match x with
  | S754_finite s m e => binary_normalize prec emax (if s then Z.neg m else Z.pos m) e s
  | _ => x
  end.
Definition f_of_d : double → float := resize 24 128.
Definition d_of_f : float → double := resize 53 1024.
Definition f_of_Z (z : Z) : float := binary_normalize 24 128 z 0 false.

(** ** Integers are exact

    An integer with at most [prec] binary digits is represented exactly, with a mantissa
    of exactly [prec] digits. *)
Lemma digits2_pos_bounds m :
  2 ^ (Z.pos (digits2_pos m) - 1) ≤ Z.pos m < 2 ^ Z.pos (digits2_pos m).
Proof.
  induction m as [m IH|m IH|]; simpl digits2_pos; [| |done];
    rewrite Pos2Z.inj_succ;
    replace (Z.succ (Z.pos (digits2_pos m)) - 1) with (Z.succ (Z.pos (digits2_pos m) - 1)) by lia;
    rewrite !Z.pow_succ_r by lia; lia.
Qed.

Lemma digits2_shift m k : Z.pos (digits2_pos (Pos.iter xO m k)) = Z.pos (digits2_pos m) + Z.pos k.
Proof.
  induction k as [|k IH] using Pos.peano_ind; [simpl; lia|].
  rewrite Pos.iter_succ. cbn [digits2_pos]. lia.
Qed.

Lemma shift_value m k : Z.pos (Pos.iter xO m k) = Z.pos m * 2 ^ Z.pos k.
Proof.
  induction k as [|k IH] using Pos.peano_ind; [simpl; lia|].
  rewrite Pos.iter_succ, Pos2Z.inj_xO, IH, Pos2Z.inj_succ, Z.pow_succ_r by lia. lia.
Qed.

Lemma round_full prec emax s m e :
  Z.pos (digits2_pos m) = prec → emin prec emax ≤ e ≤ emax - prec →
  binary_round_aux prec emax s (Z.pos m) e loc_Exact = S754_finite s m e.
Proof.
  intros Hd He. unfold binary_round_aux, shr_fexp. cbn [Zdigits2 shr_record_of_loc].
  assert (fexp prec emax (Z.pos (digits2_pos m) + e) - e = 0) as E by (unfold fexp; lia).
  rewrite E. cbn. rewrite E. cbn. by rewrite (proj2 (Z.leb_le _ _)) by lia.
Qed.

Lemma binary_round_exact prec emax s m e :
  let e' := Z.pos (digits2_pos m) + e - prec in
  e' ≤ e → emin prec emax ≤ e' → e' ≤ emax - prec →
  ∃ m', binary_round prec emax s m e = S754_finite s m' e' ∧
    Z.pos m' = Z.pos m * 2 ^ (prec - Z.pos (digits2_pos m)).
Proof.
  intros e' H1 H2 H3. unfold binary_round.
  assert (fexp prec emax (Z.pos (digits2_pos m) + e) = e') as -> by (unfold fexp; lia).
  unfold shl_align. destruct (e' - e) as [|d|d] eqn:E.
  - exists m. replace e with e' by lia. rewrite round_full by lia. split; [done|].
    replace (prec - _) with 0 by lia. lia.
  - lia.
  - exists (Pos.iter xO m d). rewrite round_full by (rewrite ?digits2_shift; lia). split; [done|].
    rewrite shift_value. f_equal. f_equal. lia.
Qed.

(** What [d_of_Z] makes of an integer of at most 53 digits. *)
Definition exactly (x : double) (z : Z) : Prop :=
  match z with
  | 0 => x = S754_zero false
  | Z.pos m | Z.neg m => ∃ m' , x = S754_finite (z <? 0) m' (Z.pos (digits2_pos m) - 53) ∧
      Z.pos m' = Z.pos m * 2 ^ (53 - Z.pos (digits2_pos m))
  end.

Lemma digits2_le m n : 0 ≤ n → Z.pos m < 2 ^ n → Z.pos (digits2_pos m) ≤ n.
Proof.
  intros Hn Hm. pose proof (digits2_pos_bounds m) as [Hl _].
  destruct (decide (Z.pos (digits2_pos m) ≤ n)); [done|].
  assert (2 ^ n ≤ 2 ^ (Z.pos (digits2_pos m) - 1)) by (apply Z.pow_le_mono_r; lia). lia.
Qed.

Lemma d_of_Z_exactly z : Z.abs z < 2 ^ 53 → exactly (d_of_Z z) z.
Proof.
  assert (∀ s m, Z.pos m < 2 ^ 53 → ∃ m', binary_round 53 1024 s m 0 =
    S754_finite s m' (Z.pos (digits2_pos m) - 53) ∧ Z.pos m' = Z.pos m * 2 ^ (53 - Z.pos (digits2_pos m))) as Hr.
  { intros s m Hm. assert (Z.pos (digits2_pos m) ≤ 53) by (apply digits2_le; lia).
    destruct (binary_round_exact 53 1024 s m 0) as (m' & E & Em); [lia|unfold emin; lia|lia|].
    exists m'. split; [|done]. by rewrite E. }
  intros Hz. unfold d_of_Z. destruct z as [|m|m]; [done| |]; apply Hr; lia.
Qed.

(** The order of exact integers. *)
Lemma mantissa_order m1 m2 n1 n2 :
  Z.pos n1 = Z.pos m1 * 2 ^ (53 - Z.pos (digits2_pos m1)) →
  Z.pos n2 = Z.pos m2 * 2 ^ (53 - Z.pos (digits2_pos m2)) →
  klt (1, Z.pos (digits2_pos m1) - 53, Z.pos n1) (1, Z.pos (digits2_pos m2) - 53, Z.pos n2) ↔ Z.pos m1 < Z.pos m2.
Proof.
  intros E1 E2. pose proof (digits2_pos_bounds m1) as [L1 U1]. pose proof (digits2_pos_bounds m2) as [L2 U2].
  set (d1 := Z.pos (digits2_pos m1)) in *. set (d2 := Z.pos (digits2_pos m2)) in *.
  assert (∀ a b c d, 2 ^ (a - 1) ≤ c → d < 2 ^ b → b < a → d < c) as Hpow.
  { intros a b c d Hc Hd Hab. destruct (decide (0 ≤ b)) as [Hb|Hb].
    - assert (2 ^ b ≤ 2 ^ (a - 1)) by (apply Z.pow_le_mono_r; lia). lia.
    - rewrite (Z.pow_neg_r 2 b) in Hd by lia. assert (0 ≤ 2 ^ (a - 1)) by (apply Z.pow_nonneg; lia). lia. }
  unfold klt. destruct (Z.lt_trichotomy d1 d2) as [Hd|[Hd|Hd]].
  - pose proof (Hpow d2 d1 _ _ L2 U1 Hd). lia.
  - assert (0 < 2 ^ (53 - d1) ∨ 2 ^ (53 - d1) = 0) as [Hp|Hp].
    { destruct (decide (0 ≤ 53 - d1)); [left; apply Z.pow_pos_nonneg; lia|right; apply Z.pow_neg_r; lia]. }
    + rewrite Hd in E1, Hp. split; [intros [?|[_ [?|[_ Hm]]]]; [lia|lia|]|]; [|intros; right; split; [done|]; right; split; [by rewrite Hd|]].
      * rewrite E1, E2 in Hm. nia.
      * rewrite E1, E2. nia.
    + rewrite Hp in E1. lia.
  - pose proof (Hpow d1 d2 _ _ L1 U2 Hd). lia.
Qed.

Lemma exactly_dlt x y a b : exactly x a → exactly y b → dlt x y = true ↔ a < b.
Proof.
  intros Ha Hb. rewrite dlt_key.
  destruct a as [|m1|m1], b as [|m2|m2]; cbn [exactly] in *;
    try destruct Ha as (n1 & -> & E1); try destruct Hb as (n2 & -> & E2); subst; cbn [Z.ltb Z.compare];
    try (unfold dcmp; simpl; lia).
  - pose proof (mantissa_order m1 m2 n1 n2 E1 E2). exact H.
  - pose proof (mantissa_order m2 m1 n2 n1 E2 E1) as Hm.
    unfold dcmp. cbn [dkey]. unfold klt in *. lia.
Qed.

Lemma dlt_d_of_Z a b :
  Z.abs a < 2 ^ 53 → Z.abs b < 2 ^ 53 → dlt (d_of_Z a) (d_of_Z b) = (a <? b).
Proof.
  intros Ha Hb. apply eq_iff_eq_true. rewrite Z.ltb_lt. by apply exactly_dlt; apply d_of_Z_exactly.
Qed.

Lemma exactly_not_nan x z : exactly x z → is_nan x = false.
Proof. destruct z; cbn [exactly]; [by intros ->| |]; by intros (? & -> & _). Qed.

Lemma dle_d_of_Z a b :
  Z.abs a < 2 ^ 53 → Z.abs b < 2 ^ 53 → dle (d_of_Z a) (d_of_Z b) = (a <=? b).
Proof.
  intros Ha Hb. pose proof (dlt_d_of_Z b a Hb Ha) as E.
  pose proof (exactly_not_nan _ _ (d_of_Z_exactly a Ha)) as Na. pose proof (exactly_not_nan _ _ (d_of_Z_exactly b Hb)) as Nb.
  rewrite Z.leb_antisym, <- E. apply eq_iff_eq_true. rewrite negb_true_iff.
  rewrite <- not_true_iff_false, dlt_key, dle_key. unfold dcmp.
  destruct (dkey (d_of_Z a)) eqn:Ka; [|by apply dkey_nan in Ka; congruence].
  destruct (dkey (d_of_Z b)) eqn:Kb; [|by apply dkey_nan in Kb; congruence]. done.
Qed.

(** Short integers survive the way through a [float]. *)
Lemma d_of_f_Z z : Z.abs z < 2 ^ 24 → d_of_f (f_of_Z z) = d_of_Z z.
Proof.
  assert (∀ s m, Z.pos m < 2 ^ 24 → ∃ m1 m2, binary_round 24 128 s m 0 = S754_finite s m1 (Z.pos (digits2_pos m) - 24) ∧
    binary_round 53 1024 s m1 (Z.pos (digits2_pos m) - 24) = S754_finite s m2 (Z.pos (digits2_pos m) - 53) ∧
    binary_round 53 1024 s m 0 = S754_finite s m2 (Z.pos (digits2_pos m) - 53)) as Hr.
  { intros s m Hm. assert (Z.pos (digits2_pos m) ≤ 24) as Hd by (apply digits2_le; lia).
    destruct (binary_round_exact 24 128 s m 0) as (m1 & E1 & Em1); [lia|unfold emin; lia|lia|].
    assert (Z.pos (digits2_pos m1) = 24) as D1.
    { pose proof (digits2_pos_bounds m) as [L U]. set (d := Z.pos (digits2_pos m)) in *.
      assert (2 ^ 23 ≤ Z.pos m1 < 2 ^ 24) as [L1 U1].
      { rewrite Em1. replace (2 ^ 23) with (2 ^ (d - 1) * 2 ^ (24 - d)) by (rewrite <- Z.pow_add_r by lia; f_equal; lia).
        replace (2 ^ 24) with (2 ^ d * 2 ^ (24 - d)) by (rewrite <- Z.pow_add_r by lia; f_equal; lia).
        assert (0 < 2 ^ (24 - d)) by (apply Z.pow_pos_nonneg; lia). nia. }
      pose proof (digits2_le m1 24). pose proof (digits2_pos_bounds m1) as [_ U2].
      destruct (decide (Z.pos (digits2_pos m1) ≤ 23)); [|lia].
      assert (2 ^ Z.pos (digits2_pos m1) ≤ 2 ^ 23) by (apply Z.pow_le_mono_r; lia). lia. }
    destruct (binary_round_exact 53 1024 s m1 (Z.pos (digits2_pos m) - 24)) as (m2 & E2 & Em2);
      [lia|unfold emin; lia|lia|].
    destruct (binary_round_exact 53 1024 s m 0) as (m3 & E3 & Em3); [lia|unfold emin; lia|lia|].
    exists m1, m2. rewrite Z.add_0_r in E1, E3. split; [done|]. rewrite E2, E3. rewrite D1 in *.
    assert (m3 = m2) as ->.
    { apply Pos2Z.inj. rewrite Em3, Em2, Em1, <- Z.mul_assoc, <- Z.pow_add_r by lia. do 2 f_equal. lia. }
    split; f_equal; lia. }
  intros Hz. unfold d_of_f, f_of_Z, d_of_Z. destruct z as [|m|m]; [done| |]; cbn [binary_normalize].
  - destruct (Hr false m) as (m1 & m2 & -> & E2 & ->); [lia|]. exact E2.
  - destruct (Hr true m) as (m1 & m2 & -> & E2 & ->); [lia|]. exact E2.
Qed.
