(* ===== verification/Gps.v ===== *)
(** * The GPS manager

    [system/src/gps_manager.cc]: where the daemon's position comes from.  The receiver
    is read through gpsd's client library or replayed from a record file; both are
    arguments of a reading.  Log output is not modelled, the reads it makes are. *)
From S2P Require Import Prelude Double.
Open Scope Z_scope.

(** A fix of the GPS receiver, gpsd's [struct gps_fix_t]. *)
Record gps_fix_t := GpsFix {
  g_time : double;
  g_latitude : double;
  g_longitude : double;
  g_track : double;
  g_speed : double;
}.

Definition zero_fix : gps_fix_t := GpsFix d_zero d_zero d_zero d_zero d_zero.

(** [data_buf_] is null, or points to [gps_data_->fix], or to a block of the manager. *)
Inductive gps_buf := BufNull | BufFix | BufOwn.

(** A [FILE*] member: never written, null, or open. *)
Inductive file_ptr := FileUnset | FileNull | FileOpen.

(* [system/include/gps_manager.h:52-58] class GpsManager *)
Record GpsManager := Gps {
  data_buf_ : gps_buf;
  gps_fix : gps_fix_t;   (** [gps_data_->fix] *)
  gps_own : gps_fix_t;   (** the block allocated by the constructor *)
  enable_device_ : bool;
  track_file_ : file_ptr;
  record_file_ : file_ptr;
}.

(** The members of the configuration the constructor reads, and what the calls it makes
    to the system return. *)
Record gps_config := GpsConfig {
  enable_device : bool; enable_track : bool; enable_record : bool }.
Record gps_system := GpsSystem {
  gps_open : option gps_fix_t; gps_malloc : bool; open_track : bool; open_record : bool }.

(* [system/src/gps_manager.cc:14-42] GpsManager::GpsManager *)
Definition GpsManager_new (c : gps_config) (sys : gps_system) : M unit GpsManager :=
  g ← (if enable_device c then
         match gps_open sys with
         | None => abort
         | Some f => mret (Gps BufNull f zero_fix true FileUnset FileUnset)
         end
       else if gps_malloc sys then
         mret (Gps BufOwn zero_fix zero_fix false FileUnset FileUnset)
       else abort);
  g ← (if enable_track c then
         if open_track sys then
           mret (Gps (data_buf_ g) (gps_fix g) (gps_own g) (enable_device_ g) FileOpen
                   (record_file_ g))
         else abort
       else mret g);
  if enable_record c then
    if open_record sys then
      mret (Gps (data_buf_ g) (gps_fix g) (gps_own g) (enable_device_ g) (track_file_ g)
              FileOpen)
    else abort
  else mret g.

(** The object [data_buf_] points to. *)
Definition data_buf (g : GpsManager) : option gps_fix_t :=
  match data_buf_ g with
  | BufNull => None
  | BufFix => Some (gps_fix g)
  | BufOwn => Some (gps_own g)
  end.

(* [system/include/gps_manager.h:66-72] transform_fmt *)
Definition transform_fmt (x : double) : double := x.

(* [system/include/gps_manager.h:20-24] get_latitude *)
Definition get_latitude (g : GpsManager) : double :=
  match data_buf g with None => d_zero | Some b => transform_fmt (g_latitude b) end.
(* [system/include/gps_manager.h:26-30] get_longitude *)
Definition get_longitude (g : GpsManager) : double :=
  match data_buf g with None => d_zero | Some b => transform_fmt (g_longitude b) end.
(* [system/include/gps_manager.h:32-36] get_timestamp *)
Definition get_timestamp (g : GpsManager) : double :=
  match data_buf g with None => d_zero | Some b => g_time b end.
(* [system/include/gps_manager.h:38-42] get_track *)
Definition get_track (g : GpsManager) : double :=
  match data_buf g with None => d_zero | Some b => g_track b end.
(* [system/include/gps_manager.h:44-48] get_speed *)
Definition get_speed (g : GpsManager) : double :=
  match data_buf g with None => d_zero | Some b => g_speed b end.

(** What one call of [read_gps_data] finds outside the program: the answer of
    [gps_query], the device's state and the fix it left in [gps_data_->fix], and the
    numbers [fscanf] converted. *)
Record gps_reading := GpsReading {
  query_ok : bool;
  online : bool;
  has_fix : bool;
  new_fix : gps_fix_t;
  fields : list double;
}.

(** Assigning through [data_buf_]. *)
Definition set_data_buf (b : gps_fix_t) : M GpsManager unit := λ g,
  match data_buf_ g with
  | BufNull => Stuck NullDeref
  | BufFix => Done tt (Gps (data_buf_ g) b (gps_own g) (enable_device_ g) (track_file_ g)
                         (record_file_ g))
  | BufOwn => Done tt (Gps (data_buf_ g) (gps_fix g) b (enable_device_ g) (track_file_ g)
                         (record_file_ g))
  end.

(** Testing a [FILE*] member against null. *)
Definition is_open {S} (f : file_ptr) : M S bool :=
  match f with
  | FileUnset => stuck UninitRead
  | FileNull => mret false
  | FileOpen => mret true
  end.

(* [system/src/gps_manager.cc:85-103] log_track *)
Definition log_track : M GpsManager unit :=
  b ← gets data_buf;
  match b with
  | None => stuck NullDeref
  | Some _ => f ← gets track_file_; _ ← is_open f; skip
  end.

(** The five local variables are not initialised: a short line leaves some unset. *)
(* [system/src/gps_manager.cc:105-118] read_gps_data_from_file *)
Definition read_gps_data_from_file (fields : list double) : M GpsManager unit :=
  match fields with
  | [time; lat; lon; speed; track] => set_data_buf (GpsFix time lat lon track speed)
  | _ => stuck UninitRead
  end.

Definition debug_fix : gps_fix_t :=
  GpsFix (d_of_Z 1234567890) (d_lit 39123456 6) (d_lit 116123456 6) d_zero (d_of_Z 40).

(* [system/src/gps_manager.cc:59-83] read_gps_data *)
Definition read_gps_data (r : gps_reading) : M GpsManager Z :=
  device ← gets enable_device_;
  if (device : bool) then
    _ ← modify (λ g, Gps (data_buf_ g) (new_fix r) (gps_own g) (enable_device_ g) (track_file_ g)
                       (record_file_ g));
    if negb (query_ok r) then mret (-1)
    else if negb (online r) || negb (has_fix r) then mret (-1)
    else
      _ ← modify (λ g, Gps BufFix (gps_fix g) (gps_own g) (enable_device_ g) (track_file_ g)
                         (record_file_ g));
      _ ← log_track;
      mret 0
  else
    f ← gets record_file_;
    opened ← is_open f;
    _ ← (if (opened : bool) then read_gps_data_from_file (fields r) else set_data_buf debug_fix);
    _ ← log_track;
    mret 0.

(** ** Readings *)

(** A manager that can be read: its file members are written and a replayed position has
    a buffer to go to. *)
Definition gps_ok (g : GpsManager) : Prop :=
  track_file_ g ≠ FileUnset ∧
  (enable_device_ g = false → record_file_ g ≠ FileUnset ∧ data_buf_ g ≠ BufNull).

(** A line of the record file holds five numbers. *)
Definition reading_ok (g : GpsManager) (r : gps_reading) : Prop :=
  enable_device_ g = false → record_file_ g = FileOpen → length (fields r) = 5%nat.

(** The position a reading leaves, as the five getters return it. *)
Definition position (g : GpsManager) : double * double * double * double * double :=
  (get_timestamp g, get_latitude g, get_longitude g, get_track g, get_speed g).
Definition position_of (f : gps_fix_t) : double * double * double * double * double :=
  (g_time f, g_latitude f, g_longitude f, g_track f, g_speed f).

Definition fix_of_fields (l : list double) : gps_fix_t :=
  match l with
  | [time; lat; lon; speed; track] => GpsFix time lat lon track speed
  | _ => zero_fix
  end.

Definition device_answers (r : gps_reading) : bool := query_ok r && online r && has_fix r.

(** A reading succeeds, and then the getters return the fix of the device, the line of
    the record file or the constant; or the device has no fix, and the result is -1. *)
Lemma read_gps_data_spec g r :
  gps_ok g → reading_ok g r →
  ∃ res g', read_gps_data r g = Done res g' ∧ gps_ok g' ∧
    enable_device_ g' = enable_device_ g ∧ track_file_ g' = track_file_ g ∧
    record_file_ g' = record_file_ g ∧
    (if enable_device_ g && negb (device_answers r) then
       res = -1 ∧ data_buf_ g' = data_buf_ g
     else
       res = 0 ∧ position g' = position_of
         (if enable_device_ g then new_fix r
          else match record_file_ g with FileOpen => fix_of_fields (fields r)
               | _ => debug_fix end)).
Proof.
  intros [Ht Hd] Hr. unfold read_gps_data, device_answers, reading_ok, gps_ok in *.
  destruct g as [buf gfix own dev track record]; simpl in *.
  destruct dev; simpl.
  - destruct r as [[] [] [] f fl]; simpl;
      try (do 2 eexists; split; [reflexivity|]; simpl; by split_and!).
    destruct track; [done| |]; (do 2 eexists; split; [reflexivity|]; simpl; by split_and!).
  - destruct (Hd eq_refl) as [Hf Hb].
    destruct record; [done| |]; destruct track; try done; destruct buf; try done;
      try (do 2 eexists; split; [reflexivity|]; simpl; by split_and!).
    all: destruct (fields r) as [|x1 [|x2 [|x3 [|x4 [|x5 [|]]]]]]; try (by specialize (Hr eq_refl eq_refl)).
    all: do 2 eexists; split; [reflexivity|]; simpl; by split_and!.
Qed.

(** The constructor leaves a readable manager exactly when the configuration enables the
    track file, and the device or the record file. *)
Lemma GpsManager_new_spec c sys g :
  GpsManager_new c sys tt = Done g tt →
  gps_ok g ↔ enable_track c = true ∧ (enable_device c = true ∨ enable_record c = true).
Proof.
  unfold GpsManager_new, gps_ok. destruct c as [[] [] []], sys as [[f|] [] [] []]; simpl;
    try done; intros [= <-]; simpl; naive_solver.
Qed.

(** Without a track file the first successful reading reads a member that was never
    written. *)
Lemma read_gps_data_untracked c sys g r :
  enable_track c = false → enable_device c = true → device_answers r = true →
  GpsManager_new c sys tt = Done g tt → read_gps_data r g = Stuck UninitRead.
Proof.
  unfold GpsManager_new, read_gps_data, device_answers.
  destruct c as [[] [] []], sys as [[f|] [] [] []], r as [[] [] [] f' fl];
    simpl; try done; intros _ _ _ [= <-]; done.
Qed.
