(* ===== verification/Daemon.v ===== *)
(** * The daemon's memory

    The data of the user-space daemon [geosvrd]: node packets, the neighbour entries,
    the timers, and one record holding every object the event handlers read and write.
    Heap objects live in finite maps from addresses, so that a dangling pointer is a
    lookup that fails.  libevent and [malloc] are not part of the repository: they are
    classes of operations with the behaviour their documentation promises. *)
From S2P Require Import Prelude Double LinkedList Gps.
Open Scope Z_scope.

(** ** Node packets *)

(* [system/include/packet.h:4-13] struct geosvr_node_packet *)
Record geosvr_node_packet := NodePacket {
  p_taddr : Z;
  p_saddr : Z;
  p_latitude : double;
  p_longitude : double;
  p_track : double;
  p_speed : double;
  p_direct : Z;      (** one bit *)
  p_seqno : Z;       (** thirty-one bits *)
}.

(** A packet whose fields fit the widths of the structure's members. *)
Definition packet_ok (p : geosvr_node_packet) : Prop :=
  0 ≤ p_taddr p < 2 ^ 32 ∧ 0 ≤ p_saddr p < 2 ^ 32 ∧
  0 ≤ p_direct p < 2 ∧ 0 ≤ p_seqno p < 2 ^ 31.

(** ** Neighbours *)

(* [system/include/neigh_list.h:13-18] NEIGH_STATE *)
Definition NEIGH_STATE_INDIRECT : Z := Z.shiftl 1 0.
Definition NEIGH_STATE_DIRECT : Z := Z.shiftl 1 1.
Definition NEIGH_STATE_REBROADCAST : Z := Z.shiftl 1 2.
Definition NEIGH_STATE_INVALID : Z := Z.shiftl 1 3.

(* [system/include/neigh_list.h:26-40] struct neighbor *)
Record neighbor := Neighbor {
  n_ip_addr : Z;
  n_latitude : double;
  n_longitude : double;
  n_track : double;
  n_speed : double;
  n_seqno : Z;
  n_state : Z;
  n_roadid : Z;
  n_timeout_timer : addr;
  n_rebroadcast_timer : addr;
  n_conn_mgr : addr;
}.

(** The C tests of a state flag: [n->state & FLAG] as a condition. *)
Definition flag (m st : Z) : bool := negb (Z.land st m =? 0).
(** [st |= m] and [st &= ~m] on a [u_int8_t]. *)
Definition set_flag (m st : Z) : Z := u8 (Z.lor st m).
Definition clear_flag (m st : Z) : Z := u8 (Z.land st (Z.lnot m)).

Definition with_state (st : Z) (n : neighbor) : neighbor :=
  Neighbor (n_ip_addr n) (n_latitude n) (n_longitude n) (n_track n) (n_speed n)
    (n_seqno n) st (n_roadid n) (n_timeout_timer n) (n_rebroadcast_timer n) (n_conn_mgr n).
Definition with_timeout (t : addr) (n : neighbor) : neighbor :=
  Neighbor (n_ip_addr n) (n_latitude n) (n_longitude n) (n_track n) (n_speed n)
    (n_seqno n) (n_state n) (n_roadid n) t (n_rebroadcast_timer n) (n_conn_mgr n).
Definition with_rebroadcast (t : addr) (n : neighbor) : neighbor :=
  Neighbor (n_ip_addr n) (n_latitude n) (n_longitude n) (n_track n) (n_speed n)
    (n_seqno n) (n_state n) (n_roadid n) (n_timeout_timer n) t (n_conn_mgr n).
Definition with_conn (c : addr) (n : neighbor) : neighbor :=
  Neighbor (n_ip_addr n) (n_latitude n) (n_longitude n) (n_track n) (n_speed n)
    (n_seqno n) (n_state n) (n_roadid n) (n_timeout_timer n) (n_rebroadcast_timer n) c.

(** ** Timers *)

Record timeval := Timeval { tv_sec : Z; tv_usec : Z }.

(** The functions the program registers as a [TimerCallback]. *)
Inductive TimerCallback :=
  | neigh_list_expire_cb | list_cleaner_cb_cb | rebroadcast_expire_cb | send_node_info_cb.

#[global] Instance TimerCallback_eq_dec : EqDecision TimerCallback.
Proof. solve_decision. Defined.

(* [system/src/timer.cc:14-20] struct GeoSVRTimer *)
Record GeoSVRTimer := Timer {
  tv_ : timeval;
  func_ : TimerCallback;
  data_ : addr;
  in_cb_ : bool;
}.

(** libevent, as far as timers go: an event is identified by the address of the timer
    that embeds it.  The laws are the library's documented behaviour: adding an event
    makes it pending, deleting it or delivering it makes it not pending, and other
    events are not touched. *)
Class EventLib := {
  evbase : Type;
  event_init : evbase;
  evtimer_add : addr → timeval → evbase → evbase;
  evtimer_del : addr → evbase → evbase;
  event_deliver : addr → evbase → evbase;
  pending : evbase → addr → bool;
  pending_init : ∀ a, pending event_init a = false;
  pending_add : ∀ a tv b x, pending (evtimer_add a tv b) x = bool_decide (x = a) || pending b x;
  pending_del : ∀ a b x, pending (evtimer_del a b) x = bool_decide (x ≠ a) && pending b x;
  pending_deliver : ∀ a b x,
    pending (event_deliver a b) x = bool_decide (x ≠ a) && pending b x;
}.

(** A model of these laws: the base is the map of pending events. *)
Definition map_pending (b : gmap N timeval) (a : addr) : bool := bool_decide (is_Some (b !! a)).

Lemma map_pending_add a tv b x :
  map_pending (<[a := tv]> b) x = bool_decide (x = a) || map_pending b x.
Proof.
  unfold map_pending. rewrite lookup_insert.
  repeat case_bool_decide; case_decide; naive_solver.
Qed.

Lemma map_pending_delete a b x :
  map_pending (delete a b) x = bool_decide (x ≠ a) && map_pending b x.
Proof.
  unfold map_pending. rewrite lookup_delete.
  repeat case_bool_decide; case_decide; naive_solver.
Qed.

Lemma map_pending_empty a : map_pending ∅ a = false.
Proof. done. Qed.

Definition map_events : EventLib := {|
  evbase := gmap N timeval;
  event_init := ∅;
  evtimer_add a tv b := <[a := tv]> b;
  evtimer_del a b := delete a b;
  event_deliver a b := delete a b;
  pending := map_pending;
  pending_init := map_pending_empty;
  pending_add := map_pending_add;
  pending_del := map_pending_delete;
  pending_deliver := map_pending_delete;
|}.

(** The allocator: [malloc live] is the block returned when the addresses in [live] are
    in use, or [None] for a null result; [junk_bool live] is what a [bool] that the
    program has not written yet happens to hold in that block. *)
Class Allocator := {
  malloc : gset N → option addr;
  junk_bool : gset N → bool;
  malloc_fresh : ∀ X a, malloc X = Some a → a ∉ X ∧ a ≠ 0%N;
}.

(** An allocator that never fails: the successor of the largest address in use. *)
Definition bump (X : gset N) : option addr := Some (N.succ (set_fold N.max 0%N X)).

Lemma bump_fresh X a : bump X = Some a → a ∉ X ∧ a ≠ 0%N.
Proof.
  intros [= <-]. split; [|lia]. intros Hin.
  assert (∀ x, x ∈ X → (x ≤ set_fold N.max 0%N X)%N) as Hmax; [|specialize (Hmax _ Hin); lia].
  apply (set_fold_ind_L (λ m X, ∀ x, x ∈ X → (x ≤ m)%N)); [set_solver|].
  intros x Y m Hx IH y [->%elem_of_singleton|Hy]%elem_of_union; [lia|].
  specialize (IH y Hy). lia.
Qed.

Definition bump_allocator (junk : bool) : Allocator := {|
  malloc := bump; junk_bool _ := junk; malloc_fresh := bump_fresh |}.

(** ** The state of the daemon *)
Section daemon.
Context `{EventLib}.

Record daemon := Daemon {
  d_cells : gmap N list_t;  (** the [list_t] cells: list heads and the first member of every neighbour *)
  d_neigh : gmap N neighbor;  (** the [struct neighbor] objects on the heap, without their list links *)
  d_timers : gmap N GeoSVRTimer;  (** the [GeoSVRTimer] objects on the heap *)
  d_base : evbase;  (** libevent's event base *)
  d_num : Z;  (** [nei_list.num] *)
  d_cleaner : addr;  (** [list_cleaner_timer] *)
  d_beacon : addr;  (** [NeighManager::timer_] *)
  d_expire_ms : Z;  (** [neigh_entry_expire_timeout] *)
  d_cleaner_ms : Z;  (** [neigh_list_cleaner_timeout] *)
  d_seqno : Z;  (** [NeighManager::seqno] *)
  d_gps : GpsManager;  (** the GPS manager *)
  d_local : Z;  (** [ConnManager::local_addr_.sin_addr.s_addr] *)
  d_sent : list geosvr_node_packet;  (** the datagrams handed to [send], latest first *)
}.

Definition set_cells (v : gmap N list_t) (d : daemon) : daemon :=
  Daemon v (d_neigh d) (d_timers d) (d_base d) (d_num d) (d_cleaner d) (d_beacon d) (d_expire_ms d) (d_cleaner_ms d) (d_seqno d) (d_gps d) (d_local d) (d_sent d).
Definition set_neigh (v : gmap N neighbor) (d : daemon) : daemon :=
  Daemon (d_cells d) v (d_timers d) (d_base d) (d_num d) (d_cleaner d) (d_beacon d) (d_expire_ms d) (d_cleaner_ms d) (d_seqno d) (d_gps d) (d_local d) (d_sent d).
Definition set_timers (v : gmap N GeoSVRTimer) (d : daemon) : daemon :=
  Daemon (d_cells d) (d_neigh d) v (d_base d) (d_num d) (d_cleaner d) (d_beacon d) (d_expire_ms d) (d_cleaner_ms d) (d_seqno d) (d_gps d) (d_local d) (d_sent d).
Definition set_base (v : evbase) (d : daemon) : daemon :=
  Daemon (d_cells d) (d_neigh d) (d_timers d) v (d_num d) (d_cleaner d) (d_beacon d) (d_expire_ms d) (d_cleaner_ms d) (d_seqno d) (d_gps d) (d_local d) (d_sent d).
Definition set_num (v : Z) (d : daemon) : daemon :=
  Daemon (d_cells d) (d_neigh d) (d_timers d) (d_base d) v (d_cleaner d) (d_beacon d) (d_expire_ms d) (d_cleaner_ms d) (d_seqno d) (d_gps d) (d_local d) (d_sent d).
Definition set_cleaner (v : addr) (d : daemon) : daemon :=
  Daemon (d_cells d) (d_neigh d) (d_timers d) (d_base d) (d_num d) v (d_beacon d) (d_expire_ms d) (d_cleaner_ms d) (d_seqno d) (d_gps d) (d_local d) (d_sent d).
Definition set_beacon (v : addr) (d : daemon) : daemon :=
  Daemon (d_cells d) (d_neigh d) (d_timers d) (d_base d) (d_num d) (d_cleaner d) v (d_expire_ms d) (d_cleaner_ms d) (d_seqno d) (d_gps d) (d_local d) (d_sent d).
Definition set_expire_ms (v : Z) (d : daemon) : daemon :=
  Daemon (d_cells d) (d_neigh d) (d_timers d) (d_base d) (d_num d) (d_cleaner d) (d_beacon d) v (d_cleaner_ms d) (d_seqno d) (d_gps d) (d_local d) (d_sent d).
Definition set_cleaner_ms (v : Z) (d : daemon) : daemon :=
  Daemon (d_cells d) (d_neigh d) (d_timers d) (d_base d) (d_num d) (d_cleaner d) (d_beacon d) (d_expire_ms d) v (d_seqno d) (d_gps d) (d_local d) (d_sent d).
Definition set_seqno (v : Z) (d : daemon) : daemon :=
  Daemon (d_cells d) (d_neigh d) (d_timers d) (d_base d) (d_num d) (d_cleaner d) (d_beacon d) (d_expire_ms d) (d_cleaner_ms d) v (d_gps d) (d_local d) (d_sent d).
Definition set_gps (v : GpsManager) (d : daemon) : daemon :=
  Daemon (d_cells d) (d_neigh d) (d_timers d) (d_base d) (d_num d) (d_cleaner d) (d_beacon d) (d_expire_ms d) (d_cleaner_ms d) (d_seqno d) v (d_local d) (d_sent d).
Definition set_local (v : Z) (d : daemon) : daemon :=
  Daemon (d_cells d) (d_neigh d) (d_timers d) (d_base d) (d_num d) (d_cleaner d) (d_beacon d) (d_expire_ms d) (d_cleaner_ms d) (d_seqno d) (d_gps d) v (d_sent d).
Definition set_sent (v : list geosvr_node_packet) (d : daemon) : daemon :=
  Daemon (d_cells d) (d_neigh d) (d_timers d) (d_base d) (d_num d) (d_cleaner d) (d_beacon d) (d_expire_ms d) (d_cleaner_ms d) (d_seqno d) (d_gps d) (d_local d) v.

(** Every address in use: static objects have list cells too. *)
Definition live (d : daemon) : gset N :=
  dom (d_cells d) ∪ dom (d_neigh d) ∪ dom (d_timers d).

(** Assignments to the members of a heap object. *)
Definition upd_neighbor (n : addr) (f : neighbor → neighbor) : M daemon unit :=
  v ← deref d_neigh n; modify (λ d, set_neigh (<[n := f v]> (d_neigh d)) d).
Definition upd_timer (t : addr) (f : GeoSVRTimer → GeoSVRTimer) : M daemon unit :=
  v ← deref d_timers t; modify (λ d, set_timers (<[t := f v]> (d_timers d)) d).

(** A call into list.cc. *)
Definition on_cells {A} (m : M cells A) : M daemon A := zoom d_cells set_cells m.
End daemon.

(** The address of the static variable [nei_list.list]. *)
Definition NEI_LIST : addr := 1%N.
