(* ===== verification/Timer.v ===== *)
(** * Timers

    [system/src/timer.cc]: one-shot libevent timers that the callback's result re-arms
    or frees.  The functions a timer calls are an argument [call], instantiated in
    [Events.v] with the four callbacks of the daemon. *)
From S2P Require Import Prelude Double LinkedList Daemon.
Open Scope Z_scope.

(* [system/src/timer.cc:56-66] timeval_from_msec *)
Definition timeval_from_msec (milliseconds : Z) : timeval :=
  let microseconds := u64 (milliseconds * 1000) in
  Timeval (microseconds `div` 1000000) (microseconds `mod` 1000000).

Section timer.
Context `{EventLib, Allocator}.

(* [system/src/timer.cc:78-95] geosvr_timer_new *)
Definition geosvr_timer_new (func : TimerCallback) (data : addr) (milliseconds : Z)
    : M daemon addr :=
  used ← gets live;
  match malloc used with
  | None => abort
  | Some timer =>
      let tv := timeval_from_msec milliseconds in
      _ ← modify (λ d,
            set_timers (<[timer := Timer tv func data (junk_bool used)]> (d_timers d)) d);
      _ ← modify (λ d, set_base (evtimer_add timer tv (d_base d)) d);
      mret timer
  end.

(* [system/src/timer.cc:38-54] geosvr_timer_free *)
Definition geosvr_timer_free (timer : addr) : M daemon unit :=
  if decide (timer = NULL) then skip
  else
    t ← deref d_timers timer;
    if in_cb_ t then skip
    else
      _ ← modify (λ d, set_base (evtimer_del timer (d_base d)) d);
      modify (λ d, set_timers (delete timer (d_timers d)) d).

(* [system/src/timer.cc:68-76] geosvr_timer_reset *)
Definition geosvr_timer_reset (timer : addr) (milliseconds : Z) : M daemon unit :=
  let tv := timeval_from_msec milliseconds in
  _ ← upd_timer timer (λ t, Timer tv (func_ t) (data_ t) false);
  _ ← modify (λ d, set_base (evtimer_del timer (d_base d)) d);
  modify (λ d, set_base (evtimer_add timer tv (d_base d)) d).

(* [system/src/timer.cc:22-36] timer_callback *)
Definition timer_callback (call : TimerCallback → addr → M daemon Z) (timer : addr)
    : M daemon unit :=
  _ ← upd_timer timer (λ t, Timer (tv_ t) (func_ t) (data_ t) true);
  t ← deref d_timers timer;
  more ← call (func_ t) (data_ t);
  _ ← upd_timer timer (λ t, Timer (tv_ t) (func_ t) (data_ t) false);
  if decide (more ≠ 0) then
    t ← deref d_timers timer;
    modify (λ d, set_base (evtimer_add timer (tv_ t) (d_base d)) d)
  else geosvr_timer_free timer.
End timer.

(** ** Time values *)

Lemma timeval_parts ms :
  let tv := timeval_from_msec ms in
  0 ≤ tv_usec tv < 1000000 ∧ tv_sec tv * 1000000 + tv_usec tv = u64 (ms * 1000).
Proof.
  simpl. pose proof (Z.mod_pos_bound (u64 (ms * 1000)) 1000000).
  pose proof (Z.div_mod (u64 (ms * 1000)) 1000000). lia.
Qed.
