(* ===== verification/NeighList.v ===== *)
(** * The neighbour list

    [system/src/neigh_list.cc]: the ring of neighbour entries, the expiry and the
    rebroadcast timer of each entry, and the cleaner that frees expired entries.
    Writing the log file is not modelled; the reads it makes are. *)
From S2P Require Import Prelude Double LinkedList Daemon Timer.
Open Scope Z_scope.

Definition DEFAULT_NEIGH_LIST_EXPIRE : Z := 3000.
Definition DEFAULT_LIST_CLEANER_TIMER : Z := 10000.

Section neigh_list.
Context `{EventLib, Allocator}.

(* [system/src/neigh_list.cc:33-52] neigh_list_init *)
Definition neigh_list_init (entry_expire_period list_cleaner_period : Z) : M daemon unit :=
  _ ← modify (set_num 0);
  _ ← on_cells (INIT_LIST_HEAD NEI_LIST);
  _ ← modify (λ d, if decide (entry_expire_period ≠ 0)
                   then set_expire_ms (s32 entry_expire_period) d else d);
  _ ← modify (λ d, if decide (list_cleaner_period ≠ 0)
                   then set_cleaner_ms (s32 list_cleaner_period) d else d);
  ms ← gets d_cleaner_ms;
  t ← geosvr_timer_new list_cleaner_cb_cb NEI_LIST (u64 ms);
  modify (set_cleaner t).

(** [malloc(sizeof(struct neighbor))] followed by [memset] to zero. *)
Definition zero_neighbor : neighbor :=
  Neighbor 0 d_zero d_zero d_zero d_zero 0 0 0 NULL NULL NULL.
Definition alloc_neighbor : M daemon addr :=
  used ← gets live;
  match malloc used with
  | None => abort
  | Some n =>
      _ ← modify (λ d, set_neigh (<[n := zero_neighbor]> (d_neigh d)) d);
      _ ← modify (λ d, set_cells (<[n := ListT NULL NULL]> (d_cells d)) d);
      mret n
  end.
Definition free_neighbor (n : addr) : M daemon unit :=
  _ ← deref d_neigh n;
  _ ← modify (λ d, set_neigh (delete n (d_neigh d)) d);
  modify (λ d, set_cells (delete n (d_cells d)) d).

(** The members copied from a packet; the address only by [neigh_list_insert]. *)
Definition copy_packet (pkt : geosvr_node_packet) (n : neighbor) : neighbor :=
  Neighbor (n_ip_addr n) (p_latitude pkt) (p_longitude pkt) (p_track pkt) (p_speed pkt)
    (p_seqno pkt) (n_state n) (n_roadid n) (n_timeout_timer n) (n_rebroadcast_timer n)
    (n_conn_mgr n).
Definition with_ip_addr (ip : Z) (n : neighbor) : neighbor :=
  Neighbor ip (n_latitude n) (n_longitude n) (n_track n) (n_speed n) (n_seqno n)
    (n_state n) (n_roadid n) (n_timeout_timer n) (n_rebroadcast_timer n) (n_conn_mgr n).
Definition with_roadid (r : Z) (n : neighbor) : neighbor :=
  Neighbor (n_ip_addr n) (n_latitude n) (n_longitude n) (n_track n) (n_speed n)
    (n_seqno n) (n_state n) r (n_timeout_timer n) (n_rebroadcast_timer n) (n_conn_mgr n).

Definition insert_state (direct : Z) : Z :=
  clear_flag NEIGH_STATE_INVALID (set_flag (Z.shiftl 1 direct) 0).

(* [system/src/neigh_list.cc:70-106] neigh_list_insert *)
Definition neigh_list_insert (pkt : geosvr_node_packet) (roadid wait_time : Z)
    (conn_mgr : addr) : M daemon addr :=
  n ← alloc_neighbor;
  _ ← upd_neighbor n (λ v, with_roadid (u32 roadid) (with_state (insert_state (p_direct pkt))
        (copy_packet pkt (with_ip_addr (p_saddr pkt) v))));
  expire ← gets d_expire_ms;
  t1 ← geosvr_timer_new neigh_list_expire_cb n (u64 expire);
  _ ← upd_neighbor n (with_timeout t1);
  t2 ← geosvr_timer_new rebroadcast_expire_cb n wait_time;
  _ ← upd_neighbor n (with_rebroadcast t2);
  _ ← upd_neighbor n (with_conn conn_mgr);
  _ ← modify (λ d, set_num (u32 (d_num d + 1)) d);
  _ ← on_cells (list_add NEI_LIST n);
  mret n.

Definition update_state (direct st : Z) : Z :=
  set_flag (Z.shiftl 1 direct)
    (clear_flag NEIGH_STATE_DIRECT (clear_flag NEIGH_STATE_INDIRECT st)).

(** The two conditional parts of [neigh_list_update]. *)
(* [system/src/neigh_list.cc:121-128] neigh_list_update *)
Definition renew_expiry (n : addr) : M daemon unit :=
  v ← deref d_neigh n;
  expire ← gets d_expire_ms;
  if flag NEIGH_STATE_INVALID (n_state v) then
    _ ← upd_neighbor n (λ v, with_state (clear_flag NEIGH_STATE_INVALID (n_state v)) v);
    t ← geosvr_timer_new neigh_list_expire_cb n (u64 expire);
    upd_neighbor n (with_timeout t)
  else geosvr_timer_reset (n_timeout_timer v) (u64 expire).

(* [system/src/neigh_list.cc:129-133] neigh_list_update *)
Definition renew_rebroadcast (n : addr) (wait_time : Z) : M daemon unit :=
  v ← deref d_neigh n;
  if flag NEIGH_STATE_REBROADCAST (n_state v) then
    _ ← upd_neighbor n
          (λ v, with_state (clear_flag NEIGH_STATE_REBROADCAST (n_state v)) v);
    t ← geosvr_timer_new rebroadcast_expire_cb n wait_time;
    upd_neighbor n (with_rebroadcast t)
  else skip.

(* [system/src/neigh_list.cc:108-140] neigh_list_update *)
Definition neigh_list_update (n : addr) (pkt : geosvr_node_packet) (roadid wait_time : Z)
    (conn_mgr : addr) : M daemon addr :=
  _ ← upd_neighbor n (λ v, with_roadid (u32 roadid)
        (with_state (update_state (p_direct pkt) (n_state v)) (copy_packet pkt v)));
  _ ← renew_expiry n;
  _ ← renew_rebroadcast n wait_time;
  _ ← upd_neighbor n (with_conn conn_mgr);
  mret n.

(* [system/src/neigh_list.cc:142-156] neigh_list_delete *)
Definition neigh_list_delete (n : addr) : M daemon unit :=
  if decide (n = NULL) then skip
  else
    _ ← on_cells (list_detach n);
    v ← deref d_neigh n;
    _ ← (if bool_decide (n_rebroadcast_timer v ≠ NULL) &&
            negb (flag NEIGH_STATE_REBROADCAST (n_state v))
         then
           _ ← geosvr_timer_free (n_rebroadcast_timer v);
           upd_neighbor n (with_rebroadcast NULL)
         else skip);
    _ ← modify (λ d, set_num (u32 (d_num d - 1)) d);
    free_neighbor n.

(* [system/src/neigh_list.cc:158-174] neigh_list_find *)
Definition neigh_list_find (ip_addr : Z) : M daemon addr :=
  num ← gets d_num;
  if decide (num = 0) then mret NULL
  else
    r ← list_foreach (A := addr) d_cells NEI_LIST (λ pos _,
          n ← deref d_neigh pos;
          mret (if decide (ip_addr = n_ip_addr n) then inl pos else inr tt)) tt;
    mret (match r with inl n => n | inr _ => NULL end).

(* [system/src/neigh_list.cc:176-191] neigh_list_expire *)
Definition neigh_list_expire (arg : addr) : M daemon Z :=
  if decide (arg = NULL) then mret 0
  else
    _ ← upd_neighbor arg (λ n, with_state (set_flag NEIGH_STATE_INVALID (n_state n)) n);
    mret 0.

(* [system/src/neigh_list.cc:247-264] neigh_list_dump *)
Definition neigh_list_dump : M daemon unit :=
  _ ← list_foreach_safe (A := unit) d_cells NEI_LIST
        (λ pos _, _ ← deref d_neigh pos; mret (inr tt)) tt;
  skip.

(* [system/src/neigh_list.cc:193-209] list_cleaner_cb *)
Definition list_cleaner_cb : M daemon Z :=
  _ ← neigh_list_dump;
  _ ← list_foreach_safe (A := unit) d_cells NEI_LIST
        (λ pos _,
           n ← deref d_neigh pos;
           _ ← (if flag NEIGH_STATE_INVALID (n_state n) then neigh_list_delete pos
                else skip);
           mret (inr tt)) tt;
  mret 1.

(** [ConnManager::send_data]: [sent] tells whether [send] took the whole datagram. *)
(* [system/src/conn_manager.cc:127-143] send_data *)
Definition send_data (sent : bool) (pkt : geosvr_node_packet) : M daemon Z :=
  if sent then
    _ ← modify (λ d, set_sent (pkt :: d_sent d) d); mret 0
  else mret (-1).

(* [system/src/neigh_list.cc:217-245] rebroadcast_expire *)
Definition rebroadcast_expire (sent : bool) (arg : addr) : M daemon Z :=
  _ ← upd_neighbor arg
        (λ n, with_state (set_flag NEIGH_STATE_REBROADCAST (n_state n)) n);
  nei ← deref d_neigh arg;
  local ← gets d_local;
  let pkt := NodePacket local (n_ip_addr nei) (n_latitude nei) (n_longitude nei)
               (n_track nei) (n_speed nei) 0 (wrap 31 (n_seqno nei)) in
  r ← send_data sent pkt;
  if decide (r < 0) then abort else mret 0.

(* [system/src/neigh_list.cc:54-68] neigh_list_fini *)
Definition neigh_list_fini : M daemon unit :=
  _ ← list_foreach_safe (A := unit) d_cells NEI_LIST
        (λ pos _, _ ← neigh_list_delete pos; mret (inr tt)) tt;
  t ← gets d_cleaner;
  _ ← geosvr_timer_free t;
  modify (set_cleaner NULL).
End neigh_list.

(** ** State flags *)

Lemma flag_bit k st : 0 ≤ k → flag (Z.shiftl 1 k) st = Z.testbit st k.
Proof.
  intros Hk. unfold flag. rewrite Z.shiftl_1_l.
  destruct (Z.testbit st k) eqn:E.
  - apply negb_true_iff, Z.eqb_neq. intros H0.
    assert (Z.testbit (Z.land st (2 ^ k)) k = false) as F by by rewrite H0, Z.bits_0.
    rewrite Z.land_spec, E, Z.pow2_bits_true in F by done. done.
  - apply negb_false_iff, Z.eqb_eq. apply Z.bits_inj'. intros j Hj.
    rewrite Z.land_spec, Z.bits_0, Z.pow2_bits_eqb by done.
    destruct (Z.eqb_spec k j) as [<-|]; [by rewrite E|apply andb_false_r].
Qed.

Lemma set_flag_bit k st j : 0 ≤ k → 0 ≤ j < 8 →
  Z.testbit (set_flag (Z.shiftl 1 k) st) j = (k =? j) || Z.testbit st j.
Proof.
  intros Hk Hj. unfold set_flag, u8. rewrite testbit_wrap by done.
  rewrite Z.shiftl_1_l, Z.lor_spec, Z.pow2_bits_eqb by done. apply orb_comm.
Qed.

Lemma clear_flag_bit k st j : 0 ≤ k → 0 ≤ j < 8 →
  Z.testbit (clear_flag (Z.shiftl 1 k) st) j = negb (k =? j) && Z.testbit st j.
Proof.
  intros Hk Hj. unfold clear_flag, u8. rewrite testbit_wrap by done.
  rewrite Z.shiftl_1_l, Z.land_spec, Z.lnot_spec, Z.pow2_bits_eqb by lia. apply andb_comm.
Qed.

#[export] Hint Rewrite flag_bit set_flag_bit clear_flag_bit using lia : flags.

(** The two life-cycle flags of an entry. *)
Definition invalid (n : neighbor) : bool := flag NEIGH_STATE_INVALID (n_state n).
Definition rebroadcast_done (n : neighbor) : bool := flag NEIGH_STATE_REBROADCAST (n_state n).
Definition direct (n : neighbor) : bool := flag NEIGH_STATE_DIRECT (n_state n).
Definition indirect (n : neighbor) : bool := flag NEIGH_STATE_INDIRECT (n_state n).

Ltac flags :=
  unfold invalid, rebroadcast_done, direct, indirect, insert_state, update_state,
    NEIGH_STATE_INVALID, NEIGH_STATE_REBROADCAST, NEIGH_STATE_DIRECT, NEIGH_STATE_INDIRECT in *;
  simpl n_state in *; autorewrite with flags in *; simpl in *.

(** ** Well-formed daemons

    [wf cur d xs]: the entries of the ring are [xs]; every entry that is not invalid
    owns a pending expiry timer, every entry that has not been rebroadcast owns a
    pending rebroadcast timer, and there are no other timers than these, the cleaner's
    and the beacon's.  [cur] is the timer whose callback is running, if any: it is not
    pending and marked as being in its callback. *)
Section wf.
Context `{EventLib}.

Definition is_cur (cur : option addr) (t : addr) : bool := bool_decide (cur = Some t).

Definition owned (d : daemon) (t : addr) (tm : GeoSVRTimer) : Prop :=
  match func_ tm with
  | neigh_list_expire_cb =>
      ∃ n, d_neigh d !! data_ tm = Some n ∧ invalid n = false ∧ n_timeout_timer n = t
  | rebroadcast_expire_cb =>
      ∃ n, d_neigh d !! data_ tm = Some n ∧ rebroadcast_done n = false ∧
           n_rebroadcast_timer n = t
  | list_cleaner_cb_cb => t = d_cleaner d
  | send_node_info_cb => t = d_beacon d
  end.

Definition has_timer (cur : option addr) (d : daemon) (t : addr) (f : TimerCallback)
    (data : addr) : Prop :=
  ∃ tv, d_timers d !! t = Some (Timer tv f data (is_cur cur t)).

(** The table: the ring, the entries it threads, their number and their addresses. *)
Record table_ok (d : daemon) (xs : list addr) : Prop := {
  wf_ring : ring (d_cells d) NEI_LIST xs;
  wf_cells : dom (d_cells d) = {[NEI_LIST]} ∪ list_to_set xs;
  wf_neigh : dom (d_neigh d) = list_to_set xs;
  wf_num : d_num d = Z.of_nat (length xs);
  wf_ips : ∀ a b na nb, d_neigh d !! a = Some na → d_neigh d !! b = Some nb →
    n_ip_addr na = n_ip_addr nb → a = b;
  wf_local : 0 ≤ d_local d < 2 ^ 32;
  wf_range : ∀ a n, d_neigh d !! a = Some n →
    0 ≤ n_ip_addr n < 2 ^ 32 ∧ n_ip_addr n ≠ d_local d;
}.

(** The timers: who owns which, and which of them libevent will deliver. *)
Record timers_ok (cur : option addr) (d : daemon) : Prop := {
  wf_expire : ∀ a n, d_neigh d !! a = Some n → invalid n = false →
    has_timer cur d (n_timeout_timer n) neigh_list_expire_cb a;
  wf_rebroadcast : ∀ a n, d_neigh d !! a = Some n → rebroadcast_done n = false →
    has_timer cur d (n_rebroadcast_timer n) rebroadcast_expire_cb a;
  wf_cleaner : has_timer cur d (d_cleaner d) list_cleaner_cb_cb NEI_LIST;
  wf_beacon : ∃ data, has_timer cur d (d_beacon d) send_node_info_cb data;
  wf_owner : ∀ t tm, d_timers d !! t = Some tm → t ≠ NULL ∧ owned d t tm;
  wf_pending : ∀ t, pending (d_base d) t =
    bool_decide (is_Some (d_timers d !! t)) && negb (is_cur cur t);
}.

Definition wf (cur : option addr) (d : daemon) (xs : list addr) : Prop :=
  table_ok d xs ∧ timers_ok cur d.

Lemma wf_lookup d xs a : table_ok d xs → a ∈ xs ↔ is_Some (d_neigh d !! a).
Proof. intros Hw. by rewrite <- elem_of_dom, (wf_neigh _ _ Hw), elem_of_list_to_set. Qed.

Lemma wf_nonnull d xs a : table_ok d xs → a ∈ xs → a ≠ NULL ∧ a ≠ NEI_LIST.
Proof.
  intros Hw Ha. destruct (wf_ring _ _ Hw) as (Hnd & H0 & _).
  apply NoDup_cons in Hnd as [Hnd _]. set_solver.
Qed.

Definition ip_at (d : daemon) (a : addr) : Z := from_option n_ip_addr 0 (d_neigh d !! a).

Lemma wf_ip_at d xs a : table_ok d xs → a ∈ xs → ∃ n, d_neigh d !! a = Some n ∧ ip_at d a = n_ip_addr n.
Proof.
  intros Hw [n Hn]%(wf_lookup _ _ _ Hw). exists n. unfold ip_at. by rewrite Hn.
Qed.

Lemma wf_ips_NoDup d xs : table_ok d xs → NoDup (d_local d :: (ip_at d <$> xs)).
Proof.
  intros Hw. apply NoDup_cons. split.
  - intros (a & E & (n & Hn & Ea)%(wf_ip_at _ _ _ Hw))%list_elem_of_fmap.
    destruct (wf_range _ _ Hw _ _ Hn) as [_ []]. congruence.
  - apply NoDup_fmap_2_strong.
    + intros a b (n & Hn & En)%(wf_ip_at _ _ _ Hw) (m & Hm & Em)%(wf_ip_at _ _ _ Hw) E.
      eapply (wf_ips _ _ Hw); [done..|congruence].
    + destruct (wf_ring _ _ Hw) as (Hd & _). by apply NoDup_cons in Hd as [_ ?].
Qed.

Lemma wf_ips_range d xs x :
  table_ok d xs → x ∈ d_local d :: (ip_at d <$> xs) → 0 ≤ x < 2 ^ 32.
Proof.
  intros Hw [->|Hx]%elem_of_cons; [apply (wf_local _ _ Hw)|].
  apply list_elem_of_fmap in Hx as (a & -> & (n & Hn & ->)%(wf_ip_at _ _ _ Hw)).
  apply (wf_range _ _ Hw _ _ Hn).
Qed.

(** There are fewer entries than addresses, so the count never wraps: neither as it
    stands, nor when an entry with a new address joins. *)
Lemma wf_length d xs : table_ok d xs → Z.of_nat (length xs) < 2 ^ 32.
Proof.
  intros Hw. pose proof (NoDup_range_length _ (2 ^ 32) (wf_ips_NoDup _ _ Hw)
    (λ x, wf_ips_range _ _ x Hw)) as Hl.
  simpl in Hl. rewrite length_fmap in Hl. lia.
Qed.

Lemma wf_length_succ d xs ip :
  table_ok d xs → 0 ≤ ip < 2 ^ 32 → ip ≠ d_local d →
  (∀ b n, d_neigh d !! b = Some n → n_ip_addr n ≠ ip) →
  Z.of_nat (length xs) + 1 < 2 ^ 32.
Proof.
  intros Hw Hip Hloc Hfresh.
  assert (NoDup (ip :: d_local d :: (ip_at d <$> xs))) as Hnd.
  { apply NoDup_cons. split; [|by apply wf_ips_NoDup]. rewrite not_elem_of_cons.
    split; [done|]. intros (a & E & (n & Hn & Ea)%(wf_ip_at _ _ _ Hw))%list_elem_of_fmap.
    destruct (Hfresh _ _ Hn). congruence. }
  apply (NoDup_range_length _ (2 ^ 32)) in Hnd.
  - simpl in Hnd. rewrite length_fmap in Hnd. lia.
  - intros x [->|Hx]%elem_of_cons; [done|]. by eapply wf_ips_range.
Qed.
End wf.

(** ** Lookup *)
Section find.
Context `{EventLib}.

(** What [neigh_list_find] is for: the entry with an address, or null. *)
Definition found (d : daemon) (ip : Z) (a : addr) : Prop :=
  (a = NULL ∧ ∀ b n, d_neigh d !! b = Some n → n_ip_addr n ≠ ip) ∨
  (a ≠ NULL ∧ ∃ n, d_neigh d !! a = Some n ∧ n_ip_addr n = ip).

Definition find_body (d : daemon) (ip : Z) (pos : addr) (_ : unit) : addr + unit :=
  match d_neigh d !! pos with
  | Some n => if decide (ip = n_ip_addr n) then inl pos else inr tt
  | None => inr tt
  end.

Lemma find_fold d ip xs :
  match fold_until (find_body d ip) xs tt with
  | inl a => a ∈ xs ∧ ∃ n, d_neigh d !! a = Some n ∧ n_ip_addr n = ip
  | inr _ => ∀ b n, b ∈ xs → d_neigh d !! b = Some n → n_ip_addr n ≠ ip
  end.
Proof.
  induction xs as [|x xs IH]; simpl; [set_solver|].
  unfold find_body at 1. destruct (d_neigh d !! x) as [n|] eqn:E; simpl.
  - case_decide as D; [split; [set_solver +|eauto]|].
    destruct (fold_until _ xs tt) as [a|[]]; [set_solver +IH|].
    intros b m [->|Hb]%elem_of_cons Hm; [congruence|eauto].
  - destruct (fold_until _ xs tt) as [a|[]]; [set_solver +IH|].
    intros b m [->|Hb]%elem_of_cons Hm; [congruence|eauto].
Qed.

Lemma neigh_list_find_spec d xs ip :
  table_ok d xs → ∃ a, neigh_list_find ip d = Done a d ∧ found d ip a.
Proof.
  intros Hw. unfold neigh_list_find.
  rewrite (bind_done _ _ d (d_num d) d) by done. rewrite (wf_num _ _ Hw).
  case_decide as E.
  { exists NULL. split; [done|]. left. split; [done|]. intros b n Hb.
    assert (b ∈ xs) as Hx by (apply (wf_lookup _ _ _ Hw); eauto).
    destruct xs; [by apply elem_of_nil in Hx|done]. }
  erewrite bind_done; [|eapply (list_foreach_pure d_cells d NEI_LIST xs _ (find_body d ip));
    [exact (wf_ring _ _ Hw)|]].
  - pose proof (find_fold d ip xs) as Hf.
    destruct (fold_until _ xs tt) as [a|u].
    + exists a. split; [done|]. right. split; [|apply Hf].
      by apply (wf_nonnull _ _ _ Hw (proj1 Hf)).
    + exists NULL. split; [done|]. left. split; [done|]. intros b n Hb.
      apply (Hf b); [|done]. apply (wf_lookup _ _ _ Hw). eauto.
  - intros x [] Hx. pose proof (wf_nonnull _ _ _ Hw Hx) as [Hx0 _].
    apply (wf_lookup _ _ _ Hw) in Hx as [n Hn].
    unfold deref, mbind, M_bind, find_body. by rewrite decide_False, Hn by done.
Qed.

(** The result is a function of the table: addresses are unique. *)
Lemma found_inj d xs ip a b : table_ok d xs → found d ip a → found d ip b → a = b.
Proof.
  intros Hw [[-> Ha]|(Ha & n & Hn & En)] [[-> Hb]|(Hb & m & Hm & Em)]; [done| | |].
  - by destruct (Ha _ _ Hm).
  - by destruct (Hb _ _ Hn).
  - eapply (wf_ips _ _ Hw); [done..|congruence].
Qed.
End find.

(** ** Creation of timers and entries *)
Section alloc.
Context `{EventLib, Allocator}.

(** The state after a timer is created in memory that happened to hold [junk]. *)
Definition new_timer (t : addr) (f : TimerCallback) (data : addr) (ms : Z) (junk : bool)
    (d : daemon) : daemon :=
  set_base (evtimer_add t (timeval_from_msec ms) (d_base d))
    (set_timers (<[t := Timer (timeval_from_msec ms) f data junk]> (d_timers d)) d).

Lemma wp_timer_new (Hjunk : ∀ X, junk_bool X = false) f data ms d Q :
  (∀ t, t ∉ live d → t ≠ NULL → Q t (new_timer t f data ms false d)) →
  wp (geosvr_timer_new f data ms) d Q.
Proof.
  intros HQ. unfold geosvr_timer_new. apply wp_bind, wp_gets.
  destruct (malloc (live d)) as [t|] eqn:E; [|done].
  destruct (malloc_fresh _ _ E). apply wp_bind, wp_modify, wp_bind, wp_modify, wp_ret.
  rewrite Hjunk. by apply HQ.
Qed.

Lemma wp_alloc_neighbor d Q :
  (∀ a, a ∉ live d → a ≠ NULL →
     Q a (set_cells (<[a := ListT NULL NULL]> (d_cells d))
            (set_neigh (<[a := zero_neighbor]> (d_neigh d)) d))) →
  wp alloc_neighbor d Q.
Proof.
  intros HQ. unfold alloc_neighbor. apply wp_bind, wp_gets.
  destruct (malloc (live d)) as [t|] eqn:E; [|done].
  destruct (malloc_fresh _ _ E). apply wp_bind, wp_modify, wp_bind, wp_modify, wp_ret.
  by apply HQ.
Qed.

Lemma wp_upd_neighbor a f d v Q :
  a ≠ NULL → d_neigh d !! a = Some v →
  Q tt (set_neigh (<[a := f v]> (d_neigh d)) d) → wp (upd_neighbor a f) d Q.
Proof. intros. unfold upd_neighbor. apply wp_bind. by eapply wp_deref. Qed.

Lemma wp_upd_timer t f d v Q :
  t ≠ NULL → d_timers d !! t = Some v →
  Q tt (set_timers (<[t := f v]> (d_timers d)) d) → wp (upd_timer t f) d Q.
Proof. intros. unfold upd_timer. apply wp_bind. by eapply wp_deref. Qed.

Lemma not_live d a :
  a ∉ live d → d_cells d !! a = None ∧ d_neigh d !! a = None ∧ d_timers d !! a = None.
Proof.
  unfold live. rewrite !not_elem_of_union, !not_elem_of_dom. naive_solver.
Qed.
End alloc.

(** ** The effect of the operations *)
Section operations.
Context `{EventLib, Allocator}.

(** The part of the state the list operations leave alone. *)
Definition same_env (d d' : daemon) : Prop :=
  d_cleaner d' = d_cleaner d ∧ d_beacon d' = d_beacon d ∧
  d_expire_ms d' = d_expire_ms d ∧ d_cleaner_ms d' = d_cleaner_ms d ∧
  d_seqno d' = d_seqno d ∧ d_gps d' = d_gps d ∧ d_local d' = d_local d ∧
  d_sent d' = d_sent d.

Lemma same_env_refl d : same_env d d.
Proof. done. Qed.
Lemma same_env_trans d1 d2 d3 : same_env d1 d2 → same_env d2 d3 → same_env d1 d3.
Proof. unfold same_env. intuition congruence. Qed.

(** The entry that a packet leaves in the list. *)
Definition entry_of (pkt : geosvr_node_packet) (roadid : Z) (conn : addr) (n : neighbor) : Prop :=
  n_ip_addr n = p_saddr pkt ∧ n_latitude n = p_latitude pkt ∧
  n_longitude n = p_longitude pkt ∧ n_track n = p_track pkt ∧ n_speed n = p_speed pkt ∧
  n_seqno n = p_seqno pkt ∧ n_roadid n = u32 roadid ∧ n_conn_mgr n = conn ∧
  direct n = (p_direct pkt =? 1) ∧ indirect n = (p_direct pkt =? 0) ∧
  invalid n = false ∧ rebroadcast_done n = false.

Lemma table_insert d d' xs a v :
  table_ok d xs →
  ring (d_cells d') NEI_LIST (a :: xs) →
  dom (d_cells d') = {[a]} ∪ dom (d_cells d) →
  d_neigh d !! a = None → d_neigh d' = <[a := v]> (d_neigh d) →
  d_num d' = u32 (d_num d + 1) → d_local d' = d_local d →
  0 ≤ n_ip_addr v < 2 ^ 32 → n_ip_addr v ≠ d_local d →
  (∀ b n, d_neigh d !! b = Some n → n_ip_addr n ≠ n_ip_addr v) →
  table_ok d' (a :: xs).
Proof.
  intros Hw Hr Hdc Ha En Enum Elo Hip Hloc Hfresh. split.
  - done.
  - rewrite Hdc, (wf_cells _ _ Hw). simpl. set_solver +.
  - rewrite En, dom_insert_L, (wf_neigh _ _ Hw). done.
  - rewrite Enum, (wf_num _ _ Hw). unfold u32. simpl length.
    pose proof (wf_length_succ _ _ _ Hw Hip Hloc Hfresh). rewrite wrap_small; lia.
  - intros b c nb nc. rewrite En, !lookup_insert. intros Hb Hc E.
    case_decide; case_decide; simplify_eq; [done|exfalso; eapply Hfresh; eauto..|].
    by eapply (wf_ips _ _ Hw).
  - rewrite Elo. apply (wf_local _ _ Hw).
  - intros b n. rewrite En, Elo, lookup_insert. case_decide; [by intros [= <-]|].
    apply (wf_range _ _ Hw).
Qed.

(** The timers of [d'] are those of [d] and the two of the entry [a], which are new or
    were already its own. *)
Record entry_timers (d d' : daemon) (a : addr) (v : neighbor) : Prop := {
  et_expire : has_timer None d' (n_timeout_timer v) neigh_list_expire_cb a;
  et_rebroadcast : has_timer None d' (n_rebroadcast_timer v) rebroadcast_expire_cb a;
  et_new : ∀ t tm, d_timers d' !! t = Some tm →
    t ≠ n_timeout_timer v → t ≠ n_rebroadcast_timer v → 
    d_timers d !! t = Some tm ∧
    (func_ tm = neigh_list_expire_cb ∨ func_ tm = rebroadcast_expire_cb → data_ tm ≠ a);
  et_old : ∀ t tm, d_timers d !! t = Some tm →
    t ≠ n_timeout_timer v → t ≠ n_rebroadcast_timer v → d_timers d' !! t = Some tm;
  et_mine : ∀ t tm, d_timers d !! t = Some tm →
    t = n_timeout_timer v ∨ t = n_rebroadcast_timer v →
    (func_ tm = neigh_list_expire_cb ∨ func_ tm = rebroadcast_expire_cb) ∧ data_ tm = a;
  et_nonnull : n_timeout_timer v ≠ NULL ∧ n_rebroadcast_timer v ≠ NULL;
  et_pending : ∀ t, pending (d_base d') t =
    bool_decide (t = n_timeout_timer v ∨ t = n_rebroadcast_timer v) || pending (d_base d) t;
}.

Lemma timers_entry d d' a v :
  timers_ok None d → entry_timers d d' a v →
  d_neigh d' = <[a := v]> (d_neigh d) →
  d_cleaner d' = d_cleaner d → d_beacon d' = d_beacon d →
  invalid v = false → rebroadcast_done v = false →
  timers_ok None d'.
Proof.
  intros Hw He En Ecl Ebe Hi Hb.
  (* a timer of another owner is still there *)
  assert (∀ t f data, has_timer None d t f data →
    (f = neigh_list_expire_cb ∨ f = rebroadcast_expire_cb → data ≠ a) →
    has_timer None d' t f data) as Hkeep.
  { intros t f data [tv E] Hf. exists tv.
    destruct (decide (t = n_timeout_timer v ∨ t = n_rebroadcast_timer v)) as [D|D].
    - destruct (et_mine _ _ _ _ He _ _ E D) as [? ?]. naive_solver.
    - apply (et_old _ _ _ _ He); naive_solver. }
  split.
  - intros b n. rewrite En, lookup_insert. case_decide; [subst b; intros [= <-] _; apply He|].
    intros Hn Hi'. apply Hkeep; [|done]. by apply (wf_expire _ _ Hw).
  - intros b n. rewrite En, lookup_insert. case_decide; [subst b; intros [= <-] _; apply He|].
    intros Hn Hi'. apply Hkeep; [|done]. by apply (wf_rebroadcast _ _ Hw).
  - rewrite Ecl. apply Hkeep; [apply (wf_cleaner _ _ Hw)|naive_solver].
  - destruct (wf_beacon _ _ Hw) as [data Ht]. exists data. rewrite Ebe.
    apply Hkeep; [done|naive_solver].
  - intros t tm Ht. unfold owned. rewrite Ecl, Ebe, En.
    destruct (decide (t = n_timeout_timer v)) as [->|D1].
    { destruct (et_expire _ _ _ _ He) as [tv E]. rewrite E in Ht. injection Ht as <-. simpl.
      split; [apply He|]. exists v. by rewrite lookup_insert_eq. }
    destruct (decide (t = n_rebroadcast_timer v)) as [->|D2].
    { destruct (et_rebroadcast _ _ _ _ He) as [tv E]. rewrite E in Ht. injection Ht as <-.
      simpl. split; [apply He|]. exists v. by rewrite lookup_insert_eq. }
    destruct (et_new _ _ _ _ He _ _ Ht D1 D2) as [Ht' Hd].
    destruct (wf_owner _ _ Hw _ _ Ht') as [Ht0 Ho]. split; [done|].
    unfold owned in Ho.
    destruct (func_ tm); try done; rewrite lookup_insert_ne by naive_solver; done.
  - intros t. rewrite (et_pending _ _ _ _ He), (wf_pending _ _ Hw).
    unfold is_cur. destruct (et_expire _ _ _ _ He) as [tv1 E1].
    destruct (et_rebroadcast _ _ _ _ He) as [tv2 E2].
    case_bool_decide as D; simpl.
    + destruct D as [->| ->]; by rewrite ?E1, ?E2.
    + f_equal. apply bool_decide_ext. split; intros [tm Ht].
      * eexists. apply (et_old _ _ _ _ He); naive_solver.
      * eexists. apply (et_new _ _ _ _ He); naive_solver.
Qed.

Context (Hjunk : ∀ X, junk_bool X = false).

Lemma fresh_timer_owner d xs a :
  wf None d xs → d_neigh d !! a = None →
  ∀ t tm, d_timers d !! t = Some tm →
    func_ tm = neigh_list_expire_cb ∨ func_ tm = rebroadcast_expire_cb → data_ tm ≠ a.
Proof.
  intros [_ Hw] Ha t tm Ht Hf Ed. destruct (wf_owner _ _ Hw _ _ Ht) as [_ Ho].
  unfold owned in Ho. rewrite Ed, Ha in Ho. destruct (func_ tm); naive_solver.
Qed.

Lemma insert_state_flags n dir :
  dir = 0 ∨ dir = 1 → n_state n = insert_state dir →
  direct n = (dir =? 1) ∧ indirect n = (dir =? 0) ∧ invalid n = false ∧
  rebroadcast_done n = false.
Proof. intros Hd E. unfold direct, indirect, invalid, rebroadcast_done. rewrite E.
  destruct Hd as [-> | ->]; done. Qed.

(** [neigh_list_insert] adds the entry of the packet at the front of the table. *)
Lemma wp_insert d xs pkt roadid wt conn :
  wf None d xs → packet_ok pkt → p_saddr pkt ≠ d_local d →
  (∀ b n, d_neigh d !! b = Some n → n_ip_addr n ≠ p_saddr pkt) →
  wp (neigh_list_insert pkt roadid wt conn) d (λ a d', wf None d' (a :: xs) ∧ same_env d d' ∧
    ∃ n, d_neigh d' = <[a := n]> (d_neigh d) ∧ entry_of pkt roadid conn n).
Proof.
  intros Hwf (_ & Hip & Hdir & _) Hloc Hfresh. pose proof Hwf as [Htab Htim].
  unfold neigh_list_insert.
  apply wp_bind, wp_alloc_neighbor. intros a (Hc & Hn & Ht)%not_live Ha0.
  apply wp_bind. eapply wp_upd_neighbor; [done|simpl; by rewrite lookup_insert_eq|].
  apply wp_bind, wp_gets, wp_bind, wp_timer_new; [done|]. intros t1 (_ & _ & Ht1)%not_live Ht10.
  apply wp_bind. eapply wp_upd_neighbor; [done|simpl; by rewrite lookup_insert_eq|].
  apply wp_bind, wp_timer_new; [done|]. intros t2 (_ & _ & Ht2)%not_live Ht20.
  apply wp_bind. eapply wp_upd_neighbor; [done|simpl; by rewrite lookup_insert_eq|].
  apply wp_bind. eapply wp_upd_neighbor; [done|simpl; by rewrite lookup_insert_eq|].
  apply wp_bind, wp_modify, wp_bind, wp_zoom. simpl in *.
  rewrite !insert_insert_eq in *. apply lookup_insert_None in Ht2 as [Ht2 Hne].
  assert (a ∉ NEI_LIST :: xs) as Hax.
  { intros Hin. pose proof (ring_dom _ _ _ _ (wf_ring _ _ Htab) Hin) as [? E]. congruence. }
  destruct (list_add_ring (<[a := ListT NULL NULL]> (d_cells d)) NEI_LIST xs a)
    as (c' & Eq & Hr & Hdom & _); [|done|done|by rewrite lookup_insert_eq; eauto|].
  { eapply ring_frame; [apply (wf_ring _ _ Htab)|]. intros x Hx.
    rewrite lookup_insert_ne; [done|]. intros ->. done. }
  eapply wp_done; [exact Eq|]. apply wp_ret. simpl.
  match goal with |- context [with_conn ?c ?x] => set (v := with_conn c x) in * end.
  destruct (insert_state_flags v (p_direct pkt)) as (?&?&?&?); [lia|done|].
  split; [|split; [done|exists v; split; done]].
  split.
    + eapply table_insert with (v := v); simpl; try done. by rewrite Hdom, dom_insert_L.
    + eapply timers_entry with (a := a) (v := v); [exact Htim| |done..].
      split; unfold has_timer; change (n_timeout_timer v) with t1;
        change (n_rebroadcast_timer v) with t2; simpl.
      * eexists. rewrite lookup_insert_ne, lookup_insert_eq by done. done.
      * eexists. by rewrite lookup_insert_eq.
      * intros t tm Et ??. rewrite !lookup_insert_ne in Et by done.
        split; [done|]. by eapply fresh_timer_owner.
      * intros t tm Et ??. by rewrite !lookup_insert_ne by done.
      * intros t tm Et [-> | ->]; congruence.
      * done.
      * intros t. rewrite !pending_add. repeat case_bool_decide; naive_solver.
Qed.

Lemma table_update d d' xs a n v :
  table_ok d xs → d_neigh d !! a = Some n → n_ip_addr v = n_ip_addr n →
  d_neigh d' = <[a := v]> (d_neigh d) → d_cells d' = d_cells d → d_num d' = d_num d →
  d_local d' = d_local d → table_ok d' xs.
Proof.
  intros Hw Hn Eip En Ec Enum Elo.
  assert (∀ b m, d_neigh d' !! b = Some m →
    ∃ m', d_neigh d !! b = Some m' ∧ n_ip_addr m = n_ip_addr m') as Hback.
  { intros b m. rewrite En, lookup_insert. case_decide; subst; [|eauto].
    intros [= <-]. eauto. }
  split; rewrite ?Ec, ?Enum, ?Elo; try apply Hw.
  - rewrite En, dom_insert_lookup_L by eauto. apply Hw.
  - intros b c nb nc (mb & Hb & ->)%Hback (mc & Hc & ->)%Hback. by eapply (wf_ips _ _ Hw).
  - intros b m (m' & Hm & ->)%Hback. by eapply (wf_range _ _ Hw).
Qed.

Lemma entry_timers_update d d' a n v tv1 tv2 :
  timers_ok None d → d_neigh d !! a = Some n →
  (if invalid n then d_timers d !! n_timeout_timer v = None
   else n_timeout_timer v = n_timeout_timer n) →
  (if rebroadcast_done n then d_timers d !! n_rebroadcast_timer v = None
   else n_rebroadcast_timer v = n_rebroadcast_timer n) →
  n_timeout_timer v ≠ NULL → n_rebroadcast_timer v ≠ NULL →
  n_timeout_timer v ≠ n_rebroadcast_timer v →
  (∀ t, d_timers d' !! t =
     if decide (t = n_timeout_timer v) then Some (Timer tv1 neigh_list_expire_cb a false)
     else if decide (t = n_rebroadcast_timer v)
          then Some (Timer tv2 rebroadcast_expire_cb a false) else d_timers d !! t) →
  (∀ t, pending (d_base d') t =
    bool_decide (t = n_timeout_timer v ∨ t = n_rebroadcast_timer v) || pending (d_base d) t) →
  entry_timers d d' a v.
Proof.
  intros Hw Hn H1 H2 Hz1 Hz2 Hne Hl Hp.
  split; try done; unfold has_timer.
  - exists tv1. rewrite Hl. by rewrite decide_True.
  - exists tv2. rewrite Hl. by rewrite decide_False, decide_True by done.
  - intros t tm Ht D1 D2. rewrite Hl, !decide_False in Ht by done. split; [done|].
    intros Hf Ed. destruct (wf_owner _ _ Hw _ _ Ht) as [_ Ho]. unfold owned in Ho.
    rewrite Ed in Ho. destruct Hf as [Hf|Hf]; rewrite Hf in Ho;
      destruct Ho as (m & Hm & Hi & E); simplify_eq; rewrite Hi in *; congruence.
  - intros t tm Ht D1 D2. by rewrite Hl, !decide_False by done.
  - intros t tm Ht [-> | ->].
    + destruct (invalid n) eqn:Hi; [congruence|]. rewrite H1 in Ht.
      destruct (wf_expire _ _ Hw _ _ Hn Hi) as [tv E]. rewrite E in Ht.
      injection Ht as <-. auto.
    + destruct (rebroadcast_done n) eqn:Hi; [congruence|]. rewrite H2 in Ht.
      destruct (wf_rebroadcast _ _ Hw _ _ Hn Hi) as [tv E]. rewrite E in Ht.
      injection Ht as <-. auto.
Qed.

(** What the two conditional parts do to the entry [a] and to the timer [t] they set. *)
Record renewed (d d' : daemon) (a : addr) (v' : neighbor) (fresh : bool)
    (t : addr) (f : TimerCallback) (told : addr) : Prop := {
  rn_neigh : d_neigh d' = <[a := v']> (d_neigh d);
  rn_cells : d_cells d' = d_cells d;
  rn_num : d_num d' = d_num d;
  rn_env : same_env d d';
  rn_timer : if fresh then d_timers d !! t = None else t = told;
  rn_nonnull : t ≠ NULL;
  rn_lookup : ∃ tv, ∀ x, d_timers d' !! x =
    if decide (x = t) then Some (Timer tv f a false) else d_timers d !! x;
  rn_pending : ∀ x, pending (d_base d') x = bool_decide (x = t) || pending (d_base d) x;
}.

(** A timer that is there and pending, as [timers_ok] has it. *)
Definition armed (d : daemon) (t : addr) (f : TimerCallback) (a : addr) : Prop :=
  (∃ tv, d_timers d !! t = Some (Timer tv f a false)) ∧ t ≠ NULL ∧
  pending (d_base d) t = true.

Lemma timers_armed d t f a : timers_ok None d → has_timer None d t f a → armed d t f a.
Proof.
  intros Hw [tv Ht]. split; [by exists tv|]. split; [by eapply (wf_owner _ _ Hw)|].
  rewrite (wf_pending _ _ Hw), Ht. done.
Qed.

Definition revalidate (v : neighbor) : neighbor :=
  if invalid v then with_state (clear_flag NEIGH_STATE_INVALID (n_state v)) v else v.
Definition reschedule (v : neighbor) : neighbor :=
  if rebroadcast_done v then with_state (clear_flag NEIGH_STATE_REBROADCAST (n_state v)) v
  else v.

Lemma lookup_insert_if {V} (m : gmap N V) t v x :
  <[t := v]> m !! x = if decide (x = t) then Some v else m !! x.
Proof. rewrite lookup_insert. repeat case_decide; congruence. Qed.

Lemma wp_renew_expiry d a v :
  a ≠ NULL → d_neigh d !! a = Some v →
  (invalid v = false → armed d (n_timeout_timer v) neigh_list_expire_cb a) →
  wp (renew_expiry a) d (λ _ d', ∃ t, renewed d d' a (with_timeout t (revalidate v))
    (invalid v) t neigh_list_expire_cb (n_timeout_timer v)).
Proof.
  intros Ha Hv Harm. unfold renew_expiry, revalidate.
  apply wp_bind. eapply wp_deref; [done..|]. apply wp_bind, wp_gets.
  change (flag NEIGH_STATE_INVALID (n_state v)) with (invalid v).
  destruct (invalid v) eqn:Hi.
  - apply wp_bind. eapply wp_upd_neighbor; [done..|].
    apply wp_bind, wp_timer_new; [done|]. intros t (_ & _ & Ht)%not_live Ht0.
    eapply wp_upd_neighbor; [done|simpl; by rewrite lookup_insert_eq|]. exists t.
    split; simpl; try done; [by rewrite insert_insert_eq| |].
    + eexists. intros x. apply lookup_insert_if.
    + intros x. apply pending_add.
  - destruct (Harm eq_refl) as ([tv Ht] & Ht0 & Hp). unfold geosvr_timer_reset.
    apply wp_bind. eapply wp_upd_timer; [done..|].
    apply wp_bind, wp_modify, wp_modify. exists (n_timeout_timer v).
    split; simpl; try done.
    + rewrite insert_id; [done|]. rewrite Hv. by destruct v.
    + eexists. intros x. apply lookup_insert_if.
    + intros x. rewrite pending_add, pending_del. by repeat case_bool_decide.
Qed.

Lemma wp_renew_rebroadcast d a v wt :
  a ≠ NULL → d_neigh d !! a = Some v →
  (rebroadcast_done v = false → armed d (n_rebroadcast_timer v) rebroadcast_expire_cb a) →
  wp (renew_rebroadcast a wt) d (λ _ d', ∃ t, renewed d d' a (with_rebroadcast t (reschedule v))
    (rebroadcast_done v) t rebroadcast_expire_cb (n_rebroadcast_timer v)).
Proof.
  intros Ha Hv Harm. unfold renew_rebroadcast, reschedule.
  apply wp_bind. eapply wp_deref; [done..|].
  change (flag NEIGH_STATE_REBROADCAST (n_state v)) with (rebroadcast_done v).
  destruct (rebroadcast_done v) eqn:Hi.
  - apply wp_bind. eapply wp_upd_neighbor; [done..|].
    apply wp_bind, wp_timer_new; [done|]. intros t (_ & _ & Ht)%not_live Ht0.
    eapply wp_upd_neighbor; [done|simpl; by rewrite lookup_insert_eq|]. exists t.
    split; simpl; try done; [by rewrite insert_insert_eq| |].
    + eexists. intros x. apply lookup_insert_if.
    + intros x. apply pending_add.
  - destruct (Harm eq_refl) as ([tv Ht] & Ht0 & Hp).
    apply wp_ret. exists (n_rebroadcast_timer v). split; try done.
    + rewrite insert_id; [done|]. rewrite Hv. by destruct v.
    + exists tv. intros x. case_decide; by subst.
    + intros x. case_bool_decide; by subst.
Qed.

(** The flags of an entry once [neigh_list_update] is through with them. *)
Lemma update_state_flags n dir :
  dir = 0 ∨ dir = 1 →
  let v1 := with_state (update_state dir (n_state n)) n in
  let v := reschedule (revalidate v1) in
  direct v = (dir =? 1) ∧ indirect v = (dir =? 0) ∧ invalid v = false ∧
  rebroadcast_done v = false ∧ invalid v1 = invalid n ∧
  rebroadcast_done v1 = rebroadcast_done n ∧
  rebroadcast_done (revalidate v1) = rebroadcast_done n.
Proof.
  intros Hd v1 v. subst v v1. unfold reschedule, revalidate.
  destruct Hd as [-> | ->]; repeat case_match; flags; repeat split; congruence.
Qed.

(** The entry a packet leaves in place of [n]: the address is the old one's. *)
Definition updated_entry (pkt : geosvr_node_packet) (roadid : Z) (conn t1 t2 : addr)
    (n : neighbor) : neighbor :=
  with_conn conn (with_rebroadcast t2 (reschedule (with_timeout t1 (revalidate
    (with_roadid (u32 roadid) (with_state (update_state (p_direct pkt) (n_state n))
      (copy_packet pkt n))))))).

Lemma updated_entry_spec pkt roadid conn t1 t2 n :
  p_direct pkt = 0 ∨ p_direct pkt = 1 → n_ip_addr n = p_saddr pkt →
  let v := updated_entry pkt roadid conn t1 t2 n in
  entry_of pkt roadid conn v ∧ n_timeout_timer v = t1 ∧ n_rebroadcast_timer v = t2.
Proof.
  intros Hd Eip v. pose proof (update_state_flags n (p_direct pkt) Hd) as Hf.
  subst v. unfold updated_entry, entry_of, direct, indirect, invalid, rebroadcast_done,
    reschedule, revalidate, rebroadcast_done, invalid in *. simpl in *.
  repeat (case_match; simpl in *); naive_solver.
Qed.

(** The three versions of the entry during an update. *)
Definition copied (pkt : geosvr_node_packet) (roadid : Z) (n : neighbor) : neighbor :=
  with_roadid (u32 roadid) (with_state (update_state (p_direct pkt) (n_state n))
    (copy_packet pkt n)).

Lemma copied_spec pkt roadid n :
  p_direct pkt = 0 ∨ p_direct pkt = 1 →
  let v := copied pkt roadid n in
  invalid v = invalid n ∧ rebroadcast_done v = rebroadcast_done n.
Proof.
  intros Hd v. destruct (update_state_flags n (p_direct pkt) Hd) as (_&_&_&_&?&?&_). done.
Qed.

Lemma revalidate_spec v t :
  let v' := with_timeout t (revalidate v) in
  n_timeout_timer v' = t ∧ n_rebroadcast_timer v' = n_rebroadcast_timer v ∧
  rebroadcast_done v' = rebroadcast_done v.
Proof.
  unfold revalidate. split_and!; [by case_match..|]. case_match; [|done].
  unfold rebroadcast_done. flags. done.
Qed.

(** A timer of [n] other than the one just renewed stays armed. *)
Lemma renewed_armed d d' a n v' t :
  timers_ok None d → d_neigh d !! a = Some n → rebroadcast_done n = false →
  d_timers d' = d_timers d → d_base d' = d_base d →
  ∀ d'', renewed d' d'' a v' (invalid n) t neigh_list_expire_cb (n_timeout_timer n) →
  armed d'' (n_rebroadcast_timer n) rebroadcast_expire_cb a.
Proof.
  intros Hw Hn Hb Et Ebs d'' Hr.
  destruct (timers_armed _ _ _ _ Hw (wf_rebroadcast _ _ Hw _ _ Hn Hb)) as ([tv E] & H0' & Hp).
  destruct (rn_lookup _ _ _ _ _ _ _ _ Hr) as [tv' El].
  assert (n_rebroadcast_timer n ≠ t) as Hne.
  { intros <-. pose proof (rn_timer _ _ _ _ _ _ _ _ Hr) as Ht.
    destruct (invalid n) eqn:Hi; [congruence|].
    destruct (wf_expire _ _ Hw _ _ Hn Hi) as [tv2 E2]. congruence. }
  split; [exists tv; by rewrite El, decide_False, Et|]. split; [done|].
  rewrite (rn_pending _ _ _ _ _ _ _ _ Hr), Ebs, Hp. apply orb_true_r.
Qed.

(** Both renewals together leave the timers of the entry as [entry_timers] wants them. *)
Lemma entry_timers_merge d d1 d2 d3 d4 a n v2 v3 v4 t1 t2 :
  timers_ok None d → d_neigh d !! a = Some n →
  renewed d1 d2 a v2 (invalid n) t1 neigh_list_expire_cb (n_timeout_timer n) →
  renewed d2 d3 a v3 (rebroadcast_done n) t2 rebroadcast_expire_cb (n_rebroadcast_timer n) →
  d_timers d1 = d_timers d → d_base d1 = d_base d →
  d_timers d4 = d_timers d3 → d_base d4 = d_base d3 →
  n_timeout_timer v4 = t1 → n_rebroadcast_timer v4 = t2 →
  entry_timers d d4 a v4.
Proof.
  intros Hw Hn R2 R3 Et1 Eb1 Et4 Eb4 <- <-.
  destruct R2 as [_ _ _ _ F1 Z1 [tv1 L1] P1], R3 as [_ _ _ _ F2 Z2 [tv2 L2] P2].
  assert (n_timeout_timer v4 ≠ n_rebroadcast_timer v4) as Hne.
  { intros E. rewrite <- E in F2. destruct (rebroadcast_done n) eqn:Hb.
    - rewrite L1, decide_True in F2; done.
    - destruct (wf_rebroadcast _ _ Hw _ _ Hn Hb) as [tv Ht]. rewrite <- F2 in Ht.
      destruct (invalid n) eqn:Hi; [congruence|].
      destruct (wf_expire _ _ Hw _ _ Hn Hi) as [tv' Ht']. congruence. }
  eapply (entry_timers_update _ _ _ n _ tv1 tv2); try done.
  - destruct (invalid n); congruence.
  - destruct (rebroadcast_done n); [|done]. rewrite L1 in F2. rewrite decide_False in F2 by done.
    congruence.
  - intros t. rewrite Et4, L2, L1, Et1. repeat case_decide; congruence.
  - intros t. rewrite Eb4, P2, P1, Eb1. repeat case_bool_decide; naive_solver.
Qed.

(** [neigh_list_update] replaces the entry of the packet's source. *)
Lemma wp_update d xs a n pkt roadid wt conn :
  wf None d xs → packet_ok pkt → d_neigh d !! a = Some n → n_ip_addr n = p_saddr pkt →
  wp (neigh_list_update a pkt roadid wt conn) d (λ r d', r = a ∧ wf None d' xs ∧ same_env d d' ∧
    ∃ v, d_neigh d' = <[a := v]> (d_neigh d) ∧ entry_of pkt roadid conn v).
Proof.
  intros [Htab Htim] (_ & _ & Hdir & _) Hn Eip.
  assert (a ≠ NULL) as Ha0.
  { eapply wf_nonnull; [exact Htab|]. apply (wf_lookup _ _ _ Htab). eauto. }
  assert (p_direct pkt = 0 ∨ p_direct pkt = 1) as Hdir' by lia.
  unfold neigh_list_update. apply wp_bind. eapply wp_upd_neighbor; [done..|].
  fold (copied pkt roadid n).
  destruct (copied_spec pkt roadid n Hdir') as [Ei Er].
  set (v1 := copied pkt roadid n) in *.
  set (d1 := set_neigh _ d) in *.
  apply wp_bind. eapply wp_mono.
  { apply (wp_renew_expiry d1 a v1); [done|by apply lookup_insert_eq|]. rewrite Ei. intros Hi.
    change (armed d (n_timeout_timer n) neigh_list_expire_cb a).
    apply timers_armed; [done|]. by apply (wf_expire _ _ Htim). }
  intros _ d2 [t1 R2]. rewrite Ei in R2. change (n_timeout_timer v1) with (n_timeout_timer n) in R2.
  destruct (revalidate_spec v1 t1) as (T1 & T2 & Er2).
  set (v2 := with_timeout t1 (revalidate v1)) in *.
  apply wp_bind. eapply wp_mono.
  { apply (wp_renew_rebroadcast d2 a v2); [done|rewrite (rn_neigh _ _ _ _ _ _ _ _ R2);
      by apply lookup_insert_eq|]. rewrite T2, Er2, Er. intros Hb.
    change (armed d2 (n_rebroadcast_timer n) rebroadcast_expire_cb a).
    eapply (renewed_armed d d1); [exact Htim|exact Hn|congruence|done|done|exact R2]. }
  intros _ d3 [t2 R3]. rewrite T2, Er2, Er in R3.
  change (n_rebroadcast_timer v1) with (n_rebroadcast_timer n) in R3.
  set (v3 := with_rebroadcast t2 (reschedule v2)) in *.
  apply wp_bind. eapply wp_upd_neighbor; [done|rewrite (rn_neigh _ _ _ _ _ _ _ _ R3);
    by apply lookup_insert_eq|].
  apply wp_ret. split; [done|].
  destruct (updated_entry_spec pkt roadid conn t1 t2 n Hdir' Eip) as (Hent & Et1 & Et2).
  change (updated_entry pkt roadid conn t1 t2 n) with (with_conn conn v3) in *.
  set (v4 := with_conn conn v3) in *.
  pose proof (rn_neigh _ _ _ _ _ _ _ _ R2) as En2. pose proof (rn_neigh _ _ _ _ _ _ _ _ R3) as En3.
  assert (d_neigh (set_neigh (<[a := v4]> (d_neigh d3)) d3) = <[a := v4]> (d_neigh d)) as En4.
  { simpl. rewrite En3, En2. simpl. by rewrite !insert_insert_eq. }
  assert (same_env d (set_neigh (<[a := v4]> (d_neigh d3)) d3)) as Henv.
  { eapply same_env_trans; [exact (rn_env _ _ _ _ _ _ _ _ R2)|].
    exact (rn_env _ _ _ _ _ _ _ _ R3). }
  split; [|split; [done|by exists v4]]. split.
  - eapply table_update with (v := v4);
      [exact Htab|exact Hn|destruct Hent as [-> _]; done|exact En4| | |apply Henv]; simpl.
    + by rewrite (rn_cells _ _ _ _ _ _ _ _ R3), (rn_cells _ _ _ _ _ _ _ _ R2).
    + by rewrite (rn_num _ _ _ _ _ _ _ _ R3), (rn_num _ _ _ _ _ _ _ _ R2).
  - eapply timers_entry; [exact Htim| |exact En4|apply Henv..|apply Hent|apply Hent].
    eapply entry_timers_merge; [exact Htim|exact Hn|exact R2|exact R3|done..].
Qed.

Lemma table_remove d d' l1 a l2 n :
  table_ok d (l1 ++ a :: l2) → d_neigh d !! a = Some n →
  ring (d_cells d') NEI_LIST (l1 ++ l2) →
  dom (d_cells d') = dom (d_cells d) ∖ {[a]} →
  d_neigh d' = delete a (d_neigh d) →
  d_num d' = u32 (d_num d - 1) → d_local d' = d_local d →
  table_ok d' (l1 ++ l2).
Proof.
  intros Hw Hn Hr Hc En Enum Elo.
  destruct (wf_ring _ _ Hw) as (Hnd & _).
  assert (a ∉ NEI_LIST :: l1 ++ l2) as Ha.
  { change (NoDup ((NEI_LIST :: l1) ++ a :: l2)) in Hnd.
    rewrite <- Permutation_middle in Hnd. by apply NoDup_cons in Hnd as [? _]. }
  split.
  - done.
  - rewrite Hc, (wf_cells _ _ Hw), !list_to_set_app_L, list_to_set_cons. set_solver +Ha.
  - rewrite En, dom_delete_L, (wf_neigh _ _ Hw), !list_to_set_app_L, list_to_set_cons.
    set_solver +Ha.
  - rewrite Enum, (wf_num _ _ Hw). pose proof (wf_length _ _ Hw) as Hl.
    rewrite !length_app in *. simpl in *. unfold u32. rewrite wrap_small; lia.
  - intros b c nb nc. rewrite En, !lookup_delete_Some. intros [_ Hb] [_ Hc'].
    by eapply (wf_ips _ _ Hw).
  - rewrite Elo. apply (wf_local _ _ Hw).
  - intros b m. rewrite En, Elo, lookup_delete_Some. intros [_ Hb].
    by eapply (wf_range _ _ Hw).
Qed.

(** The timers once the entry [a] is freed: [gone] is its rebroadcast timer, if that
    was still waiting. *)
Lemma timers_remove cur d d' a n (gone : bool) :
  timers_ok cur d → d_neigh d !! a = Some n → invalid n = true →
  gone = negb (rebroadcast_done n) →
  d_neigh d' = delete a (d_neigh d) →
  d_cleaner d' = d_cleaner d → d_beacon d' = d_beacon d →
  (∀ t, d_timers d' !! t = if gone && bool_decide (t = n_rebroadcast_timer n) then None
                           else d_timers d !! t) →
  (∀ t, pending (d_base d') t =
     negb (gone && bool_decide (t = n_rebroadcast_timer n)) && pending (d_base d) t) →
  timers_ok cur d'.
Proof.
  intros Hw Hn Hi -> En Ecl Ebe Hl Hp.
  assert (∀ t f data, has_timer cur d t f data → f ≠ rebroadcast_expire_cb ∨ data ≠ a →
    has_timer cur d' t f data) as Hkeep.
  { intros t f data [tv E] Hf. exists tv. rewrite Hl. case_match eqn:Hg; [|done].
    apply andb_true_iff in Hg as [Hb%negb_true_iff ->%bool_decide_eq_true].
    destruct (wf_rebroadcast _ _ Hw _ _ Hn Hb) as [tv' E']. naive_solver congruence. }
  split.
  - intros b m. rewrite En, lookup_delete_Some. intros [Hne Hm] Hi'.
    apply Hkeep; [by apply (wf_expire _ _ Hw)|by left].
  - intros b m. rewrite En, lookup_delete_Some. intros [Hne Hm] Hi'.
    apply Hkeep; [by apply (wf_rebroadcast _ _ Hw)|by right].
  - rewrite Ecl. apply Hkeep; [apply (wf_cleaner _ _ Hw)|by left].
  - rewrite Ebe. destruct (wf_beacon _ _ Hw) as [data Ht]. exists data.
    apply Hkeep; [done|by left].
  - intros t tm. rewrite Hl. case_match eqn:Hg; [done|]. intros Ht.
    destruct (wf_owner _ _ Hw _ _ Ht) as [Ht0 Ho]. split; [done|].
    unfold owned in *. rewrite Ecl, Ebe, En.
    destruct (func_ tm); try done; destruct Ho as (m & Hm & Hf & Et);
      exists m; rewrite lookup_delete_ne; try done; intros ->; simplify_eq; [congruence|].
    by rewrite Hf, bool_decide_eq_true_2 in Hg.
  - intros t. rewrite Hp, Hl, (wf_pending _ _ Hw). by case_match.
Qed.

Lemma wp_timer_free t d tm Q :
  t ≠ NULL → d_timers d !! t = Some tm → in_cb_ tm = false →
  Q tt (set_timers (delete t (d_timers d)) (set_base (evtimer_del t (d_base d)) d)) →
  wp (geosvr_timer_free t) d Q.
Proof.
  intros Ht0 Ht Hin HQ. unfold geosvr_timer_free. rewrite decide_False by done.
  apply wp_bind. eapply wp_deref; [done..|]. rewrite Hin. by apply wp_bind, wp_modify, wp_modify.
Qed.

(** [neigh_list_delete] of an expired entry, as the cleaner calls it. *)
Lemma wp_delete cur d l1 a l2 n :
  wf cur d (l1 ++ a :: l2) → (∀ t, cur = Some t → t = d_cleaner d) →
  d_neigh d !! a = Some n → invalid n = true →
  wp (neigh_list_delete a) d (λ _ d', wf cur d' (l1 ++ l2) ∧ same_env d d' ∧
    d_neigh d' = delete a (d_neigh d)).
Proof.
  intros [Htab Htim] Hcur Hn Hi.
  assert (a ≠ NULL) as Ha0 by (eapply wf_nonnull; [exact Htab|set_solver +]).
  unfold neigh_list_delete. rewrite decide_False by done.
  destruct (list_detach_ring _ _ _ _ _ (wf_ring _ _ Htab)) as (c' & Eq & Hr & Hdom & _).
  apply wp_bind, wp_zoom. eapply wp_done; [exact Eq|].
  apply wp_bind. eapply wp_deref; [done|exact Hn|].
  change (flag NEIGH_STATE_REBROADCAST (n_state n)) with (rebroadcast_done n).
  (* the state before the count is taken down *)
  assert (∀ d1, d_cells d1 = c' → d_num d1 = d_num d → same_env d d1 →
    delete a (d_neigh d1) = delete a (d_neigh d) → is_Some (d_neigh d1 !! a) →
    (∀ t, d_timers d1 !! t = if negb (rebroadcast_done n) && bool_decide (t = n_rebroadcast_timer n)
       then None else d_timers d !! t) →
    (∀ t, pending (d_base d1) t = negb (negb (rebroadcast_done n) &&
       bool_decide (t = n_rebroadcast_timer n)) && pending (d_base d) t) →
    wp (_ ← modify (λ d, set_num (u32 (d_num d - 1)) d); free_neighbor a) d1
      (λ _ d', wf cur d' (l1 ++ l2) ∧ same_env d d' ∧ d_neigh d' = delete a (d_neigh d))) as Hrest.
  { intros d1 Ec Enum Henv En [n1 Hn1] Hl Hp. apply wp_bind, wp_modify. unfold free_neighbor.
    apply wp_bind. eapply wp_deref; [done|exact Hn1|].
    apply wp_bind, wp_modify, wp_modify. split; [|by split]. split.
    - eapply table_remove; [exact Htab|exact Hn|..]; simpl; [| |done|by rewrite Enum|apply Henv].
      + rewrite Ec. eapply ring_frame; [exact Hr|]. intros x Hx. rewrite lookup_delete_ne; [done|].
        intros <-. destruct (wf_ring _ _ Htab) as (Hnd & _).
        change (NoDup ((NEI_LIST :: l1) ++ a :: l2)) in Hnd.
        rewrite <- Permutation_middle in Hnd. by apply NoDup_cons in Hnd as [? _].
      + by rewrite Ec, dom_delete_L, Hdom.
    - eapply timers_remove; [exact Htim|exact Hn|exact Hi|reflexivity|done| | |exact Hl|exact Hp];
        apply Henv. }
  destruct (rebroadcast_done n) eqn:Hb; simpl in Hrest |- *; rewrite ?andb_false_r.
  - apply wp_bind, wp_ret, Hrest; simpl; done.
  - destruct (wf_rebroadcast _ _ Htim _ _ Hn Hb) as [tv Ht].
    assert (n_rebroadcast_timer n ≠ NULL) as Ht0 by by eapply (wf_owner _ _ Htim).
    assert (is_cur cur (n_rebroadcast_timer n) = false) as Hnc.
    { apply bool_decide_eq_false. intros Ec%Hcur. destruct (wf_cleaner _ _ Htim) as [tv' E'].
      congruence. }
    rewrite bool_decide_eq_true_2 by done. simpl.
    apply wp_bind, wp_bind. eapply wp_timer_free; [done|exact Ht|exact Hnc|].
    eapply wp_upd_neighbor; [done|exact Hn|]. apply Hrest; simpl; try done.
    + by rewrite delete_insert_eq.
    + rewrite lookup_insert_eq. by eexists.
    + intros t. rewrite lookup_delete. case_decide; case_bool_decide; congruence.
    + intros t. rewrite pending_del. by repeat case_bool_decide.
Qed.

Lemma wp_dump d xs : table_ok d xs → wp neigh_list_dump d (λ _ d', d' = d).
Proof.
  intros Hw. unfold neigh_list_dump. apply wp_bind.
  eapply wp_list_foreach_safe with
    (I := λ rem _ s, s = d ∧ ∃ pre, xs = pre ++ rem); try done.
  - intros rem _ s (-> & pre & E). exists pre. rewrite <- E. by apply wf_ring.
  - intros x rem [] s (-> & pre & E).
    assert (x ∈ xs) as Hx by (rewrite E; set_solver +).
    destruct (wf_nonnull _ _ _ Hw Hx) as [Hx0 _]. apply (wf_lookup _ _ _ Hw) in Hx as [n Hn].
    apply wp_bind. eapply wp_deref; [done..|]. apply wp_ret. split; [done|].
    exists (pre ++ [x]). by rewrite <- app_assoc.
  - by intros _ s [-> _].
  - by apply wf_ring.
  - split; [done|]. by exists [].
Qed.

(** The entries the cleaner keeps. *)
Definition kept (d : daemon) (a : addr) : Prop :=
  ∃ n, d_neigh d !! a = Some n ∧ invalid n = false.
#[export] Instance kept_dec d a : Decision (kept d a).
Proof.
  destruct (d_neigh d !! a) as [n|] eqn:E; [|right; intros (n & ? & _); congruence].
  destruct (invalid n) eqn:Hi; [right; intros (m & ? & ?); congruence|left; by exists n].
Defined.

(** The cleaner in the middle of its traversal: [rem] is still to be visited. *)
Definition cleaning (cur : option addr) (d : daemon) (xs rem : list addr) (s : daemon) : Prop :=
  ∃ seen, xs = seen ++ rem ∧ wf cur s (filter (kept d) seen ++ rem) ∧ same_env d s ∧
    ∀ a, d_neigh s !! a = if decide (kept d a ∨ a ∈ rem) then d_neigh d !! a else None.

Lemma cleaning_step cur d xs x rem s :
  (∀ t, cur = Some t → t = d_cleaner d) → NoDup xs →
  cleaning cur d xs (x :: rem) s →
  wp (n ← deref d_neigh x;
      _ ← (if flag NEIGH_STATE_INVALID (n_state n) then neigh_list_delete x else skip);
      mret (inr (A := unit) tt)) s
    (λ r s', match r with inl _ => False | inr _ => cleaning cur d xs rem s' end).
Proof.
  intros Hcur Hnd (seen & -> & Hwf & Henv & Hs).
  assert (x ∉ rem) as Hxr.
  { apply NoDup_app in Hnd as (_ & _ & Hnd). by apply NoDup_cons in Hnd as [? _]. }
  assert (x ∈ filter (kept d) seen ++ x :: rem) as Hx by set_solver +.
  destruct (wf_nonnull _ _ _ (proj1 Hwf) Hx) as [Hx0 _].
  apply (wf_lookup _ _ _ (proj1 Hwf)) in Hx as [n Hn].
  assert (d_neigh d !! x = Some n) as Hnd'.
  { rewrite Hs, decide_True in Hn by set_solver +. done. }
  apply wp_bind. eapply wp_deref; [done..|].
  change (flag NEIGH_STATE_INVALID (n_state n)) with (invalid n).
  destruct (invalid n) eqn:Hi; apply wp_bind.
  - eapply wp_mono.
    { eapply wp_delete; [exact Hwf| |done..]. intros t ->%Hcur. by destruct Henv as [-> _]. }
    intros _ s' (Hwf' & Henv' & En). apply wp_ret. exists (seen ++ [x]).
    assert (¬ kept d x) as Hk by (intros (m & ? & ?); congruence).
    split; [by rewrite <- app_assoc|]. split_and!.
    + by rewrite filter_app, filter_cons_False, filter_nil, app_nil_r by done.
    + by eapply same_env_trans.
    + intros a. rewrite En, lookup_delete, Hs. repeat case_decide; set_solver.
  - apply wp_ret, wp_ret. exists (seen ++ [x]).
    assert (kept d x) as Hk by by exists n.
    split; [by rewrite <- app_assoc|]. split_and!; [|done|].
    + by rewrite filter_app, filter_cons_True, filter_nil, <- app_assoc by done.
    + intros a. rewrite Hs. repeat case_decide; set_solver.
Qed.

(** [list_cleaner_cb] frees the expired entries and no others. *)
Lemma wp_cleaner cur d xs :
  wf cur d xs → (∀ t, cur = Some t → t = d_cleaner d) →
  wp list_cleaner_cb d (λ r d', r = 1 ∧ wf cur d' (filter (kept d) xs) ∧ same_env d d' ∧
    ∀ a, d_neigh d' !! a = if decide (kept d a) then d_neigh d !! a else None).
Proof.
  intros Hwf Hcur. unfold list_cleaner_cb.
  apply wp_bind. eapply wp_mono; [by eapply wp_dump, Hwf|]. intros _ d' ->. apply wp_bind.
  eapply wp_list_foreach_safe with (I := λ rem _ s, cleaning cur d xs rem s).
  - intros rem _ s (seen & _ & [Ht _] & _). eexists. apply (wf_ring _ _ Ht).
  - intros x rem [] s Hc. eapply wp_mono; [apply cleaning_step; [done| |done]|].
    + destruct (wf_ring _ _ (proj1 Hwf)) as (Hnd & _). by apply NoDup_cons in Hnd as [_ ?].
    + by intros [[]|[]] s'.
  - intros _ s (seen & -> & Hw & Henv & Hs). apply wp_ret. rewrite !app_nil_r in *.
    split_and!; try done. intros a. rewrite Hs. repeat case_decide; set_solver.
  - apply (wf_ring _ _ (proj1 Hwf)).
  - exists []. split_and!; try done. intros a. case_decide as D; [done|].
    apply eq_None_not_Some. intros Hsome. apply D. right.
    by apply (wf_lookup _ _ _ (proj1 Hwf)).
Qed.
End operations.
