(* ===== verification/Wire.v ===== *)
(** * Memory images

    The bytes of the integers, doubles and structures the daemon copies to and from the
    network, as a little-endian machine with IEEE 754 doubles and the usual x86-64 layout
    rules lays them out.  A byte is an integer from 0 to 255. *)
From Stdlib Require Import Floats.SpecFloat.
From S2P Require Import Prelude Double Gps LinkedList Daemon.
Open Scope Z_scope.

(** ** Integers *)
Fixpoint le_bytes (n : nat) (z : Z) : list Z :=
  match n with
  | O => []
  | S n => z `mod` 256 :: le_bytes n (z `div` 256)
  end.

Fixpoint le_value (l : list Z) : Z :=
  match l with
  | [] => 0
  | b :: l => b + 256 * le_value l
  end.

Lemma le_bytes_length n z : length (le_bytes n z) = n.
Proof. revert z. induction n as [|n IH]; intros z; simpl; [done|]. by rewrite IH. Qed.

Lemma le_bytes_range n z : Forall (λ b, 0 ≤ b < 256) (le_bytes n z).
Proof.
  revert z. induction n as [|n IH]; intros z; simpl; constructor; [|done].
  apply Z.mod_pos_bound. lia.
Qed.

Lemma le_value_bytes n z : le_value (le_bytes n z) = z `mod` 2 ^ (8 * Z.of_nat n).
Proof.
  revert z. induction n as [|n IH]; intros z; simpl le_bytes; simpl le_value.
  { by rewrite Z.mod_1_r. }
  rewrite IH. replace (8 * Z.of_nat (S n)) with (8 + 8 * Z.of_nat n) by lia.
  rewrite Z.pow_add_r by lia. change (2 ^ 8) with 256.
  rewrite Z.rem_mul_r by (try lia; apply Z.pow_pos_nonneg; lia). done.
Qed.

Lemma le_value_range l :
  Forall (λ b, 0 ≤ b < 256) l → 0 ≤ le_value l < 2 ^ (8 * Z.of_nat (length l)).
Proof.
  induction 1 as [|b l Hb Hl IH]; simpl le_value; simpl length; [done|].
  replace (8 * Z.of_nat (S (length l))) with (8 + 8 * Z.of_nat (length l)) by lia.
  rewrite Z.pow_add_r by lia. change (2 ^ 8) with 256. lia.
Qed.

Lemma le_bytes_value l :
  Forall (λ b, 0 ≤ b < 256) l → le_bytes (length l) (le_value l) = l.
Proof.
  induction 1 as [|b l Hb Hl IH]; simpl; [done|].
  rewrite (Z.mul_comm 256), Z_mod_plus_full, Z.mod_small by lia.
  rewrite Z.div_add, Z.div_small, Z.add_0_l by lia. by rewrite IH.
Qed.

(** ** Doubles *)

(** The 64 bits: sign, eleven bits of exponent, fifty-two of fraction. *)
Definition sign_bit (s : bool) : Z := if s then 2 ^ 63 else 0.
Definition bits_of_double (x : double) : Z :=
  match x with
  | S754_zero s => sign_bit s
  | S754_infinity s => sign_bit s + 2047 * 2 ^ 52
  | S754_nan => 2047 * 2 ^ 52 + 2 ^ 51
  | S754_finite s m e =>
      if Z.pos m <? 2 ^ 52 then sign_bit s + Z.pos m
      else sign_bit s + (e + 1075) * 2 ^ 52 + (Z.pos m - 2 ^ 52)
  end.

Definition double_of_bits (b : Z) : double :=
  let s := negb (b / 2 ^ 63 =? 0)%Z in
  let e := ((b / 2 ^ 52) mod 2048)%Z in
  let f := (b mod 2 ^ 52)%Z in
  if (e =? 0)%Z then
    match f with Zpos m => S754_finite s m (-1074) | _ => S754_zero s end
  else if (e =? 2047)%Z then
    if (f =? 0)%Z then S754_infinity s else S754_nan
  else
    match (f + 2 ^ 52)%Z with Zpos m => S754_finite s m (e - 1075) | _ => S754_nan end.

Lemma valid_finite s m e :
  valid (S754_finite s m e) = true →
  (Z.pos m < 2 ^ 52 ∧ e = -1074) ∨ (2 ^ 52 ≤ Z.pos m < 2 ^ 53 ∧ -1074 ≤ e ≤ 971).
Proof.
  unfold valid, valid_binary, bounded, canonical_mantissa, fexp, emin. rewrite andb_true_iff.
  intros [He%Zeq_bool_eq Hm%Zle_bool_imp_le].
  pose proof (digits2_pos_bounds m) as [H1 H2].
  set (dg := Z.pos (digits2_pos m)) in *.
  assert (dg ≤ 53) as Hdg by lia.
  destruct (decide (dg = 53)) as [E|E].
  - right. rewrite E in *. lia.
  - left. split; [|lia]. eapply Z.lt_le_trans; [exact H2|]. apply Z.pow_le_mono_r; lia.
Qed.

Lemma double_fields s e f :
  0 ≤ e < 2048 → 0 ≤ f < 2 ^ 52 →
  let b := sign_bit s + e * 2 ^ 52 + f in
  negb (b / 2 ^ 63 =? 0) = s ∧ (b / 2 ^ 52) mod 2048 = e ∧ b `mod` 2 ^ 52 = f ∧
  0 ≤ b < 2 ^ 64.
Proof.
  intros He Hf b. unfold b, sign_bit. split_and!.
  - destruct s; [apply negb_true_iff, Z.eqb_neq|apply negb_false_iff, Z.eqb_eq].
    + intros E. apply Z.div_small_iff in E; lia.
    + apply Z.div_small. lia.
  - destruct s.
    + replace (2 ^ 63 + e * 2 ^ 52 + f) with (f + (2048 + e) * 2 ^ 52) by lia.
      rewrite Z.div_add, Z.div_small by lia. rewrite Z.add_0_l.
      replace (2048 + e) with (e + 1 * 2048) by lia.
      rewrite Z_mod_plus_full. by apply Z.mod_small.
    + replace (0 + e * 2 ^ 52 + f) with (f + e * 2 ^ 52) by lia.
      rewrite Z.div_add, Z.div_small by lia. by apply Z.mod_small.
  - destruct s.
    + replace (2 ^ 63 + e * 2 ^ 52 + f) with (f + (2048 + e) * 2 ^ 52) by lia.
      rewrite Z_mod_plus_full. by apply Z.mod_small.
    + replace (0 + e * 2 ^ 52 + f) with (f + e * 2 ^ 52) by lia.
      rewrite Z_mod_plus_full. by apply Z.mod_small.
  - destruct s; lia.
  - destruct s; lia.
Qed.

Lemma double_of_fields s e f :
  0 ≤ e < 2048 → 0 ≤ f < 2 ^ 52 →
  double_of_bits (sign_bit s + e * 2 ^ 52 + f) =
    if (e =? 0)%Z then match f with Zpos m => S754_finite s m (-1074) | _ => S754_zero s end
    else if (e =? 2047)%Z then if (f =? 0)%Z then S754_infinity s else S754_nan
    else match (f + 2 ^ 52)%Z with Zpos m => S754_finite s m (e - 1075) | _ => S754_nan end.
Proof.
  intros He Hf. destruct (double_fields s e f He Hf) as (E1 & E2 & E3 & _).
  unfold double_of_bits. by rewrite E1, E2, E3.
Qed.

(** The fields of the image of a double. *)
Lemma bits_fields x :
  valid x = true → ∃ s e f, bits_of_double x = sign_bit s + e * 2 ^ 52 + f ∧
    0 ≤ e < 2048 ∧ 0 ≤ f < 2 ^ 52 ∧ double_of_bits (bits_of_double x) = x.
Proof.
  intros Hv. destruct x as [s|s| |s m e].
  - exists s, 0, 0. simpl. split_and!; try lia. by destruct s.
  - exists s, 2047, 0. simpl bits_of_double. split_and!; try lia. by destruct s.
  - exists false, 2047, (2 ^ 51). split_and!; (done || lia).
  - apply valid_finite in Hv as [[Hm ->]|[Hm He]]; unfold bits_of_double.
    + exists s, 0, (Z.pos m). rewrite (proj2 (Z.ltb_lt _ _) Hm).
      replace (sign_bit s + Z.pos m) with (sign_bit s + 0 * 2 ^ 52 + Z.pos m) by lia.
      split_and!; try lia. by rewrite double_of_fields by lia.
    + exists s, (e + 1075), (Z.pos m - 2 ^ 52). rewrite (proj2 (Z.ltb_ge _ _)) by lia.
      split_and!; try lia. rewrite double_of_fields by lia.
      rewrite (proj2 (Z.eqb_neq _ _)), (proj2 (Z.eqb_neq _ _)) by lia.
      replace (Z.pos m - 2 ^ 52 + 2 ^ 52) with (Z.pos m) by lia. f_equal. lia.
Qed.

Lemma double_of_bits_of_double x :
  valid x = true → double_of_bits (bits_of_double x) = x.
Proof. by intros (? & ? & ? & ? & ? & ? & ?)%bits_fields. Qed.

Lemma bits_of_double_range x : valid x = true → 0 ≤ bits_of_double x < 2 ^ 64.
Proof.
  intros (s & e & f & -> & He & Hf & _)%bits_fields.
  by destruct (double_fields s e f He Hf) as (_ & _ & _ & ?).
Qed.

Example bits_of_one : bits_of_double (d_of_Z 1) = 4607182418800017408.
Proof. vm_compute. reflexivity. Qed.

(** ** Reading and writing members *)

(** The integer of [n] bytes at offset [off]; [None] is an access outside the block. *)
Definition load (off n : nat) (l : list Z) : option Z :=
  let s := take n (drop off l) in
  if decide (length s = n) then Some (le_value s) else None.

Lemma load_app pre n z post :
  load (length pre) n (pre ++ le_bytes n z ++ post) = Some (z `mod` 2 ^ (8 * Z.of_nat n)).
Proof.
  unfold load. rewrite drop_app_length, take_app_le by (rewrite le_bytes_length; lia).
  rewrite take_ge by (rewrite le_bytes_length; lia).
  rewrite decide_True by apply le_bytes_length. by rewrite le_value_bytes.
Qed.

(** ** Node packets

    Two 32-bit addresses, four doubles, and a word of bit fields, the first in the low
    bit; four bytes of padding make the size a multiple of eight. *)
Definition NODE_PACKET_SIZE : nat := 48.

Definition image_node_packet (p : geosvr_node_packet) : list Z :=
  le_bytes 4 (p_taddr p) ++ le_bytes 4 (p_saddr p) ++
  le_bytes 8 (bits_of_double (p_latitude p)) ++ le_bytes 8 (bits_of_double (p_longitude p)) ++
  le_bytes 8 (bits_of_double (p_track p)) ++ le_bytes 8 (bits_of_double (p_speed p)) ++
  le_bytes 4 (p_direct p + 2 * p_seqno p) ++ le_bytes 4 0.

Definition read_node_packet (l : list Z) : option geosvr_node_packet :=
  taddr ← load 0 4 l; saddr ← load 4 4 l;
  lat ← load 8 8 l; lon ← load 16 8 l; track ← load 24 8 l; speed ← load 32 8 l;
  w ← load 40 4 l;
  Some (NodePacket taddr saddr (double_of_bits lat) (double_of_bits lon)
    (double_of_bits track) (double_of_bits speed) (w `mod` 2) (w `div` 2)).

(** A packet whose members are values of their types. *)
Definition packet_valid (p : geosvr_node_packet) : Prop :=
  packet_ok p ∧ valid (p_latitude p) = true ∧ valid (p_longitude p) = true ∧
  valid (p_track p) = true ∧ valid (p_speed p) = true.

Lemma image_node_packet_length p : length (image_node_packet p) = NODE_PACKET_SIZE.
Proof. unfold image_node_packet. by rewrite !length_app, !le_bytes_length. Qed.

(** Split an image at a member. *)
Ltac load_member pre :=
  match goal with |- load ?off ?n ?l = _ =>
    change off with (length pre) end.

Lemma load_at pre off n z post r :
  length pre = off → 0 ≤ z < 2 ^ (8 * Z.of_nat n) → r = pre ++ le_bytes n z ++ post →
  load off n r = Some z.
Proof. intros <- Hz ->. rewrite load_app. by rewrite Z.mod_small. Qed.

Lemma read_image_node_packet p :
  packet_valid p → read_node_packet (image_node_packet p) = Some p.
Proof.
  intros ((Ht & Hs & Hd & Hq) & V1 & V2 & V3 & V4).
  pose proof (bits_of_double_range _ V1). pose proof (bits_of_double_range _ V2).
  pose proof (bits_of_double_range _ V3). pose proof (bits_of_double_range _ V4).
  unfold read_node_packet. set (img := image_node_packet p).
  assert (load 0 4 img = Some (p_taddr p)) as ->.
  { eapply (load_at []); [done|done|reflexivity]. }
  assert (load 4 4 img = Some (p_saddr p)) as ->.
  { eapply (load_at (le_bytes 4 (p_taddr p))); [done|done|reflexivity]. }
  assert (load 8 8 img = Some (bits_of_double (p_latitude p))) as ->.
  { eapply (load_at (le_bytes 4 (p_taddr p) ++ le_bytes 4 (p_saddr p)));
      [done|done|unfold img, image_node_packet; by rewrite <- !app_assoc]. }
  assert (load 16 8 img = Some (bits_of_double (p_longitude p))) as ->.
  { eapply (load_at (le_bytes 4 (p_taddr p) ++ le_bytes 4 (p_saddr p) ++
      le_bytes 8 (bits_of_double (p_latitude p))));
      [done|done|unfold img, image_node_packet; by rewrite <- !app_assoc]. }
  assert (load 24 8 img = Some (bits_of_double (p_track p))) as ->.
  { eapply (load_at (le_bytes 4 (p_taddr p) ++ le_bytes 4 (p_saddr p) ++
      le_bytes 8 (bits_of_double (p_latitude p)) ++ le_bytes 8 (bits_of_double (p_longitude p))));
      [done|done|unfold img, image_node_packet; by rewrite <- !app_assoc]. }
  assert (load 32 8 img = Some (bits_of_double (p_speed p))) as ->.
  { eapply (load_at (le_bytes 4 (p_taddr p) ++ le_bytes 4 (p_saddr p) ++
      le_bytes 8 (bits_of_double (p_latitude p)) ++ le_bytes 8 (bits_of_double (p_longitude p)) ++
      le_bytes 8 (bits_of_double (p_track p))));
      [done|done|unfold img, image_node_packet; by rewrite <- !app_assoc]. }
  assert (load 40 4 img = Some (p_direct p + 2 * p_seqno p)) as ->.
  { eapply (load_at (le_bytes 4 (p_taddr p) ++ le_bytes 4 (p_saddr p) ++
      le_bytes 8 (bits_of_double (p_latitude p)) ++ le_bytes 8 (bits_of_double (p_longitude p)) ++
      le_bytes 8 (bits_of_double (p_track p)) ++ le_bytes 8 (bits_of_double (p_speed p))));
      [done|lia|unfold img, image_node_packet; by rewrite <- !app_assoc]. }
  simpl. rewrite !double_of_bits_of_double by done.
  rewrite Z.mul_comm, Z_mod_plus_full, Z.mod_small, Z.div_add, Z.div_small by lia.
  by destruct p.
Qed.

(** What is read is a packet whose members fit, whatever the bytes. *)
Lemma read_node_packet_ok l p :
  Forall (λ b, 0 ≤ b < 256) l → read_node_packet l = Some p → packet_ok p.
Proof.
  intros Hl. assert (∀ off n z, load off n l = Some z → 0 ≤ z < 2 ^ (8 * Z.of_nat n)) as Hload.
  { intros off n z. unfold load. case_decide as E; [|done]. intros [= <-].
    pose proof (le_value_range _ (Forall_take _ n _ (Forall_drop _ off _ Hl))) as Hr.
    by rewrite E in Hr. }
  unfold read_node_packet. intros Hp.
  repeat match goal with
  | H : mbind _ (load ?o ?n l) = Some _ |- _ =>
      let E := fresh in destruct (load o n l) eqn:E; [apply Hload in E|done]; simpl in H
  end.
  injection Hp as <-. unfold packet_ok. simpl.
  repeat match goal with H : context [Z.of_nat ?n] |- _ => simpl Z.of_nat in H end.
  split_and!; try lia.
  - apply Z.mod_pos_bound. lia.
  - apply Z.mod_pos_bound. lia.
  - apply Z.div_pos; lia.
  - apply Z.div_lt_upper_bound; lia.
Qed.

(** Reading a packet needs forty-four bytes. *)
Lemma read_node_packet_length l :
  is_Some (read_node_packet l) ↔ (44 ≤ length l)%nat.
Proof.
  assert (∀ off n, load off n l = None ↔ (n ≠ 0 ∧ length l < off + n)%nat) as Hload.
  { intros off n. unfold load. rewrite length_take, length_drop. case_decide; split; try done; lia. }
  assert (∀ off n, is_Some (load off n l) ↔ (n = 0 ∨ off + n ≤ length l)%nat) as Hsome.
  { intros off n. rewrite <- not_eq_None_Some, Hload. lia. }
  split.
  - intros [p Hp]. unfold read_node_packet in Hp.
    repeat (apply bind_Some in Hp as (? & ? & Hp)).
    assert (is_Some (load 40 4 l)) as [|]%Hsome by eauto; lia.
  - intros Hl. unfold read_node_packet.
    repeat match goal with
    | |- is_Some (mbind _ (load ?o ?n l)) =>
        let z := fresh "z" in
        destruct (proj2 (Hsome o n) ltac:(lia)) as [z ->]; simpl
    end. eauto.
Qed.
