(* ===== verification/Utils.v ===== *)
(** * Geometry and platform

    The numeric helpers of [system/include/utils.h], and what the sources leave to the
    compiler and the machine. *)
From S2P Require Import Prelude Double.
Open Scope Z_scope.

(** Two points on which the program depends on its platform.

    - [u64_of_bad_double x] is what the conversion of [x] to [u_int64_t] gives when the
      C++ standard leaves it undefined;
    - [abs_double] is what the unqualified call [abs(x)] of a [double] resolves to: the
      overload of [<cmath>] ([fabs]), or, where only [<cstdlib>]'s [int abs(int)] is
      visible, the absolute value of the truncated argument. *)
Class Platform := {
  u64_of_bad_double : double → Z;
  abs_double : double → double;
  u64_of_bad_double_range : ∀ x, 0 ≤ u64_of_bad_double x < 2 ^ 64;
}.

(** [abs] through [int], as [<cstdlib>] has it; an argument out of range wraps. *)
Definition abs_via_int (x : double) : double :=
  d_of_Z (Z.abs (s32 (default 0 (dtrunc x)))).

(** x86-64: the conversion yields [2^63] for what it cannot represent. *)
Lemma bad_double_range (_ : double) : 0 ≤ 2 ^ 63 < 2 ^ 64.
Proof. done. Qed.
Definition x86_64 : Platform := {|
  u64_of_bad_double _ := 2 ^ 63; abs_double := fabs;
  u64_of_bad_double_range := bad_double_range |}.
Definition x86_64_int_abs : Platform := {|
  u64_of_bad_double _ := 2 ^ 63; abs_double := abs_via_int;
  u64_of_bad_double_range := bad_double_range |}.

(** A conversion to [u_int64_t] in the source. *)
Definition to_u64 `{Platform} (x : double) : Z :=
  default (u64_of_bad_double x) (d_to_u64 x).

Lemma to_u64_range `{Platform} x : 0 ≤ to_u64 x < 2 ^ 64.
Proof.
  unfold to_u64. destruct (d_to_u64 x) eqn:E; simpl; [|apply u64_of_bad_double_range].
  unfold d_to_u64 in E. destruct (dtrunc x); simpl in E; [|done]. case_decide; naive_solver.
Qed.

Definition PI : double := d_lit 31415926 7.
Definition deg180 : double := d_of_Z 180.

Section geometry.
Context `{Libm}.
Open Scope double_scope.

(* [system/include/utils.h:71-81] distance *)
Definition distance (xa ya xb yb : double) : double :=
  let r := d_of_Z 6371 * d_of_Z 1000 in
  let x1 := xa / deg180 * PI in
  let y1 := ya / deg180 * PI in
  let x2 := xb / deg180 * PI in
  let y2 := yb / deg180 * PI in
  acos (sin y1 * sin y2 + cos y1 * cos y2 * cos (x2 - x1)) * r.

(* [system/include/utils.h:83-110] angle *)
Definition angle (x1 y1 x2 y2 : double) : double :=
  let d0 := d_zero in
  let d90 := d_of_Z 90 in
  let d180 := deg180 in
  if x1 =? x2 then (if y1 <? y2 then d0 else d180)
  else if y1 =? y2 then (if x1 <? x2 then d90 else d_of_Z 270)
  else if (x1 =? x2) && (y1 =? y2) then d0
  else
    let alpha := atan2 (y2 - y1) (x2 - x1) in
    let alpha := alpha * d180 / PI in
    if (d0 <? alpha) && (alpha <? d90) then dopp (d90 - alpha)
    else if (d90 <? alpha) && (alpha <? d180) then alpha - d90
    else if (dopp d180 <? alpha) && (alpha <? dopp d90) then dopp alpha
    else alpha - d90.

(* [system/include/utils.h:112-128] dist_node2line *)
Definition dist_node2line (lat lon sx sy ex ey : double) : double :=
  let lat_radian := lat * PI / deg180 in
  let lat_unit := d_of_Z 110940 in
  let lon_unit := (d_of_Z 40075360 * cos lat_radian) / d_of_Z 360 in
  let a := dsqrt ((lon - sx) * lon_unit * (lon - sx) * lon_unit +
                  (lat - sy) * lat_unit * (lat - ey) * lat_unit) in
  let b := dsqrt ((lon - ex) * lon_unit * (lon - ex) * lon_unit +
                  (lat - ey) * lat_unit * (lat - ey) * lat_unit) in
  let c := dsqrt ((ex - sx) * lon_unit * (ex - sx) * lon_unit +
                  (ey - sy) * lat_unit * (ey - sy) * lat_unit) in
  let p := (a + b + c) / d_of_Z 2 in
  d_of_Z 2 * dsqrt (fabs (p * (p - a) * (p - b) * (p - c))) / c.
End geometry.
