(* ===== verification/Scan.v ===== *)
(** * Numbers in text

    What the sources use of C's [sscanf], [atoi] and [atof] on decimal text, and the
    decimal notation of integers.  Text is a list of characters; the C terminator is
    the end of the list.  [%lf] covers the decimal notation (sign, digits, fraction,
    exponent); the hexadecimal, infinity and NaN spellings do not occur in the data. *)
From Stdlib Require Import Ascii Floats.SpecFloat.
From S2P Require Import Prelude Double.
Open Scope Z_scope.

Abbreviation text := (list ascii) (only parsing).

Definition char_code (c : ascii) : Z := Z.of_N (N_of_ascii c).
Definition is_digit (c : ascii) : bool := (48 <=? char_code c) && (char_code c <=? 57).
Definition digit_value (c : ascii) : Z := char_code c - 48.
Definition digit_char (d : Z) : ascii := ascii_of_N (Z.to_N (48 + d)).
Definition is_space (c : ascii) : bool :=
  (char_code c =? 32) || ((9 <=? char_code c) && (char_code c <=? 13)).

Definition minus : ascii := "-"%char.
Definition plus : ascii := "+"%char.
Definition comma : ascii := ","%char.

Fixpoint skip_spaces (s : text) : text :=
  match s with
  | c :: s' => if is_space c then skip_spaces s' else s
  | [] => []
  end.

(** The value of a run of digits read after [acc], their number, and the rest. *)
Fixpoint scan_digits (acc : Z) (n : nat) (s : text) : Z * nat * text :=
  match s with
  | c :: s' => if is_digit c then scan_digits (acc * 10 + digit_value c) (S n) s'
               else (acc, n, s)
  | [] => (acc, n, [])
  end.

Definition scan_sign (s : text) : bool * text :=
  match s with
  | c :: s' => if decide (c = minus) then (true, s')
               else if decide (c = plus) then (false, s') else (false, s)
  | [] => (false, s)
  end.

(** [sscanf(s, "%d", &i)]: the value assigned, or [None] when nothing is. *)
Definition scan_int (s : text) : option Z :=
  let '(neg, s1) := scan_sign (skip_spaces s) in
  let '(v, n, _) := scan_digits 0 0 s1 in
  if decide (n = 0%nat) then None else Some (s32 (if neg then - v else v)).

(** [atoi]. *)
Definition atoi (s : text) : Z := default 0 (scan_int s).

(** [m * 10^k], correctly rounded. *)
Definition decimal (neg : bool) (m : Z) (k : Z) : double :=
  match m with
  | Zpos p =>
      if decide (0 <= k) then binary_normalize 53 1024 (if neg then - (m * 10 ^ k) else m * 10 ^ k) 0 false
      else SFdiv 53 1024 (S754_finite neg p 0) (S754_finite false (Z.to_pos (10 ^ (- k))) 0)
  | _ => S754_zero neg
  end.

Definition scan_exponent (s : text) : Z :=
  match s with
  | c :: s1 =>
      if decide (c = "e"%char ∨ c = "E"%char) then
        let '(neg, s2) := scan_sign s1 in
        let '(v, n, _) := scan_digits 0 0 s2 in
        if decide (n = 0%nat) then 0 else if neg then - v else v
      else 0
  | [] => 0
  end.

(** [sscanf(s, "%lf", &d)]. *)
Definition scan_double (s : text) : option double :=
  let '(neg, s1) := scan_sign (skip_spaces s) in
  let '(ip, n, s2) := scan_digits 0 0 s1 in
  let '(m, f, s3) :=
    match s2 with
    | c :: s' => if decide (c = "."%char) then scan_digits ip 0 s' else (ip, 0%nat, s2)
    | [] => (ip, 0%nat, [])
    end in
  if decide (n = 0%nat ∧ f = 0%nat) then None
  else Some (decimal neg m (scan_exponent s3 - Z.of_nat f)).

(** [atof]. *)
Definition atof (s : text) : double := default d_zero (scan_double s).

(** The decimal notation of an integer, as [operator<<] writes it. *)
Fixpoint digits_of (fuel : nat) (z : Z) (acc : text) : text :=
  match fuel with
  | O => acc
  | S fuel =>
      let acc := digit_char (z `mod` 10) :: acc in
      if decide (z `div` 10 = 0) then acc else digits_of fuel (z `div` 10) acc
  end.
Definition print_int (z : Z) : text :=
  if decide (z < 0) then minus :: digits_of 20 (- z) [] else digits_of 20 z [].

Example scan_double_longitude :
  scan_double (String.list_ascii_of_string "116.326552") = Some (d_lit 116326552 6).
Proof. vm_compute. reflexivity. Qed.
Example print_int_neg : print_int (-2147483648) = String.list_ascii_of_string "-2147483648".
Proof. vm_compute. reflexivity. Qed.

(** ** Reading back what was written *)

Lemma digit_char_code d : 0 ≤ d < 10 → char_code (digit_char d) = 48 + d.
Proof.
  intros Hd. unfold char_code, digit_char. rewrite N_ascii_embedding by lia. lia.
Qed.

Lemma digit_char_digit d : 0 ≤ d < 10 → is_digit (digit_char d) = true.
Proof. intros Hd. unfold is_digit. rewrite digit_char_code by done. lia. Qed.

Lemma digit_char_value d : 0 ≤ d < 10 → digit_value (digit_char d) = d.
Proof. intros Hd. unfold digit_value. rewrite digit_char_code by done. lia. Qed.

Lemma digit_not_space c : is_digit c = true → is_space c = false.
Proof. unfold is_digit, is_space. lia. Qed.

Lemma digit_not_sign c : is_digit c = true → c ≠ minus ∧ c ≠ plus.
Proof. intros H. split; intros ->; vm_compute in H; done. Qed.

(** [digits_of] prepends the digits of [z]; scanning them reads [z] back. *)
Lemma scan_digits_of fuel z acc a n :
  0 ≤ z < 10 ^ Z.of_nat fuel → (0 < fuel)%nat →
  ∃ k, (0 < k)%nat ∧
    scan_digits a n (digits_of fuel z acc) = scan_digits (a * 10 ^ Z.of_nat k + z) (n + k) acc ∧
    ∃ c s, digits_of fuel z acc = c :: s ∧ is_digit c = true.
Proof.
  revert z acc. induction fuel as [|fuel IH]; intros z acc Hz Hf; [lia|].
  simpl. pose proof (Z.mod_pos_bound z 10 ltac:(lia)) as Hm.
  pose proof (Z.div_mod z 10 ltac:(lia)) as Hdm.
  case_decide as D.
  - exists 1%nat. split; [lia|]. split; [|eauto using digit_char_digit].
    simpl. rewrite digit_char_digit, digit_char_value by done. f_equal; lia.
  - assert (0 ≤ z `div` 10 < 10 ^ Z.of_nat fuel) as Hd.
    { rewrite Nat2Z.inj_succ, Z.pow_succ_r in Hz by lia.
      split; [apply Z.div_pos; lia|]. apply Z.div_lt_upper_bound; lia. }
    destruct fuel as [|fuel]; [simpl in Hd; lia|].
    destruct (IH (z `div` 10) (digit_char (z `mod` 10) :: acc) Hd ltac:(lia))
      as (k & Hk & E & Hc).
    exists (S k). split; [lia|]. split; [|done]. rewrite E. simpl.
    rewrite digit_char_digit, digit_char_value by done.
    rewrite Nat2Z.inj_succ, Z.pow_succ_r by lia. f_equal; lia.
Qed.

(** The text after a number that stops the scan of its digits. *)
Definition stops (s : text) : Prop :=
  match s with c :: _ => is_digit c = false | [] => True end.

Lemma scan_digits_stop a n s : stops s → scan_digits a n s = (a, n, s).
Proof. destruct s as [|c s]; simpl; [done|]. by intros ->. Qed.

Lemma digits_of_S fuel z acc :
  digits_of (S fuel) z acc =
    if decide (z `div` 10 = 0) then digit_char (z `mod` 10) :: acc
    else digits_of fuel (z `div` 10) (digit_char (z `mod` 10) :: acc).
Proof. reflexivity. Qed.

#[local] Arguments digits_of : simpl never.

(** [sscanf("%d")] reads back a printed [int], whatever follows it. *)
Lemma scan_print_int z s :
  - 2 ^ 31 ≤ z < 2 ^ 31 → stops s → scan_int (print_int z ++ s) = Some z.
Proof.
  intros Hz Hs.
  assert (∀ fuel z acc, digits_of fuel z acc ++ s = digits_of fuel z (acc ++ s)) as Happ.
  { intros fuel. induction fuel as [|fuel IH]; intros y acc; [done|].
    rewrite !digits_of_S. case_decide; [done|]. by rewrite IH. }
  assert (∀ y, 0 ≤ y ≤ 2 ^ 31 → ∃ k, (0 < k)%nat ∧
    scan_digits 0 0 (digits_of 20 y s) = (y, k, s) ∧
    ∃ c r, digits_of 20 y s = c :: r ∧ is_digit c = true) as Hdig.
  { intros y Hy. destruct (scan_digits_of 20 y s 0 0 ltac:(lia) ltac:(lia)) as (k & Hk & E & Hc).
    exists k. rewrite E, scan_digits_stop by done. split_and!; [done|f_equal; lia|done]. }
  unfold scan_int, print_int. case_decide as Hneg.
  - simpl. rewrite Happ. simpl app.
    destruct (Hdig (- z) ltac:(lia)) as (k & Hk & E & _). rewrite E.
    rewrite decide_False by lia. f_equal. rewrite Z.opp_involutive.
    unfold s32. by apply swrap_small.
  - rewrite Happ. simpl app.
    destruct (Hdig z ltac:(lia)) as (k & Hk & E & c & r & Er & Hc). rewrite Er in *.
    simpl skip_spaces. rewrite (digit_not_space _ Hc). simpl.
    destruct (digit_not_sign _ Hc) as [Hm Hp]. rewrite !decide_False by done.
    rewrite E. rewrite decide_False by lia. f_equal. unfold s32. by apply swrap_small.
Qed.

Lemma digits_of_chars fuel z acc c :
  0 ≤ z → c ∈ digits_of fuel z acc → is_digit c = true ∨ c ∈ acc.
Proof.
  revert z acc. induction fuel as [|fuel IH]; intros z acc Hz; [by right|].
  rewrite digits_of_S. pose proof (Z.mod_pos_bound z 10 ltac:(lia)).
  assert (∀ c', c' ∈ digit_char (z `mod` 10) :: acc → is_digit c' = true ∨ c' ∈ acc) as Hacc.
  { intros c' [->|?]%elem_of_cons; [left; by apply digit_char_digit|by right]. }
  case_decide; [apply Hacc|]. intros [?|?]%IH; [by left|by apply Hacc|].
  apply Z.div_pos; lia.
Qed.

(** A printed number consists of digits, after a minus sign if it is negative. *)
Lemma print_int_text z c : c ∈ print_int z → is_digit c = true ∨ c = minus.
Proof.
  unfold print_int. case_decide.
  - intros [->|Hc]%elem_of_cons; [by right|].
    apply digits_of_chars in Hc as [?|?%elem_of_nil]; [by left|done|lia].
  - intros Hc. apply digits_of_chars in Hc as [?|?%elem_of_nil]; [by left|done|lia].
Qed.

Lemma print_int_nonempty z : print_int z ≠ [].
Proof.
  unfold print_int. case_decide; [done|].
  assert (∀ fuel y acc, acc ≠ [] → digits_of fuel y acc ≠ []) as Hacc.
  { induction fuel as [|fuel IH]; intros y acc Ha; [done|]. rewrite digits_of_S.
    case_decide; [done|]. by apply IH. }
  change 20%nat with (S 19). rewrite digits_of_S. case_decide; [done|]. by apply Hacc.
Qed.

(** A number below [10 ^ n] has at most [n] digits. *)
Lemma digits_of_length fuel n z acc :
  0 ≤ z < 10 ^ Z.of_nat n → (0 < n)%nat → (length (digits_of fuel z acc) ≤ n + length acc)%nat.
Proof.
  revert n z acc. induction fuel as [|fuel IH]; intros n z acc Hz Hn; [change (digits_of 0 z acc) with acc; lia|].
  rewrite digits_of_S. case_decide as D; [simpl; lia|].
  destruct n as [|[|n]]; [lia|change (10 ^ Z.of_nat 1) with 10 in Hz; rewrite Z.div_small in D by lia; lia|].
  etrans; [apply (IH (S n))|simpl; lia]; [|lia]. rewrite Nat2Z.inj_succ, Z.pow_succ_r in Hz by lia.
  split; [apply Z.div_pos; lia|]. apply Z.div_lt_upper_bound; lia.
Qed.

(** Numbers with a separator between them. *)
Fixpoint separated (sep : ascii) (ks : list Z) : text :=
  match ks with
  | [] => []
  | [k] => print_int k
  | k :: ks => print_int k ++ sep :: separated sep ks
  end.

Lemma separated_cons sep k k' ks :
  separated sep (k :: k' :: ks) = print_int k ++ sep :: separated sep (k' :: ks).
Proof. done. Qed.

(** Numbers with a separator after each. *)
Lemma separated_each sep k ks :
  (k :: ks) ≫= (λ k, print_int k ++ [sep]) = separated sep (k :: ks) ++ [sep].
Proof.
  revert k. induction ks as [|k' ks IH]; intros k; [by rewrite bind_cons, app_nil_r|].
  rewrite bind_cons, IH, separated_cons. by rewrite <- !app_assoc.
Qed.
