(* ===== verification/Database.v ===== *)
(** * The map database

    [system/src/database_manager.cc]: the rows of the road table, kept twice, once as
    they are and once with the segments of a road merged.  The MySQL client is not part
    of the repository: the result set is an argument, and a failed connection or query
    ends the process (the macro [error]). *)
From S2P Require Import Prelude Double Scan.
Open Scope Z_scope.

(** [struct RawData] and [struct DedupedData] have the same members. *)
(* [system/include/database_manager.h:11-35] struct RawData, struct DedupedData *)
Record RoadData := RoadRow {
  r_mainid : Z;
  r_subid : Z;
  r_startx : double;
  r_starty : double;
  r_endx : double;
  r_endy : double;
  r_startid : Z;
  r_endid : Z;
  r_type : Z;
  r_traffic_flow : Z;
}.

(* [system/include/database_manager.h:56-58] class DatabaseManager *)
Record DatabaseManager := DB {
  raw_data_ : list RoadData;
  deduped_data_ : list RoadData;
}.

(** A row of a result set: the text of its columns. *)
Abbreviation MYSQL_ROW := (list (list Ascii.ascii)).

Definition column {S} (row : MYSQL_ROW) (i : nat) : M S (list Ascii.ascii) :=
  match row !! i with Some c => mret c | None => stuck OutOfBounds end.

(** The members a row assigns.  The objects are value-initialised, so a member whose
    column does not scan is zero. *)
Definition scan_row {S} (row : MYSQL_ROW) : M S RoadData :=
  c0 ← column row 0; c1 ← column row 1; c2 ← column row 2; c3 ← column row 3;
  c4 ← column row 4; c5 ← column row 5; c6 ← column row 6; c7 ← column row 7;
  c9 ← column row 9; c13 ← column row 13;
  mret (RoadRow (default 0 (scan_int c0)) (default 0 (scan_int c1))
    (default d_zero (scan_double c2)) (default d_zero (scan_double c3))
    (default d_zero (scan_double c4)) (default d_zero (scan_double c5))
    (default 0 (scan_int c6)) (default 0 (scan_int c7))
    (default 0 (scan_int c9)) (default 0 (scan_int c13))).

(* [system/src/database_manager.cc:87-110] store_raw_data *)
Definition store_raw_data (row : MYSQL_ROW) : M DatabaseManager unit :=
  raw ← scan_row row;
  modify (λ db, DB (raw_data_ db ++ [raw]) (deduped_data_ db)).

(** The segment [new] of a road that is already in the table as [old]. *)
Definition extend_road (old new : RoadData) : RoadData :=
  if r_subid old <? r_subid new then
    RoadRow (r_mainid old) (r_subid new) (r_startx old) (r_starty old)
      (r_endx new) (r_endy new) (r_startid old) (r_endid new) (r_type old)
      (r_traffic_flow old)
  else old.

(** The loop of [dedup_raw_data] and the insertion after it. *)
(* [system/src/database_manager.cc:121-132] dedup_raw_data *)
Fixpoint dedup_loop (new : RoadData) (l : list RoadData) : list RoadData :=
  match l with
  | [] => [new]
  | d :: l' => if decide (r_mainid d = r_mainid new) then extend_road d new :: l'
               else d :: dedup_loop new l'
  end.

(** The two identifiers are scanned into local variables that are not initialised. *)
Definition scanned {S} (o : option Z) : M S Z :=
  match o with Some z => mret z | None => stuck UninitRead end.

(* [system/src/database_manager.cc:112-153] dedup_raw_data *)
Definition dedup_raw_data (row : MYSQL_ROW) : M DatabaseManager unit :=
  c0 ← column row 0; c1 ← column row 1;
  _ ← scanned (scan_int c0);
  _ ← scanned (scan_int c1);
  new ← scan_row row;
  modify (λ db, DB (raw_data_ db) (dedup_loop new (deduped_data_ db))).

Fixpoint fetch_rows (rows : list MYSQL_ROW) : M DatabaseManager unit :=
  match rows with
  | [] => mret tt
  | row :: rows => _ ← store_raw_data row; _ ← dedup_raw_data row; fetch_rows rows
  end.

(** [result] is what [query] and [mysql_store_result] produce; [None] is an error. *)
(* [system/src/database_manager.cc:64-85] get_map_data *)
Definition get_map_data (result : option (list MYSQL_ROW)) : M DatabaseManager Z :=
  match result with
  | None => abort
  | Some rows => _ ← fetch_rows rows; mret 0
  end.

(** ** What the merged table is *)

(** The road identifiers of a table, each once, in the order they first occur. *)
Fixpoint mainids (rows : list RoadData) : list Z :=
  match rows with
  | [] => []
  | r :: rows => r_mainid r :: filter (λ m, m ≠ r_mainid r) (mainids rows)
  end.

(** The segments of one road, and the first one whose [subid] is the largest. *)
Definition segments (m : Z) (rows : list RoadData) : list RoadData :=
  filter (λ r, r_mainid r = m) rows.
Definition last_segment (r : RoadData) (rows : list RoadData) : RoadData :=
  foldl (λ b r, if r_subid b <? r_subid r then r else b) r rows.

(** A road as a whole: it starts where its first row starts and ends where the segment
    with the largest [subid] ends. *)
Definition merge_road (rows : list RoadData) : option RoadData :=
  match rows with
  | [] => None
  | r :: rest =>
      let e := last_segment r rest in
      Some (RoadRow (r_mainid r) (r_subid e) (r_startx r) (r_starty r) (r_endx e) (r_endy e)
              (r_startid r) (r_endid e) (r_type r) (r_traffic_flow r))
  end.

Definition deduped (rows : list RoadData) : list RoadData :=
  omap (λ m, merge_road (segments m rows)) (mainids rows).

Lemma mainids_snoc rows r :
  mainids (rows ++ [r]) =
    mainids rows ++ (if decide (r_mainid r ∈ mainids rows) then [] else [r_mainid r]).
Proof.
  induction rows as [|x rows IH]; simpl.
  { done. }
  rewrite IH, filter_app. f_equal. f_equal.
  destruct (decide (r_mainid r = r_mainid x)) as [E|E].
  - rewrite (decide_True (P := r_mainid r ∈ _ :: _)) by (rewrite E; by left).
    case_decide; [done|]. by rewrite filter_cons_False by naive_solver.
  - destruct (decide (r_mainid r ∈ mainids rows)).
    + by rewrite decide_True by (apply elem_of_cons; rewrite list_elem_of_filter; auto).
    + rewrite filter_cons_True, filter_nil by done.
      rewrite decide_False; [done|]. rewrite elem_of_cons, list_elem_of_filter. naive_solver.
Qed.

Lemma elem_of_mainids rows m : m ∈ mainids rows ↔ ∃ r, r ∈ rows ∧ r_mainid r = m.
Proof.
  induction rows as [|x rows IH]; simpl; [set_solver|].
  rewrite elem_of_cons, list_elem_of_filter, IH.
  setoid_rewrite elem_of_cons. destruct (decide (m = r_mainid x)); naive_solver.
Qed.

Lemma NoDup_mainids rows : NoDup (mainids rows).
Proof.
  induction rows as [|x rows IH]; simpl; [constructor|].
  apply NoDup_cons. split; [rewrite list_elem_of_filter; naive_solver|by apply NoDup_filter].
Qed.

Lemma segments_snoc m rows r :
  segments m (rows ++ [r]) =
    segments m rows ++ (if decide (r_mainid r = m) then [r] else []).
Proof.
  unfold segments. by rewrite filter_app.
Qed.

Lemma segments_nonempty m rows : segments m rows ≠ [] ↔ m ∈ mainids rows.
Proof.
  rewrite elem_of_mainids. unfold segments. split.
  - intros H. destruct (filter _ rows) as [|r l] eqn:E; [done|].
    exists r. apply and_comm. rewrite <- (list_elem_of_filter (λ r, r_mainid r = m)), E. by left.
  - intros (r & Hr & Em) E. assert (r ∈ filter (λ r, r_mainid r = m) rows) as Hin
      by by apply list_elem_of_filter. rewrite E in Hin. by apply elem_of_nil in Hin.
Qed.

Lemma merge_road_snoc l r e :
  merge_road l = Some e → merge_road (l ++ [r]) = Some (extend_road e r).
Proof.
  destruct l as [|x l]; [done|]. intros [= <-]. simpl. f_equal.
  unfold last_segment, extend_road. rewrite foldl_app. simpl.
  set (b := foldl _ x l). destruct (r_subid b <? r_subid r); done.
Qed.

Lemma merge_road_mainid l e m :
  merge_road l = Some e → (∀ r, r ∈ l → r_mainid r = m) → r_mainid e = m.
Proof. destruct l as [|r l]; [done|]. intros [= <-] Hm. apply (Hm r). by left. Qed.

(** Merging one row into a table indexed by road. *)
Lemma dedup_loop_new new (f : Z → option RoadData) ms :
  (∀ m e, f m = Some e → r_mainid e = m) → r_mainid new ∉ ms →
  dedup_loop new (omap f ms) = omap f ms ++ [new].
Proof.
  intros Hf. induction ms as [|m ms IH]; [done|]. intros [Hm Hms]%not_elem_of_cons.
  csimpl. destruct (f m) as [e|] eqn:E; csimpl; [|by apply IH].
  rewrite decide_False by (rewrite (Hf _ _ E); congruence). by rewrite IH.
Qed.

Lemma dedup_loop_old new (f g : Z → option RoadData) ms :
  (∀ m e, f m = Some e → r_mainid e = m) →
  (∀ m, m ≠ r_mainid new → g m = f m) →
  (∃ e, f (r_mainid new) = Some e ∧ g (r_mainid new) = Some (extend_road e new)) →
  NoDup ms → r_mainid new ∈ ms →
  dedup_loop new (omap f ms) = omap g ms.
Proof.
  intros Hf Hg (e & Ee & Eg). induction ms as [|m ms IH]; [by intros _ ?%elem_of_nil|].
  intros [Hm Hnd]%NoDup_cons Hin. csimpl. destruct (decide (m = r_mainid new)) as [->|Hne].
  - rewrite Ee, Eg. csimpl. rewrite decide_True by by apply Hf. f_equal.
    apply list_omap_ext, Forall_Forall2_diag, Forall_forall. intros x Hx.
    symmetry. apply Hg. congruence.
  - apply elem_of_cons in Hin as [?|Hin]; [congruence|]. rewrite (Hg m Hne).
    destruct (f m) as [e'|] eqn:E'; csimpl; [|by apply IH].
    rewrite decide_False by (rewrite (Hf _ _ E'); done). by rewrite IH.
Qed.

Lemma segments_mainid m rows r : r ∈ segments m rows → r_mainid r = m.
Proof. by intros [? _]%list_elem_of_filter. Qed.

Lemma road_mainid rows m e : merge_road (segments m rows) = Some e → r_mainid e = m.
Proof. intros E. eapply merge_road_mainid; [done|]. apply segments_mainid. Qed.

(** The loop keeps the table merged. *)
Lemma dedup_loop_deduped rows new :
  dedup_loop new (deduped rows) = deduped (rows ++ [new]).
Proof.
  unfold deduped. rewrite mainids_snoc, omap_app.
  assert (∀ m, m ≠ r_mainid new → segments m (rows ++ [new]) = segments m rows) as Hother.
  { intros m Hm. by rewrite segments_snoc, decide_False, app_nil_r by done. }
  case_decide as D.
  - rewrite app_nil_r. apply dedup_loop_old; [apply road_mainid| | |apply NoDup_mainids|done].
    + intros m Hm. by rewrite Hother.
    + rewrite segments_snoc, decide_True by done.
      apply segments_nonempty in D. destruct (segments _ rows) as [|r l] eqn:E; [done|].
      eexists. split; [reflexivity|]. by apply merge_road_snoc.
  - rewrite dedup_loop_new by (done || apply road_mainid). f_equal.
    + apply list_omap_ext, Forall_Forall2_diag, Forall_forall. intros m Hm.
      rewrite Hother; [done|]. congruence.
    + simpl. rewrite segments_snoc, decide_True by done.
      assert (segments (r_mainid new) rows = []) as ->.
      { destruct (segments _ rows) eqn:E; [done|]. destruct D. apply segments_nonempty.
        by rewrite E. }
      by destruct new.
Qed.

(** ** The table read from the database *)

(** The data of a row, when it has the columns and the two identifiers scan. *)
Definition row_data (row : MYSQL_ROW) : option RoadData :=
  c0 ← row !! 0%nat; c1 ← row !! 1%nat; c2 ← row !! 2%nat; c3 ← row !! 3%nat;
  c4 ← row !! 4%nat; c5 ← row !! 5%nat; c6 ← row !! 6%nat; c7 ← row !! 7%nat;
  c9 ← row !! 9%nat; c13 ← row !! 13%nat;
  mainid ← scan_int c0; subid ← scan_int c1;
  Some (RoadRow mainid subid
    (default d_zero (scan_double c2)) (default d_zero (scan_double c3))
    (default d_zero (scan_double c4)) (default d_zero (scan_double c5))
    (default 0 (scan_int c6)) (default 0 (scan_int c7))
    (default 0 (scan_int c9)) (default 0 (scan_int c13))).

Lemma scan_row_data {S} (row : MYSQL_ROW) (r : RoadData) (s : S) :
  row_data row = Some r →
  scan_row row s = Done r s ∧
  ∃ c0 c1 m b, row !! 0%nat = Some c0 ∧ row !! 1%nat = Some c1 ∧
    scan_int c0 = Some m ∧ scan_int c1 = Some b.
Proof.
  unfold row_data. intros Hr.
  repeat match goal with
  | H : mbind _ ?o = Some _ |- _ => destruct o eqn:?; [|done]; simpl in H
  end.
  injection Hr as <-. split; [|by eauto 8].
  unfold scan_row, column, mbind, M_bind. by simplify_option_eq.
Qed.

Lemma fetch_rows_data rows data db :
  mapM row_data rows = Some data → deduped_data_ db = deduped (raw_data_ db) →
  fetch_rows rows db =
    Done tt (DB (raw_data_ db ++ data) (deduped (raw_data_ db ++ data))).
Proof.
  revert data db. induction rows as [|row rows IH]; intros data [raw ded].
  { intros [= <-] Hd. simpl in *. rewrite app_nil_r. by rewrite <- Hd. }
  simpl. intros Hm Hd. apply bind_Some in Hm as (r & Hr & (rs & Hrs & [= <-])%bind_Some).
  destruct (scan_row_data row r (DB raw ded) Hr) as [E _].
  unfold store_raw_data. rewrite (bind_done _ _ _ tt (DB (raw ++ [r]) ded)).
  2:{ by rewrite (bind_done _ _ _ _ _ E). }
  destruct (scan_row_data row r (DB (raw ++ [r]) ded) Hr)
    as [E' (c0 & c1 & m & b & E0 & E1 & Em & Eb)].
  rewrite (bind_done _ _ _ tt (DB (raw ++ [r]) (deduped (raw ++ [r])))).
  - rewrite (IH rs _ Hrs) by done. simpl. by rewrite <- app_assoc.
  - unfold dedup_raw_data, column, mbind, M_bind in *. rewrite E0, E1. simpl. rewrite Em, Eb.
    simpl. rewrite E'. unfold modify. simpl. by rewrite Hd, dedup_loop_deduped.
Qed.

(** C9. [get_map_data] on a result set whose rows have their columns: the raw table is
    the rows in order, and the merged table has each road once, in order of first
    appearance, running from the start of its first row to the end of the row with the
    largest [subid]. *)
Theorem get_map_data_tables rows data :
  mapM row_data rows = Some data →
  get_map_data (Some rows) (DB [] []) = Done 0 (DB data (deduped data)).
Proof.
  intros Hm. unfold get_map_data.
  by rewrite (bind_done _ _ _ _ _ (fetch_rows_data rows data (DB [] []) Hm eq_refl)).
Qed.

Definition text_of (s : string) : list Ascii.ascii := String.list_ascii_of_string s.
Definition sample_rows : list MYSQL_ROW :=
  [ text_of <$> ["7"; "1"; "116.1"; "39.9"; "116.2"; "39.8"; "3"; "4"; "x"; "12"; "0"; "0"; "0"; "5"]%string;
    text_of <$> ["8"; "1"; "116.5"; "39.9"; "116.6"; "39.8"; "9"; "10"; "x"; "2"; "0"; "0"; "0"; "6"]%string;
    text_of <$> ["7"; "2"; "116.2"; "39.8"; "116.3"; "39.7"; "4"; "5"; "x"; "12"; "0"; "0"; "0"; "7"]%string ].
Definition sample_data : list RoadData := default [] (mapM row_data sample_rows).

Lemma get_map_data_tables_witness :
  mapM row_data sample_rows = Some sample_data ∧
  get_map_data (Some sample_rows) (DB [] []) = Done 0 (DB sample_data (deduped sample_data)) ∧
  ((λ r, (r_mainid r, r_subid r, r_startid r, r_endid r)) <$> deduped sample_data)
    = [(7, 2, 3, 5); (8, 1, 9, 10)].
Proof.
  split; [vm_compute; reflexivity|]. split; [|vm_compute; reflexivity].
  apply get_map_data_tables. vm_compute. reflexivity.
Defined.
