(* ===== verification/RoadMap.v ===== *)
(** * What the neighbour manager needs of the map

    The neighbour and routing managers use the map through two of its operations; the
    class below is that interface, and [MapManager.v] implements it. *)
From S2P Require Import Prelude Double Database.
Open Scope Z_scope.

(* [system/include/map_manager.h:30-35] struct Route *)
Record Route := RouteSeg { roadid : Z; startid : Z; endid : Z; rtype : Z }.

#[global] Instance Route_eq_dec : EqDecision Route.
Proof. solve_decision. Defined.

(** [on_road lat lon track] is the identifier of the road a position is on, or -1;
    [get_road_info id] is the merged row of a road, or [None] for a null pointer. *)
Class RoadMap := {
  on_road : double → double → double → Z;
  get_road_info : Z → option RoadData;
  get_road_info_mainid : ∀ id r, get_road_info id = Some r → r_mainid r = id;
}.

(** A map without roads. *)
Definition no_road (_ : Z) : option RoadData := None.
Lemma no_road_mainid id r : no_road id = Some r → r_mainid r = id.
Proof. done. Qed.
Definition empty_map : RoadMap := {|
  on_road _ _ _ := -1; get_road_info := no_road; get_road_info_mainid := no_road_mainid |}.
