(* ===== verification/NeighManager.v ===== *)
(** * The neighbour manager

    [system/src/neigh_manager.cc]: sending beacons, receiving them, and choosing the
    next hop among the neighbours of a road.  Writing the log files is not modelled. *)
From S2P Require Import Prelude Double LinkedList Gps Daemon Timer NeighList Utils.
From S2P Require Import Database RoadMap.
Open Scope Z_scope.

(** The address of the [ConnManager] object: it is stored and never looked into. *)
Definition CONN_MANAGER : addr := 2%N.

(** A call into the GPS manager. *)
Definition on_gps `{EventLib} {A} (m : M GpsManager A) : M daemon A := zoom d_gps set_gps m.

Definition RESTRICTED_RANGE : double := d_of_Z 100.

Section neigh_manager.
Context `{EventLib, Allocator, Platform, Libm, RoadMap}.

(* [system/src/neigh_manager.cc:66-70] get_neighbor *)
Definition get_neighbor (ip : Z) : M daemon addr := neigh_list_find ip.

(* [system/src/neigh_manager.cc:72-82] dst_is_direct *)
Definition dst_is_direct (dst_addr : Z) : M daemon Z :=
  n ← neigh_list_find dst_addr;
  if decide (n = NULL) then mret 0
  else
    v ← deref d_neigh n;
    mret (if flag NEIGH_STATE_INDIRECT (n_state v) then 0 else 1).

(* [system/src/neigh_manager.cc:91-104] on_same_road *)
Definition on_same_road (n : neighbor) (curr_road : RoadData) : bool :=
  dlt (dist_node2line (n_latitude n) (n_longitude n) (r_startx curr_road)
         (r_starty curr_road) (r_endx curr_road) (r_endy curr_road)) (d_of_Z 100).

(** One neighbour of the inner loop.  The accumulator is [min_dist] and [next]. *)
(* [system/src/neigh_manager.cc:132-146] restricted_forwarding_algo *)
Definition forward_step (currx curry : double) (curr_road : option RoadData)
    (pos : addr) (acc : double * Z) : M daemon (unit + double * Z) :=
  n ← deref d_neigh pos;
  if flag NEIGH_STATE_DIRECT (n_state n) then
    match curr_road with
    | None => stuck NullDeref
    | Some road =>
        if bool_decide (n_roadid n = u32 (r_mainid road)) || on_same_road n road then
          let dist_c2n := distance currx curry (n_longitude n) (n_latitude n) in
          let dist_abs := dsub dist_c2n RESTRICTED_RANGE in
          if dlt (abs_double dist_abs) (fst acc)
          then mret (inr (dist_abs, n_ip_addr n)) else mret (inr acc)
        else mret (inr acc)
    end
  else mret (inr acc).

(** The outer loop over the route, from its end. *)
(* [system/src/neigh_manager.cc:129-150] restricted_forwarding_algo *)
Fixpoint forward_roads (currx curry : double) (rev_ofr : list Route)
    (acc : double * Z) : M daemon Z :=
  match rev_ofr with
  | [] => mret (snd acc)
  | r :: rest =>
      res ← list_foreach d_cells NEI_LIST
              (forward_step currx curry (get_road_info (roadid r))) acc;
      let acc := match res with inl _ => acc | inr acc => acc end in
      if decide (snd acc ≠ 0) then mret (snd acc) else forward_roads currx curry rest acc
  end.

(* [system/src/neigh_manager.cc:106-154] restricted_forwarding_algo *)
Definition restricted_forwarding_algo (ofr : list Route) (dstx dsty : double) : M daemon Z :=
  num ← gets d_num;
  if decide (num = 0) then mret 0
  else
    g ← gets d_gps;
    if decide (length ofr = 0%nat) then mret 0
    else forward_roads (get_longitude g) (get_latitude g) (reverse ofr) (DBL_MAX, 0).

(* [system/src/neigh_manager.cc:84-89] next_hop *)
Definition next_hop (ofr : list Route) (dstx dsty : double) : M daemon Z :=
  restricted_forwarding_algo ofr dstx dsty.

(** [static u_int32_t seqno]: the beacon carries its low 31 bits, and it is incremented. *)
(* [system/src/neigh_manager.cc:156-189] send_node *)
Definition send_node (r : gps_reading) (sent : bool) : M daemon unit :=
  _ ← on_gps (read_gps_data r);
  local ← gets d_local;
  g ← gets d_gps;
  seqno ← gets d_seqno;
  let pkt := NodePacket local local (get_latitude g) (get_longitude g) (get_track g)
               (get_speed g) 1 (wrap 31 seqno) in
  _ ← modify (λ d, set_seqno (u32 (seqno + 1)) d);
  res ← send_data sent pkt;
  if decide (res < 0) then abort else skip.

(** The wait before a rebroadcast, in milliseconds, for a packet sent [dist] metres away. *)
Definition wait_of_distance (dist : double) : Z :=
  let time := to_u64 (ddiv (d_of_Z 100) dist) in
  if decide (time = 0) then 1000 else time.

(* [system/src/neigh_manager.cc:236-259] wait_time *)
Definition wait_time (pkt : geosvr_node_packet) : M daemon Z :=
  nei ← neigh_list_find (p_saddr pkt);
  if decide (nei = NULL) then
    g ← gets d_gps;
    mret (wait_of_distance
            (distance (get_longitude g) (get_latitude g) (p_longitude pkt) (p_latitude pkt)))
  else
    n ← deref d_neigh nei;
    mret (wait_of_distance
            (distance (n_longitude n) (n_latitude n) (p_longitude pkt) (p_latitude pkt))).

(** Whether a position is inside the circle between a packet and the neighbour at
    [tx], [ty] that relayed it. *)
Definition in_circle_of (x y tx ty : double) (pkt : geosvr_node_packet) : bool :=
  let two := d_of_Z 2 in
  let radius := ddiv (distance (p_longitude pkt) (p_latitude pkt) tx ty) two in
  let cpx := dadd tx (ddiv (dsub (p_longitude pkt) tx) two) in
  let cpy := dadd ty (ddiv (dsub (p_latitude pkt) ty) two) in
  let dx := dsub x cpx in
  let dy := dsub y cpy in
  dlt (dadd (dmul dx dx) (dmul dy dy)) radius.

(* [system/src/neigh_manager.cc:261-282] in_circle *)
Definition in_circle (pkt : geosvr_node_packet) : M daemon bool :=
  tnei ← neigh_list_find (p_taddr pkt);
  if decide (tnei = NULL) then mret false
  else
    t ← deref d_neigh tnei;
    g ← gets d_gps;
    mret (in_circle_of (get_longitude g) (get_latitude g) (n_longitude t) (n_latitude t) pkt).

(* [system/src/neigh_manager.cc:191-234] recv_node *)
Definition recv_node (pkt : geosvr_node_packet) : M daemon unit :=
  local ← gets d_local;
  if decide (p_taddr pkt = local ∨ p_saddr pkt = local) then skip
  else
    let roadid := on_road (p_latitude pkt) (p_longitude pkt) (p_track pkt) in
    nei ← neigh_list_find (p_saddr pkt);
    if decide (nei = NULL) then
      wait ← wait_time pkt;
      _ ← neigh_list_insert pkt roadid wait CONN_MANAGER;
      skip
    else
      n ← deref d_neigh nei;
      if decide (n_seqno n > p_seqno pkt) then skip
      else
        ignore ← (if decide (n_seqno n = p_seqno pkt) then
                    circle ← in_circle pkt;
                    mret (circle || flag NEIGH_STATE_DIRECT (n_state n))
                  else mret false);
        if (ignore : bool) then skip
        else
          wait ← wait_time pkt;
          _ ← neigh_list_update nei pkt roadid wait CONN_MANAGER;
          skip.

(* [system/src/neigh_manager.cc:284-293] send_node_info *)
Definition send_node_info (r : gps_reading) (sent : bool) : M daemon Z :=
  _ ← send_node r sent; mret 1.

(** The constructor: the beacon's timer, then the neighbour list.  The timer's argument
    is the object itself. *)
Definition NEIGH_MANAGER : addr := 3%N.
(* [system/src/neigh_manager.cc:25-52] NeighManager::NeighManager *)
Definition NeighManager_new (beacon_period entry_expire_period list_cleaner_period : Z)
    : M daemon unit :=
  t ← geosvr_timer_new send_node_info_cb NEIGH_MANAGER beacon_period;
  _ ← modify (set_beacon t);
  neigh_list_init entry_expire_period list_cleaner_period.

(* [system/src/neigh_manager.cc:54-64] NeighManager::~NeighManager *)
Definition NeighManager_delete : M daemon unit :=
  t ← gets d_beacon;
  _ ← geosvr_timer_free t;
  _ ← modify (set_beacon NULL);
  neigh_list_fini.
End neigh_manager.
