(* ===== verification/NeighSpec.v ===== *)
(** * What the neighbour table promises

    The abstract neighbour table: a finite map from addresses to what is known of the
    node, without lists, pointers or timers, and the steps the daemon takes on it.
    [Events.v] proves that the daemon implements them. *)
From S2P Require Import Prelude Double LinkedList Gps Daemon NeighList Utils Database.
From S2P Require Import RoadMap NeighManager.
Open Scope Z_scope.

(** What is known of a node. *)
Record info := Info {
  i_latitude : double;
  i_longitude : double;
  i_track : double;
  i_speed : double;
  i_seqno : Z;
  i_road : Z;
  i_direct : bool;         (** heard directly *)
  i_indirect : bool;       (** heard through another node *)
  i_expired : bool;        (** not heard of for the expiry period *)
  i_rebroadcast : bool;    (** its last beacon has been relayed *)
}.

Definition info_of (n : neighbor) : info :=
  Info (n_latitude n) (n_longitude n) (n_track n) (n_speed n) (n_seqno n) (n_roadid n)
    (direct n) (indirect n) (invalid n) (rebroadcast_done n).

Definition info_of_packet (pkt : geosvr_node_packet) (road : Z) : info :=
  Info (p_latitude pkt) (p_longitude pkt) (p_track pkt) (p_speed pkt) (p_seqno pkt) (u32 road)
    (p_direct pkt =? 1) (p_direct pkt =? 0) false false.

Definition expire (i : info) : info :=
  Info (i_latitude i) (i_longitude i) (i_track i) (i_speed i) (i_seqno i) (i_road i)
    (i_direct i) (i_indirect i) true (i_rebroadcast i).
Definition relayed (i : info) : info :=
  Info (i_latitude i) (i_longitude i) (i_track i) (i_speed i) (i_seqno i) (i_road i)
    (i_direct i) (i_indirect i) (i_expired i) true.

(** ** The steps *)
Section spec.
Context `{Libm, RoadMap}.

(** The packet the table takes in: from another node, newer than what is known of its
    source, or as new and neither heard directly before nor relayed from nearby. *)
Definition fresh_packet (local : Z) (g : GpsManager) (T : gmap Z info)
    (pkt : geosvr_node_packet) : bool :=
  bool_decide (p_taddr pkt ≠ local) && bool_decide (p_saddr pkt ≠ local) &&
  match T !! p_saddr pkt with
  | None => true
  | Some i =>
      (i_seqno i <=? p_seqno pkt) &&
      negb ((i_seqno i =? p_seqno pkt) &&
            (match T !! p_taddr pkt with
             | None => false
             | Some t => in_circle_of (get_longitude g) (get_latitude g)
                           (i_longitude t) (i_latitude t) pkt
             end || i_direct i))
  end.

Definition receive_table (local : Z) (g : GpsManager) (pkt : geosvr_node_packet)
    (T : gmap Z info) : gmap Z info :=
  if fresh_packet local g T pkt then
    <[p_saddr pkt := info_of_packet pkt
        (on_road (p_latitude pkt) (p_longitude pkt) (p_track pkt))]> T
  else T.

Record node := Node {
  a_table : gmap Z info;
  a_gps : GpsManager;
  a_seqno : Z;
  a_local : Z;
  a_sent : list geosvr_node_packet;
}.

Definition relay_packet (local ip : Z) (i : info) : geosvr_node_packet :=
  NodePacket local ip (i_latitude i) (i_longitude i) (i_track i) (i_speed i) 0
    (wrap 31 (i_seqno i)).

Definition beacon (s : node) : geosvr_node_packet :=
  NodePacket (a_local s) (a_local s) (get_latitude (a_gps s)) (get_longitude (a_gps s))
    (get_track (a_gps s)) (get_speed (a_gps s)) 1 (wrap 31 (a_seqno s)).

(** What happens to a node. *)
Inductive node_event :=
  | Echo                                  (** its own broadcast comes back *)
  | Heard (pkt : geosvr_node_packet)      (** a packet arrives *)
  | Expired (ip : Z)                      (** nothing was heard of [ip] for the expiry period *)
  | Relay (ip : Z)                        (** the wait before relaying [ip]'s beacon is over *)
  | Clean                                 (** the cleaner runs *)
  | Beacon (r : gps_reading).             (** the beacon period is over *)

Inductive node_step (s : node) : node_event → node → Prop :=
  | step_echo :
      node_step s Echo s
  | step_heard pkt :
      packet_ok pkt →
      node_step s (Heard pkt)
        (Node (receive_table (a_local s) (a_gps s) pkt (a_table s))
           (a_gps s) (a_seqno s) (a_local s) (a_sent s))
  | step_expired ip i :
      a_table s !! ip = Some i → i_expired i = false →
      node_step s (Expired ip)
        (Node (<[ip := expire i]> (a_table s)) (a_gps s) (a_seqno s) (a_local s) (a_sent s))
  | step_relay ip i :
      a_table s !! ip = Some i → i_rebroadcast i = false →
      node_step s (Relay ip)
        (Node (<[ip := relayed i]> (a_table s)) (a_gps s) (a_seqno s) (a_local s)
           (relay_packet (a_local s) ip i :: a_sent s))
  | step_clean :
      node_step s Clean
        (Node (filter (λ p, i_expired p.2 = false) (a_table s))
           (a_gps s) (a_seqno s) (a_local s) (a_sent s))
  | step_beacon r g res :
      read_gps_data r (a_gps s) = Done res g →
      node_step s (Beacon r)
        (Node (a_table s) g (u32 (a_seqno s + 1)) (a_local s)
           (beacon (Node (a_table s) g (a_seqno s) (a_local s) (a_sent s)) :: a_sent s)).
End spec.

(** ** The table a heap holds *)

Definition heap_inj (m : gmap N neighbor) : Prop :=
  ∀ a b na nb, m !! a = Some na → m !! b = Some nb → n_ip_addr na = n_ip_addr nb → a = b.

Definition view (m : gmap N neighbor) : gmap Z info :=
  list_to_map ((λ p, (n_ip_addr p.2, info_of p.2)) <$> map_to_list m).

Lemma view_lookup m ip i :
  heap_inj m →
  view m !! ip = Some i ↔ ∃ a n, m !! a = Some n ∧ n_ip_addr n = ip ∧ info_of n = i.
Proof.
  intros Hinj. unfold view. rewrite <- elem_of_list_to_map.
  - rewrite list_elem_of_fmap. split.
    + intros ([a n] & [= -> ->] & Hin%elem_of_map_to_list). eauto.
    + intros (a & n & Hn & <- & <-). exists (a, n). split; [done|].
      by apply elem_of_map_to_list.
  - rewrite <- list_fmap_compose. apply NoDup_fmap_2_strong; [|apply NoDup_map_to_list].
    intros [a na] [b nb] Ha%elem_of_map_to_list Hb%elem_of_map_to_list E. simpl in E.
    assert (a = b) as <- by by eapply Hinj. by simplify_eq.
Qed.

Lemma view_lookup_None m ip :
  heap_inj m → view m !! ip = None ↔ ∀ a n, m !! a = Some n → n_ip_addr n ≠ ip.
Proof.
  intros Hinj. rewrite eq_None_not_Some. split.
  - intros Hn a n Ha E. apply Hn. exists (info_of n). apply view_lookup; eauto.
  - intros Hn [i (a & n & Ha & E & _)%view_lookup]; [|done]. by eapply Hn.
Qed.

Lemma view_at m a n :
  heap_inj m → m !! a = Some n → view m !! n_ip_addr n = Some (info_of n).
Proof. intros Hinj Ha. apply view_lookup; eauto. Qed.

(** Writing an entry whose address is its own. *)
Lemma view_insert m a n :
  heap_inj m → (∀ b nb, m !! b = Some nb → n_ip_addr nb = n_ip_addr n ↔ b = a) →
  view (<[a := n]> m) = <[n_ip_addr n := info_of n]> (view m).
Proof.
  intros Hinj Ha.
  assert (heap_inj (<[a := n]> m)) as Hinj'.
  { intros b c nb nc. rewrite !lookup_insert_Some.
    intros [[<- <-]|[Hb1 Hb]] [[<- <-]|[Hc1 Hc]] E; [done| | |by eapply Hinj].
    - symmetry. by apply (Ha c nc Hc).
    - by apply (Ha b nb Hb). }
  apply map_eq. intros ip. apply option_eq. intros i.
  rewrite view_lookup, lookup_insert_Some, view_lookup by done.
  setoid_rewrite lookup_insert_Some. split.
  - intros (b & nb & [[<- <-]|[Hb1 Hb]] & <- & <-); [by left|right].
    split; [|by eauto]. intros E. apply Hb1. symmetry. apply (Ha b nb Hb). done.
  - intros [[<- <-]|(Hne & b & nb & Hb & <- & <-)]; [by eauto 8|].
    exists b, nb. split; [right|done]. split; [|done]. intros <-. apply Hne. symmetry.
    by apply (Ha a nb Hb).
Qed.

Lemma view_filter m m' (P : addr → Prop) `{∀ a, Decision (P a)} (Q : info → bool) :
  heap_inj m → (∀ a, m' !! a = if decide (P a) then m !! a else None) →
  (∀ a n, m !! a = Some n → P a ↔ Q (info_of n) = false) →
  view m' = filter (λ p, Q p.2 = false) (view m).
Proof.
  intros Hinj Hm' HP.
  assert (heap_inj m') as Hinj'.
  { intros b c nb nc. rewrite !Hm'. repeat case_decide; try done. apply Hinj. }
  apply map_eq. intros ip. apply option_eq. intros i.
  rewrite view_lookup, map_lookup_filter_Some, view_lookup by done. split.
  - intros (a & n & Ha & <- & <-). rewrite Hm' in Ha. case_decide; [|done].
    split; [by eauto|]. by apply (HP a n Ha).
  - intros [(a & n & Ha & <- & <-) HQ]. exists a, n. split; [|done].
    rewrite Hm', decide_True; [done|]. by apply (HP a n Ha).
Qed.

(** The abstract state of a daemon. *)
Definition abs `{EventLib} (d : daemon) : node :=
  Node (view (d_neigh d)) (d_gps d) (d_seqno d) (d_local d) (d_sent d).

Lemma entry_info pkt road conn n :
  entry_of pkt road conn n → info_of n = info_of_packet pkt road.
Proof.
  intros (_ & E1 & E2 & E3 & E4 & E5 & E6 & _ & E7 & E8 & E9 & E10).
  unfold info_of, info_of_packet. by rewrite E1, E2, E3, E4, E5, E6, E7, E8, E9, E10.
Qed.
