(* ===== verification/ConnManager.v ===== *)
(** * The connection manager: datagrams

    [system/src/conn_manager.cc]: the broadcast socket.  A datagram is the list of its
    bytes, with the address it comes from. *)
From S2P Require Import Prelude Double LinkedList Gps Daemon Timer NeighList Wire Utils.
From S2P Require Import Database RoadMap NeighManager.
Open Scope Z_scope.

Section conn_manager.
Context `{EventLib, Allocator, Platform, Libm, RoadMap}.

(** A datagram too short for a packet: the two addresses are compared before any other
    member is read. *)
Definition recv_short (data : list Z) : M daemon unit :=
  local ← gets d_local;
  match load 0 4 data with
  | None => stuck OutOfBounds
  | Some taddr =>
      if decide (taddr = local) then skip
      else match load 4 4 data with
           | None => stuck OutOfBounds
           | Some saddr => if decide (saddr = local) then skip else stuck OutOfBounds
           end
  end.

(* [system/src/neigh_manager.cc:295-301] recv_node_info *)
Definition recv_node_info (data : list Z) : M daemon unit :=
  match read_node_packet data with
  | Some pkt => recv_node pkt
  | None => recv_short data
  end.

(** [received] is what [recvfrom] returns: the source and the bytes, or an error. *)
Definition RECV_BUFLEN : nat := 1500.
(* [system/src/conn_manager.cc:269-294] receive *)
Definition receive (received : option (Z * list Z)) : M daemon unit :=
  match received with
  | None => skip
  | Some (src, buf) =>
      local ← gets d_local;
      if decide (src = local) then skip
      else recv_node_info (take RECV_BUFLEN buf)
  end.
End conn_manager.
