(* ===== verification/Events.v ===== *)
(** * The event loop

    What libevent does to the daemon: it delivers datagrams and it calls back timers.
    Every reachable state of the daemon is well formed, no handler faults, and every
    handler takes the step of the abstract node of [NeighSpec.v] it is meant to take. *)
From S2P Require Import Prelude Double LinkedList Gps Daemon Timer NeighList Wire Utils.
From S2P Require Import Database RoadMap NeighManager NeighSpec ConnManager.
Open Scope Z_scope.

Section events.
Context `{EventLib, Allocator, Platform, Libm, RoadMap}.

(** The function a timer calls.  [r] is what the GPS answers, [sent] whether the network
    takes a datagram. *)
Definition call (r : gps_reading) (sent : bool) (f : TimerCallback) (data : addr) : M daemon Z :=
  match f with
  | neigh_list_expire_cb => neigh_list_expire data
  | list_cleaner_cb_cb => list_cleaner_cb
  | rebroadcast_expire_cb => rebroadcast_expire sent data
  | send_node_info_cb => send_node_info r sent
  end.

Inductive event :=
  | Datagram (received : option (Z * list Z))
  | Fire (t : addr) (r : gps_reading) (sent : bool).

(** One iteration of [event_dispatch]. *)
Definition handle (e : event) : M daemon unit :=
  match e with
  | Datagram received => receive received
  | Fire t r sent =>
      _ ← modify (λ d, set_base (event_deliver t (d_base d)) d);
      timer_callback (call r sent) t
  end.

(** The events that can happen: a datagram of bytes, at least as long as the members of
    a packet; a timer that is pending. *)
Definition enabled (d : daemon) (e : event) : Prop :=
  match e with
  | Datagram None => True
  | Datagram (Some (_, buf)) => Forall (λ b, 0 ≤ b < 256) buf ∧ (44 ≤ length buf)%nat
  | Fire t r _ => pending (d_base d) t = true ∧ reading_ok (d_gps d) r
  end.

(** The static objects before [main]'s constructors run. *)
Definition static_daemon (g : GpsManager) (local : Z) : daemon :=
  Daemon {[NEI_LIST := ListT NULL NULL]} ∅ ∅ event_init 0 NULL NULL
    DEFAULT_NEIGH_LIST_EXPIRE DEFAULT_LIST_CLEANER_TIMER 0 g local [].

Inductive reachable (d : daemon) : Prop :=
  | reach_boot g local beacon_period expire_period cleaner_period :
      gps_ok g → 0 ≤ local < 2 ^ 32 →
      NeighManager_new beacon_period expire_period cleaner_period (static_daemon g local)
        = Done tt d →
      reachable d
  | reach_step d0 e :
      reachable d0 → enabled d0 e → handle e d0 = Done tt d → reachable d.

(** The step of the abstract node an event stands for. *)
Definition label (d : daemon) (e : event) : node_event :=
  match e with
  | Datagram None => Echo
  | Datagram (Some (src, buf)) =>
      match read_node_packet (take RECV_BUFLEN buf) with
      | Some pkt => if decide (src = d_local d) then Echo else Heard pkt
      | None => Echo
      end
  | Fire t r _ =>
      match d_timers d !! t with
      | Some tm =>
          match func_ tm with
          | neigh_list_expire_cb => Expired (ip_at d (data_ tm))
          | rebroadcast_expire_cb => Relay (ip_at d (data_ tm))
          | list_cleaner_cb_cb => Clean
          | send_node_info_cb => Beacon r
          end
      | None => Echo
      end
  end.

(** ** Timers that fire *)

Lemma timer_in_cb cur d t tm :
  timers_ok cur d → d_timers d !! t = Some tm → in_cb_ tm = is_cur cur t.
Proof.
  intros Hw Ht. destruct (wf_owner _ _ Hw _ _ Ht) as [_ Ho]. unfold owned in Ho.
  assert (∃ f data, has_timer cur d t f data) as (f & data & tv & E); [|by simplify_eq].
  destruct (func_ tm).
  - destruct Ho as (n & Hn & Hi & <-). do 2 eexists. by apply (wf_expire _ _ Hw).
  - subst t. do 2 eexists. apply (wf_cleaner _ _ Hw).
  - destruct Ho as (n & Hn & Hi & <-). do 2 eexists. by apply (wf_rebroadcast _ _ Hw).
  - subst t. destruct (wf_beacon _ _ Hw) as [data Hb]. eauto.
Qed.

(** Marking and unmarking the timer whose callback runs. *)
Lemma timers_retag cur cur' d d' :
  timers_ok cur d →
  d_neigh d' = d_neigh d → d_cleaner d' = d_cleaner d → d_beacon d' = d_beacon d →
  (∀ t, d_timers d' !! t =
    (λ tm, Timer (tv_ tm) (func_ tm) (data_ tm) (is_cur cur' t)) <$> d_timers d !! t) →
  (∀ t, pending (d_base d') t =
    bool_decide (is_Some (d_timers d !! t)) && negb (is_cur cur' t)) →
  timers_ok cur' d'.
Proof.
  intros Hw En Ecl Ebe Et Ep.
  assert (∀ t f data, has_timer cur d t f data → has_timer cur' d' t f data) as Hk.
  { intros t f data [tv E]. exists tv. by rewrite Et, E. }
  split; rewrite ?En, ?Ecl, ?Ebe.
  - intros a n Hn Hi. apply Hk. by apply (wf_expire _ _ Hw).
  - intros a n Hn Hi. apply Hk. by apply (wf_rebroadcast _ _ Hw).
  - apply Hk, (wf_cleaner _ _ Hw).
  - destruct (wf_beacon _ _ Hw) as [data Hb]. exists data. by apply Hk.
  - intros t tm. rewrite Et. intros (tm0 & Ht & ->)%fmap_Some.
    destruct (wf_owner _ _ Hw _ _ Ht) as [Ht0 Ho]. split; [done|].
    unfold owned in *. simpl. by rewrite En, Ecl, Ebe.
  - intros t. rewrite Ep, Et. f_equal. apply bool_decide_ext. by rewrite fmap_is_Some.
Qed.

(** A one-shot timer has fired and its entry no longer needs it. *)
Lemma timers_fired t tm d d' a n n' :
  timers_ok (Some t) d → d_timers d !! t = Some tm → data_ tm = a →
  d_neigh d !! a = Some n → d_neigh d' = <[a := n']> (d_neigh d) →
  n_timeout_timer n' = n_timeout_timer n → n_rebroadcast_timer n' = n_rebroadcast_timer n →
  (func_ tm = neigh_list_expire_cb ∧ invalid n' = true ∧
     rebroadcast_done n' = rebroadcast_done n ∨
   func_ tm = rebroadcast_expire_cb ∧ rebroadcast_done n' = true ∧ invalid n' = invalid n) →
  d_cleaner d' = d_cleaner d → d_beacon d' = d_beacon d →
  d_timers d' = delete t (d_timers d) →
  (∀ x, pending (d_base d') x = bool_decide (x ≠ t) && pending (d_base d) x) →
  timers_ok None d'.
Proof.
  intros Hw Ht Ea Hn En E1 E2 Hf Ecl Ebe Et Ep.
  assert (∀ x f data, has_timer (Some t) d x f data → f ≠ func_ tm ∨ data ≠ a →
    has_timer None d' x f data) as Hk.
  { intros x f data [tv E] Hne. assert (x ≠ t) as Hx by (intros ->; simplify_eq/=; naive_solver).
    exists tv. rewrite Et, lookup_delete_ne by done. rewrite E. unfold is_cur.
    by rewrite bool_decide_eq_false_2 by congruence. }
  assert (∀ x tm', d_timers d !! x = Some tm' → x ≠ t → func_ tm' = func_ tm → data_ tm' = a →
    False) as Huniq.
  { intros x tm' Hx Hne Ef Ed. destruct (wf_owner _ _ Hw _ _ Hx) as [_ Ho].
    destruct (wf_owner _ _ Hw _ _ Ht) as [_ Ho']. unfold owned in Ho, Ho'.
    rewrite Ef, Ed in Ho. rewrite Ea in Ho'.
    destruct Hf as [[Ef' _]|[Ef' _]]; rewrite Ef' in Ho, Ho'; naive_solver. }
  split.
  - intros b m. rewrite En, lookup_insert. case_decide as Eb.
    + subst b. intros [= <-] Hi. rewrite E1.
      destruct Hf as [(_ & Hi' & _)|(Ef & _ & Hi')]; [congruence|].
      apply Hk; [apply (wf_expire _ _ Hw); congruence|]. left. by rewrite Ef.
    + intros Hm Hi. apply Hk; [by apply (wf_expire _ _ Hw)|]. right. congruence.
  - intros b m. rewrite En, lookup_insert. case_decide as Eb.
    + subst b. intros [= <-] Hi. rewrite E2.
      destruct Hf as [(Ef & _ & Hi')|(_ & Hi' & _)]; [|congruence].
      apply Hk; [apply (wf_rebroadcast _ _ Hw); congruence|]. left. by rewrite Ef.
    + intros Hm Hi. apply Hk; [by apply (wf_rebroadcast _ _ Hw)|]. right. congruence.
  - rewrite Ecl. apply Hk; [apply (wf_cleaner _ _ Hw)|]. left.
    by destruct Hf as [[-> _]|[-> _]].
  - destruct (wf_beacon _ _ Hw) as [data Hb]. exists data. rewrite Ebe.
    apply Hk; [done|]. left. by destruct Hf as [[-> _]|[-> _]].
  - intros x tm'. rewrite Et, lookup_delete_Some. intros [Hx Hx'].
    destruct (wf_owner _ _ Hw _ _ Hx') as [Hx0 Ho]. split; [done|].
    assert (func_ tm' = func_ tm → data_ tm' = a → False) as Hu by (by apply Huniq with x).
    unfold owned in *. rewrite En, Ecl, Ebe.
    destruct (func_ tm') eqn:Ef'; try done; destruct Ho as (m & Hm & Hi & Ex);
      rewrite lookup_insert; case_decide as Ed; eauto;
      rewrite <- Ed in Hm; simplify_eq; exists n'; split_and!; try done; try congruence;
      destruct Hf as [(Ef & Hi1 & Hi2)|(Ef & Hi1 & Hi2)]; try congruence;
      exfalso; apply Hu; congruence.
  - intros x. rewrite Ep, (wf_pending _ _ Hw), Et, lookup_delete. unfold is_cur.
    case_decide as Ex; repeat case_bool_decide; naive_solver.
Qed.

Lemma table_frame d d' xs :
  table_ok d xs → d_cells d' = d_cells d → d_neigh d' = d_neigh d → d_num d' = d_num d →
  d_local d' = d_local d → table_ok d' xs.
Proof. intros Hw Ec En Em El. destruct Hw. split; by rewrite ?Ec, ?En, ?Em, ?El. Qed.

(** The state in which the callback of [t] starts. *)
Definition fired (t : addr) (tm : GeoSVRTimer) (d : daemon) : daemon :=
  set_timers (<[t := Timer (tv_ tm) (func_ tm) (data_ tm) true]> (d_timers d))
    (set_base (event_deliver t (d_base d)) d).

Lemma fire_start d xs t tm :
  wf None d xs → d_timers d !! t = Some tm → wf (Some t) (fired t tm d) xs.
Proof.
  intros [Htab Htim] Ht. split; [by eapply table_frame|].
  eapply timers_retag; [exact Htim|done..| |]; simpl.
  - intros x. rewrite lookup_insert. unfold is_cur. case_decide as E.
    + subst x. rewrite Ht. simpl. by rewrite bool_decide_eq_true_2.
    + destruct (d_timers d !! x) as [tm'|] eqn:Hx; simpl; [|done].
      pose proof (timer_in_cb _ _ _ _ Htim Hx) as Hin. rewrite bool_decide_eq_false_2 by congruence.
      unfold is_cur in Hin. simpl in Hin. destruct tm'; simpl in *. by subst.
  - intros x. rewrite pending_deliver, (wf_pending _ _ Htim). unfold is_cur. simpl.
    rewrite andb_true_r, andb_comm. f_equal. repeat case_bool_decide; simpl; congruence.
Qed.

(** The end of [timer_callback] when the timer is to run again. *)
Lemma wp_rearm t tm d xs :
  wf (Some t) d xs → d_timers d !! t = Some tm →
  wp (_ ← upd_timer t (λ t, Timer (tv_ t) (func_ t) (data_ t) false);
      tm ← deref d_timers t;
      modify (λ d, set_base (evtimer_add t (tv_ tm) (d_base d)) d)) d
    (λ _ d', wf None d' xs ∧ d_neigh d' = d_neigh d ∧ same_env d d').
Proof.
  intros [Htab Htim] Ht. destruct (wf_owner _ _ Htim _ _ Ht) as [Ht0 _].
  apply wp_bind. eapply wp_upd_timer; [done..|].
  apply wp_bind. eapply wp_deref; [done|simpl; by apply lookup_insert_eq|]. apply wp_modify.
  split; [|done]. split; [by eapply table_frame|].
  eapply timers_retag; [exact Htim|done..| |]; simpl.
  - intros x. rewrite lookup_insert. case_decide as E; [subst x; by rewrite Ht|].
    destruct (d_timers d !! x) as [tm'|] eqn:Hx; simpl; [|done].
    pose proof (timer_in_cb _ _ _ _ Htim Hx) as Hin. unfold is_cur in Hin.
    rewrite bool_decide_eq_false_2 in Hin by congruence. destruct tm'; simpl in *. by subst.
  - intros x. rewrite pending_add, (wf_pending _ _ Htim). unfold is_cur. simpl.
    rewrite andb_true_r. repeat case_bool_decide; simpl; try done; try congruence.
    subst x. exfalso. eauto.
Qed.

(** The end of [timer_callback] when a one-shot timer of the entry [a] has run. *)
Lemma wp_one_shot t tm d d' a n n' xs :
  wf (Some t) d xs → d_timers d !! t = Some tm → data_ tm = a →
  d_neigh d !! a = Some n → d_neigh d' = <[a := n']> (d_neigh d) →
  n_ip_addr n' = n_ip_addr n →
  n_timeout_timer n' = n_timeout_timer n → n_rebroadcast_timer n' = n_rebroadcast_timer n →
  (func_ tm = neigh_list_expire_cb ∧ invalid n' = true ∧
     rebroadcast_done n' = rebroadcast_done n ∨
   func_ tm = rebroadcast_expire_cb ∧ rebroadcast_done n' = true ∧ invalid n' = invalid n) →
  d_cells d' = d_cells d → d_num d' = d_num d → d_local d' = d_local d →
  d_cleaner d' = d_cleaner d → d_beacon d' = d_beacon d →
  d_timers d' = d_timers d → d_base d' = d_base d →
  wp (_ ← upd_timer t (λ t, Timer (tv_ t) (func_ t) (data_ t) false);
      geosvr_timer_free t) d'
    (λ _ d'', wf None d'' xs ∧ d_neigh d'' = d_neigh d' ∧ same_env d' d'').
Proof.
  intros [Htab Htim] Ht Ea Hn En Eip E1 E2 Hf Ec Em El Ecl Ebe Et Eb.
  destruct (wf_owner _ _ Htim _ _ Ht) as [Ht0 _].
  apply wp_bind. eapply wp_upd_timer; [done|by rewrite Et|].
  eapply wp_timer_free; [done|simpl; by apply lookup_insert_eq|done|].
  split; [|done]. split.
  - eapply table_update; [exact Htab|exact Hn|exact Eip|done..].
  - eapply timers_fired; [exact Htim|exact Ht|exact Ea|exact Hn|exact En|done|done|done|done|done| |].
    + simpl. rewrite Et. by rewrite delete_insert_eq.
    + intros x. simpl. by rewrite pending_del, Eb.
Qed.

(** ** The callbacks *)

Lemma wf_inj cur d xs : wf cur d xs → heap_inj (d_neigh d).
Proof. intros [Htab _]. exact (wf_ips _ _ Htab). Qed.

Lemma wf_entry cur d xs a n : wf cur d xs → d_neigh d !! a = Some n → a ≠ NULL.
Proof.
  intros [Htab _] Hn. eapply wf_nonnull; [exact Htab|]. apply (wf_lookup _ _ _ Htab). eauto.
Qed.

(** [neigh_list_find] in terms of the table. *)
Lemma find_view d xs ip :
  wf None d xs → ∃ a, neigh_list_find ip d = Done a d ∧
    ((a = NULL ∧ view (d_neigh d) !! ip = None) ∨
     (a ≠ NULL ∧ ∃ n, d_neigh d !! a = Some n ∧ n_ip_addr n = ip ∧
        view (d_neigh d) !! ip = Some (info_of n))).
Proof.
  intros Hw. destruct (neigh_list_find_spec d xs ip (proj1 Hw)) as (a & E & Hf).
  exists a. split; [done|]. destruct Hf as [[-> Hf]|(Ha & n & Hn & <-)].
  - left. split; [done|]. apply view_lookup_None; [by eapply wf_inj|done].
  - right. split; [done|]. exists n. split_and!; try done. eapply view_at; [by eapply wf_inj|done].
Qed.

Lemma wait_time_done d xs pkt : wf None d xs → ∃ w, wait_time pkt d = Done w d.
Proof.
  intros Hw. destruct (find_view d xs (p_saddr pkt) Hw) as (a & E & Hf).
  unfold wait_time. rewrite (bind_done _ _ _ _ _ E).
  destruct Hf as [[-> _]|(Ha & n & Hn & _)]; [eexists; reflexivity|].
  rewrite decide_False by done. unfold deref, mbind, M_bind. rewrite decide_False, Hn by done.
  eexists; reflexivity.
Qed.

Lemma in_circle_done d xs pkt :
  wf None d xs → in_circle pkt d =
    Done (match view (d_neigh d) !! p_taddr pkt with
          | None => false
          | Some t => in_circle_of (get_longitude (d_gps d)) (get_latitude (d_gps d))
                        (i_longitude t) (i_latitude t) pkt
          end) d.
Proof.
  intros Hw. destruct (find_view d xs (p_taddr pkt) Hw) as (a & E & Hf).
  unfold in_circle. rewrite (bind_done _ _ _ _ _ E).
  destruct Hf as [[-> ->]|(Ha & n & Hn & _ & ->)]; [reflexivity|].
  rewrite decide_False by done. unfold deref, mbind, M_bind. by rewrite decide_False, Hn by done.
Qed.

Context (Hjunk : ∀ X, junk_bool X = false).

(** The address of a new entry was not in use. *)
Lemma wf_cons_fresh cur cur' d d' a xs :
  wf cur d xs → wf cur' d' (a :: xs) → d_neigh d !! a = None.
Proof.
  intros [Htab _] [Htab' _]. destruct (wf_ring _ _ Htab') as (Hnd & _).
  apply NoDup_cons in Hnd as [_ [Ha _]%NoDup_cons]. apply eq_None_not_Some.
  by intros ?%(wf_lookup _ _ _ Htab).
Qed.

(** A received packet leaves the table that [receive_table] describes. *)
Lemma wp_recv_node d xs pkt :
  wf None d xs → packet_ok pkt →
  wp (recv_node pkt) d (λ _ d', (∃ xs', wf None d' xs') ∧ same_env d d' ∧
    view (d_neigh d') = receive_table (d_local d) (d_gps d) pkt (view (d_neigh d))).
Proof.
  intros Hw Hpkt. pose proof (wf_inj _ _ _ Hw) as Hinj.
  unfold recv_node, receive_table, fresh_packet. apply wp_bind, wp_gets.
  destruct (decide (p_taddr pkt = d_local d)) as [E1|Hl1].
  { rewrite decide_True, bool_decide_eq_false_2 by auto. apply wp_ret. split; [by exists xs|done]. }
  destruct (decide (p_saddr pkt = d_local d)) as [E2|Hl2].
  { rewrite decide_True, (bool_decide_eq_false_2 (p_saddr _ ≠ _)), andb_false_r by auto.
    apply wp_ret. split; [by exists xs|done]. }
  rewrite decide_False, !bool_decide_eq_true_2 by tauto. simpl andb.
  destruct (find_view d xs (p_saddr pkt) Hw) as (a & E & Hf).
  destruct (wait_time_done d xs pkt Hw) as [w Ew].
  apply wp_bind. eapply wp_done; [exact E|].
  destruct Hf as [[-> Hnone]|(Ha & n & Hn & Eip & Hv)].
  - rewrite Hnone. apply wp_bind. eapply wp_done; [exact Ew|]. apply wp_bind.
    pose proof (proj1 (view_lookup_None _ _ Hinj) Hnone) as Hnew.
    eapply wp_mono; [by eapply wp_insert|]. intros b d' (Hw' & Henv & v & En & Hent).
    apply wp_ret. split; [by eexists|]. split; [done|]. rewrite En.
    pose proof (wf_cons_fresh _ _ _ _ _ _ Hw Hw') as Hb.
    rewrite view_insert; [by rewrite (entry_info _ _ _ _ Hent), (proj1 Hent)|done|].
    intros c nc Hc. rewrite (proj1 Hent). split; [by intros ?%(Hnew c nc Hc)|congruence].
  - rewrite decide_False, Hv by done. apply wp_bind. eapply wp_deref; [done..|].
    change (i_seqno (info_of n)) with (n_seqno n). change (i_direct (info_of n)) with (direct n).
    destruct (decide (n_seqno n > p_seqno pkt)) as [Hgt|Hgt].
    { rewrite (proj2 (Z.leb_gt _ _)) by lia. apply wp_ret. split; [by exists xs|done]. }
    rewrite (proj2 (Z.leb_le _ _)) by lia. simpl andb.
    match goal with |- context [?c || direct n] => set (circ := c) in * end.
    apply wp_bind. eapply (wp_done _ _ ((n_seqno n =? p_seqno pkt) && (circ || direct n)) d).
    { case_decide as Eq.
      - rewrite (proj2 (Z.eqb_eq _ _)) by done.
        by rewrite (bind_done _ _ _ _ _ (in_circle_done d xs pkt Hw)).
      - by rewrite (proj2 (Z.eqb_neq _ _)). }
    destruct ((n_seqno n =? p_seqno pkt) && (circ || direct n)); simpl.
    { apply wp_ret. split; [by exists xs|done]. }
    apply wp_bind. eapply wp_done; [exact Ew|]. apply wp_bind.
    eapply wp_mono; [by eapply wp_update|]. intros b d' (-> & Hw' & Henv & v & En & Hent).
    apply wp_ret. split; [by eexists|]. split; [done|]. rewrite En.
    rewrite view_insert; [by rewrite (entry_info _ _ _ _ Hent), (proj1 Hent)|done|].
    intros c nc Hc. rewrite (proj1 Hent). split.
    + intros Ec. eapply Hinj; [exact Hc|exact Hn|congruence].
    + intros ->. congruence.
Qed.

Lemma fired_lookup t tm d :
  d_timers (fired t tm d) !! t = Some (Timer (tv_ tm) (func_ tm) (data_ tm) true).
Proof. simpl. by apply lookup_insert_eq. Qed.

(** A callback that runs [m] and then asks to be called again. *)
Lemma wp_periodic t d (m : M daemon Z) (P : daemon → Prop) :
  wp m d (λ r d', r = 1 ∧ is_Some (d_timers d' !! t) ∧ (∃ xs', wf (Some t) d' xs') ∧ P d') →
  (∀ d1 d2, P d1 → d_neigh d2 = d_neigh d1 → same_env d1 d2 → P d2) →
  wp (more ← m;
      _ ← upd_timer t (λ t, Timer (tv_ t) (func_ t) (data_ t) false);
      if decide (more ≠ 0) then
        tm ← deref d_timers t;
        modify (λ d, set_base (evtimer_add t (tv_ tm) (d_base d)) d)
      else geosvr_timer_free t) d
    (λ _ d', (∃ xs', wf None d' xs') ∧ P d').
Proof.
  intros Hm HP. apply wp_bind. eapply wp_mono; [exact Hm|].
  intros r d1 (-> & [tm Ht1] & [xs1 Hw1] & HP1). rewrite decide_True by done.
  eapply wp_mono; [eapply wp_rearm; [exact Hw1|exact Ht1]|].
  intros _ d2 (Hw2 & En2 & Henv2). split; [by exists xs1|]. by eapply HP.
Qed.

(** The result of an event: a well-formed daemon in the state the abstract step gives. *)
Definition stepped (d : daemon) (e : node_event) (d' : daemon) : Prop :=
  gps_ok (d_gps d') ∧ node_step (abs d) e (abs d').

Lemma stepped_frame d e d1 d2 :
  stepped d e d1 → d_neigh d2 = d_neigh d1 → same_env d1 d2 → stepped d e d2.
Proof.
  intros [Hg Hs] En (_ & _ & _ & _ & E1 & E2 & E3 & E4). unfold stepped, abs in *.
  by rewrite En, E1, E2, E3, E4.
Qed.

Lemma invalid_expired n :
  let n' := with_state (set_flag NEIGH_STATE_INVALID (n_state n)) n in
  invalid n' = true ∧ info_of n' = expire (info_of n).
Proof.
  unfold info_of, expire. split; [by flags|]. simpl. f_equal; by flags.
Qed.

Lemma rebroadcast_relayed n :
  let n' := with_state (set_flag NEIGH_STATE_REBROADCAST (n_state n)) n in
  rebroadcast_done n' = true ∧ info_of n' = relayed (info_of n).
Proof.
  unfold info_of, relayed. split; [by flags|]. simpl. f_equal; by flags.
Qed.

(** Changing the flags of one entry. *)
Lemma view_state m a n n' f :
  heap_inj m → m !! a = Some n → n_ip_addr n' = n_ip_addr n → info_of n' = f (info_of n) →
  view (<[a := n']> m) = <[n_ip_addr n := f (info_of n)]> (view m).
Proof.
  intros Hinj Hn Eip Ei. rewrite view_insert; [by rewrite Eip, Ei|done|].
  intros b nb Hb. rewrite Eip. split; [by intros E; eapply Hinj|congruence].
Qed.

Lemma ip_at_entry d a n : d_neigh d !! a = Some n → ip_at d a = n_ip_addr n.
Proof. unfold ip_at. by intros ->. Qed.

Lemma wp_fire_expire d xs t tm :
  wf None d xs → gps_ok (d_gps d) → d_timers d !! t = Some tm → func_ tm = neigh_list_expire_cb →
  wp (more ← neigh_list_expire (data_ tm);
      _ ← upd_timer t (λ t, Timer (tv_ t) (func_ t) (data_ t) false);
      if decide (more ≠ 0) then
        tm ← deref d_timers t;
        modify (λ d, set_base (evtimer_add t (tv_ tm) (d_base d)) d)
      else geosvr_timer_free t) (fired t tm d)
    (λ _ d', (∃ xs', wf None d' xs') ∧ stepped d (Expired (ip_at d (data_ tm))) d').
Proof.
  intros Hw Hg Ht Ef. pose proof (fire_start _ _ _ _ Hw Ht) as Hw1.
  destruct (wf_owner _ _ (proj2 Hw) _ _ Ht) as [_ Ho]. unfold owned in Ho. rewrite Ef in Ho.
  destruct Ho as (n & Hn & Hi & Et). pose proof (wf_entry _ _ _ _ _ Hw Hn) as Ha.
  destruct (invalid_expired n) as [Hi' Ei].
  apply wp_bind. unfold neigh_list_expire. rewrite decide_False by done.
  apply wp_bind. eapply wp_upd_neighbor; [done|exact Hn|]. apply wp_ret.
  rewrite decide_False by tauto.
  eapply wp_mono; [eapply wp_one_shot with (d' := set_neigh _ (fired t tm d));
    [exact Hw1|apply fired_lookup|reflexivity|exact Hn|reflexivity|done|done|done| |done..]|].
  { left. simpl. split_and!; [done|done|]. unfold rebroadcast_done. by flags. }
  intros _ d' (Hw' & En & Henv). split; [by exists xs|].
  eapply stepped_frame; [|exact En|exact Henv]. split; [done|]. unfold abs. simpl.
  rewrite (view_state _ _ _ _ expire (wf_inj _ _ _ Hw) Hn) by done.
  rewrite (ip_at_entry _ _ _ Hn). apply (step_expired (abs d)); [|done].
  by apply (view_at _ _ _ (wf_inj _ _ _ Hw)) in Hn.
Qed.

Lemma wp_fire_rebroadcast d xs t tm sent :
  wf None d xs → gps_ok (d_gps d) → d_timers d !! t = Some tm →
  func_ tm = rebroadcast_expire_cb →
  wp (more ← rebroadcast_expire sent (data_ tm);
      _ ← upd_timer t (λ t, Timer (tv_ t) (func_ t) (data_ t) false);
      if decide (more ≠ 0) then
        tm ← deref d_timers t;
        modify (λ d, set_base (evtimer_add t (tv_ tm) (d_base d)) d)
      else geosvr_timer_free t) (fired t tm d)
    (λ _ d', (∃ xs', wf None d' xs') ∧ stepped d (Relay (ip_at d (data_ tm))) d').
Proof.
  intros Hw Hg Ht Ef. pose proof (fire_start _ _ _ _ Hw Ht) as Hw1.
  destruct (wf_owner _ _ (proj2 Hw) _ _ Ht) as [_ Ho]. unfold owned in Ho. rewrite Ef in Ho.
  destruct Ho as (n & Hn & Hb & Et). pose proof (wf_entry _ _ _ _ _ Hw Hn) as Ha.
  destruct (rebroadcast_relayed n) as [Hb' Ei].
  apply wp_bind. unfold rebroadcast_expire.
  apply wp_bind. eapply wp_upd_neighbor; [done|exact Hn|].
  apply wp_bind. eapply wp_deref; [done|simpl; by apply lookup_insert_eq|].
  apply wp_bind, wp_gets, wp_bind. unfold send_data.
  destruct sent; [apply wp_bind, wp_modify, wp_ret|apply wp_ret; done].
  rewrite decide_False by done. apply wp_ret. rewrite decide_False by tauto.
  eapply wp_mono; [eapply wp_one_shot with (d' := set_sent _ (set_neigh _ (fired t tm d)));
    [exact Hw1|apply fired_lookup|reflexivity|exact Hn|reflexivity|done|done|done| |done..]|].
  { right. simpl. split_and!; [done|done|]. unfold invalid. by flags. }
  intros _ d' (Hw' & En & Henv). split; [by exists xs|].
  eapply stepped_frame; [|exact En|exact Henv]. split; [done|]. unfold abs. simpl.
  rewrite (view_state _ _ _ _ relayed (wf_inj _ _ _ Hw) Hn) by done.
  rewrite (ip_at_entry _ _ _ Hn). apply (step_relay (abs d) (n_ip_addr n) (info_of n)); [|done].
  by apply (view_at _ _ _ (wf_inj _ _ _ Hw)) in Hn.
Qed.

Lemma wp_fire_cleaner d xs t tm :
  wf None d xs → gps_ok (d_gps d) → d_timers d !! t = Some tm → func_ tm = list_cleaner_cb_cb →
  wp (more ← list_cleaner_cb;
      _ ← upd_timer t (λ t, Timer (tv_ t) (func_ t) (data_ t) false);
      if decide (more ≠ 0) then
        tm ← deref d_timers t;
        modify (λ d, set_base (evtimer_add t (tv_ tm) (d_base d)) d)
      else geosvr_timer_free t) (fired t tm d)
    (λ _ d', (∃ xs', wf None d' xs') ∧ stepped d Clean d').
Proof.
  intros Hw Hg Ht Ef. pose proof (fire_start _ _ _ _ Hw Ht) as Hw1.
  destruct (wf_owner _ _ (proj2 Hw) _ _ Ht) as [_ Ho]. unfold owned in Ho. rewrite Ef in Ho.
  apply wp_periodic; [|by intros; eapply stepped_frame].
  eapply wp_mono; [eapply (wp_cleaner Hjunk); [exact Hw1|by intros ? [= <-]]|].
  intros r d' (-> & Hw' & Henv & Hl). split; [done|]. split.
  { destruct (wf_cleaner _ _ (proj2 Hw')) as [tv E]. destruct Henv as [Ecl _].
    rewrite Ecl in E. simpl in E. rewrite Ho, E. by eexists. }
  split; [by eexists|]. unfold stepped.
  destruct Henv as (_ & _ & _ & _ & E1 & E2 & E3 & E4). rewrite E2. split; [done|].
  replace (abs d') with (Node (filter (λ p, i_expired p.2 = false) (a_table (abs d)))
    (a_gps (abs d)) (a_seqno (abs d)) (a_local (abs d)) (a_sent (abs d))); [apply step_clean|].
  unfold abs. simpl. rewrite E1, E2, E3, E4. f_equal. symmetry.
  apply (view_filter _ _ (kept (fired t tm d)) i_expired).
  - by eapply wf_inj.
  - exact Hl.
  - intros a n Hn. unfold kept. simpl. rewrite Hn. split; [by intros (m & [= <-] & ?)|].
    intros Hi. by exists n.
Qed.

(** A state that differs in the GPS, the sequence number and the datagrams sent. *)
Lemma wf_outputs cur d xs g q s :
  wf cur d xs → wf cur (set_sent s (set_seqno q (set_gps g d))) xs.
Proof.
  intros [Htab Htim]. split; [by eapply table_frame|].
  destruct Htim. by split.
Qed.

Lemma wp_fire_beacon d xs t tm r sent :
  wf None d xs → gps_ok (d_gps d) → reading_ok (d_gps d) r →
  d_timers d !! t = Some tm → func_ tm = send_node_info_cb →
  wp (more ← send_node_info r sent;
      _ ← upd_timer t (λ t, Timer (tv_ t) (func_ t) (data_ t) false);
      if decide (more ≠ 0) then
        tm ← deref d_timers t;
        modify (λ d, set_base (evtimer_add t (tv_ tm) (d_base d)) d)
      else geosvr_timer_free t) (fired t tm d)
    (λ _ d', (∃ xs', wf None d' xs') ∧ stepped d (Beacon r) d').
Proof.
  intros Hw Hg Hr Ht Ef. pose proof (fire_start _ _ _ _ Hw Ht) as Hw1.
  destruct (read_gps_data_spec (d_gps d) r Hg Hr) as (res & g & Eg & Hg' & _).
  apply wp_periodic; [|by intros; eapply stepped_frame].
  unfold send_node_info. apply wp_bind. unfold send_node, on_gps.
  apply wp_bind, wp_zoom. eapply wp_done; [exact Eg|].
  apply wp_bind, wp_gets, wp_bind, wp_gets, wp_bind, wp_gets, wp_bind, wp_modify, wp_bind.
  unfold send_data. destruct sent; [apply wp_bind, wp_modify, wp_ret|apply wp_ret; done].
  rewrite decide_False by done. do 2 apply wp_ret. split; [done|].
  split; [simpl; rewrite lookup_insert_eq; by eexists|].
  split; [exists xs; by apply (wf_outputs _ (fired t tm d))|].
  split; [done|]. by apply (step_beacon (abs d) r g res).
Qed.

(** Every event of a well-formed daemon runs without a fault to a well-formed daemon, and
    takes the abstract step. *)
Lemma wp_handle d xs e :
  wf None d xs → gps_ok (d_gps d) → enabled d e →
  wp (handle e) d (λ _ d', (∃ xs', wf None d' xs') ∧ stepped d (label d e) d').
Proof.
  intros Hw Hg He. destruct e as [[[src buf]|]|t r sent]; simpl in He |- *.
  - destruct He as [Hbytes Hlen]. unfold receive. apply wp_bind, wp_gets.
    assert (44 ≤ length (take RECV_BUFLEN buf))%nat as Hlen'.
    { rewrite length_take. unfold RECV_BUFLEN. lia. }
    apply read_node_packet_length in Hlen' as [pkt Hpkt]. rewrite Hpkt.
    assert (packet_ok pkt) as Hok.
    { eapply read_node_packet_ok; [|exact Hpkt]. by apply Forall_take. }
    case_decide as Es.
    { apply wp_ret. split; [by exists xs|]. split; [done|apply step_echo]. }
    unfold recv_node_info. rewrite Hpkt.
    eapply wp_mono; [by eapply wp_recv_node|]. intros _ d' (Hw' & Henv & Hv).
    split; [done|]. unfold stepped, abs.
    destruct Henv as (_ & _ & _ & _ & -> & -> & -> & ->). split; [done|]. rewrite Hv.
    by apply (step_heard (abs d)).
  - apply wp_ret. split; [by exists xs|]. split; [done|apply step_echo].
  - destruct He as [Hp Hr]. rewrite (wf_pending _ _ (proj2 Hw)) in Hp.
    apply andb_true_iff in Hp as [[tm Ht]%bool_decide_eq_true _]. rewrite Ht.
    destruct (wf_owner _ _ (proj2 Hw) _ _ Ht) as [Ht0 _].
    apply wp_bind, wp_modify. unfold timer_callback.
    apply wp_bind. eapply wp_upd_timer; [done|exact Ht|].
    apply wp_bind. eapply wp_deref; [done|simpl; by apply lookup_insert_eq|]. simpl.
    fold (fired t tm d). destruct (func_ tm) eqn:Ef; simpl.
    + by eapply wp_fire_expire.
    + by eapply wp_fire_cleaner.
    + by eapply wp_fire_rebroadcast.
    + by eapply wp_fire_beacon.
Qed.

(** ** The daemon starts well formed *)

Lemma init_ring c h : h ≠ NULL → is_Some (c !! h) →
  ∃ c', INIT_LIST_HEAD h c = Done tt c' ∧ ring c' h [] ∧ dom c' = dom c.
Proof.
  intros Hh0 [v Hv]. unfold INIT_LIST_HEAD, set_next, set_prev, deref, mbind, M_bind. simpl.
  rewrite decide_False, Hv by done. simpl. rewrite lookup_insert_eq, decide_False by done. simpl.
  eexists. split; [reflexivity|]. rewrite insert_insert_eq. split.
  - split; [by apply NoDup_singleton|]. split; [set_solver|].
    simpl. unfold nxt, prv. by rewrite lookup_insert_eq.
  - apply dom_insert_lookup_L. eauto.
Qed.

Lemma wp_boot g local beacon_period expire_period cleaner_period :
  0 ≤ local < 2 ^ 32 →
  wp (NeighManager_new beacon_period expire_period cleaner_period) (static_daemon g local)
    (λ _ d, wf None d [] ∧ d_gps d = g).
Proof.
  intros Hlocal. unfold NeighManager_new, neigh_list_init.
  apply wp_bind, wp_timer_new; [done|]. intros t1 Hl1 Ht10. simpl in Hl1.
  apply wp_bind, wp_modify, wp_bind, wp_modify, wp_bind, wp_zoom. simpl.
  destruct (init_ring {[NEI_LIST := ListT NULL NULL]} NEI_LIST) as (c' & Ec & Hr & Hdom);
    [done|by rewrite lookup_singleton; eauto|].
  eapply wp_done; [exact Ec|]. apply wp_bind, wp_modify, wp_bind, wp_modify, wp_bind, wp_gets.
  match goal with |- wpx _ _ ?s _ => set (d := s) end.
  assert (d_timers d = {[t1 := Timer (timeval_from_msec beacon_period) send_node_info_cb
    NEIGH_MANAGER false]}) as Et by (unfold d; repeat case_decide; done).
  assert (d_base d = evtimer_add t1 (timeval_from_msec beacon_period) event_init) as Eb
    by (unfold d; repeat case_decide; done).
  assert (d_cells d = c' ∧ d_neigh d = ∅ ∧ d_num d = 0 ∧ d_local d = local ∧ d_beacon d = t1 ∧
    d_gps d = g) as (Ece & En & Em & El & Ebe & Eg)
    by (unfold d; repeat case_decide; done).
  clearbody d. apply wp_bind, wp_timer_new; [done|].
  intros t2 (_ & _ & Hl2)%not_live Ht20. apply wp_modify. split; [|done].
  rewrite Et in Hl2. apply lookup_singleton_None in Hl2.
  split; split; simpl; rewrite ?Et, ?Ece, ?En, ?Em, ?El, ?Ebe; try done.
  - eexists. simpl. rewrite Et. by rewrite lookup_insert_eq.
  - exists NEIGH_MANAGER. eexists. simpl. rewrite Et.
    rewrite lookup_insert_ne, lookup_singleton_eq by done. done.
  - intros t tm. rewrite lookup_insert_Some, lookup_singleton_Some. unfold owned. simpl.
    rewrite Ebe. intros [[<- <-]|[_ [<- <-]]]; done.
  - intros t. rewrite Eb, !pending_add, pending_init, lookup_insert, lookup_singleton.
    repeat case_decide; repeat case_bool_decide; simpl; try done; try congruence; naive_solver.
Qed.

Lemma reachable_wf d : reachable d → (∃ xs, wf None d xs) ∧ gps_ok (d_gps d).
Proof.
  induction 1 as [d g local bp ep cp Hg Hl E|d d0 e _ [[xs Hw] Hg] He E].
  - pose proof (wp_boot g local bp ep cp Hl) as Hb. unfold wpx in Hb. rewrite E in Hb.
    destruct Hb as [? ->]. eauto.
  - pose proof (wp_handle d0 xs e Hw Hg He) as Hb. unfold wpx in Hb. rewrite E in Hb.
    destruct Hb as [? [? _]]. done.
Qed.
End events.
