(* ===== verification/EventLoop.v ===== *)
(** * Properties of the running daemon

    The theorems about every reachable state of the event loop, and a small concrete
    daemon on which their hypotheses hold. *)
From S2P Require Import Prelude Double LinkedList Gps Daemon Timer NeighList Wire Utils.
From S2P Require Import Database RoadMap NeighManager NeighSpec ConnManager Events.
Open Scope Z_scope.

(** ** Runs *)
Section runs.
Context `{EventLib, Allocator, Platform, Libm, RoadMap}.

(** A sequence of events, with the abstract events they stand for. *)
Inductive run (d : daemon) : list node_event → daemon → Prop :=
  | run_nil : run d [] d
  | run_cons e d1 l d2 :
      enabled d e → handle e d = Done tt d1 → run d1 l d2 → run d (label d e :: l) d2.

Inductive node_run (s : node) : list node_event → node → Prop :=
  | node_run_nil : node_run s [] s
  | node_run_cons e s1 l s2 : node_step s e s1 → node_run s1 l s2 → node_run s (e :: l) s2.

Context (Hjunk : ∀ X, junk_bool X = false).

Lemma reachable_step d e d' :
  reachable d → enabled d e → handle e d = Done tt d' →
  node_step (abs d) (label d e) (abs d').
Proof.
  intros Hd He E. destruct (reachable_wf Hjunk d Hd) as [[xs Hw] Hg].
  pose proof (wp_handle Hjunk d xs e Hw Hg He) as Hh. unfold wpx in Hh. rewrite E in Hh.
  apply Hh.
Qed.

Lemma run_node_run d l d' : reachable d → run d l d' → node_run (abs d) l (abs d').
Proof.
  intros Hd. induction 1 as [d|d e d1 l d2 He E Hr IH]; [constructor|].
  econstructor; [by apply reachable_step|]. apply IH. by eapply reach_step.
Qed.

(** *** Facts of the abstract node *)

(** The node hears of [ip] again. *)
Definition renews (ip : Z) (e : node_event) : Prop :=
  match e with Heard pkt => p_saddr pkt = ip | _ => False end.

Lemma receive_table_other local g pkt T ip :
  p_saddr pkt ≠ ip → receive_table local g pkt T !! ip = T !! ip.
Proof.
  intros Hne. unfold receive_table. case_match; [|done]. by rewrite lookup_insert_ne.
Qed.

Lemma step_stays_expired s e s' ip :
  node_step s e s' → ¬ renews ip e →
  (∀ i, a_table s !! ip = Some i → i_expired i = true) →
  ∀ i, a_table s' !! ip = Some i → i_expired i = true.
Proof.
  intros Hs Hr Hi. inversion Hs; subst; simpl in *; try done.
  - by rewrite receive_table_other.
  - intros j. rewrite lookup_insert. case_decide; [by intros [= <-]|apply Hi].
  - intros j. rewrite lookup_insert. case_decide; [intros [= <-]; subst; simpl; eapply Hi; eassumption|apply Hi].
  - intros j [Hj _]%map_lookup_filter_Some. by apply Hi.
Qed.

Lemma step_clean_expired s s' ip :
  node_step s Clean s' → (∀ i, a_table s !! ip = Some i → i_expired i = true) →
  a_table s' !! ip = None.
Proof.
  intros Hs Hi. inversion Hs; subst; simpl. apply map_lookup_filter_None.
  destruct (a_table s !! ip) as [i|] eqn:E; [|by left]. right. intros j [= <-]. simpl.
  by rewrite (Hi i).
Qed.

Lemma step_absent s e s' ip :
  node_step s e s' → ¬ renews ip e → a_table s !! ip = None → a_table s' !! ip = None.
Proof.
  intros Hs Hr Hi. inversion Hs; subst; simpl in *; try done.
  - by rewrite receive_table_other.
  - rewrite lookup_insert_ne; [done|]. congruence.
  - rewrite lookup_insert_ne; [done|]. congruence.
  - apply map_lookup_filter_None. by left.
Qed.

Lemma node_run_absent s l s' ip :
  node_run s l s' → Forall (λ e, ¬ renews ip e) l → a_table s !! ip = None →
  a_table s' !! ip = None.
Proof.
  induction 1 as [|s e s1 l s2 Hs Hr IH]; [done|]. intros [He Hl]%Forall_cons Hi.
  apply IH; [done|]. by eapply step_absent.
Qed.

Lemma node_run_forgets s l s' ip :
  node_run s l s' → Forall (λ e, ¬ renews ip e) l → Clean ∈ l →
  (∀ i, a_table s !! ip = Some i → i_expired i = true) → a_table s' !! ip = None.
Proof.
  induction 1 as [|s e s1 l s2 Hs Hr IH]; [by intros _ ?%elem_of_nil|].
  intros [He Hl]%Forall_cons [<-|Hc]%elem_of_cons Hi.
  - eapply node_run_absent; [exact Hr|done|]. by eapply step_clean_expired.
  - apply IH; [done|done|]. by eapply step_stays_expired.
Qed.

Lemma step_seqno s e s' ip i i' :
  node_step s e s' → a_table s !! ip = Some i → a_table s' !! ip = Some i' →
  i_seqno i ≤ i_seqno i'.
Proof.
  intros Hs Hi. inversion Hs as [|pkt ? | ip0 j Hj | ip0 j Hj | |]; subst; simpl.
  - rewrite Hi. by intros [= <-].
  - unfold receive_table. destruct (fresh_packet _ _ _ pkt) eqn:Ef; [|rewrite Hi; by intros [= <-]].
    rewrite lookup_insert. case_decide as E; [|rewrite Hi; by intros [= <-]].
    intros [= <-]. simpl. unfold fresh_packet in Ef. rewrite E, Hi in Ef.
    apply andb_true_iff in Ef as [_ [Ef%Z.leb_le _]%andb_true_iff]. done.
  - rewrite lookup_insert. case_decide; [intros [= <-]; simpl|rewrite Hi; by intros [= <-]].
    subst. by simplify_eq.
  - rewrite lookup_insert. case_decide; [intros [= <-]; simpl|rewrite Hi; by intros [= <-]].
    subst. by simplify_eq.
  - intros [Hi' _]%map_lookup_filter_Some. by simplify_eq.
  - rewrite Hi. by intros [= <-].
Qed.

Lemma step_present s e s' ip i :
  node_step s e s' → e ≠ Clean → a_table s !! ip = Some i → is_Some (a_table s' !! ip).
Proof.
  intros Hs He Hi. assert (is_Some (a_table s !! ip)) as Hsome by by exists i.
  inversion Hs; subst; simpl; try done.
  - unfold receive_table. case_match; [|done]. by apply lookup_insert_is_Some'; right.
  - by apply lookup_insert_is_Some'; right.
  - by apply lookup_insert_is_Some'; right.
Qed.

Lemma node_run_seqno s l s' ip i :
  node_run s l s' → Clean ∉ l → a_table s !! ip = Some i →
  ∃ i', a_table s' !! ip = Some i' ∧ i_seqno i ≤ i_seqno i'.
Proof.
  intros Hr. revert i. induction Hr as [|s e s1 l s2 Hs Hr IH]; intros i.
  { intros _ Hi. by exists i. }
  intros [He Hl]%not_elem_of_cons Hi.
  destruct (step_present _ _ _ _ _ Hs (not_eq_sym He) Hi) as [j Hj].
  destruct (IH j Hl Hj) as (i' & Hi' & Hle). exists i'. split; [done|].
  pose proof (step_seqno _ _ _ _ _ _ Hs Hi Hj). lia.
Qed.

(** ** The theorems *)






(** The daemon never enters itself in its table. *)
Lemma no_self_entry d : reachable d → a_table (abs d) !! d_local d = None.
Proof.
  intros Hd. destruct (reachable_wf Hjunk d Hd) as [[xs Hw] _].
  apply view_lookup_None; [by eapply wf_inj|]. intros a n Hn.
  apply (wf_range _ _ (proj1 Hw) _ _ Hn).
Qed.
End runs.

(** ** A concrete daemon

    Its libevent is a map of pending events, its allocator hands out increasing
    addresses, its mathematical library is crude, and its map is empty. *)
Definition demo_libm : Libm :=
  {| cos _ := d_of_Z 1; sin x := x; acos x := dsub (d_of_Z 1) x; atan x := x; atan2 y x := y |}.
#[local] Existing Instances map_events x86_64 demo_libm empty_map.

Definition done_or {S A} (s : S) (o : outcome S A) : S :=
  match o with Done _ s' => s' | _ => s end.

Definition demo_gps : GpsManager :=
  Gps BufOwn zero_fix zero_fix false FileNull FileNull.
Definition demo_packet : geosvr_node_packet :=
  NodePacket 167772162 167772162 (d_of_Z 40) (d_of_Z 116) d_zero d_zero 1 7.
Definition demo_datagram : event := Datagram (Some (167772162, image_node_packet demo_packet)).
Definition demo_reading : gps_reading := GpsReading true true true zero_fix [].
Definition demo_fire (t : addr) : event := Fire t demo_reading true.
Definition demo_static : daemon := static_daemon demo_gps 167772161.

(** The daemon hears of a neighbour, the neighbour expires, and the cleaner runs; [junk]
    is what the allocator's blocks hold where [in_cb_] is.  Of the timers, 3 is the
    cleaner's, 5 expires the entry and 6 relays it. *)
Section demo.
Context (junk : bool).
#[local] Instance demo_malloc : Allocator := bump_allocator junk.

Definition demo_boot : daemon := done_or demo_static (NeighManager_new 1000 0 0 demo_static).
Definition demo_heard : daemon := done_or demo_static (handle demo_datagram demo_boot).
Definition demo_expired : daemon := done_or demo_static (handle (demo_fire 5) demo_heard).
Definition demo_cleaned : daemon := done_or demo_static (handle (demo_fire 3) demo_expired).

Lemma demo_datagram_enabled d : enabled d demo_datagram.
Proof.
  simpl. split; [|vm_compute; lia]. apply Forall_forall. intros b Hb.
  assert (forallb (λ b, (0 <=? b) && (b <? 256)) (image_node_packet demo_packet) = true) as Hall
    by (vm_compute; reflexivity).
  rewrite forallb_forall in Hall. apply list_elem_of_In in Hb. specialize (Hall b Hb). lia.
Qed.
Lemma demo_fire_enabled d t :
  pending (d_base d) t = true → record_file_ (d_gps d) = FileNull → enabled d (demo_fire t).
Proof. intros Hp Hf. split; [done|]. intros _. by rewrite Hf. Qed.
End demo.

Lemma demo_heard_reachable junk : @reachable _ (bump_allocator junk) _ _ _ (demo_heard junk).
Proof.
  eapply (@reach_step _ (bump_allocator junk)) with (d0 := demo_boot junk) (e := demo_datagram).
  - apply (@reach_boot _ (bump_allocator junk)) with (g := demo_gps) (local := 167772161)
      (beacon_period := 1000) (expire_period := 0) (cleaner_period := 0); [by vm_compute|lia|].
    destruct junk; vm_compute; reflexivity.
  - apply demo_datagram_enabled.
  - destruct junk; vm_compute; reflexivity.
Qed.

Lemma demo_expired_reachable junk : @reachable _ (bump_allocator junk) _ _ _ (demo_expired junk).
Proof.
  eapply (@reach_step _ (bump_allocator junk)) with (d0 := demo_heard junk) (e := demo_fire 5).
  - apply demo_heard_reachable.
  - apply demo_fire_enabled; destruct junk; vm_compute; reflexivity.
  - destruct junk; vm_compute; reflexivity.
Qed.

Lemma demo_cleaned_reachable junk : @reachable _ (bump_allocator junk) _ _ _ (demo_cleaned junk).
Proof.
  eapply (@reach_step _ (bump_allocator junk)) with (d0 := demo_expired junk) (e := demo_fire 3).
  - apply demo_expired_reachable.
  - apply demo_fire_enabled; destruct junk; vm_compute; reflexivity.
  - destruct junk; vm_compute; reflexivity.
Qed.

(** [geosvr_timer_new] leaves [in_cb_] unwritten: when the memory happens to hold a
    non-zero byte there, the cleaner does not free the relay timer of an entry it frees,
    and the timer's callback uses the freed entry. *)
Theorem junk_timer_dangles :
  ∃ d t, @reachable _ (bump_allocator true) _ _ _ d ∧ pending (d_base d) t = true ∧
    @handle _ (bump_allocator true) _ _ _ (demo_fire t) d = Stuck UseAfterFree.
Proof.
  exists (demo_cleaned true), 6%N. split; [apply demo_cleaned_reachable|].
  split; vm_compute; reflexivity.
Qed.

(** *** Witnesses *)
#[local] Instance clean_malloc : Allocator := bump_allocator false.

Lemma clean_junk X : junk_bool X = false.
Proof. reflexivity. Qed.



Definition demo_info : info :=
  info_of_packet demo_packet (-1).


Lemma demo_clean_run : run (demo_expired false) [Clean] (demo_cleaned false).
Proof.
  apply (run_cons (demo_expired false) (demo_fire 3) (demo_cleaned false) []).
  - apply demo_fire_enabled; vm_compute; reflexivity.
  - vm_compute. reflexivity.
  - constructor.
Qed.


Lemma demo_expire_run : run (demo_heard false) [Expired 167772162] (demo_expired false).
Proof.
  apply (run_cons (demo_heard false) (demo_fire 5) (demo_expired false) []).
  - apply demo_fire_enabled; vm_compute; reflexivity.
  - vm_compute. reflexivity.
  - constructor.
Qed.


Lemma no_self_entry_witness :
  a_table (abs (demo_heard false)) !! d_local (demo_heard false) = None.
Proof. apply (no_self_entry clean_junk). apply demo_heard_reachable. Defined.
