(* ===== verification/Forwarding.v ===== *)
(** * Restricted forwarding

    What [NeighManager::restricted_forwarding_algo] chooses: along the route from its end,
    the first road with a usable neighbour on it, and on that road the neighbour whose
    distance is closest to [RESTRICTED_RANGE], provided none is nearer than that. *)
From S2P Require Import Prelude Double LinkedList Gps Daemon Timer NeighList Wire Utils.
From S2P Require Import Database RoadMap NeighManager NeighSpec ConnManager Events.
From S2P Require Import EventLoop.
Open Scope Z_scope.

Section forwarding.
Context `{EventLib, Allocator, Platform, Libm, RoadMap}.

(** A neighbour heard directly that is on a road. *)
Definition on_this_road (road : RoadData) (n : neighbor) : bool :=
  direct n && (bool_decide (n_roadid n = u32 (r_mainid road)) || on_same_road n road).

(** How far from the restricted range a neighbour is. *)
Definition offset (x y : double) (n : neighbor) : double :=
  dsub (distance x y (n_longitude n) (n_latitude n)) RESTRICTED_RANGE.

Definition usable (x y : double) (road : RoadData) (n : neighbor) : bool :=
  on_this_road road n && dlt (fabs (offset x y n)) DBL_MAX.

(** What the inner loop does to [min_dist] and [next] at one neighbour. *)
Definition choose (x y : double) (road : RoadData) (acc : double * Z) (n : neighbor)
    : double * Z :=
  if on_this_road road n && dlt (abs_double (offset x y n)) (fst acc)
  then (offset x y n, n_ip_addr n) else acc.

Definition entries (d : daemon) (xs : list addr) : list neighbor :=
  omap (λ a, d_neigh d !! a) xs.

Lemma elem_of_entries d xs n : n ∈ entries d xs ↔ ∃ a, a ∈ xs ∧ d_neigh d !! a = Some n.
Proof. unfold entries. by rewrite list_elem_of_omap. Qed.

Definition forward_fun (x y : double) (road : option RoadData) (d : daemon) (pos : addr)
    (acc : double * Z) : unit + double * Z :=
  match d_neigh d !! pos with
  | Some n => inr (match road with Some r => choose x y r acc n | None => acc end)
  | None => inr acc
  end.

Lemma forward_step_pure x y road d xs pos acc :
  table_ok d xs → pos ∈ xs →
  (is_Some road ∨ ∀ n, d_neigh d !! pos = Some n → direct n = false) →
  forward_step x y road pos acc d = Done (forward_fun x y road d pos acc) d.
Proof.
  intros Hw Hx Hroad. pose proof (wf_nonnull _ _ _ Hw Hx) as [Hx0 _].
  apply (wf_lookup _ _ _ Hw) in Hx as [n Hn].
  unfold forward_step, forward_fun, choose, on_this_road, deref, mbind, M_bind.
  rewrite decide_False, Hn by done. change (flag NEIGH_STATE_DIRECT (n_state n)) with (direct n).
  destruct road as [road|].
  - unfold offset. destruct (direct n); simpl; [|done].
    destruct (_ || _); simpl; [|done]. by destruct (dlt _ _).
  - destruct Hroad as [[? ?]|Hd]; [done|]. by rewrite (Hd n Hn).
Qed.

(** The inner loop is a fold over the entries in the order of the list. *)
Lemma forward_fold x y road d xs acc :
  fold_until (forward_fun x y (Some road) d) xs acc =
    inr (foldl (choose x y road) acc (entries d xs)).
Proof.
  revert acc. induction xs as [|a xs IH]; intros acc; [done|].
  unfold entries. simpl. unfold forward_fun at 1. destruct (d_neigh d !! a); by rewrite IH.
Qed.

Context (Habs : ∀ x, abs_double x = fabs x).

Lemma fabs_ge x : is_nan x = false → dle x (fabs x) = true.
Proof.
  intros Hx. apply dle_key. unfold dcmp. destruct x as [[]|[]| |[] m e]; simpl in *; try done; lia.
Qed.

Lemma dkey_fabs x : dle d_zero x = true → dkey (fabs x) = dkey x.
Proof.
  rewrite dle_key. unfold dcmp. destruct x as [[]|[]| |[] m e]; simpl; try done; lia.
Qed.

Lemma fabs_lt_nan x y : dlt (fabs x) y = true → is_nan x = false.
Proof. intros [E _]%dlt_not_nan. by rewrite fabs_nan in E. Qed.

(** The result of the inner loop on a road. *)
Definition chosen (x y : double) (road : RoadData) (l : list neighbor) (acc : double * Z) : Prop :=
  (acc = (DBL_MAX, 0) ∧ ∀ n, n ∈ l → usable x y road n = false) ∨
  (∃ n, n ∈ l ∧ usable x y road n = true ∧ acc = (offset x y n, n_ip_addr n) ∧
     ((∀ m, m ∈ l → usable x y road m = true → dle d_zero (offset x y m) = true) →
      ∀ m, m ∈ l → usable x y road m = true → dle (offset x y n) (offset x y m) = true)).

Lemma fold_chosen x y road l :
  chosen x y road l (foldl (choose x y road) (DBL_MAX, 0) l).
Proof.
  induction l as [|m l IH] using rev_ind.
  { left. split; [done|]. by intros n ?%elem_of_nil. }
  rewrite foldl_app. simpl. set (acc := foldl _ _ l) in *. unfold choose. rewrite Habs.
  destruct IH as [[-> Hnone]|(n & Hn & Hun & -> & Hmin)]; simpl.
  - fold (usable x y road m). destruct (usable x y road m) eqn:Hm.
    + right. exists m. split; [set_solver|]. split_and!; try done.
      intros Hpos k [Hk|Hk]%elem_of_app Huk; [by rewrite (Hnone k Hk) in Huk|].
      apply list_elem_of_singleton in Hk as ->. apply dle_refl.
      unfold usable in Hm. apply andb_true_iff in Hm as [_ Hm]. by eapply fabs_lt_nan.
    + left. split; [done|]. intros k [Hk|Hk]%elem_of_app; [by apply Hnone|].
      by apply list_elem_of_singleton in Hk as ->.
  - assert (dlt (offset x y n) DBL_MAX = true) as Hlt.
    { unfold usable in Hun. apply andb_true_iff in Hun as [_ Hun].
      eapply dle_dlt_trans; [|exact Hun]. apply fabs_ge. by eapply fabs_lt_nan. }
    destruct (on_this_road road m && dlt (fabs (offset x y m)) (offset x y n)) eqn:Hm.
    + apply andb_true_iff in Hm as [Hr Hm]. right. exists m.
      assert (dlt (fabs (offset x y m)) DBL_MAX = true) as Hmm by (by eapply dlt_trans).
      split; [set_solver|]. split; [unfold usable; by rewrite Hr, Hmm|]. split; [done|].
      intros Hpos k [Hk|Hk]%elem_of_app Huk.
      * assert (dle (offset x y n) (offset x y k) = true) as Hnk.
        { apply Hmin; [|done..]. intros; apply Hpos; [set_solver|done]. }
        eapply dle_trans; [|exact Hnk]. apply dlt_dle.
        eapply dle_dlt_trans; [|exact Hm]. apply fabs_ge. by eapply fabs_lt_nan.
      * apply list_elem_of_singleton in Hk as ->. apply dle_refl. by eapply fabs_lt_nan.
    + right. exists n. split; [set_solver|]. split_and!; try done.
      intros Hpos k [Hk|Hk]%elem_of_app Huk.
      * apply Hmin; [|done..]. intros; apply Hpos; [set_solver|done].
      * apply list_elem_of_singleton in Hk as ->.
        pose proof (Hpos m ltac:(set_solver) Huk) as H0m.
        unfold usable in Huk. apply andb_true_iff in Huk as [Hr Huk]. rewrite Hr in Hm. simpl in Hm.
        apply dlt_false_dle in Hm; [|rewrite fabs_nan; by eapply fabs_lt_nan|exact (proj1 (dlt_not_nan _ _ Hlt))].
        apply dle_key. apply dle_key in Hm. unfold dcmp in *. by rewrite dkey_fabs in Hm.
Qed.

(** The roads a route names exist, and the addresses of the neighbours are not zero. *)
Definition known_roads (ofr : list Route) : Prop :=
  ∀ r, r ∈ ofr → is_Some (get_road_info (roadid r)).
Definition nonzero_ips (d : daemon) : Prop :=
  ∀ a n, d_neigh d !! a = Some n → n_ip_addr n ≠ 0.

(** No neighbour can be used on the road of a route segment. *)
Definition unusable_on (x y : double) (l : list neighbor) (r : Route) : Prop :=
  ∀ road n, get_road_info (roadid r) = Some road → n ∈ l → usable x y road n = false.

Lemma forward_roads_spec x y d xs rev_ofr :
  table_ok d xs → nonzero_ips d → known_roads rev_ofr →
  ∃ res, forward_roads x y rev_ofr (DBL_MAX, 0) d = Done res d ∧
    ((res = 0 ∧ ∀ r, r ∈ rev_ofr → unusable_on x y (entries d xs) r) ∨
     ∃ near r far road n, rev_ofr = near ++ r :: far ∧
       (∀ r', r' ∈ near → unusable_on x y (entries d xs) r') ∧
       get_road_info (roadid r) = Some road ∧
       n ∈ entries d xs ∧ usable x y road n = true ∧ res = n_ip_addr n ∧ res ≠ 0 ∧
       ((∀ m, m ∈ entries d xs → usable x y road m = true → dle d_zero (offset x y m) = true) →
        ∀ m, m ∈ entries d xs → usable x y road m = true →
          dle (offset x y n) (offset x y m) = true)).
Proof.
  intros Hw Hnz. induction rev_ofr as [|r rest IH]; intros Hk.
  { exists 0. split; [done|]. left. split; [done|]. by intros r ?%elem_of_nil. }
  destruct (Hk r ltac:(by left)) as [road Hroad]. simpl. rewrite Hroad.
  erewrite bind_done.
  2:{ eapply (list_foreach_pure d_cells d NEI_LIST xs _ (forward_fun x y (Some road) d));
        [exact (wf_ring _ _ Hw)|]. intros a acc Ha. eapply forward_step_pure; [exact Hw|done|].
      left. by eexists. }
  rewrite forward_fold.
  destruct (fold_chosen x y road (entries d xs)) as [[-> Hnone]|(n & Hn & Hu & -> & Hmin)]; simpl.
  - destruct IH as (res & E & Hres); [intros ? ?; apply Hk; by right|].
    exists res. split; [done|].
    assert (unusable_on x y (entries d xs) r) as Hur.
    { intros road' n Hr' Hn. rewrite Hroad in Hr'. injection Hr' as <-. by apply Hnone. }
    destruct Hres as [[-> Hall]|(near & r' & far & road' & n & -> & Hnear & Hrest)].
    + left. split; [done|]. intros r' [->|Hr']%elem_of_cons; [done|by apply Hall].
    + right. exists (r :: near), r', far, road', n. split; [done|]. split; [|done].
      intros r0 [->|Hr0]%elem_of_cons; [done|by apply Hnear].
  - assert (n_ip_addr n ≠ 0) as Hip.
    { apply elem_of_entries in Hn as (a & _ & Ha). by eapply Hnz. }
    rewrite decide_True by done. exists (n_ip_addr n). split; [done|]. right.
    exists [], r, rest, road, n. split_and!; try done. by intros r' ?%elem_of_nil.
Qed.

(** The neighbours in the table. *)
Definition in_table (d : daemon) (n : neighbor) : Prop := ∃ a, d_neigh d !! a = Some n.

Lemma entries_in_table d xs n : table_ok d xs → n ∈ entries d xs ↔ in_table d n.
Proof.
  intros Hw. rewrite elem_of_entries. unfold in_table. split; [naive_solver|].
  intros [a Ha]. exists a. split; [|done]. apply (wf_lookup _ _ _ Hw). eauto.
Qed.

(** A route segment on whose road no neighbour of the table is usable. *)
Definition no_usable (x y : double) (d : daemon) (r : Route) : Prop :=
  ∀ road n, get_road_info (roadid r) = Some road → in_table d n → usable x y road n = false.

(** A usable neighbour that is at least as close to the restricted range as any other, as
    long as none is nearer than that range. *)
Definition best_on (x y : double) (d : daemon) (road : RoadData) (n : neighbor) : Prop :=
  in_table d n ∧ usable x y road n = true ∧
  ((∀ m, in_table d m → usable x y road m = true → dle d_zero (offset x y m) = true) →
   ∀ m, in_table d m → usable x y road m = true → dle (offset x y n) (offset x y m) = true).

Context (Hjunk : ∀ X, junk_bool X = false).


(** [min_dist] keeps the signed offset where the test uses its absolute value: once a
    neighbour nearer than the restricted range is chosen, no later neighbour of the road
    replaces it, however close to the range it is. *)
Lemma near_neighbour_sticks x y road pos acc d r d' :
  dlt (fst acc) d_zero = true →
  forward_step x y road pos acc d = Done r d' → r = inr acc ∧ d' = d.
Proof.
  intros Hacc E. unfold forward_step in E.
  apply bind_done_inv in E as (n & d1 & Hd & E).
  assert (d1 = d) as -> by (unfold deref in Hd; repeat case_match; naive_solver).
  destruct (flag _ _); [|by injection E].
  destruct road as [road|]; [|done]. destruct (_ || _); [|by injection E].
  rewrite Habs, fabs_nonneg in E by done. by injection E.
Qed.
End forwarding.

(** ** A concrete table

    A map with one road, number 5, and a neighbour heard on it. *)
Definition road5 : RoadData :=
  RoadRow 5 1 (d_of_Z 116) (d_of_Z 40) (d_of_Z 117) (d_of_Z 40) 1 2 3 0.
Definition only_road5 (id : Z) : option RoadData := if decide (id = 5) then Some road5 else None.
Lemma only_road5_mainid id r : only_road5 id = Some r → r_mainid r = id.
Proof. unfold only_road5. case_decide; [by intros [= <-]|done]. Qed.
Definition one_road : RoadMap := {|
  on_road _ _ _ := 5; get_road_info := only_road5; get_road_info_mainid := only_road5_mainid |}.

#[local] Existing Instances map_events x86_64 demo_libm one_road.
#[local] Instance clean_malloc : Allocator := bump_allocator false.

Lemma cmath_abs x : abs_double x = fabs x.
Proof. reflexivity. Qed.

Definition one_boot : daemon := done_or demo_static (NeighManager_new 1000 0 0 demo_static).
Definition one_heard : daemon := done_or demo_static (handle demo_datagram one_boot).

Lemma one_heard_reachable : reachable one_heard.
Proof.
  eapply reach_step with (d0 := one_boot) (e := demo_datagram).
  - apply reach_boot with (g := demo_gps) (local := 167772161) (beacon_period := 1000)
      (expire_period := 0) (cleaner_period := 0); [by vm_compute|lia|].
    vm_compute. reflexivity.
  - apply demo_datagram_enabled.
  - vm_compute. reflexivity.
Qed.

Lemma one_heard_table a n : d_neigh one_heard !! a = Some n → n_ip_addr n = 167772162.
Proof.
  intros Hn%elem_of_map_to_list. vm_compute in Hn.
  apply list_elem_of_singleton in Hn. by injection Hn as _ ->.
Qed.

Definition route5 : Route := RouteSeg 5 1 2 3.


Lemma near_neighbour_sticks_witness :
  forward_step d_zero d_zero (Some road5) 4 (d_of_Z (-50), 1) one_heard =
    Done (inr (d_of_Z (-50), 1)) one_heard ∧
  inr (A := unit) (d_of_Z (-50), 1) = inr (d_of_Z (-50), 1) ∧ one_heard = one_heard.
Proof.
  assert (forward_step d_zero d_zero (Some road5) 4 (d_of_Z (-50), 1) one_heard =
    Done (inr (d_of_Z (-50), 1)) one_heard) as E by (vm_compute; reflexivity).
  split; [exact E|].
  apply (near_neighbour_sticks cmath_abs d_zero d_zero (Some road5) 4%N
    (d_of_Z (-50), 1) one_heard); [vm_compute; reflexivity|exact E].
Defined.
