(* ===== verification/MapManager.v ===== *)
(** * The map manager

    [system/src/map_manager.cc]: the road graph, matching a position to a road, and the
    candidate routes between two crossings.  The Boost Graph Library is not part of the
    repository: a [Map] is its documented content, the vertices with their [Node] and the
    edges with their [Road] in the order [edges()] lists them, and Dijkstra's algorithm is
    an operation of the class [ShortestPaths] with the documented properties of its
    predecessor map. *)
From S2P Require Import Prelude Double Utils Database RoadMap.
Open Scope Z_scope.

(* [system/include/map_manager.h:11-19] struct Node *)
Record Node := MapNode { id : Z; x : double; y : double }.
(* [system/include/map_manager.h:21-28] struct Road *)
Record Road := MapRoad { rid : Z; type : Z }.

(** [Node()], the property of a vertex before it is assigned. *)
Definition default_Node : Node := MapNode (-1) d_zero d_zero.

(** An edge descriptor: its end points and its property. *)
Record edge := MapEdge { source : Z; target : Z; road : Road }.
Record Map := Graph { vertices : list Node; edges : list edge }.

Definition num_vertices (g : Map) : Z := Z.of_nat (length (vertices g)).

(* [system/include/map_manager.h:77-82] class MapManager *)
Record MapManager := MapMgr {
  map_ : Map;
  database_mgr_ : DatabaseManager;
  nodes_ : list Node;
  roads_ : list Road;
  edges_ : list (Z * Z);
}.

Definition set_map (g : Map) (m : MapManager) : MapManager :=
  MapMgr g (database_mgr_ m) (nodes_ m) (roads_ m) (edges_ m).

(** The largest [int], which marks an edge that a route already uses. *)
Definition set_type (t : Z) (e : edge) : edge :=
  MapEdge (source e) (target e) (MapRoad (rid (road e)) t).

(** Boost's constructor from iterators: [n] vertices, more when an edge names a vertex
    beyond them; a negative end point, converted to an unsigned one, cannot be allocated. *)
Definition make_map (es : list (Z * Z)) (rs : list Road) (n : nat) : option Map :=
  if decide (Forall (λ e, 0 ≤ e.1 ∧ 0 ≤ e.2) es) then
    let top := foldr (λ e m, Z.max m (Z.max e.1 e.2 + 1)) (Z.of_nat n) es in
    Some (Graph (replicate (Z.to_nat top) default_Node)
            (zip_with (λ e r, MapEdge e.1 e.2 r) es rs))
  else None.

(** Dijkstra's algorithm with the edge types as weights and [int]'s maximum as infinity:
    the predecessor map of the search from a vertex, or [None] when it throws
    ([negative_edge]).  A vertex that was not reached is its own predecessor; the
    predecessors of the others form a tree rooted in the source, whose edges are edges of
    the graph with a weight that is not infinite. *)
Class ShortestPaths := {
  dijkstra : Map → Z → option (list Z);
  dijkstra_length : ∀ g s p, dijkstra g s = Some p → Z.of_nat (length p) = num_vertices g;
  dijkstra_forest : ∀ g s p, dijkstra g s = Some p → ∃ rank : Z → nat,
    (∀ v, rank v < length p)%nat ∧
    ∀ v u, 0 ≤ v → p !! Z.to_nat v = Some u → u ≠ v → (rank u < rank v)%nat;
  dijkstra_root : ∀ g s p v u, dijkstra g s = Some p → 0 ≤ v → p !! Z.to_nat v = Some u →
    u ≠ v → u = s ∨ p !! Z.to_nat u ≠ Some u;
  dijkstra_edge : ∀ g s p v u, dijkstra g s = Some p → 0 ≤ v → p !! Z.to_nat v = Some u →
    0 ≤ u ∧ (u = v ∨ ∃ e, e ∈ edges g ∧ type (road e) ≠ INT_MAX ∧
      ((source e = v ∧ target e = u) ∨ (source e = u ∧ target e = v)));
}.

Section map_manager.
Context `{Platform, Libm, ShortestPaths}.

(** ** Importing the table *)

(** The loop over the roads: the end points, the largest identifier, roads and edges. *)
Definition road_nodes (d : RoadData) : list Node :=
  [MapNode (r_startid d) (r_startx d) (r_starty d); MapNode (r_endid d) (r_endx d) (r_endy d)].
Definition import_type (t : Z) : Z := if decide (t = 12) then 0 else t.
Definition import_road (d : RoadData) : Road := MapRoad (r_mainid d) (import_type (r_type d)).
Definition max_id (tmp : list Node) : Z := foldl (λ m n, if id n >? m then id n else m) 0 tmp.

(** Removing the duplicates with a bitmap of [max + 1] entries. *)
Fixpoint dedup_nodes (size : Z) (bitmap : gmap Z Z) (tmp nodes : list Node)
    : M MapManager (list Node) :=
  match tmp with
  | [] => mret nodes
  | n :: tmp =>
      if decide (0 ≤ id n < size) then
        if decide (default 0 (bitmap !! id n) = 0) then
          dedup_nodes size (<[id n := 1]> bitmap) tmp (nodes ++ [n])
        else dedup_nodes size bitmap tmp nodes
      else stuck OutOfBounds
  end.

(* [system/src/map_manager.cc:63-116] import_data *)
Definition import_data : M MapManager unit :=
  deduped ← gets (λ m, deduped_data_ (database_mgr_ m));
  let tmp := deduped ≫= road_nodes in
  _ ← modify (λ m, MapMgr (map_ m) (database_mgr_ m) (nodes_ m)
        (roads_ m ++ (import_road <$> deduped))
        (edges_ m ++ ((λ d, (r_startid d, r_endid d)) <$> deduped)));
  let size := s32 (max_id tmp + 1) in
  if decide (size < 0) then abort
  else
    nodes ← gets nodes_;
    nodes ← dedup_nodes size ∅ tmp nodes;
    modify (λ m, MapMgr (map_ m) (database_mgr_ m) nodes (roads_ m) (edges_ m)).

(** Assigning the vertices; a vertex without a node dereferences [nodes_.end()]. *)
Fixpoint assign_vertices (nodes : list Node) (v : Z) (n : nat) : M MapManager (list Node) :=
  match n with
  | O => mret []
  | S n =>
      match list_find (λ nd, id nd = v) nodes with
      | None => stuck OutOfBounds
      | Some (_, nd) => rest ← assign_vertices nodes (v + 1) n; mret (nd :: rest)
      end
  end.

(* [system/src/map_manager.cc:37-61] import_map_data *)
Definition import_map_data (result : option (list MYSQL_ROW)) : M MapManager unit :=
  _ ← zoom database_mgr_
        (λ db m, MapMgr (map_ m) db (nodes_ m) (roads_ m) (edges_ m)) (get_map_data result);
  _ ← import_data;
  m ← get;
  match make_map (edges_ m) (roads_ m) (length (nodes_ m)) with
  | None => abort
  | Some g =>
      vs ← assign_vertices (nodes_ m) 0 (length (vertices g));
      modify (set_map (Graph vs (edges g)))
  end.

(** ** Matching a position to a road *)

(* [system/src/map_manager.cc:488-508] map_matching *)
Definition map_matching (lat lon sx sy ex ey : double) : double :=
  (let lat_radian := lat * PI / deg180 in
   let lat_unit := d_of_Z 110940 in
   let lon_unit := (d_of_Z 40075360 * cos lat_radian) / d_of_Z 360 in
   let a := dsqrt ((lon - sx) * lon_unit * (lon - sx) * lon_unit +
                   (lat - sy) * lat_unit * (lat - ey) * lat_unit) in
   let b := dsqrt ((lon - ex) * lon_unit * (lon - ex) * lon_unit +
                   (lat - ey) * lat_unit * (lat - ey) * lat_unit) in
   let c := dsqrt ((ex - sx) * lon_unit * (ex - sx) * lon_unit +
                   (ey - sy) * lat_unit * (ey - sy) * lat_unit) in
   if (a * a + c * c - b * b <? d_zero) || (b * b + c * c - a * a <? d_zero)
   then d_of_Z 100000
   else
     let p := (a + b + c) / d_of_Z 2 in
     d_of_Z 2 * dsqrt (abs_double (p * (p - a) * (p - b) * (p - c))) / c)%D.

Definition row_dist (lat lon : double) (r : RoadData) : double :=
  map_matching lat lon (r_startx r) (r_starty r) (r_endx r) (r_endy r).

(** The angle of a road as [on_road] computes it, with [endx] for the last argument. *)
Definition row_angle (r : RoadData) : double :=
  let a := angle (r_startx r) (r_starty r) (r_endx r) (r_endx r) in
  if dlt a d_zero then dopp a else a.

(** The first loop: the first row at the smallest distance below [min]. *)
Fixpoint nearest_row (lat lon min : double) (best : option RoadData) (rows : list RoadData)
    : double * option RoadData :=
  match rows with
  | [] => (min, best)
  | r :: rows =>
      let dist := row_dist lat lon r in
      if dlt dist min then nearest_row lat lon dist (Some r) rows
      else nearest_row lat lon min best rows
  end.

(** The second loop, for a one-way road against the direction of travel. *)
Fixpoint nearest_along (lat lon track_abs min : double) (best : option RoadData)
    (mainid : Z) (rows : list RoadData) : double * option RoadData :=
  match rows with
  | [] => (min, best)
  | r :: rows =>
      let dist := row_dist lat lon r in
      if dlt dist min && negb (r_mainid r =? mainid) &&
         dlt (abs_double (dsub (row_angle r) track_abs)) (d_of_Z 90)
      then nearest_along lat lon track_abs dist (Some r) mainid rows
      else nearest_along lat lon track_abs min best mainid rows
  end.

(* [system/src/map_manager.cc:403-472] on_road *)
Definition on_road_of (raw : list RoadData) (lat lon track : double) : Z :=
  let '(min, road) := nearest_row lat lon (d_of_Z 10000) None raw in
  let track_abs :=
    if dlt deg180 track && dlt track (d_of_Z 360)
    then abs_double (dsub track (d_of_Z 360)) else track in
  let other :=
    match road with
    | Some r =>
        if (r_traffic_flow r =? 1) &&
           dlt (d_of_Z 90) (abs_double (dsub track_abs (row_angle r)))
        then
          let '(tmpmin, road2) :=
            nearest_along lat lon track_abs (d_of_Z 10000) None (r_mainid r) raw in
          if dlt tmpmin (d_of_Z 100) then r_mainid <$> road2 else None
        else None
    | None => None
    end in
  match other, road with
  | Some m, _ => m
  | None, Some r => if dlt min (d_of_Z 100) then r_mainid r else -1
  | None, None => -1
  end.

(* [system/src/map_manager.cc:474-486] get_road_info *)
Definition get_road_info_of (deduped : list RoadData) (roadid : Z) : option RoadData :=
  snd <$> list_find (λ d, r_mainid d = roadid) deduped.

(** ** Routes *)

(* [system/src/map_manager.cc:213-265] get_rect *)
Definition rect_of (deduped : list RoadData) (road_src road_dst : Z)
    (x1 y1 x2 y2 : double) : Z * Z :=
  if decide (road_src = -1 ∨ road_dst = -1) then (-1, -1)
  else
    let same := if decide (road_src = road_dst)
                then list_find (λ d, r_mainid d = road_src ∧ r_mainid d = road_dst) deduped
                else None in
    match same with
    | Some (_, d) => (r_startid d, r_endid d)
    | None =>
        foldl (λ rect d,
          let ends px py :=
            let len1 := distance px py (r_startx d) (r_starty d) in
            let len2 := distance px py (r_endx d) (r_endy d) in
            if dle len1 len2 then r_startid d else r_endid d in
          if decide (r_mainid d = road_src) then (ends x1 y1, rect.2)
          else if decide (r_mainid d = road_dst) then (rect.1, ends x2 y2)
          else rect) (-1, -1) deduped
    end.

(* [system/src/map_manager.cc:213-265] get_rect *)
Definition get_rect (x1 y1 t1 x2 y2 t2 : double) : M MapManager (Z * Z) :=
  db ← gets database_mgr_;
  let road_src := on_road_of (raw_data_ db) y1 x1 t1 in
  let road_dst := on_road_of (raw_data_ db) y2 x2 t2 in
  mret (rect_of (deduped_data_ db) road_src road_dst x1 y1 x2 y2).

(** Whether an edge joins two vertices, in either direction. *)
Definition joins (u v : Z) (e : edge) : Prop :=
  (source e = u ∧ target e = v) ∨ (source e = v ∧ target e = u).
#[global] Instance joins_dec u v e : Decision (joins u v e) := or_dec _ _.

(** The property of a vertex: indexing the graph by its descriptor. *)
Definition vertex_at (v : Z) : M MapManager Node :=
  g ← gets map_;
  match (if decide (0 ≤ v) then vertices g !! Z.to_nat v else None) with
  | Some n => mret n
  | None => stuck OutOfBounds
  end.

Fixpoint more_route_loop (es : list edge) (src dst : Node) (dist_src_dst : double)
    : M MapManager Z :=
  match es with
  | [] => mret 0
  | e :: es =>
      if decide (type (road e) = INT_MAX) then more_route_loop es src dst dist_src_dst
      else
        s ← vertex_at (source e);
        t ← vertex_at (target e);
        if decide (id s = id dst ∨ id t = id dst) then
          let other := if decide (id s = id dst) then t else s in
          let dist := distance (x src) (y src) (x other) (y other) in
          if dlt dist dist_src_dst then mret 1 else more_route_loop es src dst dist_src_dst
        else more_route_loop es src dst dist_src_dst
  end.

(* [system/src/map_manager.cc:312-343] more_route *)
Definition more_route (rect : Z * Z) : M MapManager Z :=
  a ← vertex_at rect.1;
  b ← vertex_at rect.2;
  let dist_src_dst := distance (x a) (y a) (x b) (y b) in
  g ← gets map_;
  more_route_loop (edges g) a b dist_src_dst.

(** The last vertex whose identifier is [k]; the iterator is not initialised otherwise. *)
Definition find_vertex (k : Z) (vs : list Node) : option Z :=
  foldl (λ acc p, if decide (id p.2 = k) then Some (Z.of_nat p.1) else acc) None
    (imap pair vs).

(** The first edge between two vertices: its segment, marked as used. *)
Definition take_edge (vi pv : Z) : M MapManager (list Route) :=
  g ← gets map_;
  match list_find (joins vi pv) (edges g) with
  | None => mret []
  | Some (i, e) =>
      _ ← modify (set_map (Graph (vertices g) (<[i := set_type INT_MAX e]> (edges g))));
      mret [RouteSeg (rid (road e)) vi pv (type (road e))]
  end.

(** The walk from the destination to the source along the predecessors. *)
Fixpoint walk_back (fuel : nat) (p : list Z) (src vi : Z) (route : list Route)
    : M MapManager (list Route) :=
  match fuel with
  | O => stuck NoFuel
  | S fuel =>
      if decide (vi = src) then mret route
      else
        match p !! Z.to_nat vi with
        | None => stuck OutOfBounds
        | Some pv =>
            if decide (vi = pv) then mret route
            else
              r ← take_edge vi pv;
              walk_back fuel p src pv (route ++ r)
        end
  end.

(* [system/src/map_manager.cc:345-401] get_route *)
Definition get_route (rect : Z * Z) : M MapManager (list Route) :=
  g ← gets map_;
  match dijkstra g rect.1 with
  | None => abort
  | Some p =>
      match find_vertex rect.1 (vertices g), find_vertex rect.2 (vertices g) with
      | Some src, Some dst =>
          route ← walk_back (S (length p)) p src dst [];
          mret (reverse route)
      | _, _ => stuck UninitRead
      end
  end.

(** The edge of the same-road case. *)
Definition same_road_route (rect : Z * Z) (es : list edge) : option (list Route) :=
  (λ p, [RouteSeg (rid (road p.2)) rect.1 rect.2 (type (road p.2))]) <$>
    list_find (joins rect.1 rect.2) es.

(* [system/src/map_manager.cc:301-309] get_routes *)
Fixpoint routes_loop (fuel : nat) (rect : Z * Z) (routes : list (list Route))
    : M MapManager (list (list Route)) :=
  match fuel with
  | O => stuck NoFuel
  | S fuel =>
      more ← more_route rect;
      if decide (more = 0) then mret routes
      else
        route ← get_route rect;
        if decide (length route = 0%nat) then mret routes
        else routes_loop fuel rect (routes ++ [route])
  end.

(* [system/src/map_manager.cc:267-310] get_routes *)
Definition get_routes (fuel : nat) (rect : Z * Z) : M MapManager (list (list Route)) :=
  g ← gets map_;
  match (if decide (rect.1 = rect.2) then same_road_route rect (edges g) else None) with
  | Some route => mret [route]
  | None => routes_loop fuel rect []
  end.

(** The type of the first merged row of a road. *)
Definition stored_type (deduped : list RoadData) (roadid : Z) : option Z :=
  (λ p, r_type p.2) <$> list_find (λ d, r_mainid d = roadid) deduped.

(** Restoring the first edge of one segment's road. *)
Definition restore_edge (deduped : list RoadData) (es : list edge) (r : Route) : list edge :=
  match list_find (λ e, rid (road e) = roadid r) es with
  | Some (i, e) =>
      match stored_type deduped (roadid r) with
      | Some t => <[i := set_type t e]> es
      | None => es
      end
  | None => es
  end.

(* [system/src/map_manager.cc:186-211] restore_routes *)
Definition restore_routes (routes : list (list Route)) : M MapManager unit :=
  db ← gets database_mgr_;
  modify (λ m, set_map (Graph (vertices (map_ m))
    (foldl (restore_edge (deduped_data_ db)) (edges (map_ m)) (mjoin routes))) m).

(** [type] is added to, and wraps as the machine's addition does; the mean is an unsigned
    division; an empty route divides by zero. *)
(* [system/src/map_manager.cc:168-184] route_attribute *)
Definition route_attribute (route : list Route) (type0 : Z) : M MapManager (Z * double) :=
  let type := foldl (λ t r, s32 (t + rtype r)) type0 route in
  let size := Z.of_nat (length route) in
  if decide (size = 0) then stuck DivByZero
  else
    let mean := d_of_Z (u64 type / size) in
    let sum := foldl (λ s r, dadd s (dmul (dsub (d_of_Z (rtype r)) mean)
                                          (dsub (d_of_Z (rtype r)) mean))) d_zero route in
    mret (type, dsqrt (ddiv sum (d_of_Z size))).

Fixpoint optimal_loop (routes : list (list Route)) (best : list Route) (min_type : Z)
    (min_dev : double) : M MapManager (list Route) :=
  match routes with
  | [] => mret best
  | r :: routes =>
      '(type, dev) ← route_attribute r 0;
      if decide (min_type > type) then optimal_loop routes r type dev
      else if decide (min_type = type) then
        if dlt dev min_dev then optimal_loop routes r type dev
        else optimal_loop routes best min_type min_dev
      else optimal_loop routes best min_type min_dev
  end.

(** The first call of [route_attribute] adds to [min_type], the largest [int]. *)
(* [system/src/map_manager.cc:131-166] cal_optimal_route *)
Definition cal_optimal_route (routes : list (list Route)) : M MapManager (list Route) :=
  match routes with
  | [] => mret []
  | r :: rest =>
      '(min_type, min_dev) ← route_attribute r INT_MAX;
      optimal_loop rest r min_type min_dev
  end.

(* [system/src/map_manager.cc:118-129] get_optimal_route *)
Definition get_optimal_route (fuel : nat) (x1 y1 t1 x2 y2 t2 : double)
    : M MapManager (list Route) :=
  rect ← get_rect x1 y1 t1 x2 y2 t2;
  if decide (rect.1 = -1 ∨ rect.2 = -1) then mret []
  else
    routes ← get_routes fuel rect;
    _ ← restore_routes routes;
    cal_optimal_route routes.

(** The four members of the result are set only when the road is found; [None] stands for
    members that were not written. *)
(* [system/src/map_manager.cc:510-529] get_route *)
Definition get_route_by_id (k : Z) : M MapManager (Z * option Route) :=
  g ← gets map_;
  match list_find (λ e, rid (road e) = k) (edges g) with
  | Some (_, e) =>
      mret (rid (road e), Some (RouteSeg (rid (road e)) (source e) (target e) (type (road e))))
  | None => mret (-1, None)
  end.
End map_manager.

(** The map manager is the map the neighbour manager uses. *)
Lemma get_road_info_of_mainid deduped k r :
  get_road_info_of deduped k = Some r → r_mainid r = k.
Proof.
  unfold get_road_info_of. intros ([i d] & E & ->)%fmap_Some.
  apply list_find_Some in E as (_ & E & _). done.
Qed.

Definition map_of_database `{Platform, Libm} (db : DatabaseManager) : RoadMap := {|
  on_road := on_road_of (raw_data_ db);
  get_road_info := get_road_info_of (deduped_data_ db);
  get_road_info_mainid := get_road_info_of_mainid (deduped_data_ db) |}.
