(* ===== verification/RoadMatching.v ===== *)
(** * Matching a position to a road, and importing the map

    What [MapManager::on_road] returns, and what [MapManager::import_data] makes of the
    merged table. *)
From S2P Require Import Prelude Double Utils Database RoadMap MapManager.
Open Scope Z_scope.

Section matching.
Context `{Platform, Libm}.

Lemma nearest_row_spec lat lon min best rows :
  let '(min', best') := nearest_row lat lon min best rows in
  (min' = min ∧ best' = best ∧ ∀ r, r ∈ rows → dlt (row_dist lat lon r) min = false) ∨
  ∃ r, r ∈ rows ∧ best' = Some r ∧ min' = row_dist lat lon r ∧ dlt min' min = true ∧
    ∀ r', r' ∈ rows → dlt (row_dist lat lon r') min' = false.
Proof.
  revert min best. induction rows as [|r rows IH]; intros min best; simpl.
  { left. split_and!; try done. by intros r ?%elem_of_nil. }
  destruct (dlt (row_dist lat lon r) min) eqn:Hr.
  - specialize (IH (row_dist lat lon r) (Some r)).
    destruct (nearest_row lat lon (row_dist lat lon r) (Some r) rows) as [min' best'].
    destruct IH as [(-> & -> & Hall)|(r' & Hr' & -> & -> & Hlt & Hall)].
    + right. exists r. split_and!; try done; [by left|].
      intros r' [->|Hr']%elem_of_cons; [apply dlt_irrefl|by apply Hall].
    + right. exists r'. split_and!; try done; [by right|by eapply dlt_trans|].
      intros r0 [->|Hr0]%elem_of_cons; [by apply dlt_asym|by apply Hall].
  - specialize (IH min best). destruct (nearest_row lat lon min best rows) as [min' best'].
    destruct IH as [(-> & -> & Hall)|(r' & Hr' & -> & -> & Hlt & Hall)].
    + left. split_and!; try done. intros r' [->|Hr']%elem_of_cons; [done|by apply Hall].
    + right. exists r'. split_and!; try done; [by right|].
      intros r0 [->|Hr0]%elem_of_cons; [|by apply Hall].
      destruct (dlt (row_dist lat lon r) (row_dist lat lon r')) eqn:E; [|done].
      rewrite <- Hr. symmetry. by eapply dlt_trans.
Qed.

Lemma nearest_along_spec lat lon track min best mainid rows :
  let '(min', best') := nearest_along lat lon track min best mainid rows in
  (min' = min ∧ best' = best) ∨
  ∃ r, r ∈ rows ∧ best' = Some r ∧ min' = row_dist lat lon r ∧ r_mainid r ≠ mainid.
Proof.
  revert min best. induction rows as [|r rows IH]; intros min best; simpl; [by left|].
  destruct (_ && _) eqn:Hr.
  - specialize (IH (row_dist lat lon r) (Some r)).
    destruct (nearest_along _ _ _ (row_dist lat lon r) (Some r) _ _) as [min' best'].
    right. destruct IH as [(-> & ->)|(r' & Hr' & -> & -> & Hm)].
    + exists r. split_and!; try done; [by left|].
      apply andb_true_iff in Hr as [[_ Hr%negb_true_iff%Z.eqb_neq]%andb_true_iff _]. done.
    + exists r'. split_and!; try done. by right.
  - specialize (IH min best). destruct (nearest_along _ _ _ min best _ _) as [min' best'].
    destruct IH as [?|(r' & Hr' & ?)]; [by left|]. right. exists r'. split; [by right|done].
Qed.

Lemma dlt_10000_100 : dlt (d_of_Z 10000) (d_of_Z 100) = false.
Proof. vm_compute. reflexivity. Qed.

(** C10. [on_road] returns -1 or a road of the table that passes within a hundred metres
    of the position, as [map_matching] measures it.  When no row is a one-way road, it
    returns -1 only if no row is that near, and otherwise a row nearest to the position. *)
Theorem on_road_near raw lat lon track :
  let m := on_road_of raw lat lon track in
  (m = -1 ∨ ∃ r, r ∈ raw ∧ r_mainid r = m ∧ dlt (row_dist lat lon r) (d_of_Z 100) = true) ∧
  ((∀ r, r ∈ raw → r_traffic_flow r ≠ 1) →
     (m = -1 ∧ ∀ r, r ∈ raw → dlt (row_dist lat lon r) (d_of_Z 100) = false) ∨
     ∃ r, r ∈ raw ∧ r_mainid r = m ∧ dlt (row_dist lat lon r) (d_of_Z 100) = true ∧
       ∀ r', r' ∈ raw → dlt (row_dist lat lon r') (row_dist lat lon r) = false).
Proof.
  unfold on_road_of. pose proof (nearest_row_spec lat lon (d_of_Z 10000) None raw) as Hn.
  destruct (nearest_row lat lon (d_of_Z 10000) None raw) as [min road].
  destruct Hn as [(-> & -> & Hall)|(r & Hr & -> & -> & Hlt & Hmin)].
  { split; [by left|]. intros _. left. split; [done|]. intros r Hr. specialize (Hall r Hr).
    destruct (dlt (row_dist lat lon r) (d_of_Z 100)) eqn:E; [|done].
    rewrite <- Hall. symmetry. eapply dlt_trans; [exact E|]. by vm_compute. }
  assert ((dlt (row_dist lat lon r) (d_of_Z 100) = false →
    ∀ r', r' ∈ raw → dlt (row_dist lat lon r') (d_of_Z 100) = false)) as Hfar.
  { intros Hd r' Hr'. specialize (Hmin r' Hr').
    destruct (dlt (row_dist lat lon r') (d_of_Z 100)) eqn:E; [|done].
    destruct (dlt_not_nan _ _ E) as [Hn' _]. destruct (dlt_not_nan _ _ Hlt) as [Hn _].
    apply dlt_false_dle in Hmin; [|done|done]. rewrite <- Hd. symmetry.
    by eapply dle_dlt_trans. }
  set (other := if _ : bool then _ else None).
  assert (∀ m, other = Some m → ∃ r', r' ∈ raw ∧ r_mainid r' = m ∧
    dlt (row_dist lat lon r') (d_of_Z 100) = true) as Hother.
  { intros m. unfold other. destruct (_ && _); [|done].
    match goal with |- context [nearest_along ?a ?b ?c ?d ?e ?f ?g] =>
      pose proof (nearest_along_spec a b c d e f g) as Ha; destruct (nearest_along a b c d e f g) as [tm r2] end.
    destruct (dlt tm (d_of_Z 100)) eqn:Et; [|done].
    destruct Ha as [(-> & ->)|(r' & Hr' & -> & -> & _)]; [done|].
    intros [= <-]. by exists r'. }
  assert ((∀ r, r ∈ raw → r_traffic_flow r ≠ 1) → other = None) as Hnone.
  { intros Hflow. unfold other. by rewrite (proj2 (Z.eqb_neq _ _) (Hflow r Hr)). }
  clearbody other. split.
  - destruct other as [m|]; [by right; apply Hother|].
    destruct (dlt (row_dist lat lon r) (d_of_Z 100)) eqn:Hd; [right; by exists r|by left].
  - intros Hflow. rewrite (Hnone Hflow).
    destruct (dlt (row_dist lat lon r) (d_of_Z 100)) eqn:Hd.
    + right. exists r. split_and!; done.
    + left. split; [done|by apply Hfar].
Qed.
End matching.

(** ** Importing the table *)
Section import.
Context `{Platform, Libm}.

(** The first node with each identifier, in order. *)
Fixpoint first_nodes (seen : list Z) (l : list Node) : list Node :=
  match l with
  | [] => []
  | n :: l => if decide (id n ∈ seen) then first_nodes seen l
              else n :: first_nodes (id n :: seen) l
  end.

Lemma first_nodes_ids seen l k :
  k ∈ id <$> first_nodes seen l ↔ k ∈ id <$> l ∧ k ∉ seen.
Proof.
  revert seen. induction l as [|n l IH]; intros seen; simpl; [set_solver|].
  case_decide as D; rewrite ?fmap_cons, ?elem_of_cons, IH, ?elem_of_cons.
  - split; [intros [? ?]; tauto|intros [[->|?] ?]; tauto].
  - destruct (decide (k = id n)) as [->|Hne]; tauto.
Qed.

Lemma first_nodes_NoDup seen l : NoDup (id <$> first_nodes seen l).
Proof.
  revert seen. induction l as [|n l IH]; intros seen; simpl; [constructor|].
  case_decide; [done|]. rewrite fmap_cons. apply NoDup_cons. split; [|done].
  rewrite first_nodes_ids, elem_of_cons. tauto.
Qed.

Lemma dedup_nodes_spec size bitmap seen tmp nodes m :
  (∀ k, default 0 (bitmap !! k) = 0 ↔ k ∉ seen) →
  Forall (λ n, 0 ≤ id n < size) tmp →
  dedup_nodes size bitmap tmp nodes m = Done (nodes ++ first_nodes seen tmp) m.
Proof.
  revert bitmap seen nodes. induction tmp as [|n tmp IH]; intros bitmap seen nodes Hb Hall.
  { simpl. by rewrite app_nil_r. }
  apply Forall_cons in Hall as [Hn Hall]. simpl. rewrite decide_True by done.
  case_decide as D.
  - rewrite (decide_False (P := id n ∈ seen)) by by apply Hb.
    rewrite (IH _ (id n :: seen)); [by rewrite <- app_assoc| |done].
    intros k. rewrite lookup_insert, not_elem_of_cons. case_decide; simpl; [naive_solver|].
    rewrite Hb. naive_solver.
  - rewrite decide_True; [by apply IH|].
    destruct (decide (id n ∈ seen)) as [?|Hs]; [done|]. destruct D. by apply Hb.
Qed.

Lemma max_id_ge tmp n : n ∈ tmp → id n ≤ max_id tmp.
Proof.
  unfold max_id. generalize 0. induction tmp as [|m tmp IH]; intros z; [by intros ?%elem_of_nil|].
  assert (∀ l z, z ≤ foldl (λ m n, if id n >? m then id n else m) z l) as Hmono.
  { induction l as [|q l IHl]; intros w; simpl; [lia|].
    etransitivity; [|apply IHl]. case_match; lia. }
  intros [->|Hn]%elem_of_cons; simpl; [|by apply IH].
  etransitivity; [|apply Hmono]. case_match; lia.
Qed.

Lemma max_id_range tmp b : 0 ≤ b → Forall (λ n, id n < b) tmp → 0 ≤ max_id tmp < Z.max 1 b.
Proof.
  intros Hb Hall. unfold max_id.
  assert (∀ l z, 0 ≤ z < Z.max 1 b → Forall (λ n, id n < b) l →
    0 ≤ foldl (λ m n, if id n >? m then id n else m) z l < Z.max 1 b) as Hgen.
  { induction l as [|q l IHl]; intros z Hz Hl; simpl; [done|].
    apply Forall_cons in Hl as [Hq Hl]. apply IHl; [|done]. case_match; lia. }
  apply Hgen; [lia|done].
Qed.

(** C11. [import_data] on a merged table whose crossings have identifiers an [int] array
    can index: the nodes are the crossings of the table, each once, at the position of
    their first occurrence; the roads and the edges are the rows in order, with type 12
    stored as 0. *)
Theorem import_data_graph g db :
  let tmp := deduped_data_ db ≫= road_nodes in
  Forall (λ n, 0 ≤ id n < 2 ^ 31 - 1) tmp →
  import_data (MapMgr g db [] [] []) =
    Done tt (MapMgr g db (first_nodes [] tmp) (import_road <$> deduped_data_ db)
               ((λ d, (r_startid d, r_endid d)) <$> deduped_data_ db)) ∧
  NoDup (id <$> first_nodes [] tmp) ∧
  ∀ k, k ∈ id <$> first_nodes [] tmp ↔
    ∃ d, d ∈ deduped_data_ db ∧ (k = r_startid d ∨ k = r_endid d).
Proof.
  intros tmp Hall. split_and!.
  - assert (Forall (λ n, id n < 2 ^ 31 - 1) tmp) as Hlt by (eapply Forall_impl; [exact Hall|]; simpl; lia).
    pose proof (max_id_range tmp (2 ^ 31 - 1) ltac:(lia) Hlt) as Hm.
    assert (s32 (max_id tmp + 1) = max_id tmp + 1) as Hs.
    { apply swrap_small; [lia|]. change (2 ^ (32 - 1)) with (2 ^ 31). lia. }
    unfold import_data. set (m := MapMgr g db [] [] []).
    rewrite (bind_done _ _ m (deduped_data_ db) m) by done. simpl. fold tmp.
    rewrite Hs. erewrite bind_done by reflexivity.
    rewrite decide_False by lia. erewrite bind_done by reflexivity. simpl.
    erewrite bind_done; [|apply (dedup_nodes_spec _ ∅ [])]; [reflexivity| |].
    + intros k. rewrite lookup_empty. simpl. set_solver.
    + apply Forall_forall. intros n Hn. pose proof (max_id_ge tmp n Hn).
      rewrite Forall_forall in Hall. specialize (Hall n Hn). simpl in Hall. lia.
  - apply first_nodes_NoDup.
  - intros k. rewrite first_nodes_ids, list_elem_of_fmap. split.
    + intros [(n & -> & Hn) _]. unfold tmp in Hn. apply list_elem_of_bind in Hn as (d & Hn & Hd).
      exists d. split; [done|]. unfold road_nodes in Hn.
      apply elem_of_cons in Hn as [->|Hn]; [by left|].
      apply list_elem_of_singleton in Hn as ->. by right.
    + intros (d & Hd & Hk). split; [|by intros ?%elem_of_nil].
      assert (∀ n, n ∈ road_nodes d → n ∈ tmp) as Hin.
      { intros n Hn. unfold tmp. apply list_elem_of_bind. by exists d. }
      destruct Hk as [-> | ->].
      * eexists. split; [|apply Hin; left]. done.
      * eexists. split; [|apply Hin; right; left]. done.
Qed.
End import.

Definition sample_db : DatabaseManager := DB sample_data (deduped sample_data).

Lemma sample_db_ids :
  Forall (λ n, 0 ≤ id n < 2 ^ 31 - 1) (deduped_data_ sample_db ≫= road_nodes).
Proof.
  apply Forall_forall. intros n Hn.
  assert (forallb (λ n, (0 <=? id n) && (id n <? 2 ^ 31 - 1))
    (deduped_data_ sample_db ≫= road_nodes) = true) as Hall by (vm_compute; reflexivity).
  rewrite forallb_forall in Hall. apply list_elem_of_In in Hn. specialize (Hall n Hn). lia.
Qed.

Lemma import_data_graph_witness :
  import_data (MapMgr (Graph [] []) sample_db [] [] []) =
    Done tt (MapMgr (Graph [] []) sample_db
      (first_nodes [] (deduped_data_ sample_db ≫= road_nodes))
      (import_road <$> deduped_data_ sample_db)
      ((λ d, (r_startid d, r_endid d)) <$> deduped_data_ sample_db)) ∧
  id <$> first_nodes [] (deduped_data_ sample_db ≫= road_nodes) = [3; 5; 9; 10].
Proof.
  split; [|vm_compute; reflexivity].
  apply (import_data_graph (Graph [] []) sample_db). apply sample_db_ids.
Defined.
