(* ===== verification/Routes.v ===== *)
(** * Candidate routes

    The walk along Dijkstra's predecessors yields a path; looking for further routes
    stops when no two edges join the same crossings; and the route that is finally chosen
    is the first. *)
From S2P Require Import Prelude Double Utils Database RoadMap MapManager.
Open Scope Z_scope.

(** Every vertex carries its own index as identifier, and edges end at vertices. *)
Definition graph_ok (g : Map) : Prop :=
  (∀ i n, vertices g !! i = Some n → id n = Z.of_nat i) ∧
  ∀ e, e ∈ edges g → (0 ≤ source e < num_vertices g) ∧ (0 ≤ target e < num_vertices g).

Definition same_ends (e e' : edge) : Prop :=
  source e' = source e ∧ target e' = target e ∧ rid (road e') = rid (road e).

(** The same graph up to the types of its edges. *)
Definition same_shape (g g' : Map) : Prop :=
  vertices g' = vertices g ∧ Forall2 same_ends (edges g) (edges g').

#[global] Instance same_ends_preorder : PreOrder same_ends.
Proof. split; [by intros e|]. intros a b c (?&?&?) (?&?&?). by split_and!; etransitivity. Qed.
#[global] Instance same_shape_preorder : PreOrder same_shape.
Proof.
  split.
  - intros g. split; [done|]. reflexivity.
  - intros a b c [E1 F1] [E2 F2]. split; [congruence|]. by etransitivity.
Qed.

Lemma same_shape_ok g g' : same_shape g g' → graph_ok g → graph_ok g'.
Proof.
  intros [Ev Ee] [Hv He]. unfold graph_ok, num_vertices. rewrite Ev. split; [done|].
  intros e' He'. apply list_elem_of_lookup in He' as [i Hi].
  destruct (Forall2_lookup_r _ _ _ _ _ Ee Hi) as (e & Hi' & E1 & E2 & _).
  rewrite E1, E2. apply He. by eapply list_elem_of_lookup_2.
Qed.

Lemma set_type_same t e : same_ends e (set_type t e).
Proof. done. Qed.

Lemma same_shape_mark g i e t :
  edges g !! i = Some e →
  same_shape g (Graph (vertices g) (<[i := set_type t e]> (edges g))).
Proof.
  intros Hi. split; [done|]. simpl. apply Forall2_same_length_lookup. split.
  { by rewrite length_insert. }
  intros j a b Ha Hb. apply list_lookup_insert_Some in Hb as [(-> & <- & _)|[_ Hb]].
  - simplify_eq. apply set_type_same.
  - by simplify_eq.
Qed.

(** The same graph, with some more edges marked as used. *)
Definition marked_edge (e e' : edge) : Prop := e' = e ∨ e' = set_type INT_MAX e.
Definition marked (g g' : Map) : Prop :=
  vertices g' = vertices g ∧ Forall2 marked_edge (edges g) (edges g').

#[global] Instance marked_edge_preorder : PreOrder marked_edge.
Proof.
  split; [by left|]. intros a b c [->| ->] [->| ->]; [by left|by right|by right|by right].
Qed.
#[global] Instance marked_preorder : PreOrder marked.
Proof.
  split.
  - intros g. split; [done|]. reflexivity.
  - intros a b c [E1 F1] [E2 F2]. split; [congruence|]. by etransitivity.
Qed.

Lemma marked_shape g g' : marked g g' → same_shape g g'.
Proof.
  intros [Ev Ee]. split; [done|]. eapply Forall2_impl; [exact Ee|].
  by intros e e' [->| ->].
Qed.

Lemma marked_mark g i e :
  edges g !! i = Some e →
  marked g (Graph (vertices g) (<[i := set_type INT_MAX e]> (edges g))).
Proof.
  intros Hi. split; [done|]. simpl. apply Forall2_same_length_lookup. split.
  { by rewrite length_insert. }
  intros j a b Ha Hb. apply list_lookup_insert_Some in Hb as [(-> & <- & _)|[_ Hb]].
  - simplify_eq. by right.
  - simplify_eq. by left.
Qed.

(** The edges Dijkstra's algorithm can still use. *)
Definition is_free (e : edge) : bool := negb (type (road e) =? INT_MAX).
Definition free_edges (g : Map) : nat := length (filter (λ e, is_free e = true) (edges g)).

Lemma free_marked_le es es' :
  Forall2 marked_edge es es' →
  (length (filter (λ e, is_free e = true) es') ≤ length (filter (λ e, is_free e = true) es))%nat.
Proof.
  induction 1 as [|e e' es es' He _ IH]; [done|]. rewrite !filter_cons.
  destruct He as [->| ->]; [case_decide; simpl; lia|].
  rewrite (decide_False (P := is_free (set_type _ _) = true)) by done.
  case_decide; simpl; lia.
Qed.

(** Marking a free edge leaves fewer of them. *)
Lemma free_marked_lt es es' i e :
  Forall2 marked_edge es es' → es !! i = Some e → is_free e = true →
  es' !! i = Some (set_type INT_MAX e) →
  (length (filter (λ e, is_free e = true) es') < length (filter (λ e, is_free e = true) es))%nat.
Proof.
  intros Hm. revert i. induction Hm as [|a b es es' He Hm IH]; intros i; [done|].
  rewrite !filter_cons. destruct i as [|i]; simpl.
  - intros [= ->] Hf [= ->]. rewrite decide_False, decide_True by done. simpl.
    pose proof (free_marked_le _ _ Hm). lia.
  - intros Hi Hf Hi'. specialize (IH i Hi Hf Hi').
    destruct He as [->| ->]; [case_decide; simpl; lia|].
    rewrite (decide_False (P := is_free (set_type _ _) = true)) by done.
    case_decide; simpl; lia.
Qed.

(** No two edges join the same vertices. *)
Definition simple_graph (g : Map) : Prop :=
  ∀ i j e e', edges g !! i = Some e → edges g !! j = Some e' →
    joins (source e) (target e) e' → i = j.

(** A path from [v] back to [u]: each segment names an edge that joins its ends. *)
Fixpoint path_back (g : Map) (v : Z) (segs : list Route) (u : Z) : Prop :=
  match segs with
  | [] => v = u
  | s :: segs =>
      startid s = v ∧ (∃ e, e ∈ edges g ∧ rid (road e) = roadid s ∧ joins v (endid s) e) ∧
      path_back g (endid s) segs u
  end.

Lemma path_back_shape g g' v segs u :
  same_shape g' g → path_back g v segs u → path_back g' v segs u.
Proof.
  intros Hs. revert v. induction segs as [|s segs IH]; intros v; simpl; [done|].
  intros (Ev & (e & He & Er & Hj) & Hp). split; [done|]. split; [|by apply IH].
  apply list_elem_of_lookup in He as [i Hi].
  destruct (Forall2_lookup_r _ _ _ _ _ (proj2 Hs) Hi) as (e' & Hi' & E1 & E2 & E3).
  exists e'. split; [by eapply list_elem_of_lookup_2|]. split; [congruence|].
  unfold joins in *. by rewrite <- E1, <- E2.
Qed.

Section routes.
Context `{Platform, Libm, ShortestPaths}.

Lemma take_edge_spec vi pv m e0 :
  e0 ∈ edges (map_ m) → joins vi pv e0 →
  ∃ i e, list_find (joins vi pv) (edges (map_ m)) = Some (i, e) ∧
    take_edge vi pv m =
      Done [RouteSeg (rid (road e)) vi pv (type (road e))]
        (set_map (Graph (vertices (map_ m)) (<[i := set_type INT_MAX e]> (edges (map_ m)))) m).
Proof.
  intros He Hj. unfold take_edge. rewrite (bind_done _ _ m (map_ m) m) by done.
  destruct (list_find (joins vi pv) (edges (map_ m))) as [[i e]|] eqn:E.
  - exists i, e. by split.
  - apply list_find_None in E. rewrite Forall_forall in E. by destruct (E e0 He).
Qed.

(** The first segment of a walk marks the edge it is looked up by. *)
Definition first_marked (g g' : Map) (segs : list Route) : Prop :=
  match segs with
  | [] => True
  | s :: _ => ∃ i e, list_find (joins (startid s) (endid s)) (edges g) = Some (i, e) ∧
      edges g' !! i = Some (set_type INT_MAX e)
  end.

Lemma marked_lookup g g' i e :
  marked g g' → edges g !! i = Some (set_type INT_MAX e) →
  edges g' !! i = Some (set_type INT_MAX e).
Proof.
  intros [_ Hm] Hi. destruct (Forall2_lookup_l _ _ _ _ _ Hm Hi) as (e' & Hi' & [->| ->]); done.
Qed.

(** The walk from a vertex that was reached ends at the source, with a path. *)
Lemma walk_back_spec g0 s p rank :
  dijkstra g0 s = Some p → graph_ok g0 →
  (∀ v u, 0 ≤ v → p !! Z.to_nat v = Some u → u ≠ v → (rank u < rank v)%nat) →
  ∀ fuel v m acc, same_shape g0 (map_ m) → 0 ≤ v < num_vertices g0 →
    (rank v < fuel)%nat → (v ≠ s → p !! Z.to_nat v ≠ Some v) →
    ∃ segs m', walk_back fuel p s v acc m = Done (acc ++ segs) m' ∧
      m' = set_map (map_ m') m ∧ marked (map_ m) (map_ m') ∧
      path_back g0 v segs s ∧ first_marked (map_ m) (map_ m') segs ∧
      (v ≠ s → ∃ r segs', segs = r :: segs' ∧ startid r = v ∧
        p !! Z.to_nat v = Some (endid r) ∧ endid r ≠ v).
Proof.
  intros Hp Hg Hrank. pose proof (dijkstra_length _ _ _ Hp) as Hplen.
  induction fuel as [|fuel IH]; intros v m acc Hs Hv Hf Hroot; [lia|].
  simpl. case_decide as Evs.
  { exists [], m. rewrite app_nil_r. split_and!; try done. by destruct m. }
  destruct (lookup_lt_is_Some_2 p (Z.to_nat v)) as [pv Hpv]; [lia|]. rewrite Hpv.
  destruct (dijkstra_edge _ _ _ _ _ Hp (proj1 Hv) Hpv) as [Hpv0 He].
  assert (pv ≠ v) as Hne by (intros ->; by apply Hroot).
  rewrite decide_False by congruence.
  destruct He as [?|(e0 & He0 & _ & Hj0)]; [done|].
  assert (0 ≤ pv < num_vertices g0) as Hpvr.
  { destruct (proj2 Hg e0 He0) as [??]. destruct Hj0 as [[??]|[??]]; lia. }
  pose proof He0 as Hin. apply list_elem_of_lookup in Hin as [j Hj].
  destruct (Forall2_lookup_l _ _ _ _ _ (proj2 Hs) Hj) as (e1 & Hj1 & E1 & E2 & E3).
  destruct (take_edge_spec v pv m e1) as (i & e & Hfind & Htake).
  { by eapply list_elem_of_lookup_2. }
  { unfold joins. rewrite E1, E2. destruct Hj0; tauto. }
  rewrite (bind_done _ _ _ _ _ Htake). pose proof Hfind as Hfind0.
  apply list_find_Some in Hfind as (Hi & Hji & _).
  set (m1 := set_map _ m). set (r := RouteSeg _ v pv _).
  assert (marked (map_ m) (map_ m1)) as Hm1 by by apply marked_mark.
  destruct (IH pv m1 (acc ++ [r])) as (segs & m' & E & Em' & Hm' & Hpath & _).
  { etransitivity; [exact Hs|by apply marked_shape]. }
  { done. }
  { pose proof (Hrank v pv (proj1 Hv) Hpv Hne). lia. }
  { intros Hpvs. destruct (dijkstra_root _ _ _ _ _ Hp (proj1 Hv) Hpv Hne); done. }
  exists (r :: segs), m'. rewrite <- app_assoc in E. split_and!; [exact E| | | | |].
  - rewrite Em'. by destruct m, m'.
  - by etransitivity.
  - simpl. split; [done|]. split; [|done].
    destruct (Forall2_lookup_r _ _ _ _ _ (proj2 Hs) Hi) as (e' & Hi' & F1 & F2 & F3).
    exists e'. split; [by eapply list_elem_of_lookup_2|]. split; [done|].
    unfold joins in *. by rewrite <- F1, <- F2.
  - simpl. exists i, e. split; [done|]. eapply marked_lookup; [exact Hm'|].
    simpl. apply list_lookup_insert_eq. by eapply lookup_lt_Some.
  - intros _. by exists r, segs.
Qed.

Lemma find_vertex_ok k vs :
  (∀ i n, vs !! i = Some n → id n = Z.of_nat i) → 0 ≤ k < Z.of_nat (length vs) →
  find_vertex k vs = Some k.
Proof.
  intros Hids. assert (find_vertex k vs =
    if decide (0 ≤ k < Z.of_nat (length vs)) then Some k else None) as E;
    [|intros Hk; by rewrite E, decide_True].
  unfold find_vertex. induction vs as [|n vs IH] using rev_ind; [by rewrite decide_False by (simpl; lia)|].
  rewrite imap_app, foldl_app, IH; [|intros i x Hx; apply Hids; by apply lookup_app_l_Some].
  simpl. rewrite Nat.add_0_r, length_app. simpl.
  rewrite (Hids (length vs) n) by by apply list_lookup_middle.
  repeat case_decide; try lia; f_equal; lia.
Qed.

(** [get_route] between two crossings of a graph whose vertices carry their indices:
    the empty route when the destination was not reached, and otherwise a path from the
    source to the destination; the types of the edges it looks up, and nothing else,
    are set to the largest [int]. *)
Theorem get_route_path m src dst p :
  graph_ok (map_ m) → 0 ≤ src < num_vertices (map_ m) → 0 ≤ dst < num_vertices (map_ m) →
  dijkstra (map_ m) src = Some p →
  ∃ segs m', get_route (src, dst) m = Done (reverse segs) m' ∧
    m' = set_map (map_ m') m ∧ marked (map_ m) (map_ m') ∧
    (if decide (dst ≠ src ∧ p !! Z.to_nat dst = Some dst) then segs = []
     else path_back (map_ m) dst segs src).
Proof.
  intros Hg Hsrc Hdst Hp. unfold get_route. rewrite (bind_done _ _ m (map_ m) m) by done.
  cbn [fst snd]. rewrite Hp, !(find_vertex_ok _ _ (proj1 Hg)) by done.
  destruct (dijkstra_forest _ _ _ Hp) as (rank & Hlt & Hrank).
  destruct (decide (dst ≠ src ∧ p !! Z.to_nat dst = Some dst)) as [D|D].
  - exists [], m. destruct D as [D1 D2]. split_and!; [|by destruct m|done|done].
    erewrite (bind_done _ _ _ []); [reflexivity|].
    simpl. by rewrite decide_False, D2, decide_True by done.
  - destruct (walk_back_spec _ _ _ _ Hp Hg Hrank (S (length p)) dst m [])
      as (segs & m' & E & Em' & Hm' & Hpath & _); [done|done|specialize (Hlt dst); lia|tauto|].
    exists segs, m'. split_and!; try done. by rewrite (bind_done _ _ _ _ _ E).
Qed.

(** ** Looking for further routes *)

Lemma vertex_at_ok m v :
  0 ≤ v < num_vertices (map_ m) → ∃ n, vertex_at v m = Done n m.
Proof.
  intros Hv. unfold vertex_at. rewrite (bind_done _ _ m (map_ m) m) by done.
  rewrite decide_True by lia.
  destruct (lookup_lt_is_Some_2 (vertices (map_ m)) (Z.to_nat v)) as [n ->].
  { unfold num_vertices in Hv. lia. }
  by exists n.
Qed.

Lemma more_route_ok m rect :
  graph_ok (map_ m) → 0 ≤ rect.1 < num_vertices (map_ m) → 0 ≤ rect.2 < num_vertices (map_ m) →
  ∃ b, more_route rect m = Done b m.
Proof.
  intros [_ Hg] Hr1 Hr2. unfold more_route.
  destruct (vertex_at_ok m _ Hr1) as [a Ea]. rewrite (bind_done _ _ _ _ _ Ea).
  destruct (vertex_at_ok m _ Hr2) as [b Eb]. rewrite (bind_done _ _ _ _ _ Eb).
  rewrite (bind_done _ _ m (map_ m) m) by done.
  set (dd := distance _ _ _ _). clearbody dd.
  assert (∀ e, e ∈ edges (map_ m) → e ∈ edges (map_ m)) as Hsub by done. revert Hsub.
  generalize (edges (map_ m)) at 1 3. induction l as [|e es IH]; intros Hsub; [by eexists|].
  simpl. destruct IH as [r Hr]; [intros; apply Hsub; by right|].
  case_decide; [by exists r|].
  destruct (Hg e ltac:(apply Hsub; by left)) as [Hs Ht].
  destruct (vertex_at_ok m _ Hs) as [vs Es]. rewrite (bind_done _ _ _ _ _ Es).
  destruct (vertex_at_ok m _ Ht) as [vt Et]. rewrite (bind_done _ _ _ _ _ Et).
  case_decide; [|by exists r].
  case_match; [by eexists|by exists r].
Qed.

Lemma simple_marked g g' : same_shape g g' → simple_graph g → simple_graph g'.
Proof.
  intros [_ Hs] Hg i j e e' Hi Hj Hjoin.
  destruct (Forall2_lookup_r _ _ _ _ _ Hs Hi) as (a & Ha & A1 & A2 & _).
  destruct (Forall2_lookup_r _ _ _ _ _ Hs Hj) as (b & Hb & B1 & B2 & _).
  eapply Hg; [exact Ha|exact Hb|]. unfold joins in *. by rewrite <- A1, <- A2, <- B1, <- B2.
Qed.

(** A route that is not empty uses up a free edge. *)
Lemma get_route_progress m src dst p route m' :
  graph_ok (map_ m) → simple_graph (map_ m) →
  0 ≤ src < num_vertices (map_ m) → 0 ≤ dst < num_vertices (map_ m) →
  dijkstra (map_ m) src = Some p → get_route (src, dst) m = Done route m' → route ≠ [] →
  (free_edges (map_ m') < free_edges (map_ m))%nat.
Proof.
  intros Hg Hsimple Hsrc Hdst Hp E Hne. unfold get_route in E.
  rewrite (bind_done _ _ m (map_ m) m) in E by done.
  cbn [fst snd] in E. rewrite Hp, !(find_vertex_ok _ _ (proj1 Hg)) in E by done.
  apply bind_done_inv in E as (segs0 & m1 & E & Er). injection Er as <- ->.
  destruct (dijkstra_forest _ _ _ Hp) as (rank & Hlt & Hrank).
  destruct (decide (dst ≠ src ∧ p !! Z.to_nat dst = Some dst)) as [[D1 D2]|D].
  { simpl in E. rewrite decide_False, D2, decide_True in E by done. by injection E as <-. }
  destruct (walk_back_spec _ _ _ _ Hp Hg Hrank (S (length p)) dst m [])
    as (segs & m2 & E2 & _ & Hm & _ & Hfirst & Hhead); [done|done|specialize (Hlt dst); lia|tauto|].
  rewrite E in E2. injection E2 as -> ->.
  destruct (decide (dst = src)) as [->|Hds].
  { simpl in E. rewrite decide_True in E by done. injection E as <-. done. }
  destruct (Hhead Hds) as (r & segs' & -> & Es & Hpv & Hrv). clear Hhead.
  destruct Hfirst as (i & e & Hfind & Hi'). rewrite Es in Hfind.
  apply list_find_Some in Hfind as (Hi & Hj & _).
  destruct (dijkstra_edge _ _ _ _ _ Hp (proj1 Hdst) Hpv) as [_ [?|(e0 & He0 & Ht0 & Hj0)]]; [done|].
  apply list_elem_of_lookup in He0 as [j Hj1].
  assert (i = j) as <-.
  { eapply Hsimple; [exact Hi|exact Hj1|]. unfold joins in *. intuition congruence. }
  assert (e = e0) as -> by congruence.
  eapply free_marked_lt; [exact (proj2 Hm)|exact Hi| |exact Hi'].
  unfold is_free. apply negb_true_iff, Z.eqb_neq, Ht0.
Qed.

(** Every candidate is a path between the two crossings. *)
Definition is_route (g : Map) (rect : Z * Z) (route : list Route) : Prop :=
  path_back g rect.2 (reverse route) rect.1.

Lemma routes_loop_ok g0 rect :
  graph_ok g0 → simple_graph g0 →
  0 ≤ rect.1 < num_vertices g0 → 0 ≤ rect.2 < num_vertices g0 →
  ∀ fuel m routes, marked g0 (map_ m) → (free_edges (map_ m) < fuel)%nat →
    Forall (is_route g0 rect) routes →
    wp (routes_loop fuel rect routes) m (λ routes' m',
      marked g0 (map_ m') ∧ Forall (is_route g0 rect) routes').
Proof.
  intros Hg0 Hsimple0 Hr1 Hr2. induction fuel as [|fuel IH]; intros m routes Hm Hf Hall; [lia|].
  simpl. pose proof (marked_shape _ _ Hm) as Hshape.
  pose proof (same_shape_ok _ _ Hshape Hg0) as Hg.
  assert (num_vertices (map_ m) = num_vertices g0) as Hnum.
  { unfold num_vertices. by rewrite (proj1 Hshape). }
  destruct (more_route_ok m rect) as [b Hb]; [done|by rewrite Hnum..|].
  apply wp_bind. eapply wp_done; [exact Hb|]. case_decide; [by apply wp_ret|].
  apply wp_bind. destruct (dijkstra (map_ m) rect.1) as [p|] eqn:Hp.
  2:{ unfold get_route, wpx. rewrite (bind_done _ _ m (map_ m) m) by done. by rewrite Hp. }
  destruct rect as [src dst]. cbn [fst snd] in *.
  destruct (get_route_path m src dst p) as (segs & m' & E & _ & Hm' & Hsegs);
    [done|by rewrite Hnum..|done|].
  eapply wp_done; [exact E|]. 
  assert (marked g0 (map_ m')) as Hm0 by by etransitivity.
  destruct (decide (length (reverse segs) = 0%nat)) as [Hlen|Hlen]; [by apply wp_ret|].
  assert (reverse segs ≠ []) as Hne by by destruct (reverse segs).
  apply IH; [done| |].
  - pose proof (get_route_progress m src dst p _ _ Hg (simple_marked _ _ Hshape Hsimple0)
      ltac:(by rewrite Hnum) ltac:(by rewrite Hnum) Hp E Hne). lia.
  - apply Forall_app. split; [done|]. apply Forall_singleton. unfold is_route. simpl.
    rewrite reverse_involutive. case_decide; [by subst|].
    by eapply path_back_shape.
Qed.

(** C5. [get_routes] returns: on a graph in which no two edges join the same crossings,
    one iteration more than there are usable edges is fuel enough, the loop does not
    fault, and every candidate is a path from the first crossing to the second. *)
Theorem get_routes_returns m rect fuel :
  graph_ok (map_ m) → simple_graph (map_ m) →
  0 ≤ rect.1 < num_vertices (map_ m) → 0 ≤ rect.2 < num_vertices (map_ m) →
  (free_edges (map_ m) < fuel)%nat →
  wp (get_routes fuel rect) m (λ routes m',
    marked (map_ m) (map_ m') ∧ Forall (is_route (map_ m) rect) routes).
Proof.
  intros Hg Hs Hr1 Hr2 Hf. unfold get_routes. apply wp_bind, wp_gets.
  destruct (if decide (rect.1 = rect.2) then _ else None) as [route|] eqn:E.
  - apply wp_ret. split; [done|]. apply Forall_singleton. case_decide as Eq; [|done].
    unfold same_road_route in E. apply fmap_Some in E as ([i e] & Hfind & ->).
    apply list_find_Some in Hfind as (Hi & Hj & _). unfold is_route. simpl.
    split; [done|]. split; [|done]. exists e.
    split; [by eapply list_elem_of_lookup_2|]. split; [done|]. by rewrite <- Eq in Hj |- *.
  - by apply routes_loop_ok.
Qed.

(** ** The best route *)

Definition total_type (route : list Route) : Z := foldl (λ t r, t + rtype r) 0 route.

Lemma s32_s32_add a b : s32 (s32 a + b) = s32 (a + b).
Proof.
  unfold s32, swrap. cbv zeta. assert (∀ c, wrap 32 (wrap 32 a - c * 2 ^ 32 + b) = wrap 32 (a + b)) as E.
  { intros c. unfold wrap. replace (a `mod` 2 ^ 32 - c * 2 ^ 32 + b) with (a `mod` 2 ^ 32 + b + (- c) * 2 ^ 32) by lia.
    rewrite Z_mod_plus_full. by rewrite Zplus_mod_idemp_l. }
  destruct (wrap 32 a <? 2 ^ (32 - 1)).
  - specialize (E 0). rewrite Z.mul_0_l, Z.sub_0_r in E. by rewrite E.
  - specialize (E 1). rewrite Z.mul_1_l in E. by rewrite E.
Qed.

Lemma foldl_s32 route t0 :
  s32 (foldl (λ t r, s32 (t + rtype r)) t0 route) = s32 (t0 + total_type route).
Proof.
  unfold total_type.
  assert (∀ l a b, foldl (λ t r, t + rtype r) (a + b) l = a + foldl (λ t r, t + rtype r) b l) as Hshift.
  { induction l as [|r l IH]; intros a b; [done|]. simpl. rewrite <- IH. f_equal. lia. }
  revert t0. induction route as [|r l IH]; intros t0; simpl; [f_equal; lia|].
  rewrite IH, s32_s32_add. f_equal. rewrite <- Z.add_assoc. f_equal.
  by rewrite <- (Hshift l (rtype r) 0), Z.add_0_r.
Qed.

Lemma foldl_s32_cons r l t0 :
  foldl (λ t r, s32 (t + rtype r)) t0 (r :: l) = s32 (t0 + total_type (r :: l)).
Proof.
  rewrite <- foldl_s32. symmetry. apply swrap_small; [lia|].
  assert (∀ l t, - 2 ^ 31 ≤ t < 2 ^ 31 →
    - 2 ^ 31 ≤ foldl (λ t r, s32 (t + rtype r)) t l < 2 ^ 31) as Hr.
  { induction l0 as [|q l0 IH]; intros t Ht; simpl; [done|].
    apply IH. apply (swrap_range 32). lia. }
  simpl. apply (Hr l). apply (swrap_range 32). lia.
Qed.

Lemma route_attribute_done route t0 m :
  route ≠ [] → ∃ dev, route_attribute route t0 m = Done (s32 (t0 + total_type route), dev) m.
Proof.
  intros Hne. destruct route as [|r l]; [done|]. unfold route_attribute.
  rewrite foldl_s32_cons. rewrite decide_False by (simpl; lia). by eexists.
Qed.

(** [cal_optimal_route] adds the type of the first route to the largest [int]: the
    sum overflows, and with wrapping additions the first route is returned whatever the
    others are, as long as the types of each route add up to a positive [int]. *)
Theorem cal_optimal_route_first r rest m :
  Forall (λ route, route ≠ [] ∧ 0 < total_type route < 2 ^ 31) (r :: rest) →
  cal_optimal_route (r :: rest) m = Done r m.
Proof.
  intros [[Hne Ht] Hall]%Forall_cons. unfold cal_optimal_route.
  destruct (route_attribute_done r INT_MAX m Hne) as [dev E].
  rewrite (bind_done _ _ _ _ _ E). simpl.
  assert (s32 (INT_MAX + total_type r) < 0) as Hneg.
  { unfold INT_MAX. replace (2147483647 + total_type r) with (total_type r - 1 - 2 ^ 31 + 1 * 2 ^ 32) by lia.
    unfold s32, swrap, wrap. rewrite Z_mod_plus_full.
    replace (total_type r - 1 - 2 ^ 31) with (total_type r - 1 + 2 ^ 31 + (-1) * 2 ^ 32) by lia.
    rewrite Z_mod_plus_full, Z.mod_small by lia. rewrite (proj2 (Z.ltb_ge _ _)) by lia. lia. }
  clear E. generalize dev. set (mt := s32 _) in *. clearbody mt. intros dev0.
  induction Hall as [|q rest [Hq Htq] Hall IH]; [done|]. simpl.
  destruct (route_attribute_done q 0 m Hq) as [d2 E2]. rewrite (bind_done _ _ _ _ _ E2). simpl.
  assert (s32 (0 + total_type q) = total_type q) as ->.
  { apply swrap_small; [lia|]. change (2 ^ (32 - 1)) with (2 ^ 31). lia. }
  rewrite !decide_False by lia. apply IH.
Qed.
End routes.

(** ** A concrete graph *)

(** The predecessor map of a search that stops after one hop: it has the properties the
    class asks for, and reaches the neighbours of the source. *)
Definition hop (g : Map) (s v : Z) : Z :=
  if decide (v = s) then s
  else if decide (Exists (λ e, type (road e) ≠ INT_MAX ∧ joins v s e) (edges g)) then s else v.

Definition one_hop (g : Map) (s : Z) : option (list Z) :=
  if decide (0 ≤ s < num_vertices g) then Some (hop g s <$> seqZ 0 (num_vertices g)) else None.

Lemma one_hop_lookup g s p v u :
  one_hop g s = Some p → 0 ≤ v → p !! Z.to_nat v = Some u →
  0 ≤ s ∧ v < num_vertices g ∧ u = hop g s v.
Proof.
  unfold one_hop. case_decide as D; [|done]. intros [= <-] Hv Hu.
  apply list_lookup_fmap_Some in Hu as (w & -> & Hw). apply lookup_seqZ in Hw as [-> Hw].
  replace (0 + Z.of_nat (Z.to_nat v)) with v by lia. lia.
Qed.

Lemma one_hop_length g s p : one_hop g s = Some p → Z.of_nat (length p) = num_vertices g.
Proof.
  unfold one_hop. case_decide as D; [|done]. intros [= <-].
  rewrite length_fmap, length_seqZ. lia.
Qed.

Lemma one_hop_forest g s p : one_hop g s = Some p → ∃ rank : Z → nat,
  (∀ v, rank v < length p)%nat ∧
  ∀ v u, 0 ≤ v → p !! Z.to_nat v = Some u → u ≠ v → (rank u < rank v)%nat.
Proof.
  intros E. pose proof (one_hop_length _ _ _ E) as Hlen. pose proof E as E'.
  unfold one_hop in E'. case_decide as D; [|done]. clear E'.
  exists (λ v, if decide (v = s ∨ num_vertices g ≤ 1) then 0%nat else 1%nat). split.
  - intros v. case_decide; lia.
  - intros v u Hv Hu Hne. destruct (one_hop_lookup _ _ _ _ _ E Hv Hu) as (Hs & Hlt & ->).
    unfold hop in *. destruct (decide (v = s)) as [->|Hvs]; [done|].
    destruct (decide (Exists _ _)); [|done].
    rewrite decide_True by by left. rewrite decide_False by lia. lia.
Qed.

Lemma one_hop_root g s p v u :
  one_hop g s = Some p → 0 ≤ v → p !! Z.to_nat v = Some u → u ≠ v →
  u = s ∨ p !! Z.to_nat u ≠ Some u.
Proof.
  intros E Hv Hu Hne. destruct (one_hop_lookup _ _ _ _ _ E Hv Hu) as (_ & _ & ->).
  unfold hop in *. repeat case_decide; by left.
Qed.

Lemma one_hop_edge g s p v u :
  one_hop g s = Some p → 0 ≤ v → p !! Z.to_nat v = Some u →
  0 ≤ u ∧ (u = v ∨ ∃ e, e ∈ edges g ∧ type (road e) ≠ INT_MAX ∧
    ((source e = v ∧ target e = u) ∨ (source e = u ∧ target e = v))).
Proof.
  intros E Hv Hu. destruct (one_hop_lookup _ _ _ _ _ E Hv Hu) as (Hs & Hlt & ->).
  unfold hop. case_decide as D1; [subst; split; [done|by left]|].
  case_decide as D2; [|split; [done|by left]]. split; [done|]. right.
  apply Exists_exists in D2 as (e & He & Ht & Hj). by exists e.
Qed.

Definition one_hop_paths : ShortestPaths := {|
  dijkstra := one_hop; dijkstra_length := one_hop_length; dijkstra_forest := one_hop_forest;
  dijkstra_root := one_hop_root; dijkstra_edge := one_hop_edge |}.

#[local] Existing Instances x86_64 one_hop_paths.

(** A library whose [acos] makes two points at different longitudes apart. *)
Definition line_libm : Libm := {|
  cos v := if decide (v = d_zero) then d_of_Z 1 else d_zero; sin _ := d_zero;
  acos v := dsub (d_of_Z 1) v; atan v := v; atan2 v _ := v |}.
#[local] Existing Instance line_libm.

Definition no_db : DatabaseManager := DB [] [].
Definition two_nodes : list Node := [MapNode 0 d_zero d_zero; MapNode 1 (d_of_Z 1) d_zero].
Definition one_edge : Map := Graph two_nodes [MapEdge 0 1 (MapRoad 7 3)].
Definition one_edge_map : MapManager := MapMgr one_edge no_db [] [] [].

Lemma one_edge_ok : graph_ok one_edge.
Proof.
  split.
  - intros [|[|i]] n; simpl; [by intros [= <-]|by intros [= <-]|done].
  - intros e ->%list_elem_of_singleton. unfold num_vertices. simpl. lia.
Qed.

Lemma one_edge_simple : simple_graph one_edge.
Proof. intros [|i] [|j] e e' Hi Hj _; done. Qed.

Lemma get_route_path_witness :
  get_route (0, 1) one_edge_map =
    Done [RouteSeg 7 1 0 3] (set_map (Graph two_nodes [MapEdge 0 1 (MapRoad 7 INT_MAX)]) one_edge_map) ∧
  ∃ segs m', get_route (0, 1) one_edge_map = Done (reverse segs) m' ∧
    m' = set_map (map_ m') one_edge_map ∧ marked one_edge (map_ m') ∧
    path_back one_edge 1 segs 0.
Proof.
  split; [vm_compute; reflexivity|].
  apply (get_route_path one_edge_map 0 1 [0; 0]);
    [apply one_edge_ok|by vm_compute|by vm_compute|by vm_compute].
Defined.

Lemma get_routes_returns_witness :
  get_routes 2 (0, 1) one_edge_map =
    Done [[RouteSeg 7 1 0 3]] (set_map (Graph two_nodes [MapEdge 0 1 (MapRoad 7 INT_MAX)]) one_edge_map) ∧
  wp (get_routes 2 (0, 1)) one_edge_map (λ routes m',
    marked one_edge (map_ m') ∧ Forall (is_route one_edge (0, 1)) routes).
Proof.
  split; [vm_compute; reflexivity|].
  apply (get_routes_returns one_edge_map (0, 1) 2);
    [apply one_edge_ok|apply one_edge_simple|by vm_compute|by vm_compute|vm_compute; lia].
Defined.

Lemma cal_optimal_route_first_witness :
  cal_optimal_route [[RouteSeg 7 1 0 9]; [RouteSeg 8 1 0 1]] one_edge_map =
    Done [RouteSeg 7 1 0 9] one_edge_map.
Proof.
  apply (cal_optimal_route_first [RouteSeg 7 1 0 9] [[RouteSeg 8 1 0 1]] one_edge_map).
  repeat constructor; done.
Defined.

(** ** Parallel edges *)

Definition parallel (t1 t2 : Z) : MapManager :=
  set_map (Graph two_nodes [MapEdge 0 1 (MapRoad 7 t1); MapEdge 0 1 (MapRoad 8 t2)]) one_edge_map.

Lemma parallel_more t1 :
  t1 = 3 ∨ t1 = INT_MAX → more_route (0, 1) (parallel t1 3) = Done 1 (parallel t1 3).
Proof. intros [->| ->]; vm_compute; reflexivity. Qed.

Lemma parallel_route t1 :
  t1 = 3 ∨ t1 = INT_MAX →
  get_route (0, 1) (parallel t1 3) = Done [RouteSeg 7 1 0 t1] (parallel INT_MAX 3).
Proof. intros [->| ->]; vm_compute; reflexivity. Qed.

