(* ===== verification/RoutingManager.v ===== *)
(** * The routing manager

    [system/src/routing_manager.cc] and the netlink half of [conn_manager.cc]: the kernel
    module asks for the next hop of a packet, and the daemon answers with the neighbour
    and the remaining route, or with a request to drop the packet.  Writing the log file
    is not modelled. *)
From Stdlib Require Import Ascii.
From S2P Require Import Prelude Double LinkedList Gps Daemon Timer NeighList Utils Scan.
From S2P Require Import Database RoadMap NeighManager MapManager.
Open Scope Z_scope.

(* [system/kernel_mod/geosvr_netlink.h:18-29] GEOSVR_PRI and GEOSVR_RSP *)
Definition GEOSVR_PRI_NORMAL : Z := 101.
Definition GEOSVR_PRI_URGENT : Z := 102.
Definition GEOSVR_RSP_SEND : Z := 103.
Definition GEOSVR_RSP_DROP : Z := 104.
Definition GEOSVR_NL_MSG_TYPE_SEND : Z := 1.
Definition GEOSVR_NL_MSG_TYPE_FORWARD : Z := 2.
Definition GEOSVR_NL_MSG_REQ_SEND : Z := 1.
Definition GEOSVR_NL_MSG_REQ_FORWARD : Z := 2.

(** A message in memory; [None] for a member that was not written. *)
(* [system/kernel_mod/geosvr_netlink.h:42-54] struct geosvr_nlmsg *)
Record geosvr_nlmsg := NlMsg {
  m_priority : Z;
  m_req_type : Z;
  m_info_mask : option Z;
  m_src : option Z;
  m_dst : Z;
  m_nhop : option Z;
  m_roadid : option Z;
  m_lat : option double;
  m_lon : option double;
  m_route_len : Z;
  m_route : text;      (** the bytes that follow, to the end of the buffer *)
}.

(** The size of the message and the offset of [route], which the alignment of [double]
    decides: 48 and 44 on x86-64, both 40 on i386. *)
Class NlLayout := {
  sizeof_nlmsg : Z;
  route_offset : Z;
  nl_layout_ok : 0 ≤ route_offset ≤ sizeof_nlmsg ∧ sizeof_nlmsg ≤ 64;
}.
Lemma nl_x86_64_ok : 0 ≤ 44 ≤ 48 ∧ 48 ≤ 64.
Proof. lia. Qed.
Lemma nl_i386_ok : 0 ≤ 40 ≤ 40 ∧ 40 ≤ 64.
Proof. lia. Qed.
Definition nl_x86_64 : NlLayout := {| sizeof_nlmsg := 48; route_offset := 44; nl_layout_ok := nl_x86_64_ok |}.
Definition nl_i386 : NlLayout := {| sizeof_nlmsg := 40; route_offset := 40; nl_layout_ok := nl_i386_ok |}.
Definition NLMSG_LENGTH (len : Z) : Z := 16 + len.
Definition NLM_F_REQUEST : Z := 1.
Definition NLMSG_ERROR : Z := 2.
(** What is left of [BUFSIZ] after a message. *)
Definition ROUTE_ROOM `{NlLayout} : Z := 8192 - sizeof_nlmsg.

(** A datagram handed to the netlink socket. *)
Record nlmsghdr := NlHdr {
  nlmsg_len : Z; nlmsg_type : Z; nlmsg_flags : Z; nlmsg_seq : Z; nlmsg_pid : Z;
  nlmsg_data : geosvr_nlmsg }.

(** [boost::lexical_cast<std::string>] of an [int] is its decimal notation. *)
Class LexicalCast := {
  int_to_string : Z → text;
  int_to_string_decimal : ∀ z, - 2 ^ 31 ≤ z < 2 ^ 31 → int_to_string z = print_int z;
}.

Definition NUL : ascii := Ascii.zero.

Section routing_manager.
Context `{EventLib, Allocator, Platform, NlLayout, Libm, ShortestPaths, LexicalCast}.

(** The daemon's objects a request can reach; [s_nl] is what was sent to the kernel,
    latest first. *)
Record system := System {
  s_daemon : daemon;
  s_map : MapManager;
  s_seq : Z;
  s_pid : Z;
  s_nl : list nlmsghdr;
}.

Definition on_daemon {A} (m : M daemon A) : M system A :=
  zoom s_daemon (λ d s, System d (s_map s) (s_seq s) (s_pid s) (s_nl s)) m.
Definition on_map {A} (m : M MapManager A) : M system A :=
  zoom s_map (λ g s, System (s_daemon s) g (s_seq s) (s_pid s) (s_nl s)) m.

(* [system/src/conn_manager.cc:190-215] nl_send *)
Definition nl_send (sent : bool) (n : nlmsghdr) : M system Z :=
  _ ← modify (λ s, System (s_daemon s) (s_map s) (s32 (s_seq s + 1)) (s_pid s) (s_nl s));
  s ← get;
  let n := NlHdr (nlmsg_len n) (nlmsg_type n) (nlmsg_flags n) (u32 (s_seq s)) (s_pid s)
             (nlmsg_data n) in
  if sent then
    _ ← modify (λ s, System (s_daemon s) (s_map s) (s_seq s) (s_pid s) (n :: s_nl s));
    mret 0
  else mret (-1).

(** The buffer is not checked for null.  [sent] tells whether [sendmsg] succeeds. *)
(* [system/src/conn_manager.cc:165-188] nl_send_msg *)
Definition nl_send_msg (sent : bool) (data : geosvr_nlmsg) (len type : Z) : M system Z :=
  s ← get;
  match malloc (live (s_daemon s)) with
  | None => stuck NullDeref
  | Some _ => nl_send sent (NlHdr (NLMSG_LENGTH len) (u16 type) NLM_F_REQUEST 0 0 data)
  end.

(* [system/src/routing_manager.cc:259-278] send_msg_without_handle *)
Definition send_msg_without_handle (sent : bool) (msg : geosvr_nlmsg) (req_type : Z)
    : M system unit :=
  s ← get;
  match malloc (live (s_daemon s)) with
  | None => abort
  | Some _ =>
      let rmsg := NlMsg GEOSVR_RSP_SEND (u8 req_type) None None (m_dst msg) (Some (m_dst msg))
                    None None None 0 [] in
      _ ← nl_send_msg sent rmsg (sizeof_nlmsg + m_route_len rmsg) (m_priority rmsg);
      skip
  end.

(** The message is sent with as many bytes of its buffer as its length says. *)
(* [system/src/routing_manager.cc:280-291] drop_msg *)
Definition drop_msg (sent : bool) (msg : geosvr_nlmsg) : M system unit :=
  if decide (Z.of_nat (length (m_route msg)) < sizeof_nlmsg - route_offset + m_route_len msg) then stuck OutOfBounds
  else
    let msg := NlMsg GEOSVR_RSP_DROP (m_req_type msg) (m_info_mask msg) (m_src msg) (m_dst msg)
                 (m_nhop msg) (m_roadid msg) (m_lat msg) (m_lon msg) (m_route_len msg)
                 (m_route msg) in
    _ ← nl_send_msg sent msg (sizeof_nlmsg + m_route_len msg) (m_priority msg);
    skip.

(* [system/src/routing_manager.cc:218-232] ofr_tostring *)
Definition ofr_tostring (ofr : list Route) : text :=
  let ofr_str := ofr ≫= λ r, int_to_string (roadid r) ++ [comma] in
  take (length ofr_str - 1) ofr_str.

(** The loop of [extract_ofr] at [start]; [id] is the variable that [sscanf] assigns, and
    [fuel] the length of the buffer. *)
Fixpoint skip_field (s : text) : option text :=
  match s with
  | [] => None
  | c :: s' => if decide (c = comma ∨ c = NUL) then Some s else skip_field s'
  end.

(** What [sscanf] sees of the buffer: the text up to its terminator. *)
Fixpoint c_str (s : text) : text :=
  match s with
  | [] => []
  | c :: s => if decide (c = NUL) then [] else c :: c_str s
  end.

Fixpoint extract_loop (fuel : nat) (start : text) (k : option Z) (ofr : list Route)
    : M MapManager (list Route) :=
  match fuel with
  | O => stuck NoFuel
  | S fuel =>
      match start with
      | [] => stuck OutOfBounds
      | c :: _ =>
          if decide (c = NUL) then mret ofr
          else
            match skip_field start with
            | None => stuck OutOfBounds
            | Some rest =>
                let k := match scan_int (c_str start) with Some v => Some v | None => k end in
                match k with
                | None => stuck UninitRead
                | Some v =>
                    '(rid, r) ← get_route_by_id v;
                    let ofr := ofr ++ [default (RouteSeg rid 0 0 0) r] in
                    match rest with
                    | c :: rest' => if decide (c = NUL) then mret ofr
                                    else extract_loop fuel rest' (Some v) ofr
                    | [] => stuck OutOfBounds
                    end
                end
            end
      end
  end.

(* [system/src/routing_manager.cc:234-257] extract_ofr *)
Definition extract_ofr (msg : geosvr_nlmsg) : M MapManager (list Route) :=
  extract_loop (S (length (m_route msg))) (m_route msg) None [].

(** A call of the neighbour manager, whose map is the map manager's. *)
Definition next_hop_of (ofr : list Route) (x y : double) : M system Z :=
  m ← gets s_map;
  on_daemon (@next_hop _ _ _ (map_of_database (database_mgr_ m)) ofr x y).

(** The answer that carries a next hop and [route_len] bytes of the route. *)
Definition respond (sent : bool) (msg : geosvr_nlmsg) (req_type nhop route_len : Z)
    (ofr_str : text) : M system unit :=
  if decide (route_len < 0 ∨ ROUTE_ROOM < route_len ∨ Z.of_nat (length ofr_str) + 1 < route_len)
  then stuck OutOfBounds
  else
    let rmsg := NlMsg GEOSVR_RSP_SEND req_type (Some 0) (m_src msg) (m_dst msg) (Some nhop)
                  (Some 0) (Some d_zero) (Some d_zero) route_len
                  (take (Z.to_nat route_len) (ofr_str ++ [NUL])) in
    _ ← nl_send_msg sent rmsg (sizeof_nlmsg + route_len) (m_priority rmsg);
    skip.

(* [system/src/routing_manager.cc:79-159] handle_req_route_send_normal *)
Definition handle_req_route_send_normal (fuel : nat) (sent : bool) (msg : geosvr_nlmsg)
    : M system unit :=
  s ← get;
  if decide (m_dst msg = d_local (s_daemon s)) then
    send_msg_without_handle sent msg GEOSVR_NL_MSG_REQ_SEND
  else
    direct ← on_daemon (dst_is_direct (m_dst msg));
    if decide (direct ≠ 0) then send_msg_without_handle sent msg GEOSVR_NL_MSG_REQ_SEND
    else
      nei ← on_daemon (get_neighbor (m_dst msg));
      if decide (nei = NULL) then drop_msg sent msg
      else
        n ← on_daemon (deref d_neigh nei);
        let g := d_gps (s_daemon s) in
        ofr ← on_map (get_optimal_route fuel (get_longitude g) (get_latitude g) (get_track g)
                        (n_longitude n) (n_latitude n) (n_track n));
        if decide (length ofr = 0%nat) then drop_msg sent msg
        else
          nhop ← next_hop_of ofr (n_longitude n) (n_latitude n);
          if decide (nhop = 0) then drop_msg sent msg
          else
            let ofr_str := ofr_tostring ofr in
            respond sent msg GEOSVR_NL_MSG_REQ_SEND nhop (Z.of_nat (length ofr_str)) ofr_str.

(* [system/src/routing_manager.cc:161-216] handle_req_route_forward_normal *)
Definition handle_req_route_forward_normal (sent : bool) (msg : geosvr_nlmsg)
    : M system unit :=
  s ← get;
  if decide (m_dst msg = d_local (s_daemon s)) then
    send_msg_without_handle sent msg GEOSVR_NL_MSG_REQ_FORWARD
  else
    direct ← on_daemon (dst_is_direct (m_dst msg));
    if decide (direct ≠ 0) then send_msg_without_handle sent msg GEOSVR_NL_MSG_REQ_FORWARD
    else
      nei ← on_daemon (get_neighbor (m_dst msg));
      if decide (nei = NULL) then drop_msg sent msg
      else
        ofr ← on_map (extract_ofr msg);
        if decide (length ofr = 0%nat) then drop_msg sent msg
        else
          n ← on_daemon (deref d_neigh nei);
          nhop ← next_hop_of ofr (n_longitude n) (n_latitude n);
          if decide (nhop = 0) then drop_msg sent msg
          else
            respond sent msg GEOSVR_NL_MSG_REQ_FORWARD nhop (Z.of_nat (length ofr))
              (ofr_tostring ofr).

(* [system/src/routing_manager.cc:63-77] handle_req_route_normal *)
Definition handle_req_route_normal (fuel : nat) (sent : bool) (msg : geosvr_nlmsg)
    : M system unit :=
  if decide (m_req_type msg = GEOSVR_NL_MSG_TYPE_SEND) then
    handle_req_route_send_normal fuel sent msg
  else if decide (m_req_type msg = GEOSVR_NL_MSG_TYPE_FORWARD) then
    handle_req_route_forward_normal sent msg
  else drop_msg sent msg.

(* [system/src/routing_manager.cc:294-309] req_route_cb *)
Definition req_route_cb (fuel : nat) (sent : bool) (msg : geosvr_nlmsg) : M system unit :=
  if decide (m_priority msg = GEOSVR_PRI_URGENT ∨ m_priority msg = GEOSVR_PRI_NORMAL)
  then handle_req_route_normal fuel sent msg
  else skip.

(** What arrives on the netlink socket: nothing, or a message type and its payload. *)
(* [system/src/conn_manager.cc:217-266] nl_recv_msg *)
Definition nl_recv_msg (fuel : nat) (sent : bool) (received : option (Z * geosvr_nlmsg))
    : M system unit :=
  match received with
  | None => skip
  | Some (type, msg) =>
      if decide (type = NLMSG_ERROR) then skip
      else if decide (type = GEOSVR_PRI_URGENT ∨ type = GEOSVR_PRI_NORMAL)
      then req_route_cb fuel sent msg
      else skip
  end.
End routing_manager.
