(* ===== verification/RoutingSpec.v ===== *)
(** * Answering route requests

    Every request that is answered at all is answered once; requests for a direct
    neighbour and for an unknown one; and the textual form of a route, which the send
    handler writes out in full and the forward handler cuts short. *)
From Stdlib Require Import Ascii.
From S2P Require Import Prelude Double LinkedList Gps Daemon Timer NeighList Wire Utils.
From S2P Require Import Scan.
From S2P Require Import Database RoadMap NeighManager NeighSpec ConnManager Events.
From S2P Require Import EventLoop.
From S2P Require Import MapManager Routes RoutingManager.
Open Scope Z_scope.

Section answers.
Context `{EventLib, Allocator, Platform, NlLayout, Libm, ShortestPaths, LexicalCast}.

(** A computation that leaves the netlink side of the system alone. *)
Definition quiet {A} (m : M system A) : Prop :=
  ∀ s a s', m s = Done a s' → s_nl s' = s_nl s ∧ s_seq s' = s_seq s ∧ s_pid s' = s_pid s.

Lemma quiet_on_daemon {A} (m : M daemon A) : quiet (on_daemon m).
Proof.
  intros s a s'. unfold on_daemon, zoom. destruct (m (s_daemon s)); [|done|done].
  by intros [= <- <-].
Qed.

Lemma quiet_on_map {A} (m : M MapManager A) : quiet (on_map m).
Proof.
  intros s a s'. unfold on_map, zoom. destruct (m (s_map s)); [|done|done]. by intros [= <- <-].
Qed.

Lemma quiet_get : quiet get.
Proof. by intros s a s' [= <- <-]. Qed.

Lemma quiet_next_hop ofr a b : quiet (next_hop_of ofr a b).
Proof.
  intros s r s' E. unfold next_hop_of in E.
  rewrite (bind_done _ _ s (s_map s) s) in E by done. by eapply quiet_on_daemon.
Qed.

(** A computation that sends one answer to the request for [dst]: a next hop or an order
    to drop, under the next sequence number. *)
Definition answers (dst : Z) (m : M system unit) : Prop :=
  ∀ s s', m s = Done tt s' → ∃ h,
    s_nl s' = h :: s_nl s ∧ m_dst (nlmsg_data h) = dst ∧
    (m_priority (nlmsg_data h) = GEOSVR_RSP_SEND ∨ m_priority (nlmsg_data h) = GEOSVR_RSP_DROP) ∧
    nlmsg_type h = m_priority (nlmsg_data h) ∧
    nlmsg_len h = NLMSG_LENGTH (sizeof_nlmsg + m_route_len (nlmsg_data h)) ∧
    nlmsg_seq h = u32 (s32 (s_seq s + 1)) ∧ nlmsg_pid h = s_pid s.

Lemma answers_bind {A} dst (m : M system A) k :
  quiet m → (∀ a, answers dst (k a)) → answers dst (m ≫= k).
Proof.
  intros Hm Hk s s' E. apply bind_done_inv in E as (a & s1 & E1 & E2).
  destruct (Hm _ _ _ E1) as (En & Es & Ep). specialize (Hk a s1 s' E2).
  by rewrite En, Es, Ep in Hk.
Qed.

Lemma answers_if dst (P : Prop) `{Decision P} (m1 m2 : M system unit) :
  answers dst m1 → answers dst m2 → answers dst (if decide P then m1 else m2).
Proof. by case_decide. Qed.

Lemma answers_nl data :
  m_priority data = GEOSVR_RSP_SEND ∨ m_priority data = GEOSVR_RSP_DROP →
  answers (m_dst data)
    (_ ← nl_send_msg true data (sizeof_nlmsg + m_route_len data) (m_priority data); skip).
Proof.
  intros Hp s s' E. unfold nl_send_msg in E. apply bind_done_inv in E as (r & s1 & E & Es).
  injection Es as <-. rewrite (bind_done _ _ s s s) in E by done.
  destruct (malloc _); [|done]. unfold nl_send in E. injection E as <- <-. simpl.
  eexists. split; [reflexivity|]. split_and!; try done.
  simpl. by destruct Hp as [E'|E']; rewrite E'.
Qed.

Lemma answers_direct msg req_type : answers (m_dst msg) (send_msg_without_handle true msg req_type).
Proof.
  apply answers_bind; [apply quiet_get|]. intros s. destruct (malloc _); [|by intros ? ? ?].
  apply (answers_nl (NlMsg GEOSVR_RSP_SEND (u8 req_type) None None (m_dst msg) _ _ _ _ 0 [])).
  by left.
Qed.

Lemma answers_drop msg : answers (m_dst msg) (drop_msg true msg).
Proof.
  unfold drop_msg. apply answers_if; [by intros ? ? ?|].
  apply (answers_nl (NlMsg GEOSVR_RSP_DROP _ _ _ (m_dst msg) _ _ _ _ _ _)). by right.
Qed.

Lemma answers_respond msg req_type nhop len str :
  answers (m_dst msg) (respond true msg req_type nhop len str).
Proof.
  unfold respond. apply answers_if; [by intros ? ? ?|].
  apply (answers_nl (NlMsg GEOSVR_RSP_SEND _ _ _ (m_dst msg) _ _ _ _ len _)). by left.
Qed.

Hint Resolve answers_direct answers_drop answers_respond quiet_on_daemon quiet_on_map
  quiet_get quiet_next_hop : answers.

Ltac answers_tac :=
  repeat first [solve [auto with answers]
               | apply answers_bind; [solve [auto with answers]|intros ?] | apply answers_if].

Lemma answers_send fuel msg : answers (m_dst msg) (handle_req_route_send_normal fuel true msg).
Proof.
  unfold handle_req_route_send_normal.
  answers_tac.
Qed.

Lemma answers_forward msg : answers (m_dst msg) (handle_req_route_forward_normal true msg).
Proof.
  unfold handle_req_route_forward_normal.
  answers_tac.
Qed.

(** C13. A route request that is handled is answered exactly once: one message goes to the
    kernel, for the requested destination, with a next hop or an order to drop, in an
    envelope of the right type and length and with the next sequence number. *)
Theorem request_answered_once fuel type msg s s' :
  (type = GEOSVR_PRI_URGENT ∨ type = GEOSVR_PRI_NORMAL) →
  (m_priority msg = GEOSVR_PRI_URGENT ∨ m_priority msg = GEOSVR_PRI_NORMAL) →
  nl_recv_msg fuel true (Some (type, msg)) s = Done tt s' →
  ∃ h, s_nl s' = h :: s_nl s ∧ m_dst (nlmsg_data h) = m_dst msg ∧
    (m_priority (nlmsg_data h) = GEOSVR_RSP_SEND ∨ m_priority (nlmsg_data h) = GEOSVR_RSP_DROP) ∧
    nlmsg_type h = m_priority (nlmsg_data h) ∧
    nlmsg_len h = NLMSG_LENGTH (sizeof_nlmsg + m_route_len (nlmsg_data h)) ∧
    nlmsg_seq h = u32 (s32 (s_seq s + 1)) ∧ nlmsg_pid h = s_pid s.
Proof.
  intros Ht Hp. unfold nl_recv_msg, req_route_cb, handle_req_route_normal.
  rewrite (decide_False (P := type = NLMSG_ERROR)) by (by destruct Ht as [-> | ->]).
  rewrite (decide_True (P := type = _ ∨ _)), (decide_True (P := m_priority msg = _ ∨ _)) by done.
  case_decide; [apply answers_send|]. case_decide; [apply answers_forward|apply answers_drop].
Qed.

(** ** Direct and unknown destinations *)

Context (Hjunk : ∀ X, junk_bool X = false).

Lemma on_daemon_done {A} (m : M daemon A) s a :
  m (s_daemon s) = Done a (s_daemon s) → on_daemon m s = Done a s.
Proof. unfold on_daemon, zoom. intros ->. by destruct s. Qed.

Lemma find_abs (R : RoadMap) d ip :
  reachable d → ∃ a, neigh_list_find ip d = Done a d ∧
    ((a = NULL ∧ a_table (abs d) !! ip = None) ∨
     (a ≠ NULL ∧ ∃ n, d_neigh d !! a = Some n ∧ a_table (abs d) !! ip = Some (info_of n))).
Proof.
  intros Hd. destruct (reachable_wf Hjunk d Hd) as [[xs Hw] _].
  destruct (find_view d xs ip Hw) as (a & E & Hf). exists a. split; [done|]. naive_solver.
Qed.

(** [dst_is_direct] in terms of the table. *)
Lemma dst_is_direct_abs (R : RoadMap) d ip :
  reachable d → dst_is_direct ip d =
    Done (match a_table (abs d) !! ip with
          | Some i => if i_indirect i then 0 else 1 | None => 0 end) d.
Proof.
  intros Hd. destruct (find_abs R d ip Hd) as (a & E & Hf). unfold dst_is_direct.
  rewrite (bind_done _ _ _ _ _ E). destruct Hf as [[-> ->]|(Ha & n & Hn & ->)]; [done|].
  rewrite decide_False by done. unfold deref, mbind, M_bind. by rewrite decide_False, Hn by done.
Qed.

(** The answer [h] to a request, with the rest of the system unchanged. *)
Definition answered (s : system) (h : nlmsghdr) : system :=
  System (s_daemon s) (s_map s) (s32 (s_seq s + 1)) (s_pid s) (h :: s_nl s).

Definition envelope (s : system) (data : geosvr_nlmsg) : nlmsghdr :=
  NlHdr (NLMSG_LENGTH (sizeof_nlmsg + m_route_len data)) (u16 (m_priority data)) NLM_F_REQUEST
    (u32 (s32 (s_seq s + 1))) (s_pid s) data.

Lemma nl_send_done data s :
  malloc (live (s_daemon s)) ≠ None →
  (_ ← nl_send_msg true data (sizeof_nlmsg + m_route_len data) (m_priority data); skip) s =
    Done tt (answered s (envelope s data)).
Proof.
  intros Hm. unfold nl_send_msg, nl_send, get, modify, mbind, M_bind.
  by destruct (malloc _).
Qed.

Definition direct_answer (msg : geosvr_nlmsg) : geosvr_nlmsg :=
  NlMsg GEOSVR_RSP_SEND (m_req_type msg) None None (m_dst msg) (Some (m_dst msg))
    None None None 0 [].
Definition drop_answer (msg : geosvr_nlmsg) : geosvr_nlmsg :=
  NlMsg GEOSVR_RSP_DROP (m_req_type msg) (m_info_mask msg) (m_src msg) (m_dst msg)
    (m_nhop msg) (m_roadid msg) (m_lat msg) (m_lon msg) (m_route_len msg) (m_route msg).

Lemma send_direct_done msg s t :
  malloc (live (s_daemon s)) ≠ None → m_req_type msg = u8 t →
  send_msg_without_handle true msg t s = Done tt (answered s (envelope s (direct_answer msg))).
Proof.
  intros Hm Ht. unfold send_msg_without_handle. rewrite (bind_done _ _ s s s) by done.
  destruct (malloc _) eqn:E; [|done]. unfold direct_answer. rewrite Ht.
  apply (nl_send_done (NlMsg _ _ _ _ _ _ _ _ _ 0 [])). by rewrite E.
Qed.

Lemma drop_done msg s :
  malloc (live (s_daemon s)) ≠ None →
  sizeof_nlmsg - route_offset + m_route_len msg ≤ Z.of_nat (length (m_route msg)) →
  drop_msg true msg s = Done tt (answered s (envelope s (drop_answer msg))).
Proof.
  intros Hm Hl. unfold drop_msg. rewrite decide_False by lia.
  by apply (nl_send_done (NlMsg GEOSVR_RSP_DROP _ _ _ _ _ _ _ _ _ _)).
Qed.

Definition route_request (msg : geosvr_nlmsg) : Prop :=
  m_req_type msg = GEOSVR_NL_MSG_TYPE_SEND ∨ m_req_type msg = GEOSVR_NL_MSG_TYPE_FORWARD.
(** The message is as long as it says. *)
Definition whole (msg : geosvr_nlmsg) : Prop :=
  sizeof_nlmsg - route_offset + m_route_len msg ≤ Z.of_nat (length (m_route msg)).
(** The node itself, or a neighbour that is not known only through others. *)
Definition direct_dest (d : daemon) (dst : Z) : Prop :=
  dst = d_local d ∨ ∃ i, a_table (abs d) !! dst = Some i ∧ i_indirect i = false.
Definition unknown_dest (d : daemon) (dst : Z) : Prop := dst ≠ d_local d ∧ a_table (abs d) !! dst = None.

Lemma direct_request_done (R : RoadMap) fuel msg s :
  @reachable _ _ _ _ R (s_daemon s) → malloc (live (s_daemon s)) ≠ None → route_request msg →
  direct_dest (s_daemon s) (m_dst msg) →
  handle_req_route_normal fuel true msg s = Done tt (answered s (envelope s (direct_answer msg))).
Proof.
  intros Hd Hm Htype Hdst.
  pose proof (on_daemon_done _ _ _ (dst_is_direct_abs R _ (m_dst msg) Hd)) as Edir.
  unfold handle_req_route_normal, handle_req_route_send_normal, handle_req_route_forward_normal.
  destruct Htype as [E|E]; rewrite E;
    [rewrite decide_True by done|rewrite decide_False, decide_True by done];
    rewrite (bind_done _ _ s s s) by done.
  all: destruct (decide (m_dst msg = d_local (s_daemon s))) as [Hl|Hl];
    [by apply send_direct_done|].
  all: destruct Hdst as [?|(i & Ei & Hi)]; [done|].
  all: rewrite (bind_done _ _ _ _ _ Edir), Ei, Hi, decide_True by done.
  all: by apply send_direct_done.
Qed.

Lemma unknown_request_done (R : RoadMap) fuel msg s :
  @reachable _ _ _ _ R (s_daemon s) → malloc (live (s_daemon s)) ≠ None → route_request msg →
  whole msg → unknown_dest (s_daemon s) (m_dst msg) →
  handle_req_route_normal fuel true msg s = Done tt (answered s (envelope s (drop_answer msg))).
Proof.
  intros Hd Hm Htype Hlen [Hl Hnone].
  pose proof (on_daemon_done _ _ _ (dst_is_direct_abs R _ (m_dst msg) Hd)) as Edir.
  destruct (find_abs R _ (m_dst msg) Hd) as (a & Ea & Hfind).
  apply (on_daemon_done (get_neighbor (m_dst msg))) in Ea. rewrite Hnone in Edir, Hfind.
  destruct Hfind as [[-> _]|(_ & n & _ & ?)]; [|done].
  unfold handle_req_route_normal, handle_req_route_send_normal, handle_req_route_forward_normal.
  destruct Htype as [E|E]; rewrite E;
    [rewrite decide_True by done|rewrite decide_False, decide_True by done];
    rewrite (bind_done _ _ s s s), decide_False by done.
  all: rewrite (bind_done _ _ _ _ _ Edir), decide_False by tauto.
  all: rewrite (bind_done _ _ _ _ _ Ea), decide_True by done.
  all: by apply drop_done.
Qed.


(** ** The text of a route *)

Lemma print_int_chars z c : c ∈ print_int z → c ≠ comma ∧ c ≠ NUL.
Proof.
  intros [Hd| ->]%print_int_text; [|done]. split; intros ->; by vm_compute in Hd.
Qed.

Lemma skip_field_app l c rest :
  (∀ x, x ∈ l → x ≠ comma ∧ x ≠ NUL) → c = comma ∨ c = NUL →
  skip_field (l ++ c :: rest) = Some (c :: rest).
Proof.
  intros Hl Hc. induction l as [|x l IH]; simpl; [by rewrite decide_True|].
  destruct (Hl x ltac:(by left)). rewrite decide_False by naive_solver.
  apply IH. intros y Hy. apply Hl. by right.
Qed.

Lemma c_str_app l rest :
  (∀ x, x ∈ l → x ≠ comma ∧ x ≠ NUL) → c_str (l ++ rest) = l ++ c_str rest.
Proof.
  intros Hl. induction l as [|x l IH]; simpl; [done|].
  destruct (Hl x ltac:(by left)). rewrite decide_False by done. rewrite IH; [done|].
  intros y Hy. apply Hl. by right.
Qed.

Lemma print_int_head z rest : ∃ c s, print_int z ++ rest = c :: s ∧ c ≠ NUL.
Proof.
  pose proof (print_int_nonempty z) as Hne.
  destruct (print_int z) as [|c s] eqn:E; [done|]. exists c, (s ++ rest). split; [done|].
  apply (print_int_chars z). rewrite E. by left.
Qed.

(** The segments a list of road identifiers stands for in a graph. *)
Definition road_route (g : Map) (k : Z) : Route :=
  match list_find (λ e, rid (road e) = k) (edges g) with
  | Some (_, e) => RouteSeg k (source e) (target e) (type (road e))
  | None => RouteSeg (-1) 0 0 0
  end.

Lemma get_route_by_id_road m k :
  ∃ rid r, get_route_by_id k m = Done (rid, r) m ∧ default (RouteSeg rid 0 0 0) r = road_route (map_ m) k.
Proof.
  unfold get_route_by_id, road_route. rewrite (bind_done _ _ m (map_ m) m) by done.
  destruct (list_find _ _) as [[i e]|] eqn:E; [|by do 2 eexists].
  apply list_find_Some in E as (_ & Ek & _). do 2 eexists. split; [reflexivity|].
  simpl. by rewrite Ek.
Qed.

(** The text [ofr_tostring] makes of a list of identifiers. *)
Lemma ofr_tostring_joined ofr :
  Forall (λ r, - 2 ^ 31 ≤ roadid r < 2 ^ 31) ofr →
  ofr_tostring ofr = separated comma (roadid <$> ofr).
Proof.
  intros Hr. unfold ofr_tostring.
  assert (ofr = [] ∨ ofr ≫= (λ r, int_to_string (roadid r) ++ [comma]) =
    separated comma (roadid <$> ofr) ++ [comma]) as [->| ->]; [|done|].
  { induction Hr as [|r ofr Hr0 Hr IH]; [by left|]. right.
    rewrite bind_cons, int_to_string_decimal by done.
    destruct ofr as [|r' ofr]; [by rewrite app_nil_r|].
    destruct IH as [?|IH]; [done|]. rewrite IH, !fmap_cons, separated_cons.
    by rewrite <- !app_assoc. }
  rewrite length_app. simpl. rewrite Nat.add_sub. by rewrite take_app_length.
Qed.

Lemma extract_loop_field fuel l c rest v k ofr m :
  (∀ x, x ∈ l → x ≠ comma ∧ x ≠ NUL) → (∃ x s, l ++ c :: rest = x :: s ∧ x ≠ NUL) →
  c = comma ∨ c = NUL → scan_int (c_str (l ++ c :: rest)) = Some k →
  extract_loop (S fuel) (l ++ c :: rest) v ofr m =
    if decide (c = NUL) then Done (ofr ++ [road_route (map_ m) k]) m
    else extract_loop fuel rest (Some k) (ofr ++ [road_route (map_ m) k]) m.
Proof.
  intros Hl (x & s & Es & Hx) Hc Hk.
  pose proof (skip_field_app l c rest Hl Hc) as Hskip. rewrite Es in Hskip, Hk |- *.
  cbn [extract_loop]. rewrite decide_False, Hskip, Hk by done.
  destruct (get_route_by_id_road m k) as (rd & r & E & Er).
  rewrite (bind_done _ _ _ _ _ E), Er. by case_decide.
Qed.

Lemma extract_loop_joined m fuel k ks v ofr rest :
  Forall (λ k, - 2 ^ 31 ≤ k < 2 ^ 31) (k :: ks) → (length (k :: ks) ≤ fuel)%nat →
  extract_loop fuel (separated comma (k :: ks) ++ NUL :: rest) v ofr m =
    Done (ofr ++ (road_route (map_ m) <$> k :: ks)) m.
Proof.
  revert fuel k v ofr. induction ks as [|k' ks IH]; intros fuel k v ofr Hr Hf;
    (destruct fuel as [|fuel]; [simpl in Hf; lia|]); apply Forall_cons in Hr as [Hk Hr].
  - change (separated comma [k]) with (print_int k).
    rewrite (extract_loop_field _ _ _ _ _ k); [by rewrite decide_True|apply print_int_chars|
      apply print_int_head|by right|].
    rewrite c_str_app by apply print_int_chars. by apply scan_print_int.
  - rewrite separated_cons, <- app_assoc, <- app_comm_cons.
    rewrite (extract_loop_field _ _ _ _ _ k); [|apply print_int_chars|apply print_int_head|
      by left|].
    + rewrite decide_False by done. rewrite IH; [|done|simpl in *; lia]. by rewrite <- app_assoc.
    + rewrite c_str_app by apply print_int_chars. by apply scan_print_int.
Qed.

(** C15. Round trip: [extract_ofr] reads back the route that [ofr_tostring] wrote into a
    terminated buffer: the segments of the map with the identifiers of the route, in
    order. *)
Theorem extract_ofr_tostring msg m ofr rest :
  ofr ≠ [] → Forall (λ r, - 2 ^ 31 ≤ roadid r < 2 ^ 31) ofr →
  m_route msg = ofr_tostring ofr ++ NUL :: rest →
  extract_ofr msg m = Done (road_route (map_ m) <$> (roadid <$> ofr)) m.
Proof.
  intros Hne Hr Hmsg. rewrite ofr_tostring_joined in Hmsg by done.
  unfold extract_ofr. destruct ofr as [|r ofr]; [done|].
  rewrite Hmsg. rewrite fmap_cons. apply (extract_loop_joined m _ _ _ _ []).
  - rewrite <- fmap_cons. apply Forall_fmap. exact Hr.
  - rewrite length_app, <- fmap_cons. clear.
    assert (length (roadid <$> r :: ofr) ≤ length (separated comma (roadid <$> r :: ofr)) + 1)%nat as Hl;
      [|simpl in *; lia].
    generalize (roadid <$> r :: ofr). induction l as [|k [|k' l] IH]; [simpl; lia|simpl; lia|].
    rewrite separated_cons, length_app. simpl in *. lia.
Qed.

Lemma joined_length ks :
  (2 * length ks ≤ length (separated comma ks) + 1)%nat.
Proof.
  induction ks as [|k [|k' ks] IH]; [simpl; lia| |].
  - simpl. destruct (print_int_head k []) as (c & s & E & _). rewrite app_nil_r in E.
    rewrite E. simpl. lia.
  - rewrite separated_cons, length_app. destruct (print_int_head k []) as (c & s & E & _).
    rewrite app_nil_r in E. rewrite E. simpl in *. lia.
Qed.

(** The forward handler sends as many bytes of the route as the route has segments:
    for two segments or more that is a proper prefix of the text. *)
Theorem forward_cuts_route msg nhop ofr s :
  Forall (λ r, - 2 ^ 31 ≤ roadid r < 2 ^ 31) ofr → (2 ≤ length ofr)%nat →
  Z.of_nat (length ofr) ≤ ROUTE_ROOM → malloc (live (s_daemon s)) ≠ None →
  ∃ h, respond true msg GEOSVR_NL_MSG_REQ_FORWARD nhop (Z.of_nat (length ofr))
         (ofr_tostring ofr) s = Done tt (answered s h) ∧
    m_route (nlmsg_data h) = take (length ofr) (ofr_tostring ofr) ∧
    m_route (nlmsg_data h) ≠ ofr_tostring ofr.
Proof.
  intros Hr Hl Hroom Hm.
  pose proof (joined_length (roadid <$> ofr)) as Hj. rewrite length_fmap in Hj.
  rewrite <- ofr_tostring_joined in Hj by done.
  unfold respond. rewrite decide_False by lia.
  eexists. split; [by apply (nl_send_done (NlMsg _ _ _ _ _ _ _ _ _ _ _))|]. simpl.
  rewrite Nat2Z.id, take_app_le by lia. split; [done|]. intros E.
  apply (f_equal length) in E. rewrite length_take in E. lia.
Qed.
End answers.

(** ** A concrete system

    The daemon of [EventLoop.v] that has heard one neighbour, on a map of one road. *)
Definition decimal_cast : LexicalCast := {|
  int_to_string := print_int; int_to_string_decimal _ _ := eq_refl |}.
#[local] Existing Instances map_events x86_64 nl_x86_64 demo_libm one_hop_paths decimal_cast.
#[local] Instance clean_malloc : Allocator := bump_allocator false.

Definition demo_system : system := System (demo_heard false) one_edge_map 0 1234 [].
Definition demo_request (dst : Z) : geosvr_nlmsg :=
  NlMsg GEOSVR_PRI_NORMAL GEOSVR_NL_MSG_TYPE_SEND (Some 0) (Some 167772161) dst (Some 0) (Some 0)
    (Some d_zero) (Some d_zero) 0 (replicate 196 NUL).

Lemma request_answered_once_witness :
  ∃ h, m_dst (nlmsg_data h) = 167772162 ∧ m_priority (nlmsg_data h) = GEOSVR_RSP_SEND ∧
    s_nl (answered demo_system h) = h :: s_nl demo_system ∧
    ∃ h', s_nl (answered demo_system h) = h' :: s_nl demo_system ∧
      m_dst (nlmsg_data h') = 167772162.
Proof.
  set (msg := demo_request 167772162). exists (envelope demo_system (direct_answer msg)).
  split_and!; [done..|].
  destruct (request_answered_once 1 GEOSVR_PRI_NORMAL msg demo_system
    (answered demo_system (envelope demo_system (direct_answer msg)))) as (h & Eh & Ed & _).
  - by right.
  - by right.
  - vm_compute. reflexivity.
  - by exists h.
Defined.


Definition demo_ofr : list Route := [RouteSeg 7 0 1 3; RouteSeg (-12) 1 2 3].

Lemma demo_ofr_range : Forall (λ r, - 2 ^ 31 ≤ roadid r < 2 ^ 31) demo_ofr.
Proof. repeat constructor; simpl; lia. Qed.

Lemma extract_ofr_tostring_witness :
  let msg := NlMsg 0 0 None None 0 None None None None 6 (ofr_tostring demo_ofr ++ [NUL; NUL]) in
  extract_ofr msg one_edge_map = Done [RouteSeg 7 0 1 3; RouteSeg (-1) 0 0 0] one_edge_map.
Proof.
  intros msg. apply (extract_ofr_tostring msg one_edge_map demo_ofr [NUL]).
  - done.
  - apply demo_ofr_range.
  - done.
Defined.

Lemma forward_cuts_route_witness :
  ∃ h, m_route (nlmsg_data h) = take 2 (ofr_tostring demo_ofr) ∧
    m_route (nlmsg_data h) ≠ ofr_tostring demo_ofr.
Proof.
  destruct (forward_cuts_route (demo_request 9) 5 demo_ofr demo_system) as (h & _ & E1 & E2).
  - apply demo_ofr_range.
  - simpl. lia.
  - by vm_compute.
  - done.
  - by exists h.
Defined.
