(* ===== verification/Boot.v ===== *)
(** * Starting the daemon

    [system/src/main.cc], [system/src/utils.cc] and the constructors of
    [routing_manager.cc] and [conn_manager.cc]: reading the configuration, opening the
    sockets and files, importing the map, and building the managers in order.  GLib's key
    files, [inet_pton], the sockets and the file system are not part of the repository:
    they are arguments, as the results their calls return. *)
From S2P Require Import Prelude Double LinkedList Gps Daemon Timer NeighList Utils Scan.
From S2P Require Import Database RoadMap NeighManager MapManager RoutingManager.
From S2P Require Import NeighSpec ConnManager Events.
From S2P Require Import EventLoop.
Open Scope Z_scope.
Open Scope string_scope.

(* [system/include/utils.h:14-32] struct Config *)
Record Config := Conf {
  local_addr : string;
  bcast_addr : string;
  listen_port : Z;
  beacon_period : Z;
  entry_expire_period : Z;
  list_cleaner_period : Z;
  c_enable_device : Z;
  c_enable_track : Z;
  track_file : string;
  bdcast_file : string;
  recv_file : string;
  node_file : string;
  neigh_file : string;
  forward_file : string;
  c_enable_record : Z;
  c_record_file : string;
}.

(** A parsed key file: [key_string] is null for a key that is not there, [key_int] zero. *)
Record key_file := KeyFile {
  key_string : string → string → option string;
  key_int : string → string → Z;
}.

Definition LOGDIR_PATH : string := "log".
Definition log_path (file : string) : string := LOGDIR_PATH ++ "/" ++ file.

(** [g_key_file_get_string] and the macro [check_string]. *)
Definition required (k : key_file) (group key : string) : M unit string :=
  match key_string k group key with Some v => mret v | None => abort end.

(** [k] is [None] when the file cannot be loaded. *)
(* [system/src/utils.cc:31-103] load_config *)
Definition load_config (k : option key_file) : M unit Config :=
  match k with
  | None => abort
  | Some k =>
      local ← required k "protocol" "local_addr";
      bcast ← required k "protocol" "bcast_addr";
      track ← required k "log" "track_file";
      bdcast ← required k "log" "bdcast_file";
      recv ← required k "log" "recv_file";
      node ← required k "log" "node_file";
      neigh ← required k "log" "neigh_file";
      forward ← required k "log" "forward_file";
      record ← required k "log" "record_file";
      mret (Conf local bcast (u32 (key_int k "protocol" "listen_port"))
        (u32 (key_int k "protocol" "beacon_period"))
        (u32 (key_int k "protocol" "entry_expire_period"))
        (u32 (key_int k "protocol" "list_cleaner_period"))
        (s32 (key_int k "log" "enable_device")) (s32 (key_int k "log" "enable_track"))
        (log_path track) (log_path bdcast) (log_path recv) (log_path node)
        (log_path neigh) (log_path forward)
        (s32 (key_int k "log" "enable_record")) record)
  end.

(** What the system calls of the start-up return. *)
Record system_calls := SystemCalls {
  log_dir_exists : bool; mkdir_ok : bool;
  sys_gps : gps_system;
  inet_pton : string → option Z;
  setsockopt_ok : bool; bind_out_ok : bool; connect_ok : bool; bind_in_ok : bool;
  nl_socket_ok : bool; nl_bind_ok : bool; getsockname_ok : bool; getpid : Z;
  fopen_ok : string → bool;
  query_result : option (list MYSQL_ROW);
}.

(** [error(...)] unless a call succeeded. *)
Definition must {S} (ok : bool) : M S unit := if ok then skip else abort.

(** The local address; the other members do not change afterwards. *)
(* [system/src/conn_manager.cc:27-119] ConnManager::ConnManager *)
Definition ConnManager_new (c : Config) (sys : system_calls) : M unit Z :=
  local ← (match inet_pton sys (local_addr c) with Some a => mret a | None => abort end);
  _ ← (match inet_pton sys (bcast_addr c) with Some _ => skip | None => abort end);
  _ ← must (setsockopt_ok sys);
  _ ← must (bind_out_ok sys);
  _ ← must (connect_ok sys);
  _ ← must (bind_in_ok sys);
  _ ← must (nl_socket_ok sys);
  _ ← must (nl_bind_ok sys);
  _ ← must (getsockname_ok sys);
  _ ← must (fopen_ok sys (bdcast_file c));
  mret local.

(* [system/src/main.cc:25-33] create_log_dir *)
Definition create_log_dir (sys : system_calls) : M unit unit :=
  if log_dir_exists sys then skip else must (mkdir_ok sys).

Definition empty_manager : MapManager := MapMgr (Graph [] []) (DB [] []) [] [] [].

Section boot.
Context `{EventLib, Allocator, Platform, Libm}.

(** Running a constructor with the objects built before it. *)
Definition build {S A} (m : M S A) (s : S) : M unit (A * S) := λ u,
  match m s with Done a s' => Done (a, s') u | Abort _ => Abort u | Stuck f => Stuck f end.

(* [system/src/routing_manager.cc:34-50] RoutingManager::RoutingManager *)
Definition RoutingManager_new (c : Config) (sys : system_calls) : M unit system :=
  g ← GpsManager_new (GpsConfig (negb (c_enable_device c =? 0)%Z) (negb (c_enable_track c =? 0)%Z)
                        (negb (c_enable_record c =? 0)%Z)) (sys_gps sys);
  local ← ConnManager_new c sys;
  '(_, map) ← build (import_map_data (query_result sys)) empty_manager;
  '(_, d) ← build (NeighManager_new (beacon_period c) (entry_expire_period c)
                    (list_cleaner_period c)) (static_daemon g local);
  _ ← must (fopen_ok sys (neigh_file c));
  _ ← must (fopen_ok sys (node_file c));
  _ ← must (fopen_ok sys (recv_file c));
  _ ← must (fopen_ok sys (forward_file c));
  mret (System d map 0 (getpid sys) []).

(** [main] up to [event_dispatch]. *)
(* [system/src/main.cc:36-65] main *)
Definition main (k : option key_file) (sys : system_calls) : M unit system :=
  c ← load_config k;
  _ ← create_log_dir sys;
  RoutingManager_new c sys.

(** ** The daemon that starts *)

Lemma must_done {S} ok (s s' : S) u : must ok s = Done u s' → ok = true ∧ s' = s.
Proof. destruct ok; [|done]. by intros [= <- <-]. Qed.

Lemma build_done {S A} (m : M S A) s u r u' :
  build m s u = Done r u' → m s = Done r.1 r.2 ∧ u' = u.
Proof. unfold build. destruct (m s); [|done|done]. by intros [= <- <-]. Qed.

(** The keys without which [load_config] gives up. *)
Definition required_keys : list (string * string) :=
  [("protocol", "local_addr"); ("protocol", "bcast_addr"); ("log", "track_file");
   ("log", "bdcast_file"); ("log", "recv_file"); ("log", "node_file");
   ("log", "neigh_file"); ("log", "forward_file"); ("log", "record_file")].

Lemma required_done k group key s :
  required k group key tt = Done s tt → key_string k group key = Some s.
Proof. unfold required. destruct (key_string k group key); [|done]. by intros [= <-]. Qed.

Lemma load_config_done k c :
  load_config (Some k) tt = Done c tt →
  Forall (λ '(group, key), is_Some (key_string k group key)) required_keys ∧
  key_string k "protocol" "local_addr" = Some (local_addr c) ∧
  c_enable_device c = s32 (key_int k "log" "enable_device") ∧
  c_enable_track c = s32 (key_int k "log" "enable_track") ∧
  c_enable_record c = s32 (key_int k "log" "enable_record").
Proof.
  unfold load_config. intros E.
  do 9 (apply bind_done_inv in E as (? & [] & ?%required_done & E)).
  injection E as <-. simpl. split_and!; try done.
  unfold required_keys. repeat constructor; eauto.
Qed.

Lemma ConnManager_new_done c sys local :
  ConnManager_new c sys tt = Done local tt → inet_pton sys (local_addr c) = Some local.
Proof.
  unfold ConnManager_new. intros E. apply bind_done_inv in E as (l & [] & El & E).
  do 9 (apply bind_done_inv in E as (? & [] & _ & E)). injection E as <-.
  destruct (inet_pton sys (local_addr c)); [|done]. by injection El as ->.
Qed.

End boot.

(** The configuration file of the repository, [system/geosvr.conf]. *)
Definition shipped_string (group key : string) : option string :=
  match group, key with
  | "protocol", "local_addr" => Some "192.168.1.247"
  | "protocol", "bcast_addr" => Some "192.168.1.255"
  | "log", "track_file" => Some "track.log"
  | "log", "bdcast_file" => Some "bdcast.log"
  | "log", "recv_file" => Some "recv.log"
  | "log", "node_file" => Some "node.log"
  | "log", "neigh_file" => Some "neighbour.log"
  | "log", "forward_file" => Some "forward.log"
  | "log", "record_file" => Some "gps.txt"
  | _, _ => None
  end.
Definition shipped_int (group key : string) : Z :=
  match group, key with
  | "protocol", "listen_port" => 12001
  | "protocol", "beacon_period" => 1000
  | "protocol", "entry_expire_period" => 3000
  | "protocol", "list_cleaner_period" => 5000
  | "log", "enable_track" | "log", "enable_record" => 1
  | _, _ => 0
  end%Z.
Definition shipped : key_file := KeyFile shipped_string shipped_int.

Definition demo_sys : system_calls :=
  SystemCalls true true (GpsSystem None true true true)
    (λ _, Some 4144081088%Z) true true true true true true true 42 (λ _, true) (Some []).

#[local] Existing Instances map_events x86_64 demo_libm.
#[local] Instance boot_malloc : Allocator := bump_allocator false.

Definition demo_start : outcome unit system := main (Some shipped) demo_sys tt.
Definition demo_started (o : outcome unit system) : system :=
  match o with
  | Done s _ => s
  | _ => System demo_static empty_manager 0 0 []
  end.

