(* ===== verification/Skb.v ===== *)
(** * Socket buffers

    The packets of the Linux kernel module ([system/kernel_mod]): a buffer of bytes with
    room before and after the packet, the functions of the kernel that move its borders,
    and the members of the IP header in it.  The buffers are linear, and the kernel is one
    where [network_header] is a pointer, that is a 32-bit one, since the module casts it. *)
From S2P Require Import Prelude Wire.
Open Scope Z_scope.

(** ** Bytes in place *)

Definition read (off n : nat) (l : list Z) : option (list Z) :=
  if decide (off + n ≤ length l)%nat then Some (take n (drop off l)) else None.
(** [l] with [bs] at [off]. *)
Definition upd_bytes (off : nat) (bs l : list Z) : list Z :=
  take off l ++ bs ++ drop (off + length bs) l.
Definition write (off : nat) (bs l : list Z) : option (list Z) :=
  if decide (off + length bs ≤ length l)%nat then Some (upd_bytes off bs l) else None.

(** [htons] and [ntohs], [htonl] and [ntohl] of a little-endian machine. *)
Definition swap16 (z : Z) : Z := le_value (reverse (le_bytes 2 z)).
Definition swap32 (z : Z) : Z := le_value (reverse (le_bytes 4 z)).

Lemma read_app a b c off n : (off + n ≤ length b)%nat →
  read (length a + off) n (a ++ b ++ c) = Some (take n (drop off b)).
Proof.
  intros Hn. unfold read. rewrite decide_True by (rewrite !length_app; lia).
  rewrite drop_app_add, drop_app_le by lia. by rewrite take_app_le by (rewrite length_drop; lia).
Qed.

Lemma upd_bytes_length off bs l : (off + length bs ≤ length l)%nat → length (upd_bytes off bs l) = length l.
Proof. intros Hl. unfold upd_bytes. rewrite !length_app, length_take, length_drop. lia. Qed.

Lemma write_app a b c off bs : (off + length bs ≤ length b)%nat →
  write (length a + off) bs (a ++ b ++ c) = Some (a ++ upd_bytes off bs b ++ c).
Proof.
  intros Hn. unfold write, upd_bytes. rewrite decide_True by (rewrite !length_app; lia). f_equal.
  rewrite take_app_add. replace (length a + off + length bs)%nat with (length a + (off + length bs))%nat by lia.
  rewrite drop_app_add, take_app_le, drop_app_le by lia. by rewrite <- !(assoc_L app).
Qed.

Lemma upd_bytes_lookup off bs l i : (off + length bs ≤ length l)%nat →
  upd_bytes off bs l !! i =
    if decide (off ≤ i < off + length bs)%nat then bs !! (i - off)%nat else l !! i.
Proof.
  intros Hl. unfold upd_bytes. case_decide as Hi.
  - rewrite lookup_app_r by (rewrite length_take; lia). rewrite length_take.
    rewrite lookup_app_l by lia. f_equal. lia.
  - destruct (decide (i < off)%nat) as [Hlt|Hge].
    + rewrite lookup_app_l by (rewrite length_take; lia). by rewrite lookup_take_lt.
    + rewrite lookup_app_r by (rewrite length_take; lia). rewrite length_take.
      rewrite lookup_app_r by lia. rewrite lookup_drop. f_equal. lia.
Qed.

(** ** Buffers *)

(** [head] to [data], [data] to [tail], [tail] to [end]; [network_header] counts from
    [head]. *)
Record sk_buff := SkBuff {
  headroom : list Z;
  data : list Z;
  tailroom : list Z;
  network_header : nat;
  users : Z;
  cloned : bool;
  skb_dst : option Z;
  ip_summed : Z;
}.

Definition buffer (v : sk_buff) : list Z := headroom v ++ data v ++ tailroom v.
(** The same borders in another buffer. *)
Definition set_buffer (b : list Z) (v : sk_buff) : sk_buff :=
  SkBuff (take (length (headroom v)) b) (take (length (data v)) (drop (length (headroom v)) b))
    (drop (length (headroom v) + length (data v)) b) (network_header v) (users v) (cloned v) (skb_dst v) (ip_summed v).
Definition set_borders (h d t : list Z) (v : sk_buff) : sk_buff :=
  SkBuff h d t (network_header v) (users v) (cloned v) (skb_dst v) (ip_summed v).
Definition set_network_header (n : nat) (v : sk_buff) : sk_buff :=
  SkBuff (headroom v) (data v) (tailroom v) n (users v) (cloned v) (skb_dst v) (ip_summed v).
Definition set_users (n : Z) (v : sk_buff) : sk_buff :=
  SkBuff (headroom v) (data v) (tailroom v) (network_header v) n (cloned v) (skb_dst v) (ip_summed v).
Definition set_dst (r : option Z) (v : sk_buff) : sk_buff :=
  SkBuff (headroom v) (data v) (tailroom v) (network_header v) (users v) (cloned v) r (ip_summed v).
Definition set_summed (s : Z) (v : sk_buff) : sk_buff :=
  SkBuff (headroom v) (data v) (tailroom v) (network_header v) (users v) (cloned v) (skb_dst v) s.


(** [memcpy] out of the buffer and into it. *)
Definition rd (off n : nat) : M sk_buff (list Z) := v ← get; within (read off n (buffer v)).
Definition wr (off : nat) (bs : list Z) : M sk_buff unit :=
  v ← get; b ← within (write off bs (buffer v)); put (set_buffer b v).
Definition rd_int (off n : nat) : M sk_buff Z := bs ← rd off n; mret (le_value bs).
Definition memmove (dst src n : nat) : M sk_buff unit := bs ← rd src n; wr dst bs.

(** What the module needs of the kernel it runs in: the checksum of a header, the buffer
    that replaces one whose room does not suffice, the routing decision, and the
    identification of a packet. *)
Class Kernel := {
  ip_fast_csum : list Z → Z;
  expand_head : list Z → nat → option (list Z);
  route_output : Z → option Z;
  select_ident : list Z → Z → Z;
  expand_head_room : ∀ h n h', expand_head h n = Some h' → (n ≤ length h')%nat;
}.

Section buffers.
Context `{Kernel}.

(** [skb_cow]: at least [n] bytes of room before the packet, and no other user of the
    buffer; the packet does not change. *)
Definition skb_cow (n : nat) : M sk_buff Z :=
  v ← get;
  if decide (n ≤ length (headroom v) ∧ cloned v = false)%nat then mret 0
  else
    match expand_head (headroom v) n with
    | None => mret (-12)
    | Some h =>
        _ ← put (SkBuff h (data v) (tailroom v) (length h + (network_header v - length (headroom v)))
                   (users v) false (skb_dst v) (ip_summed v));
        mret 0
    end.

(** [skb_push] and [skb_trim]. *)
Definition skb_push (n : nat) : M sk_buff unit :=
  v ← get;
  let k := (length (headroom v) - n)%nat in
  if decide (n ≤ length (headroom v))%nat
  then put (set_borders (take k (headroom v)) (drop k (headroom v) ++ data v) (tailroom v) v)
  else abort.
Definition skb_trim (n : nat) : M sk_buff unit :=
  modify (λ v, set_borders (headroom v) (take n (data v)) (drop n (data v) ++ tailroom v) v).
(** [skb_set_network_header(skb, 0)] and [skb_reset_network_header]. *)
Definition skb_reset_network_header : M sk_buff unit :=
  modify (λ v, set_network_header (length (headroom v)) v).

(** [ip_hdr] and the members of the header. *)
Definition ip_hdr : M sk_buff nat := gets network_header.
(** [ihl << 2] *)
Definition ip_hlen (iph : nat) : M sk_buff nat :=
  b ← rd_int iph 1; mret (Z.to_nat (4 * Z.land b 15)).
Definition ip_tot_len (iph : nat) : M sk_buff Z := z ← rd_int (iph + 2) 2; mret (swap16 z).
Definition ip_protocol (iph : nat) : M sk_buff Z := rd_int (iph + 9) 1.
Definition ip_saddr (iph : nat) : M sk_buff Z := rd_int (iph + 12) 4.
Definition ip_daddr (iph : nat) : M sk_buff Z := rd_int (iph + 16) 4.
Definition set_tot_len (iph : nat) (z : Z) : M sk_buff unit := wr (iph + 2) (le_bytes 2 (swap16 (u16 z))).

(** [ip_send_check]: the checksum of the header with a zero in its place. *)
Definition ip_send_check (iph : nat) : M sk_buff unit :=
  _ ← wr (iph + 10) [0; 0];
  hl ← ip_hlen iph;
  hdr ← rd iph hl;
  wr (iph + 10) (le_bytes 2 (ip_fast_csum hdr)).
End buffers.

(** ** The operations on the bytes of the packet *)

Lemma set_buffer_data h d t d' t' v :
  length d' = length d →
  set_buffer (h ++ d' ++ t') (set_borders h d t v) = set_borders h d' t' v.
Proof.
  intros Hl. unfold set_buffer, set_borders. simpl. rewrite take_app_length, drop_app_length.
  rewrite <- Hl, take_app_length, (assoc_L app), <- length_app, drop_app_length. done.
Qed.
Lemma borders_id v : set_borders (headroom v) (data v) (tailroom v) v = v.
Proof. by destruct v. Qed.

Lemma rd_data off n v : (off + n ≤ length (data v))%nat →
  rd (length (headroom v) + off) n v = Done (take n (drop off (data v))) v.
Proof. intros Hl. unfold rd, buffer, mbind, M_bind. simpl. by rewrite read_app. Qed.
Lemma wr_data off bs v : (off + length bs ≤ length (data v))%nat →
  wr (length (headroom v) + off) bs v =
    Done tt (set_borders (headroom v) (upd_bytes off bs (data v)) (tailroom v) v).
Proof.
  intros Hl. unfold wr, buffer, mbind, M_bind. simpl. rewrite write_app by done. simpl. unfold put. f_equal.
  destruct v as [h d t nh u c r s]. apply (set_buffer_data h d t _ t (SkBuff h d t nh u c r s)).
  by apply upd_bytes_length.
Qed.
Lemma rd_int_data off n v : (off + n ≤ length (data v))%nat →
  rd_int (length (headroom v) + off) n v = Done (le_value (take n (drop off (data v)))) v.
Proof. intros Hl. unfold rd_int. by rewrite (bind_done _ _ _ _ _ (rd_data off n v Hl)). Qed.
Lemma memmove_data dst src n v : (dst + n ≤ length (data v))%nat → (src + n ≤ length (data v))%nat →
  memmove (length (headroom v) + dst) (length (headroom v) + src) n v =
    Done tt (set_borders (headroom v) (upd_bytes dst (take n (drop src (data v))) (data v)) (tailroom v) v).
Proof.
  intros Hd Hs. unfold memmove. rewrite (bind_done _ _ _ _ _ (rd_data src n v Hs)).
  apply wr_data. rewrite length_take, length_drop. lia.
Qed.

Lemma upd_bytes_app_l off bs a b : (off + length bs ≤ length a)%nat →
  upd_bytes off bs (a ++ b) = upd_bytes off bs a ++ b.
Proof.
  intros Hl. unfold upd_bytes. rewrite take_app_le, drop_app_le by lia. by rewrite <- !(assoc_L app).
Qed.
Lemma upd_bytes_app_r off bs a b : upd_bytes (length a + off) bs (a ++ b) = a ++ upd_bytes off bs b.
Proof.
  unfold upd_bytes. rewrite take_app_add.
  replace (length a + off + length bs)%nat with (length a + (off + length bs))%nat by lia.
  rewrite drop_app_add. by rewrite <- !(assoc_L app).
Qed.
Lemma upd_bytes_all bs a b : length bs = length a → upd_bytes 0 bs (a ++ b) = bs ++ b.
Proof. intros Hl. unfold upd_bytes. simpl. by rewrite Hl, drop_app_length. Qed.
Lemma upd_bytes_twice off bs cs l : length bs = length cs → (off + length bs ≤ length l)%nat →
  upd_bytes off bs (upd_bytes off cs l) = upd_bytes off bs l.
Proof.
  intros He Hl. apply list_eq. intros i. rewrite !upd_bytes_lookup by (rewrite ?upd_bytes_length; lia).
  rewrite He. by case_decide.
Qed.
Lemma upd_bytes_comm o1 b1 o2 b2 l :
  (o1 + length b1 ≤ o2)%nat → (o2 + length b2 ≤ length l)%nat →
  upd_bytes o1 b1 (upd_bytes o2 b2 l) = upd_bytes o2 b2 (upd_bytes o1 b1 l).
Proof.
  intros H1 H2. apply list_eq. intros i. rewrite !upd_bytes_lookup by (rewrite ?upd_bytes_length; lia).
  repeat case_decide; try done; lia.
Qed.
Lemma upd_bytes_same off n l : (off + n ≤ length l)%nat → upd_bytes off (take n (drop off l)) l = l.
Proof.
  intros Hl. unfold upd_bytes. rewrite length_take, length_drop.
  replace (n `min` (length l - off))%nat with n by lia. rewrite <- drop_drop, take_drop. apply take_drop.
Qed.
Lemma upd_bytes_take off bs l k : (k ≤ off)%nat → (off ≤ length l)%nat → take k (upd_bytes off bs l) = take k l.
Proof. intros Hk Hl. unfold upd_bytes. rewrite take_app_le by (rewrite length_take; lia). by rewrite take_take, Nat.min_l. Qed.

(** Lengths of updated lists. *)
Ltac bytes_len := first [lia | rewrite upd_bytes_length; bytes_len].
Lemma upd_bytes_around a t c z l : length a = 2%nat → length t = 2%nat → length c = 2%nat → length z = 2%nat →
  (12 ≤ length l)%nat →
  upd_bytes 10 z (upd_bytes 2 t (upd_bytes 10 c (upd_bytes 10 z (upd_bytes 2 a l)))) =
  upd_bytes 10 z (upd_bytes 2 t l).
Proof.
  intros Ha Ht Hc Hz Hl. rewrite (upd_bytes_comm 2 t) by bytes_len.
  rewrite upd_bytes_twice by bytes_len. rewrite (upd_bytes_comm 2 t) by bytes_len.
  rewrite upd_bytes_twice by bytes_len. by rewrite upd_bytes_twice by bytes_len.
Qed.

Lemma le_bytes_2_range z : Forall (λ b, 0 ≤ b < 256) (le_bytes 2 z).
Proof. apply le_bytes_range. Qed.
Lemma swap16_range z : 0 ≤ swap16 z < 2 ^ 16.
Proof.
  unfold swap16. pose proof (le_value_range (reverse (le_bytes 2 z))) as Hr.
  rewrite length_reverse, le_bytes_length in Hr. apply Hr. apply Forall_reverse, le_bytes_range.
Qed.
Lemma swap16_swap16 z : 0 ≤ z < 2 ^ 16 → swap16 (swap16 z) = z.
Proof.
  intros Hz. unfold swap16.
  replace 2%nat with (length (reverse (le_bytes 2 z))) at 1 by (by rewrite length_reverse, le_bytes_length).
  rewrite le_bytes_value, reverse_involutive, le_value_bytes by (apply Forall_reverse, le_bytes_range).
  by rewrite Z.mod_small.
Qed.

(** The same with the packet taken apart. *)
Section at_data.
Context (h d t : list Z) (nh : nat) (u : Z) (c : bool) (r : option Z) (s : Z).
Abbreviation buf d := (SkBuff h d t nh u c r s).
Lemma rd_at off n : (off + n ≤ length d)%nat →
  rd (length h + off) n (buf d) = Done (take n (drop off d)) (buf d).
Proof. apply (rd_data off n (buf d)). Qed.
Lemma rd_int_at off n : (off + n ≤ length d)%nat →
  rd_int (length h + off) n (buf d) = Done (le_value (take n (drop off d))) (buf d).
Proof. apply (rd_int_data off n (buf d)). Qed.
Lemma wr_at off bs : (off + length bs ≤ length d)%nat →
  wr (length h + off) bs (buf d) = Done tt (buf (upd_bytes off bs d)).
Proof. apply (wr_data off bs (buf d)). Qed.
Lemma memmove_at dst src n : (dst + n ≤ length d)%nat → (src + n ≤ length d)%nat →
  memmove (length h + dst) (length h + src) n (buf d) =
    Done tt (buf (upd_bytes dst (take n (drop src d)) d)).
Proof. apply (memmove_data dst src n (buf d)). Qed.
End at_data.

(** ** IP headers *)

Definition hlen_of (d : list Z) : nat := Z.to_nat (4 * Z.land (le_value (take 1 d)) 15).
Definition tot_of (d : list Z) : Z := swap16 (le_value (take 2 (drop 2 d))).
Definition dest_of (d : list Z) : Z := le_value (take 4 (drop 16 d)).
Definition source_of (d : list Z) : Z := le_value (take 4 (drop 12 d)).
Definition is_bytes (l : list Z) : Prop := Forall (λ b, 0 ≤ b < 256) l.

(** A header as long as it says, without or with options. *)
Record ipv4 (hdr : list Z) : Prop := {
  ipv4_bytes : is_bytes hdr;
  ipv4_length : length hdr = hlen_of hdr;
  ipv4_size : (20 ≤ length hdr)%nat;
}.

Definition with_tot (z : Z) (hdr : list Z) : list Z := upd_bytes 2 (le_bytes 2 (swap16 (u16 z))) hdr.
Definition summed `{Kernel} (hdr : list Z) : list Z :=
  let z := upd_bytes 10 [0; 0] hdr in upd_bytes 10 (le_bytes 2 (ip_fast_csum z)) z.

Lemma hlen_of_upd off bs hdr : (1 ≤ off)%nat → (off ≤ length hdr)%nat → hlen_of (upd_bytes off bs hdr) = hlen_of hdr.
Proof. intros H1 H2. unfold hlen_of. by rewrite upd_bytes_take. Qed.
Lemma upd_bytes_range off bs l : is_bytes bs → is_bytes l → is_bytes (upd_bytes off bs l).
Proof.
  intros Hb Hl. unfold upd_bytes, is_bytes in *. rewrite !Forall_app.
  split; [by apply Forall_take|split; [done|by apply Forall_drop]].
Qed.
Lemma ipv4_upd off bs hdr : ipv4 hdr → (1 ≤ off)%nat → (off + length bs ≤ length hdr)%nat → is_bytes bs →
  ipv4 (upd_bytes off bs hdr).
Proof.
  intros [Hb Hl Hs] H1 H2 H3. split; [by apply upd_bytes_range|..];
    rewrite upd_bytes_length by lia; [rewrite hlen_of_upd by lia|]; done.
Qed.
Lemma ipv4_with_tot z hdr : ipv4 hdr → ipv4 (with_tot z hdr).
Proof.
  intros Hi. pose proof (ipv4_size _ Hi). unfold with_tot.
  apply ipv4_upd; [done|lia|rewrite le_bytes_length; lia|apply le_bytes_range].
Qed.
Lemma with_tot_length z hdr : (4 ≤ length hdr)%nat → length (with_tot z hdr) = length hdr.
Proof. intros Hl. unfold with_tot. apply upd_bytes_length. rewrite le_bytes_length. lia. Qed.

Section headers.
Context `{Kernel}.
Lemma ipv4_summed hdr : ipv4 hdr → ipv4 (summed hdr).
Proof.
  intros Hi. pose proof (ipv4_size _ Hi). unfold summed.
  assert (ipv4 (upd_bytes 10 [0; 0] hdr)) as Hz.
  { apply ipv4_upd; [done|lia|simpl; lia|repeat constructor; lia]. }
  apply ipv4_upd; [done|lia| |apply le_bytes_range].
  rewrite le_bytes_length, upd_bytes_length by (simpl; lia). lia.
Qed.
Lemma summed_length hdr : (12 ≤ length hdr)%nat → length (summed hdr) = length hdr.
Proof.
  intros Hl. unfold summed. rewrite !upd_bytes_length; simpl; try lia. rewrite upd_bytes_length; simpl; lia.
Qed.
(** The old checksum does not matter. *)
Lemma summed_ext a b : upd_bytes 10 [0; 0] a = upd_bytes 10 [0; 0] b → summed a = summed b.
Proof. unfold summed. by intros ->. Qed.

Lemma tot_of_summed hdr : (12 ≤ length hdr)%nat → tot_of (summed hdr) = tot_of hdr.
Proof.
  intros Hl. unfold tot_of, summed. do 2 f_equal. rewrite !take_drop_commute. f_equal. simpl.
  rewrite !upd_bytes_take; [done|lia..|rewrite upd_bytes_length; simpl; lia].
Qed.
Lemma tot_of_with_tot z hdr : (4 ≤ length hdr)%nat → tot_of (with_tot z hdr) = u16 z.
Proof.
  intros Hl. unfold tot_of, with_tot, upd_bytes. rewrite drop_app_length' by (rewrite length_take; lia).
  rewrite take_app_length' by by rewrite le_bytes_length. rewrite le_value_bytes.
  rewrite Z.mod_small by apply swap16_range. apply swap16_swap16, wrap_range. lia.
Qed.
Lemma with_tot_ext z z' hdr : u16 z = u16 z' → with_tot z hdr = with_tot z' hdr.
Proof. unfold with_tot. by intros ->. Qed.

(** Undoing a change of the length: only the checksum can differ. *)
Lemma summed_undo z hdr : ipv4 hdr → summed (with_tot (tot_of hdr) (summed (with_tot z hdr))) = summed hdr.
Proof.
  intros Hi. pose proof (ipv4_size _ Hi) as Hs. apply summed_ext. unfold summed at 1, with_tot.
  set (c := le_bytes 2 (ip_fast_csum _)). set (a := le_bytes 2 (swap16 (u16 z))).
  assert (length c = 2%nat) as Hc by apply le_bytes_length.
  assert (length a = 2%nat) as Ha by apply le_bytes_length.
  assert (le_bytes 2 (swap16 (u16 (tot_of hdr))) = take 2 (drop 2 hdr)) as ->.
  { unfold tot_of. assert (is_bytes (take 2 (drop 2 hdr))) as Hb by apply Forall_take, Forall_drop, Hi.
    assert (length (take 2 (drop 2 hdr)) = 2%nat) as H2 by (rewrite length_take, length_drop; lia).
    pose proof (le_value_range _ Hb) as Hr. rewrite H2 in Hr.
    unfold u16. rewrite wrap_small by apply swap16_range. rewrite swap16_swap16 by done.
    rewrite <- H2 at 1. by apply le_bytes_value. }
  rewrite upd_bytes_around by (first [done | lia | rewrite length_take, length_drop; lia]).
  by rewrite upd_bytes_same by lia.
Qed.
End headers.
