(* ===== verification/KernState.v ===== *)
(** * The state of the kernel module

    What the parts of [system/kernel_mod] share: the packets, the blocks that [kmalloc]
    returned, the queue of packets that wait for a route, and what was done with packets.
    The kernel's lists are sequences, and its locks are taken around every operation on the
    queue, which is one step here. *)
From Stdlib Require Import Ascii.
From S2P Require Import Prelude Double Daemon Wire Scan RoutingManager Skb.
Open Scope Z_scope.

(* [system/kernel_mod/geosvr_queue.c:24-28] struct queue_entry *)
Record queue_entry := QueueEntry { qe_skb : addr; qe_okfn : Z }.
#[global] Instance queue_entry_eq_dec : EqDecision queue_entry.
Proof. solve_decision. Defined.

(** What [kmalloc] was called for: an entry of the queue, a header taken from a packet, a
    message to the daemon. *)
Inductive block :=
  | EntryBlock (e : queue_entry)
  | HdrBlock (bytes : list Z)
  | MsgBlock (m : geosvr_nlmsg).

(** What leaves the module: a packet handed on through the hook's continuation or through
    [dst_output], with its bytes and its route; an ICMP message about a packet; a message
    to the daemon; an acknowledgement. *)
Inductive action :=
  | OkFn (okfn : Z) (pkt : list Z) (rt : option Z)
  | DstOutput (pkt : list Z) (rt : Z)
  | HostUnreach (pkt : list Z)
  | Broadcast (type : Z) (m : geosvr_nlmsg)
  | NlAck (err : Z).

(** [if_ifindex] stands for the device. *)
(* [system/kernel_mod/geosvr_mod.h:6-10] struct if_info *)
Record if_info := IfInfo { if_addr : Z; bc_addr : Z; if_ifindex : Z }.

(** [queue_list] from its first entry; [k_log] is what was done, latest first. *)
Record kernel := Kern {
  k_skbs : gmap N sk_buff;
  k_blocks : gmap N block;
  queue_list : list addr;
  queue_total : Z;
  peer_pid : Z;
  ifip : option if_info;
  k_log : list action;
}.

Definition set_skbs x (k : kernel) : kernel :=
  Kern x (k_blocks k) (queue_list k) (queue_total k) (peer_pid k) (ifip k) (k_log k).
Definition set_blocks x (k : kernel) : kernel :=
  Kern (k_skbs k) x (queue_list k) (queue_total k) (peer_pid k) (ifip k) (k_log k).
Definition set_queue x n (k : kernel) : kernel :=
  Kern (k_skbs k) (k_blocks k) x n (peer_pid k) (ifip k) (k_log k).
Definition set_peer x (k : kernel) : kernel :=
  Kern (k_skbs k) (k_blocks k) (queue_list k) (queue_total k) x (ifip k) (k_log k).
Definition set_ifip x (k : kernel) : kernel :=
  Kern (k_skbs k) (k_blocks k) (queue_list k) (queue_total k) (peer_pid k) x (k_log k).
Definition set_log x (k : kernel) : kernel :=
  Kern (k_skbs k) (k_blocks k) (queue_list k) (queue_total k) (peer_pid k) (ifip k) x.

Definition log (a : action) : M kernel unit := modify (λ k, set_log (a :: k_log k) k).

(** Running a computation on a packet. *)
Definition on_skb {A} (p : addr) (m : M sk_buff A) : M kernel A :=
  v ← deref k_skbs p;
  match m v with
  | Done a v' => _ ← modify (λ k, set_skbs (<[p := v']> (k_skbs k)) k); mret a
  | Abort _ => abort
  | Stuck f => stuck f
  end.

(** [kfree_skb]: the packet is freed by its last user. *)
Definition kfree_skb (p : addr) : M kernel unit :=
  v ← deref k_skbs p;
  if decide (users v = 1) then modify (λ k, set_skbs (delete p (k_skbs k)) k)
  else modify (λ k, set_skbs (<[p := set_users (users v - 1) v]> (k_skbs k)) k).
(** A packet that is handed on belongs to the receiver. *)
Definition hand_on (p : addr) (act : sk_buff → action) : M kernel unit :=
  v ← deref k_skbs p;
  _ ← modify (λ k, set_skbs (delete p (k_skbs k)) k);
  log (act v).

Section memory.
Context `{Allocator}.

(** [pskb_copy]: a packet with a buffer of its own. *)
Definition pskb_copy (p : addr) : M kernel addr :=
  v ← deref k_skbs p;
  k ← get;
  match malloc (dom (k_skbs k)) with
  | None => mret NULL
  | Some n =>
      _ ← put (set_skbs (<[n := SkBuff (headroom v) (data v) (tailroom v) (network_header v) 1 false
                                  (skb_dst v) (ip_summed v)]> (k_skbs k)) k);
      mret n
  end.

Definition kmalloc (b : block) : M kernel addr :=
  k ← get;
  match malloc (dom (k_blocks k)) with
  | None => mret NULL
  | Some a => _ ← put (set_blocks (<[a := b]> (k_blocks k)) k); mret a
  end.
Definition kfree (a : addr) : M kernel unit :=
  _ ← deref k_blocks a; modify (λ k, set_blocks (delete a (k_blocks k)) k).
End memory.

(** A block used as what it was allocated for. *)
Definition the_entry (a : addr) : M kernel queue_entry :=
  b ← deref k_blocks a; match b with EntryBlock e => mret e | _ => stuck UseAfterFree end.
Definition the_header (a : addr) : M kernel (list Z) :=
  b ← deref k_blocks a; match b with HdrBlock l => mret l | _ => stuck UseAfterFree end.

(** A member of a message that must have been written. *)
Definition written {S A} (o : option A) : M S A :=
  match o with Some a => mret a | None => stuck UninitRead end.

(** The bytes of a text and back. *)
Definition bytes_of_text (t : text) : list Z := (λ c, Z.of_nat (nat_of_ascii c)) <$> t.
Definition text_of_bytes (l : list Z) : text := (λ b, ascii_of_nat (Z.to_nat b)) <$> l.

Lemma bytes_text_bytes l : Forall (λ b, 0 ≤ b < 256) l → bytes_of_text (text_of_bytes l) = l.
Proof.
  induction 1 as [|b l Hb Hl IH]; [done|]. unfold bytes_of_text, text_of_bytes in *. cbn [fmap list_fmap].
  rewrite IH, nat_ascii_embedding by lia. f_equal. lia.
Qed.
Lemma text_bytes_text t : text_of_bytes (bytes_of_text t) = t.
Proof.
  induction t as [|c t IH]; [done|]. unfold bytes_of_text, text_of_bytes in *. cbn [fmap list_fmap].
  by rewrite IH, Nat2Z.id, ascii_nat_embedding.
Qed.

(** Reading a packet, and changing it. *)
Lemma on_skb_read {A} p (m : M sk_buff A) k v a : p ≠ NULL → k_skbs k !! p = Some v → m v = Done a v →
  on_skb p m k = Done a k.
Proof.
  intros Hp Hv Hm. unfold on_skb, mbind, M_bind, deref. rewrite decide_False by done. rewrite Hv, Hm.
  unfold modify. simpl. rewrite insert_id by done. by destruct k.
Qed.
Lemma on_skb_done {A} p (m : M sk_buff A) k v a v' : p ≠ NULL → k_skbs k !! p = Some v → m v = Done a v' →
  on_skb p m k = Done a (set_skbs (<[p := v']> (k_skbs k)) k).
Proof.
  intros Hp Hv Hm. unfold on_skb, mbind, M_bind, deref. rewrite decide_False by done. by rewrite Hv, Hm.
Qed.
Lemma on_skb_stuck {A} p (m : M sk_buff A) k v f : p ≠ NULL → k_skbs k !! p = Some v → m v = Stuck f →
  on_skb p m k = Stuck f.
Proof.
  intros Hp Hv Hm. unfold on_skb, mbind, M_bind, deref. rewrite decide_False by done. by rewrite Hv, Hm.
Qed.
Lemma deref_skb p k v : p ≠ NULL → k_skbs k !! p = Some v → deref k_skbs p k = Done v k.
Proof. apply deref_done. Qed.
Lemma deref_block a k b : a ≠ NULL → k_blocks k !! a = Some b → deref k_blocks a k = Done b k.
Proof. apply deref_done. Qed.
