(* ===== verification/Ipenc.v ===== *)
(** * Encapsulation

    [system/kernel_mod/geosvr_ipenc.c]: a packet that needs a route carries the GeoSVR
    header between its IP header and its payload.  The encapsulation at one node and the
    decapsulation at the next are inverse, on the bytes of the buffer. *)
From Stdlib Require Import Ascii.
From S2P Require Import Prelude Double Daemon Wire Scan RoutingManager Skb KernState.
Open Scope Z_scope.

Definition GEOSVR_HDR_PREFIX : Z := 254.
(** Two 32-bit prefixes, the source, the destination and the length of the route, which
    follows. *)
(* [system/kernel_mod/geosvr_ipenc.h:8-14] struct geosvr_hdr *)
Definition sizeof_geosvr_hdr : nat := 20.
Definition CHECKSUM_NONE : Z := 0.

Section ipenc.
Context `{Kernel, Allocator}.

(** On one packet; its size and the sums are unsigned. *)
(* [system/kernel_mod/geosvr_ipenc.c:14-61] geosvr_ip_encapsulate *)
Definition encapsulate (msg : geosvr_nlmsg) : M sk_buff Z :=
  v ← get;
  let len := u32 (20 + m_route_len msg) in
  let n := Z.to_nat len in
  if decide (users v ≠ 1) then mret (-1)
  else
    r ← skb_cow n;
    if decide (r < 0) then mret (-1)
    else
      ohdr ← ip_hdr;
      _ ← skb_push n;
      _ ← skb_reset_network_header;
      nhdr ← ip_hdr;
      ohl ← ip_hlen ohdr;
      _ ← memmove nhdr ohdr ohl;
      nhl ← ip_hlen nhdr;
      let geo_hdr := (nhdr + nhl)%nat in
      _ ← wr geo_hdr (replicate n 0);
      _ ← wr geo_hdr (le_bytes 4 (swap16 GEOSVR_HDR_PREFIX));
      _ ← wr (geo_hdr + 4) (le_bytes 4 (swap16 GEOSVR_HDR_PREFIX));
      src ← written (m_src msg);
      _ ← wr (geo_hdr + 8) (le_bytes 4 src);
      _ ← wr (geo_hdr + 12) (le_bytes 4 (m_dst msg));
      _ ← wr (geo_hdr + 16) (le_bytes 4 (m_route_len msg));
      route ← within (read 0 (Z.to_nat (m_route_len msg)) (bytes_of_text (m_route msg)));
      _ ← wr (geo_hdr + 20) route;
      tot ← ip_tot_len nhdr;
      _ ← set_tot_len nhdr (tot + 20 + m_route_len msg);
      nhop ← written (m_nhop msg);
      match route_output nhop with
      | None => mret (-1)
      | Some rt =>
          _ ← modify (set_dst (Some rt));
          nhdr ← ip_hdr;
          _ ← modify (set_summed CHECKSUM_NONE);
          _ ← ip_send_check nhdr;
          mret 0
      end.

(* [system/kernel_mod/geosvr_ipenc.c:14-61] geosvr_ip_encapsulate *)
Definition geosvr_ip_encapsulate (skb : addr) (msg : geosvr_nlmsg) : M kernel Z :=
  i ← gets ifip;
  match i with None => stuck NullDeref | Some _ => on_skb skb (encapsulate msg) end.

(** The packet the functions below read: a copy if others use the packet or its buffer,
    which is then given up; [NULL] without memory. *)
(* [system/kernel_mod/geosvr_ipenc.c:71-77] geosvr_ip_decapsulate *)
Definition own_packet (skb : addr) : M kernel addr :=
  v ← deref k_skbs skb;
  if decide (users v ≠ 1 ∨ cloned v = true) then
    nskb ← pskb_copy skb;
    _ ← kfree_skb skb;
    mret nskb
  else mret skb.

(** The length of the GeoSVR header of a packet, a signed integer. *)
Definition geosvr_hdr_len : M sk_buff (nat * Z) :=
  iph ← ip_hdr;
  hl ← ip_hlen iph;
  let tmp_hdr := (iph + hl)%nat in
  route_len ← rd_int (tmp_hdr + 16) 4;
  mret (tmp_hdr, s32 (20 + route_len)).

(** Cutting the header out of a packet, from the move to the checksum. *)
(* [system/kernel_mod/geosvr_ipenc.c:95-103] geosvr_ip_decapsulate *)
Definition cut_header (hl n : nat) : M sk_buff unit :=
  v ← get;
  let d := length (headroom v) in
  _ ← memmove (d + hl) (d + hl + n) (length (data v) + hl - n);
  _ ← skb_trim (length (data v) - n);
  _ ← skb_reset_network_header;
  iph ← ip_hdr;
  tot ← ip_tot_len iph;
  _ ← set_tot_len iph (tot - Z.of_nat n);
  ip_send_check iph.

(** The header that was cut out, or [NULL]. *)
(* [system/kernel_mod/geosvr_ipenc.c:63-106] geosvr_ip_decapsulate *)
Definition geosvr_ip_decapsulate (skb : addr) : M kernel addr :=
  nskb ← own_packet skb;
  if decide (nskb = NULL) then mret NULL
  else
    '(tmp_hdr, len) ← on_skb nskb geosvr_hdr_len;
    v ← deref k_skbs nskb;
    if decide (u32 len ≤ Z.of_nat (length (data v))) then
      let n := Z.to_nat len in
      bytes ← on_skb nskb (rd tmp_hdr n);
      geo_hdr ← kmalloc (HdrBlock bytes);
      if decide (geo_hdr = NULL) then mret NULL
      else
        hl ← on_skb nskb (iph ← ip_hdr; ip_hlen iph);
        _ ← on_skb nskb (cut_header hl n);
        mret geo_hdr
    else mret NULL.

(* [system/kernel_mod/geosvr_ipenc.c:108-130] geosvr_ip_has_encapsulated *)
Definition geosvr_ip_has_encapsulated (skb : addr) : M kernel bool :=
  nskb ← own_packet skb;
  if decide (nskb = NULL) then mret false
  else on_skb nskb (
    iph ← ip_hdr;
    hl ← ip_hlen iph;
    p0 ← rd_int (iph + hl) 4;
    if decide (swap16 (u16 p0) = GEOSVR_HDR_PREFIX) then
      p1 ← rd_int (iph + hl + 4) 4;
      mret (bool_decide (swap16 (u16 p1) = GEOSVR_HDR_PREFIX))
    else mret false).

(** On one packet; [None] when there is no route. *)
(* [system/kernel_mod/geosvr_ipenc.c:132-165] geosvr_ip_forward *)
Definition forward (msg : geosvr_nlmsg) : M sk_buff (option Z) :=
  nhop ← written (m_nhop msg);
  match route_output nhop with
  | None => mret None
  | Some rt =>
      iph ← ip_hdr;
      hl ← ip_hlen iph;
      hdr ← rd iph hl;
      _ ← wr (iph + 4) (le_bytes 2 (select_ident hdr rt));
      _ ← modify (set_dst (Some rt));
      iph ← ip_hdr;
      _ ← modify (set_summed CHECKSUM_NONE);
      _ ← ip_send_check iph;
      mret (Some rt)
  end.
(** [NF_HOOK] hands the packet to [dst_output]. *)
(* [system/kernel_mod/geosvr_ipenc.c:132-165] geosvr_ip_forward *)
Definition geosvr_ip_forward (skb : addr) (msg : geosvr_nlmsg) : M kernel Z :=
  i ← gets ifip;
  match i with
  | None => stuck NullDeref
  | Some _ =>
      r ← on_skb skb (forward msg);
      match r with
      | None => mret (-1)
      | Some rt => _ ← hand_on skb (λ v, DstOutput (data v) rt); mret 0
      end
  end.
End ipenc.

(** ** Encapsulation on the bytes *)

(** The header of a message, and the packet that carries it. *)
Definition geo_bytes (src dst : Z) (route : list Z) : list Z :=
  le_bytes 4 (swap16 GEOSVR_HDR_PREFIX) ++ le_bytes 4 (swap16 GEOSVR_HDR_PREFIX) ++
  le_bytes 4 src ++ le_bytes 4 dst ++ le_bytes 4 (Z.of_nat (length route)) ++ route.

Lemma geo_bytes_length src dst route : length (geo_bytes src dst route) = (20 + length route)%nat.
Proof. unfold geo_bytes. by rewrite !length_app, !le_bytes_length. Qed.

(** The [n]-th word of a header, and its members. *)
Lemma upd_bytes_skip k off bs (a b : list Z) : length a = k → upd_bytes (k + off) bs (a ++ b) = a ++ upd_bytes off bs b.
Proof. intros <-. apply upd_bytes_app_r. Qed.

Lemma geo_fill src dst route n : n = (20 + length route)%nat →
  upd_bytes 20 route (upd_bytes 16 (le_bytes 4 (Z.of_nat (length route)))
    (upd_bytes 12 (le_bytes 4 dst) (upd_bytes 8 (le_bytes 4 src)
      (upd_bytes 4 (le_bytes 4 (swap16 GEOSVR_HDR_PREFIX))
        (upd_bytes 0 (le_bytes 4 (swap16 GEOSVR_HDR_PREFIX)) (replicate n 0)))))) = geo_bytes src dst route.
Proof.
  intros ->. unfold geo_bytes.
  set (p := le_bytes 4 (swap16 _)). set (s := le_bytes 4 src). set (d := le_bytes 4 dst).
  set (l := le_bytes 4 (Z.of_nat _)).
  assert (length p = 4 ∧ length s = 4 ∧ length d = 4 ∧ length l = 4)%nat as (Hp & Hs & Hd & Hl).
  { split_and!; apply le_bytes_length. }
  replace (20 + length route)%nat with (4 + (4 + (4 + (4 + (4 + length route)))))%nat by lia.
  rewrite !replicate_add. rewrite upd_bytes_all by (rewrite length_replicate; lia).
  assert (∀ b k x y z, length y = length b → length x = k → upd_bytes k b (x ++ y ++ z) = x ++ b ++ z) as Hstep.
  { intros b k x y z Hb Hx. rewrite <- (Nat.add_0_r k), upd_bytes_skip by done. by rewrite upd_bytes_all. }
  rewrite Hstep by (rewrite ?length_replicate; lia).
  rewrite (assoc_L app p p), Hstep by (rewrite ?length_app, ?length_replicate; lia).
  rewrite (assoc_L app (p ++ p) s), Hstep by (rewrite ?length_app, ?length_replicate; lia).
  rewrite (assoc_L app ((p ++ p) ++ s) d), Hstep by (rewrite ?length_app, ?length_replicate; lia).
  rewrite (assoc_L app (((p ++ p) ++ s) ++ d) l).
  rewrite <- (app_nil_r (replicate (length route) 0)), Hstep by (rewrite ?length_app, ?length_replicate; lia).
  by rewrite app_nil_r, <- !(assoc_L app).
Qed.

Section spec.
Context `{Kernel, Allocator}.

Lemma hlen_done h d t nh u c r s : (1 ≤ length d)%nat →
  ip_hlen (length h) (SkBuff h d t nh u c r s) = Done (hlen_of d) (SkBuff h d t nh u c r s).
Proof.
  intros Hd. unfold ip_hlen. replace (length h) with (length h + 0)%nat at 1 by lia.
  rewrite (bind_done _ _ _ _ _ (rd_int_at h d t nh u c r s 0 1 Hd)). done.
Qed.
Lemma tot_done h d t nh u c r s : (4 ≤ length d)%nat →
  ip_tot_len (length h) (SkBuff h d t nh u c r s) = Done (tot_of d) (SkBuff h d t nh u c r s).
Proof. intros Hd. unfold ip_tot_len. by rewrite (bind_done _ _ _ _ _ (rd_int_at h d t nh u c r s 2 2 Hd)). Qed.
Lemma set_tot_done h d t nh u c r s z : (4 ≤ length d)%nat →
  set_tot_len (length h) z (SkBuff h d t nh u c r s) = Done tt (SkBuff h (with_tot z d) t nh u c r s).
Proof. intros Hd. apply wr_at. rewrite le_bytes_length. lia. Qed.
Lemma send_check_done h hdr rest t nh u c r s : ipv4 hdr →
  ip_send_check (length h) (SkBuff h (hdr ++ rest) t nh u c r s) =
    Done tt (SkBuff h (summed hdr ++ rest) t nh u c r s).
Proof.
  intros Hi. pose proof (ipv4_size _ Hi) as Hs. unfold ip_send_check.
  rewrite (bind_done _ _ _ tt _ (wr_at h (hdr ++ rest) t nh u c r s 10 [0; 0] ltac:(rewrite length_app; simpl; lia))).
  rewrite upd_bytes_app_l by (simpl; lia). unfold summed. set (z := upd_bytes 10 [0; 0] hdr).
  assert (length z = length hdr) as Hz by (unfold z; rewrite upd_bytes_length; simpl; lia).
  rewrite (bind_done _ _ _ _ _ (hlen_done h (z ++ rest) t nh u c r s ltac:(rewrite length_app; lia))).
  assert (hlen_of (z ++ rest) = length z) as ->.
  { rewrite Hz, (ipv4_length _ Hi). unfold hlen_of. rewrite take_app_le by lia. unfold z.
    rewrite upd_bytes_take by lia. done. }
  pose proof (rd_at h (z ++ rest) t nh u c r s 0 (length z) ltac:(rewrite length_app; lia)) as Er.
  rewrite Nat.add_0_r in Er. rewrite (bind_done _ _ _ _ _ Er). change (drop 0 (z ++ rest)) with (z ++ rest). rewrite take_app_length.
  rewrite wr_at by (rewrite length_app, le_bytes_length; lia).
  by rewrite upd_bytes_app_l by (rewrite le_bytes_length; lia).
Qed.

(** A packet as it reaches the module: at the front of its buffer an IP header as long as
    it says. *)
Record packet_of (v : sk_buff) (hdr payload : list Z) : Prop := {
  po_data : data v = hdr ++ payload;
  po_header : ipv4 hdr;
  po_network : network_header v = length (headroom v);
}.

(** Whether room for [n] bytes before the packet can be had. *)
Definition can_grow (n : nat) (v : sk_buff) : Prop :=
  (n ≤ length (headroom v) ∧ cloned v = false)%nat ∨ is_Some (expand_head (headroom v) n).

Lemma skb_cow_done n v : can_grow n v → network_header v = length (headroom v) →
  ∃ h, (n ≤ length h)%nat ∧ skb_cow n v =
    Done 0 (SkBuff h (data v) (tailroom v) (length h) (users v) false (skb_dst v) (ip_summed v)).
Proof.
  intros Hg Hn. unfold skb_cow. rewrite (bind_done _ _ _ v v) by done. case_decide as Hd.
  - destruct Hd as [Hl Hc]. exists (headroom v). split; [done|]. rewrite <- Hn, <- Hc. by destruct v.
  - destruct Hg as [?|[h Hh]]; [done|]. exists h. split; [by eapply expand_head_room|].
    rewrite Hh, Hn, Nat.sub_diag, Nat.add_0_r. done.
Qed.

(** A message that can be put into a packet. *)
Record sendable (msg : geosvr_nlmsg) (src nhop : Z) (route : list Z) : Prop := {
  sn_src : m_src msg = Some src;
  sn_nhop : m_nhop msg = Some nhop;
  sn_len : m_route_len msg = Z.of_nat (length route);
  sn_bytes : read 0 (length route) (bytes_of_text (m_route msg)) = Some route;
  sn_small : 20 + m_route_len msg < 2 ^ 31;
}.

(** The packet with a GeoSVR header. *)
Definition enclosed (hdr payload : list Z) (src dst : Z) (route : list Z) : list Z :=
  summed (with_tot (tot_of hdr + 20 + Z.of_nat (length route)) hdr) ++ geo_bytes src dst route ++ payload.

Lemma written_done {S A} (o : option A) a (s : S) : o = Some a → written o s = Done a s.
Proof. by intros ->. Qed.
Lemma within_done {S A} (o : option A) a (s : S) : o = Some a → within o s = Done a s.
Proof. by intros ->. Qed.

(** Writing behind the IP header. *)
Lemma wr_behind h hdr g rest t nh u c r s off bs : (off + length bs ≤ length g)%nat →
  wr (length h + length hdr + off) bs (SkBuff h (hdr ++ g ++ rest) t nh u c r s) =
    Done tt (SkBuff h (hdr ++ upd_bytes off bs g ++ rest) t nh u c r s).
Proof.
  intros Hl. rewrite <- Nat.add_assoc, wr_at by (rewrite !length_app; lia).
  by rewrite upd_bytes_app_r, upd_bytes_app_l.
Qed.

Lemma hlen_of_app hdr rest : (1 ≤ length hdr)%nat → hlen_of (hdr ++ rest) = hlen_of hdr.
Proof. intros Hl. unfold hlen_of. by rewrite take_app_le. Qed.
Lemma tot_of_app hdr rest : (4 ≤ length hdr)%nat → tot_of (hdr ++ rest) = tot_of hdr.
Proof.
  intros Hl. unfold tot_of. rewrite drop_app_le by lia. by rewrite take_app_le by (rewrite length_drop; lia).
Qed.
Lemma with_tot_app z hdr rest : (4 ≤ length hdr)%nat → with_tot z (hdr ++ rest) = with_tot z hdr ++ rest.
Proof. intros Hl. apply upd_bytes_app_l. rewrite le_bytes_length. lia. Qed.

(** The bytes written behind the header, from the zeros to the route. *)
Lemma fill_header {A} h hdr rest t nh u c r s n src dst route msg (k : M sk_buff A) :
  n = (20 + length route)%nat → m_src msg = Some src → m_route_len msg = Z.of_nat (length route) →
  m_dst msg = dst → read 0 (length route) (bytes_of_text (m_route msg)) = Some route →
  (_ ← wr (length h + length hdr) (le_bytes 4 (swap16 GEOSVR_HDR_PREFIX));
   _ ← wr (length h + length hdr + 4) (le_bytes 4 (swap16 GEOSVR_HDR_PREFIX));
   src ← written (m_src msg);
   _ ← wr (length h + length hdr + 8) (le_bytes 4 src);
   _ ← wr (length h + length hdr + 12) (le_bytes 4 (m_dst msg));
   _ ← wr (length h + length hdr + 16) (le_bytes 4 (m_route_len msg));
   route ← within (read 0 (Z.to_nat (m_route_len msg)) (bytes_of_text (m_route msg)));
   _ ← wr (length h + length hdr + 20) route; k) (SkBuff h (hdr ++ replicate n 0 ++ rest) t nh u c r s) =
  k (SkBuff h (hdr ++ geo_bytes src dst route ++ rest) t nh u c r s).
Proof.
  intros Hn Hsrc Hlen Hdst Hroute. set (p := le_bytes 4 (swap16 GEOSVR_HDR_PREFIX)).
  assert (∀ z, length (le_bytes 4 z) = 4%nat) as H4 by (intros; apply le_bytes_length).
  assert (length p = 4%nat) as Hp by apply H4.
  pose proof (wr_behind h hdr (replicate n 0) rest t nh u c r s 0 p
    ltac:(rewrite Hp, length_replicate; lia)) as E0.
  rewrite Nat.add_0_r in E0. rewrite (bind_done _ _ _ _ _ E0). clear E0.
  set (g0 := upd_bytes 0 p _).
  assert (length g0 = n) as L0 by (unfold g0; rewrite upd_bytes_length; rewrite length_replicate; lia).
  rewrite (bind_done _ _ _ _ _ (wr_behind _ _ g0 _ _ _ _ _ _ _ 4 p ltac:(lia))). set (g1 := upd_bytes 4 p g0).
  assert (length g1 = n) as L1 by (unfold g1; rewrite upd_bytes_length; lia).
  rewrite (bind_done _ _ _ _ _ (written_done _ _ _ Hsrc)).
  pose proof (H4 src) as Hs. pose proof (H4 (m_dst msg)) as Hd. pose proof (H4 (m_route_len msg)) as Hl.
  rewrite (bind_done _ _ _ _ _ (wr_behind _ _ g1 _ _ _ _ _ _ _ 8 (le_bytes 4 src) ltac:(lia))).
  set (g2 := upd_bytes 8 _ g1).
  assert (length g2 = n) as L2 by (unfold g2; rewrite upd_bytes_length; lia).
  rewrite (bind_done _ _ _ _ _ (wr_behind _ _ g2 _ _ _ _ _ _ _ 12 (le_bytes 4 (m_dst msg)) ltac:(lia))).
  set (g3 := upd_bytes 12 _ g2).
  assert (length g3 = n) as L3 by (unfold g3; rewrite upd_bytes_length; lia).
  rewrite (bind_done _ _ _ _ _ (wr_behind _ _ g3 _ _ _ _ _ _ _ 16 (le_bytes 4 (m_route_len msg)) ltac:(lia))).
  set (g4 := upd_bytes 16 _ g3).
  assert (length g4 = n) as L4 by (unfold g4; rewrite upd_bytes_length; lia).
  rewrite Hlen, Nat2Z.id in *. rewrite (bind_done _ _ _ _ _ (within_done _ _ _ Hroute)).
  rewrite (bind_done _ _ _ _ _ (wr_behind _ _ g4 _ _ _ _ _ _ _ 20 route ltac:(lia))).
  unfold g4, g3, g2, g1, g0, p. rewrite <- Hdst, Hlen. by rewrite geo_fill by done.
Qed.

Lemma skb_push_done n h d t nh u c r s : (n ≤ length h)%nat →
  skb_push n (SkBuff h d t nh u c r s) =
    Done tt (SkBuff (take (length h - n) h) (drop (length h - n) h ++ d) t nh u c r s).
Proof. intros Hn. unfold skb_push, mbind, M_bind, get, set_borders. simpl. by rewrite decide_True. Qed.

(** The IP header moves to the front of the packet, [n] bytes before its old place. *)
Lemma header_to_front h hdr payload t u r s n :
  ipv4 hdr → (n ≤ length h)%nat →
  ∃ h' g, length g = n ∧ ∀ A (k : nat → nat → M sk_buff A),
  (ohdr ← ip_hdr;
   _ ← skb_push n;
   _ ← skb_reset_network_header;
   nhdr ← ip_hdr;
   ohl ← ip_hlen ohdr;
   _ ← memmove nhdr ohdr ohl;
   nhl ← ip_hlen nhdr;
   k nhdr nhl) (SkBuff h (hdr ++ payload) t (length h) u false r s) =
  k (length h') (length hdr) (SkBuff h' (hdr ++ g ++ payload) t (length h') u false r s).
Proof.
  intros Hi Hh. pose proof (ipv4_size _ Hi) as Hs.
  set (h1 := take (length h - n) h). set (g := drop (length h - n) h).
  assert (length h1 + n = length h)%nat as Lh by (unfold h1; rewrite length_take; lia).
  assert (length g = n) as Lg by (unfold g; rewrite length_drop; lia).
  exists h1, (drop (length hdr) (g ++ hdr)). split; [rewrite length_drop, length_app; lia|]. intros A k.
  rewrite (bind_done _ _ _ (length h) (SkBuff h (hdr ++ payload) t (length h) u false r s)) by done.
  rewrite (bind_done _ _ _ _ _ (skb_push_done n h _ _ _ _ _ _ _ Hh)). fold h1 g.
  set (d := g ++ hdr ++ payload).
  assert (length d = n + length hdr + length payload)%nat as Ld by (unfold d; rewrite !length_app; lia).
  assert (drop n d = hdr ++ payload) as Hdrop by (unfold d; rewrite <- Lg; apply drop_app_length).
  rewrite (bind_done _ _ _ tt (SkBuff h1 d t (length h1) u false r s)) by done.
  rewrite (bind_done _ _ _ (length h1) (SkBuff h1 d t (length h1) u false r s)) by done.
  rewrite (bind_done (ip_hlen (length h)) _ _ (length hdr) (SkBuff h1 d t (length h1) u false r s)).
  2:{ unfold ip_hlen. rewrite <- Lh, (bind_done _ _ _ _ _ (rd_int_at h1 d t _ u false r s n 1 ltac:(lia))).
      rewrite Hdrop, (ipv4_length _ Hi). unfold hlen_of. by rewrite take_app_le by lia. }
  pose proof (memmove_at h1 d t (length h1) u false r s 0 n (length hdr) ltac:(lia) ltac:(lia)) as Em.
  rewrite Nat.add_0_r, Lh, Hdrop, take_app_length in Em. rewrite (bind_done _ _ _ _ _ Em). clear Em.
  assert (upd_bytes 0 hdr d = hdr ++ drop (length hdr) (g ++ hdr) ++ payload) as ->.
  { unfold upd_bytes, d. simpl. by rewrite (assoc_L app g), drop_app_le by (rewrite length_app; lia). }
  rewrite (bind_done _ _ _ _ _ (hlen_done h1 (hdr ++ drop (length hdr) (g ++ hdr) ++ payload) _ _ _ _ _ _
    ltac:(rewrite length_app; lia))).
  by rewrite hlen_of_app, <- (ipv4_length _ Hi) by lia.
Qed.

(** Encapsulating a packet that has one user: the header is moved to the front, and the
    GeoSVR header takes the place behind it; without a route to the next hop nothing is
    done after that. *)
Lemma encapsulate_spec v hdr payload msg src nhop route :
  packet_of v hdr payload → users v = 1 → sendable msg src nhop route → can_grow (20 + length route) v →
  ∃ h w, encapsulate msg v =
    match route_output nhop with
    | None => Done (-1) w
    | Some rt => Done 0 (SkBuff h (enclosed hdr payload src (m_dst msg) route) (tailroom v) (length h) 1 false
                           (Some rt) CHECKSUM_NONE)
    end.
Proof.
  intros [Hd Hi Hn] Hu [Hsrc Hnhop Hlen Hbytes Hsmall] Hg. pose proof (ipv4_size _ Hi) as Hs.
  unfold encapsulate. rewrite (bind_done _ _ _ v v) by done. cbv zeta. rewrite decide_False by lia.
  unfold u32. rewrite wrap_small by lia.
  replace (Z.to_nat (20 + m_route_len msg)) with (20 + length route)%nat by lia.
  destruct (skb_cow_done _ v Hg Hn) as (h & Hh & Ec). rewrite (bind_done _ _ _ _ _ Ec). clear Ec Hg.
  rewrite decide_False by lia. set (n := (20 + length route)%nat) in *. rewrite Hd, Hu.
  destruct (header_to_front h hdr payload (tailroom v) 1 (skb_dst v) (ip_summed v) n Hi Hh) as (h1 & g & Lg & ->).
  cbv beta.
  pose proof (wr_behind h1 hdr g payload (tailroom v) (length h1) 1 false (skb_dst v) (ip_summed v) 0
    (replicate n 0) ltac:(rewrite length_replicate; lia)) as Ez.
  rewrite Nat.add_0_r in Ez. rewrite (bind_done _ _ _ _ _ Ez). clear Ez.
  assert (upd_bytes 0 (replicate n 0) g = replicate n 0) as ->.
  { rewrite <- (app_nil_r g), upd_bytes_all, app_nil_r by (rewrite length_replicate; lia). done. }
  rewrite (fill_header h1 hdr payload _ _ _ _ _ _ n src (m_dst msg) route msg) by done.
  set (rest := geo_bytes src (m_dst msg) route ++ payload).
  assert (4 ≤ length (hdr ++ rest))%nat as Hl by (rewrite length_app; lia).
  rewrite (bind_done _ _ _ _ _ (tot_done h1 (hdr ++ rest) _ _ _ _ _ _ Hl)).
  rewrite (bind_done _ _ _ _ _ (set_tot_done h1 (hdr ++ rest) _ _ _ _ _ _ _ Hl)).
  rewrite tot_of_app, with_tot_app by lia. rewrite (bind_done _ _ _ _ _ (written_done _ _ _ Hnhop)).
  pose proof (ipv4_with_tot (tot_of hdr + 20 + m_route_len msg) _ Hi) as Hw.
  set (w := with_tot (tot_of hdr + 20 + m_route_len msg) hdr) in *.
  destruct (route_output nhop) as [rt|]; [|by eexists [], _].
  rewrite (bind_done _ _ _ tt (SkBuff h1 (w ++ rest) (tailroom v) (length h1) 1 false (Some rt) (ip_summed v))) by done.
  rewrite (bind_done _ _ _ (length h1) (SkBuff h1 (w ++ rest) (tailroom v) (length h1) 1 false (Some rt) (ip_summed v))) by done.
  rewrite (bind_done _ _ _ tt (SkBuff h1 (w ++ rest) (tailroom v) (length h1) 1 false (Some rt) CHECKSUM_NONE)) by done.
  rewrite (bind_done _ _ _ _ _ (send_check_done h1 w rest _ _ _ _ _ _ Hw)).
  exists h1, v. unfold enclosed, w, rest. by rewrite Hlen.
Qed.

(** Encapsulation always returns. *)
Lemma encapsulate_total v hdr payload msg src nhop route :
  packet_of v hdr payload → sendable msg src nhop route → ∃ r w, encapsulate msg v = Done r w.
Proof.
  intros Hv Hmsg. destruct (decide (users v = 1)) as [Hu|Hu].
  2:{ exists (-1), v. unfold encapsulate. rewrite (bind_done _ _ _ v v) by done. cbv zeta. by rewrite decide_True. }
  destruct (decide (can_grow (20 + length route) v)) as [Hg|Hg].
  { destruct (encapsulate_spec v hdr payload msg src nhop route Hv Hu Hmsg Hg) as (h & w & ->).
    destruct (route_output nhop); by eexists _, _. }
  exists (-1), v. unfold encapsulate. rewrite (bind_done _ _ _ v v) by done. cbv zeta. rewrite decide_False by lia.
  destruct Hmsg as [_ _ Hlen _ Hsm]. unfold u32. rewrite wrap_small by lia.
  replace (Z.to_nat (20 + m_route_len msg)) with (20 + length route)%nat by lia.
  rewrite (bind_done _ _ _ (-12) v); [done|]. unfold skb_cow. rewrite (bind_done _ _ _ v v) by done.
  unfold can_grow in Hg. rewrite decide_False by naive_solver.
  destruct (expand_head _ _) eqn:E; [|done]. destruct Hg. right. by eexists.
Qed.

(** Forwarding a packet without encapsulating it. *)
Lemma forward_done v hdr payload msg nhop :
  packet_of v hdr payload → m_nhop msg = Some nhop →
  ∃ w, forward msg v = Done (route_output nhop) w ∧
    ∀ rt, route_output nhop = Some rt →
      data w = summed (upd_bytes 4 (le_bytes 2 (select_ident hdr rt)) hdr) ++ payload.
Proof.
  intros [Hd Hi Hn] Hnhop. pose proof (ipv4_size _ Hi) as Hs. destruct v as [h d t nh u c r s].
  simpl in Hd, Hn. subst d nh. unfold forward. rewrite (bind_done _ _ _ _ _ (written_done _ _ _ Hnhop)).
  destruct (route_output nhop) as [rt|]; [|by eexists].
  rewrite (bind_done _ _ _ (length h) (SkBuff h (hdr ++ payload) t (length h) u c r s)) by done.
  rewrite (bind_done _ _ _ _ _ (hlen_done h (hdr ++ payload) _ _ _ _ _ _ ltac:(rewrite length_app; lia))).
  rewrite hlen_of_app, <- (ipv4_length _ Hi) by lia.
  pose proof (rd_at h (hdr ++ payload) t (length h) u c r s 0 (length hdr) ltac:(rewrite length_app; lia)) as Er.
  rewrite Nat.add_0_r in Er. rewrite (bind_done _ _ _ _ _ Er). change (drop 0 (hdr ++ payload)) with (hdr ++ payload).
  rewrite take_app_length. set (id := le_bytes 2 (select_ident hdr rt)).
  assert (length id = 2%nat) as Lid by apply le_bytes_length.
  rewrite (bind_done _ _ _ _ _ (wr_at h (hdr ++ payload) t _ u c r s 4 id ltac:(rewrite length_app; lia))).
  rewrite upd_bytes_app_l by lia. set (x := upd_bytes 4 id hdr).
  rewrite (bind_done _ _ _ tt (SkBuff h (x ++ payload) t (length h) u c (Some rt) s)) by done.
  rewrite (bind_done _ _ _ (length h) (SkBuff h (x ++ payload) t (length h) u c (Some rt) s)) by done.
  rewrite (bind_done _ _ _ tt (SkBuff h (x ++ payload) t (length h) u c (Some rt) CHECKSUM_NONE)) by done.
  assert (ipv4 x) as Hx by (apply ipv4_upd; [done|lia|lia|apply le_bytes_range]).
  rewrite (bind_done _ _ _ _ _ (send_check_done h x payload _ _ _ _ _ _ Hx)).
  eexists. split; [done|]. by intros ? [= <-].
Qed.

(** ** Decapsulation on the bytes *)

(** The move that closes the gap also moves as many bytes behind the packet as two headers
    have, and needs room for them. *)
Lemma close_gap h hdr g payload t nh u c r s :
  let v := SkBuff h (hdr ++ g ++ payload) t nh u c r s in
  let count := (length (hdr ++ g ++ payload) + length hdr - length g)%nat in
  ((2 * length hdr ≤ length t)%nat →
     ∃ x t', length x = length g ∧ length t' = length t ∧
       memmove (length h + length hdr) (length h + length hdr + length g) count v =
         Done tt (SkBuff h (hdr ++ payload ++ x) t' nh u c r s)) ∧
  ((length t < 2 * length hdr)%nat →
     memmove (length h + length hdr) (length h + length hdr + length g) count v = Stuck OutOfBounds).
Proof.
  intros v count. assert (count = 2 * length hdr + length payload)%nat as Hc by (unfold count; rewrite !length_app; lia).
  remember (2 * length hdr)%nat as k eqn:Hk.
  unfold memmove, rd, mbind, M_bind, get, buffer. simpl. unfold read.
  rewrite !length_app, Hc. split; intros Ht.
  2:{ by rewrite decide_False by lia. }
  rewrite decide_True by lia. cbn [within].
  assert (h ++ (hdr ++ g ++ payload) ++ t = (h ++ hdr ++ g) ++ payload ++ t) as -> by by rewrite <- !(assoc_L app).
  replace (length h + length hdr + length g)%nat with (length (h ++ hdr ++ g)) by (rewrite !length_app; lia).
  rewrite drop_app_length, take_app_ge by lia.
  replace (k + length payload - length payload)%nat with k by lia.
  set (y := take k t ++ drop (k + length payload) (g ++ payload ++ t)).
  assert (length y = length g + length t)%nat as Ly.
  { unfold y. rewrite length_app, length_take, length_drop, !length_app. lia. }
  assert (write (length h + length hdr) (payload ++ take k t) (buffer v)
          = Some (h ++ (hdr ++ payload ++ take (length g) y) ++ drop (length g) y)) as Ew.
  { unfold write, buffer, v. cbn [headroom data tailroom]. rewrite !length_app, length_take, decide_True by lia. f_equal.
    assert (h ++ (hdr ++ g ++ payload) ++ t = (h ++ hdr) ++ (g ++ payload ++ t)) as -> by by rewrite <- !(assoc_L app).
    rewrite <- (length_app h), <- (Nat.add_0_r (length (h ++ hdr))), upd_bytes_app_r. unfold upd_bytes.
    cbn [take app]. rewrite length_app, length_take.
    replace (0 + (length payload + k `min` length t))%nat with (k + length payload)%nat by lia.
    rewrite <- !(assoc_L app), take_drop. done. }
  exists (take (length g) y), (drop (length g) y).
  split; [rewrite length_take; lia|]. split; [rewrite length_drop; lia|].
  unfold wr, mbind, M_bind, get, mret, M_ret. rewrite Ew. cbn [within]. unfold put. f_equal.
  change v with (set_borders h (hdr ++ g ++ payload) t v) at 1. rewrite set_buffer_data; [done|].
  rewrite !length_app, length_take. lia.
Qed.

Lemma cut_header_done h hdr g payload t nh u c r s : ipv4 hdr →
  let v := SkBuff h (hdr ++ g ++ payload) t nh u c r s in
  ((2 * length hdr ≤ length t)%nat →
     ∃ t', length t' = (length t + length g)%nat ∧
       cut_header (length hdr) (length g) v =
         Done tt (SkBuff h (summed (with_tot (tot_of hdr - Z.of_nat (length g)) hdr) ++ payload) t' (length h) u c r s)) ∧
  ((length t < 2 * length hdr)%nat → cut_header (length hdr) (length g) v = Stuck OutOfBounds).
Proof.
  intros Hi v. pose proof (ipv4_size _ Hi) as Hs.
  destruct (close_gap h hdr g payload t nh u c r s) as [Hok Hbad].
  unfold cut_header. rewrite (bind_done _ _ _ v v) by done. unfold v. cbv zeta. cbn [headroom data].
  split; intros Ht; [|unfold mbind at 1, M_bind at 1; by rewrite (Hbad Ht)].
  destruct (Hok Ht) as (x & t' & Lx & Lt & E). rewrite (bind_done _ _ _ _ _ E). clear E Hok Hbad.
  exists (x ++ t'). split; [rewrite length_app; lia|].
  rewrite (bind_done (skb_trim _) _ _ tt (SkBuff h (hdr ++ payload) (x ++ t') nh u c r s)).
  2:{ unfold skb_trim, modify, set_borders. simpl. rewrite (assoc_L app hdr payload x).
      replace (length (hdr ++ g ++ payload) - length g)%nat with (length (hdr ++ payload)) by (rewrite !length_app; lia).
      by rewrite take_app_length, drop_app_length. }
  rewrite (bind_done _ _ _ tt (SkBuff h (hdr ++ payload) (x ++ t') (length h) u c r s)) by done.
  rewrite (bind_done _ _ _ (length h) (SkBuff h (hdr ++ payload) (x ++ t') (length h) u c r s)) by done.
  assert (4 ≤ length (hdr ++ payload))%nat as Hl by (rewrite length_app; lia).
  rewrite (bind_done _ _ _ _ _ (tot_done h _ _ _ _ _ _ _ Hl)).
  rewrite (bind_done _ _ _ _ _ (set_tot_done h _ _ _ _ _ _ _ _ Hl)).
  rewrite tot_of_app, with_tot_app by lia.
  apply send_check_done. by apply ipv4_with_tot.
Qed.

(** The members of a GeoSVR header. *)
Lemma geo_word src dst route : let g := geo_bytes src dst route in
  take 4 g = le_bytes 4 (swap16 GEOSVR_HDR_PREFIX) ∧ take 4 (drop 4 g) = le_bytes 4 (swap16 GEOSVR_HDR_PREFIX) ∧
  take 4 (drop 8 g) = le_bytes 4 src ∧ take 4 (drop 12 g) = le_bytes 4 dst ∧
  take 4 (drop 16 g) = le_bytes 4 (Z.of_nat (length route)) ∧ drop 20 g = route.
Proof. split_and!; done. Qed.

Lemma rd_int_behind h hdr g rest t nh u c r s off n z : (off + n ≤ length g)%nat →
  take n (drop off g) = le_bytes n z →
  rd_int (length h + length hdr + off) n (SkBuff h (hdr ++ g ++ rest) t nh u c r s) =
    Done (z `mod` 2 ^ (8 * Z.of_nat n)) (SkBuff h (hdr ++ g ++ rest) t nh u c r s).
Proof.
  intros Hl Hz. rewrite <- Nat.add_assoc, rd_int_at by (rewrite !length_app; lia).
  rewrite drop_app_add, drop_app_le, take_app_le by (rewrite ?length_drop; lia).
  by rewrite Hz, le_value_bytes.
Qed.

(** A packet with a GeoSVR header that nobody else uses. *)
Record carries (k : kernel) (p : addr) (h hdr payload t : list Z) (src dst : Z) (route : list Z)
    (r : option Z) (s : Z) : Prop := {
  ca_nonnull : p ≠ NULL;
  ca_packet : k_skbs k !! p = Some (SkBuff h (hdr ++ geo_bytes src dst route ++ payload) t (length h) 1 false r s);
  ca_header : ipv4 hdr;
  ca_small : 20 + Z.of_nat (length route) < 2 ^ 31;
}.

Lemma own_packet_alone k p v : p ≠ NULL → k_skbs k !! p = Some v → users v = 1 → cloned v = false →
  own_packet p k = Done p k.
Proof.
  intros Hp Hv Hu Hc. unfold own_packet. rewrite (bind_done _ _ _ _ _ (deref_skb _ _ _ Hp Hv)).
  by rewrite decide_False by (rewrite Hu, Hc; naive_solver).
Qed.

Lemma has_encapsulated_done k p h hdr payload t src dst route r s :
  carries k p h hdr payload t src dst route r s → geosvr_ip_has_encapsulated p k = Done true k.
Proof.
  intros [Hp Hv Hi Hs]. pose proof (ipv4_size _ Hi) as Hsz. unfold geosvr_ip_has_encapsulated.
  rewrite (bind_done _ _ _ _ _ (own_packet_alone _ _ _ Hp Hv eq_refl eq_refl)), decide_False by done.
  apply (on_skb_read _ _ _ _ _ Hp Hv). set (g := geo_bytes src dst route) in *.
  pose proof (geo_bytes_length src dst route) as Lg. fold g in Lg.
  destruct (geo_word src dst route) as (Hp0 & Hp1 & _).
  rewrite (bind_done _ _ _ (length h) (SkBuff h (hdr ++ g ++ payload) t (length h) 1 false r s)) by done.
  rewrite (bind_done _ _ _ _ _ (hlen_done h (hdr ++ g ++ payload) _ _ _ _ _ _ ltac:(rewrite length_app; lia))).
  rewrite hlen_of_app, <- (ipv4_length _ Hi) by lia.
  pose proof (rd_int_behind h hdr g payload t (length h) 1 false r s 0 4 _ ltac:(lia) Hp0) as E0.
  rewrite Nat.add_0_r in E0. rewrite (bind_done _ _ _ _ _ E0).
  rewrite decide_True by done.
  by rewrite (bind_done _ _ _ _ _ (rd_int_behind h hdr g payload t (length h) 1 false r s 4 4 _ ltac:(lia) Hp1)).
Qed.

Lemma kmalloc_done b k a : malloc (dom (k_blocks k)) = Some a →
  kmalloc b k = Done a (set_blocks (<[a := b]> (k_blocks k)) k).
Proof. intros Ha. unfold kmalloc. rewrite (bind_done _ _ _ k k) by done. by rewrite Ha. Qed.
Lemma malloc_nonnull X a : malloc X = Some a → a ≠ NULL ∧ a ∉ X.
Proof. intros Hm. split; apply (malloc_fresh _ _ Hm). Qed.

(** What the receiver of an encapsulated packet is left with. *)
Lemma decapsulate_done k p h hdr payload t src dst route r s a :
  carries k p h hdr payload t src dst route r s → malloc (dom (k_blocks k)) = Some a →
  let n := Z.of_nat (20 + length route) in
  ((2 * length hdr ≤ length t)%nat →
     ∃ t', length t' = (length t + 20 + length route)%nat ∧
       geosvr_ip_decapsulate p k =
         Done a (set_skbs (<[p := SkBuff h (summed (with_tot (tot_of hdr - n) hdr) ++ payload) t' (length h) 1 false r s]> (k_skbs k))
                   (set_blocks (<[a := HdrBlock (geo_bytes src dst route)]> (k_blocks k)) k))) ∧
  ((length t < 2 * length hdr)%nat → geosvr_ip_decapsulate p k = Stuck OutOfBounds).
Proof.
  intros [Hp Hv Hi Hsm] Ha n. pose proof (ipv4_size _ Hi) as Hsz.
  destruct (malloc_nonnull _ _ Ha) as [Ha0 _]. set (g := geo_bytes src dst route) in *.
  pose proof (geo_bytes_length src dst route) as Lg. fold g in Lg.
  set (v := SkBuff h (hdr ++ g ++ payload) t (length h) 1 false r s) in *.
  assert (length (hdr ++ g ++ payload) = length hdr + length g + length payload)%nat as Ld by (rewrite !length_app; lia).
  unfold geosvr_ip_decapsulate.
  rewrite (bind_done _ _ _ _ _ (own_packet_alone _ _ _ Hp Hv eq_refl eq_refl)), decide_False by done.
  assert (ip_hlen (length h) v = Done (length hdr) v) as Eh.
  { unfold v. rewrite hlen_done by lia. by rewrite hlen_of_app, <- (ipv4_length _ Hi) by lia. }
  assert (geosvr_hdr_len v = Done ((length h + length hdr)%nat, n) v) as Elen.
  { unfold geosvr_hdr_len. rewrite (bind_done _ _ _ (length h) v) by done. rewrite (bind_done _ _ _ _ _ Eh). cbv zeta.
    destruct (geo_word src dst route) as (_ & _ & _ & _ & Hw & _).
    unfold v. rewrite (bind_done _ _ _ _ _ (rd_int_behind h hdr g payload t _ _ _ _ _ 16 4 _ ltac:(lia) Hw)).
    rewrite Z.mod_small by lia. unfold s32. rewrite swrap_small by lia. unfold n, mret, M_ret. do 2 f_equal. lia. }
  rewrite (bind_done _ _ _ _ _ (on_skb_read _ _ _ _ _ Hp Hv Elen)).
  rewrite (bind_done _ _ _ _ _ (deref_skb _ _ _ Hp Hv)).
  rewrite decide_True by (unfold u32; rewrite wrap_small by lia; change (data v) with (hdr ++ g ++ payload); lia). cbv zeta.
  replace (Z.to_nat n) with (length g) by lia.
  assert (rd (length h + length hdr) (length g) v = Done g v) as Erd.
  { unfold v. rewrite rd_at by lia. by rewrite drop_app_length, take_app_length. }
  rewrite (bind_done _ _ _ _ _ (on_skb_read _ _ _ _ _ Hp Hv Erd)).
  rewrite (bind_done _ _ _ _ _ (kmalloc_done _ _ _ Ha)), decide_False by done.
  set (k1 := set_blocks _ k). change (k_skbs k) with (k_skbs k1) in Hv.
  rewrite (bind_done _ _ _ (length hdr) k1).
  2:{ apply (on_skb_read _ _ _ _ _ Hp Hv). by rewrite (bind_done _ _ _ (length h) v). }
  destruct (cut_header_done h hdr g payload t (length h) 1 false r s Hi) as [Hok Hbad]. fold v in Hok, Hbad.
  split; intros Ht.
  - destruct (Hok Ht) as (t' & Lt & Ec). rewrite (bind_done _ _ _ _ _ (on_skb_done _ _ _ _ _ _ Hp Hv Ec)).
    exists t'. split; [lia|]. by rewrite Lg.
  - unfold mbind at 1, M_bind at 1. by rewrite (on_skb_stuck _ _ _ _ _ Hp Hv (Hbad Ht)).
Qed.

(** C19. A packet that one node encapsulates is recovered by the next: its header comes out
    with the source, the destination and the route of the message, its payload is as it
    was, and so is its IP header but for the checksum, which is correct again.  The buffer
    at the receiver needs room for two more headers behind the packet; without it memory
    beyond the buffer is accessed. *)
Theorem encapsulation_roundtrip v hdr payload msg src nhop rt route k p h t r s a
    (Hv : packet_of v hdr payload) (Hu : users v = 1) (Hmsg : sendable msg src nhop route) (Hrt : route_output nhop = Some rt)
    (Hg : can_grow (20 + length route) v) (Hp : p ≠ NULL) (Ha : malloc (dom (k_blocks k)) = Some a) :
  ∃ w, encapsulate msg v = Done 0 w ∧ skb_dst w = Some rt ∧
    (k_skbs k !! p = Some (SkBuff h (data w) t (length h) 1 false r s) →
     geosvr_ip_has_encapsulated p k = Done true k ∧
     ((2 * length hdr ≤ length t)%nat →
        ∃ t' k', geosvr_ip_decapsulate p k = Done a k' ∧
          k_blocks k' !! a = Some (HdrBlock (geo_bytes src (m_dst msg) route)) ∧
          k_skbs k' !! p = Some (SkBuff h (summed hdr ++ payload) t' (length h) 1 false r s)) ∧
     ((length t < 2 * length hdr)%nat → geosvr_ip_decapsulate p k = Stuck OutOfBounds)).
Proof.
  destruct (encapsulate_spec v hdr payload msg src nhop route Hv Hu Hmsg Hg) as (hw & ? & Ew). rewrite Hrt in Ew.
  eexists. split; [exact Ew|]. split; [done|]. cbn [data]. intros Hk.
  set (z := tot_of hdr + 20 + Z.of_nat (length route)) in *.
  assert (ipv4 (with_tot z hdr)) as Hi by apply ipv4_with_tot, Hv.
  assert (carries k p h (summed (with_tot z hdr)) payload t src (m_dst msg) route r s) as Hc.
  { split; [done|done|by apply ipv4_summed|]. destruct Hmsg. lia. }
  split; [by eapply has_encapsulated_done|].
  destruct (decapsulate_done _ _ _ _ _ _ _ _ _ _ _ a Hc Ha) as [Hok Hbad].
  pose proof (ipv4_size _ (po_header _ _ _ Hv)) as Hs. destruct Hv as [Hd Hh Hn].
  assert (length (summed (with_tot z hdr)) = length hdr) as Ll.
  { rewrite summed_length by (rewrite with_tot_length; lia). apply with_tot_length. lia. }
  rewrite Ll in Hok, Hbad. split; [|exact Hbad]. intros Ht. destruct (Hok Ht) as (t' & _ & Ed).
  exists t'. eexists. split; [exact Ed|]. split; [apply lookup_insert_eq|]. simpl.
  rewrite lookup_insert_eq. do 3 f_equal. rewrite tot_of_summed by (rewrite with_tot_length; lia).
  rewrite tot_of_with_tot by lia. rewrite (with_tot_ext _ (tot_of hdr)); [by apply summed_undo|].
  unfold u16. replace z with (tot_of hdr + Z.of_nat (20 + length route)) by lia.
  unfold wrap. by rewrite Zminus_mod_idemp_l, Z.add_simpl_r.
Qed.
End spec.

(** ** A small network

    The Internet checksum, and one route for every destination. *)
Fixpoint sum_words (l : list Z) : Z :=
  match l with a :: b :: l => a + 256 * b + sum_words l | [a] => a | [] => 0 end.
Definition fold_sum (z : Z) : Z := z mod 65536 + z / 65536.
Lemma zeros_room (h : list Z) n h' : Some (replicate n 0) = Some h' → (n ≤ length h')%nat.
Proof. intros [= <-]. by rewrite length_replicate. Qed.
Definition demo_net : Kernel := {|
  ip_fast_csum l := 65535 - fold_sum (fold_sum (sum_words l));
  expand_head _ n := Some (replicate n 0);
  route_output _ := Some 7;
  select_ident _ _ := 0;
  expand_head_room := zeros_room |}.

(** A datagram of 28 bytes from 10.0.0.1 to 10.0.0.3, and the message for it with the next
    hop 10.0.0.2 and the route [5,6]. *)
Definition demo_header : list Z := [69; 0; 0; 28; 0; 1; 0; 0; 64; 17; 0; 0; 10; 0; 0; 1; 10; 0; 0; 3].
Definition demo_payload : list Z := [4; 210; 4; 211; 0; 8; 0; 0].
Definition demo_skb : sk_buff := SkBuff (replicate 16 0) (demo_header ++ demo_payload) (replicate 64 0) 16 1 false None 0.
Definition demo_nlmsg : geosvr_nlmsg :=
  NlMsg GEOSVR_RSP_SEND GEOSVR_NL_MSG_REQ_SEND (Some 0) (Some (le_value [10; 0; 0; 1])) (le_value [10; 0; 0; 3])
    (Some (le_value [10; 0; 0; 2])) (Some 0) None None 3 (text_of_bytes [53; 44; 54]).

Lemma demo_header_ok : ipv4 demo_header.
Proof. split; [repeat (constructor; [lia|]); constructor|done|simpl; lia]. Qed.
Lemma demo_packet_of : packet_of demo_skb demo_header demo_payload.
Proof. split; [done|apply demo_header_ok|done]. Qed.

(** The packet on the wire, where the next node finds it. *)
Definition demo_received : kernel :=
  Kern {[1%N := SkBuff [] (enclosed (H := demo_net) demo_header demo_payload (le_value [10; 0; 0; 1])
                  (le_value [10; 0; 0; 3]) [53; 44; 54]) (replicate 64 0) 0 1 false None 0]} ∅ [] 0 0 None [].

Lemma encapsulation_roundtrip_witness :
  ∃ t' k', geosvr_ip_decapsulate (H := demo_net) (H0 := bump_allocator false) 1 demo_received = Done 1%N k' ∧
    k_blocks k' !! 1%N = Some (HdrBlock (geo_bytes (le_value [10; 0; 0; 1]) (le_value [10; 0; 0; 3]) [53; 44; 54])) ∧
    k_skbs k' !! 1%N = Some (SkBuff [] (summed (H := demo_net) demo_header ++ demo_payload) t' 0 1 false None 0).
Proof.
  destruct (encapsulation_roundtrip (H := demo_net) (H0 := bump_allocator false) demo_skb demo_header demo_payload
    demo_nlmsg (le_value [10; 0; 0; 1]) (le_value [10; 0; 0; 2]) 7 [53; 44; 54] demo_received 1 [] (replicate 64 0)
    None 0 1%N) as (w & Ew & _ & Hw).
  - apply demo_packet_of.
  - done.
  - by split.
  - done.
  - right. by eexists.
  - done.
  - done.
  - assert (data w = enclosed (H := demo_net) demo_header demo_payload (le_value [10; 0; 0; 1]) (le_value [10; 0; 0; 3]) [53; 44; 54]) as Hd.
    { vm_compute in Ew. injection Ew as <-. vm_compute. reflexivity. }
    destruct (Hw ltac:(rewrite Hd; reflexivity)) as (_ & Hok & _).
    destruct (Hok ltac:(simpl; lia)) as (t' & k' & E & Hb & Hs). exists t', k'. split; [exact E|]. split; [exact Hb|exact Hs].
Defined.
