(* ===== verification/KernQueue.v ===== *)
(** * The queue of the kernel module

    [system/kernel_mod/geosvr_queue.c] and [geosvr_netlink.c]: packets wait for the
    daemon's answer; an answer sends the packets for its destination, or drops them. *)
From Stdlib Require Import Ascii.
From S2P Require Import Prelude Double Daemon Wire Scan RoutingManager Skb KernState.
From S2P Require Import Ipenc.
Open Scope Z_scope.

(** [queue_maxlen] *)
Definition GEOSVR_QUEUE_MAX_DEFAULT : Z := 1024.
Definition ENOSPC : Z := -28.
Definition ENOMEM : Z := -12.
Definition EINVAL : Z := -22.
Definition EPERM : Z := -1.
Definition EBUSY : Z := -16.
Definition ECOMM : Z := -70.

Section queue.
Context `{Kernel, Allocator, NlLayout}.

(** [list_add]: the newest entry is the first. *)
(* [system/kernel_mod/geosvr_queue.c:37-51] __geosvr_queue_enqueue_entry *)
Definition queue_enqueue_entry (e : addr) : M kernel Z :=
  k ← get;
  if decide (GEOSVR_QUEUE_MAX_DEFAULT ≤ queue_total k) then mret ENOSPC
  else
    _ ← put (set_queue (e :: queue_list k) (u32 (queue_total k + 1)) k);
    mret 0.

(** The comparison a search makes; [None] accepts every entry. *)
Abbreviation cmpfn := (option (queue_entry → M kernel bool)).

(** [list_for_each_prev]: from the oldest entry; [l] is the list from its end. *)
Fixpoint find_prev (cmp : cmpfn) (l : list addr) : M kernel addr :=
  match l with
  | [] => mret NULL
  | a :: l =>
      match cmp with
      | None => mret a
      | Some f => e ← the_entry a; r ← f e; if (r : bool) then mret a else find_prev cmp l
      end
  end.
(* [system/kernel_mod/geosvr_queue.c:53-65] __geosvr_queue_find_entry *)
Definition queue_find_entry (cmp : cmpfn) : M kernel addr :=
  l ← gets queue_list; find_prev cmp (reverse l).

(** The lock is held. *)
(* [system/kernel_mod/geosvr_queue.c:67-80] __geosvr_queue_find_dequeue_entry *)
Definition queue_find_dequeue_entry (cmp : cmpfn) : M kernel addr :=
  e ← queue_find_entry cmp;
  if decide (e = NULL) then mret NULL
  else
    _ ← modify (λ k, set_queue (filter (λ a, a ≠ e) (queue_list k)) (u32 (queue_total k - 1)) k);
    mret e.

(** The entry of the queue is freed with its packet. *)
Fixpoint flush_loop (fuel : nat) : M kernel unit :=
  match fuel with
  | O => stuck NoFuel
  | S fuel =>
      e ← queue_find_dequeue_entry None;
      if decide (e = NULL) then skip
      else
        q ← the_entry e;
        _ ← kfree_skb (qe_skb q);
        _ ← kfree e;
        flush_loop fuel
  end.
(* [system/kernel_mod/geosvr_queue.c:82-97] __geosvr_queue_flush *)
Definition geosvr_queue_flush : M kernel unit :=
  l ← gets queue_list; flush_loop (S (length l)).

(* [system/kernel_mod/geosvr_queue.c:119-148] geosvr_queue_enqueue_packet *)
Definition geosvr_queue_enqueue_packet (skb : addr) (okfn : Z) : M kernel Z :=
  e ← kmalloc (EntryBlock (QueueEntry skb okfn));
  if decide (e = NULL) then mret ENOMEM
  else
    status ← queue_enqueue_entry e;
    if decide (status < 0) then _ ← kfree e; mret status
    else mret status.

(* [system/kernel_mod/geosvr_queue.c:150-155] dest_cmp *)
Definition dest_cmp (daddr : Z) (e : queue_entry) : M kernel bool :=
  d ← on_skb (qe_skb e) (iph ← ip_hdr; ip_daddr iph);
  mret (bool_decide (daddr = d)).

(* [system/kernel_mod/geosvr_queue.c:157-172] geosvr_queue_find *)
Definition geosvr_queue_find (daddr : Z) : M kernel Z :=
  e ← queue_find_entry (Some (dest_cmp daddr));
  mret (if decide (e = NULL) then 0 else 1).

(** Calling [okfn] of an entry. *)
Definition call_okfn (q : queue_entry) : M kernel unit :=
  hand_on (qe_skb q) (λ v, OkFn (qe_okfn q) (data v) (skb_dst v)).

(** One packet of the loop below. *)
(* [system/kernel_mod/geosvr_queue.c:186-212] geosvr_queue_send_pkt *)
Definition send_entry (msg : geosvr_nlmsg) (q : queue_entry) : M kernel unit :=
  if decide (m_route_len msg = 0) then
    if decide (m_req_type msg = GEOSVR_NL_MSG_REQ_SEND) then call_okfn q
    else _ ← geosvr_ip_forward (qe_skb q) msg; skip
  else
    res ← geosvr_ip_encapsulate (qe_skb q) msg;
    if decide (res < 0) then kfree_skb (qe_skb q) else call_okfn q.

Fixpoint send_loop (fuel : nat) (msg : geosvr_nlmsg) (pkts : Z) : M kernel Z :=
  match fuel with
  | O => stuck NoFuel
  | S fuel =>
      e ← queue_find_dequeue_entry (Some (dest_cmp (m_dst msg)));
      if decide (e = NULL) then mret pkts
      else
        q ← the_entry e;
        _ ← send_entry msg q;
        _ ← kfree e;
        send_loop fuel msg (s32 (pkts + 1))
  end.
(* [system/kernel_mod/geosvr_queue.c:174-216] geosvr_queue_send_pkt *)
Definition geosvr_queue_send_pkt (msg : geosvr_nlmsg) : M kernel Z :=
  l ← gets queue_list; send_loop (S (length l)) msg 0.

Fixpoint drop_loop (fuel : nat) (daddr : Z) (pkts : Z) : M kernel Z :=
  match fuel with
  | O => stuck NoFuel
  | S fuel =>
      e ← queue_find_dequeue_entry (Some (dest_cmp daddr));
      if decide (e = NULL) then mret pkts
      else
        q ← the_entry e;
        v ← deref k_skbs (qe_skb q);
        _ ← log (HostUnreach (data v));
        _ ← kfree_skb (qe_skb q);
        _ ← kfree e;
        drop_loop fuel daddr (s32 (pkts + 1))
  end.
(* [system/kernel_mod/geosvr_queue.c:218-238] geosvr_queue_drop_pkt *)
Definition geosvr_queue_drop_pkt (daddr : Z) : M kernel Z :=
  l ← gets queue_list; drop_loop (S (length l)) daddr 0.

(* [system/kernel_mod/geosvr_queue.c:240-245] geosvr_queue_init *)
Definition geosvr_queue_init : M kernel Z :=
  _ ← modify (λ k, set_queue (queue_list k) 0 k); mret 1.
(* [system/kernel_mod/geosvr_queue.c:247-251] geosvr_queue_fini *)
Definition geosvr_queue_fini : M kernel unit := geosvr_queue_flush.

(** ** The daemon's messages *)

(* [system/kernel_mod/geosvr_netlink.c:51-81] geosvr_netlink_recv_peer *)
Definition geosvr_netlink_recv_peer (type : Z) (msg : geosvr_nlmsg) (len : Z) : M kernel Z :=
  if decide (type = GEOSVR_RSP_SEND) then
    if decide (u32 len < sizeof_nlmsg) then mret EINVAL
    else _ ← geosvr_queue_send_pkt msg; mret 0
  else if decide (type = GEOSVR_RSP_DROP) then
    if decide (u32 len < sizeof_nlmsg) then mret EINVAL
    else _ ← geosvr_queue_drop_pkt (m_dst msg); mret 0
  else mret 0.

Definition NLM_F_MULTI : Z := 2.
Definition NLM_F_ACK : Z := 4.
Definition MSG_TRUNC : Z := 32.

(** [skblen] is the size of the datagram, [denied] the verdict of the security module on
    its sender. *)
(* [system/kernel_mod/geosvr_netlink.c:96-143] geosvr_netlink_rcv_skb *)
Definition geosvr_netlink_rcv_skb (denied : bool) (skblen : Z) (nlh : nlmsghdr) : M kernel unit :=
  let nlmsglen := s32 (nlmsg_len nlh) in
  let pid := s32 (nlmsg_pid nlh) in
  let flags := nlmsg_flags nlh in
  let fail err := log (NlAck err) in
  if decide (u32 skblen < 16) then skip
  else if decide (u32 nlmsglen < 16 ∨ skblen < nlmsglen) then skip
  else if decide (pid ≤ 0 ∨ Z.land flags NLM_F_REQUEST = 0 ∨ Z.land flags NLM_F_MULTI ≠ 0) then fail EINVAL
  else if decide (Z.land flags MSG_TRUNC ≠ 0) then fail ECOMM
  else if denied then fail EPERM
  else
    peer ← gets peer_pid;
    if decide (peer ≠ 0 ∧ peer ≠ pid) then fail EBUSY
    else
      _ ← (if decide (peer = 0) then modify (set_peer pid) else skip);
      status ← geosvr_netlink_recv_peer (nlmsg_type nlh) (nlmsg_data nlh) (skblen - NLMSG_LENGTH 0);
      if decide (status < 0) then fail status
      else if decide (Z.land flags NLM_F_ACK ≠ 0) then log (NlAck 0)
      else skip.

(** The message stays allocated.  [room] tells whether a buffer for it can be had. *)
(* [system/kernel_mod/geosvr_netlink.c:175-209] geosvr_netlink_req_normal *)
Definition geosvr_netlink_req_normal (room : bool) (req_type src dst route_len : Z) (route : list Z)
    : M kernel unit :=
  let pad := Z.to_nat (sizeof_nlmsg - route_offset) in
  let m := NlMsg GEOSVR_PRI_NORMAL (u8 req_type) (Some 1) (Some src) dst (Some 0) (Some 0)
             (Some d_zero) (Some d_zero) 0 (text_of_bytes (replicate (Z.to_nat route_len + pad) 0)) in
  a ← kmalloc (MsgBlock m);
  if decide (a = NULL) then skip
  else
    m ← (if decide (req_type = GEOSVR_NL_MSG_TYPE_FORWARD) then
           r ← within (read 0 (Z.to_nat route_len) route);
           mret (NlMsg (m_priority m) (m_req_type m) (m_info_mask m) (m_src m) dst (m_nhop m) (m_roadid m)
                   (m_lat m) (m_lon m) route_len (text_of_bytes (r ++ replicate pad 0)))
         else mret m);
    _ ← modify (λ k, set_blocks (<[a := MsgBlock m]> (k_blocks k)) k);
    if room then log (Broadcast (m_priority m) m) else skip.
End queue.

(** ** What waits

    The packets in the queue, oldest first. *)
Record pending := Pending { pe_entry : addr; pe_okfn : Z; pe_skb : addr; pe_pkt : sk_buff }.
Definition entry_of (p : pending) : queue_entry := QueueEntry (pe_skb p) (pe_okfn p).
Definition pe_dest (p : pending) : Z := dest_of (data (pe_pkt p)).

Definition in_memory (k : kernel) (p : pending) : Prop :=
  pe_entry p ≠ NULL ∧ pe_skb p ≠ NULL ∧ k_blocks k !! pe_entry p = Some (EntryBlock (entry_of p)) ∧
  k_skbs k !! pe_skb p = Some (pe_pkt p) ∧ ∃ hdr payload, packet_of (pe_pkt p) hdr payload.

Record queued (k : kernel) (ps : list pending) : Prop := {
  qu_list : queue_list k = reverse (pe_entry <$> ps);
  qu_entries : NoDup (pe_entry <$> ps);
  qu_skbs : NoDup (pe_skb <$> ps);
  qu_memory : ∀ p, p ∈ ps → in_memory k p;
  qu_total : queue_total k = Z.of_nat (length ps);
  qu_max : Z.of_nat (length ps) ≤ GEOSVR_QUEUE_MAX_DEFAULT;
}.

(** All that a step on one packet leaves alone. *)
Definition only_skb (k k' : kernel) (skb : addr) (acts : list action) : Prop :=
  k_blocks k' = k_blocks k ∧ queue_list k' = queue_list k ∧ queue_total k' = queue_total k ∧
  peer_pid k' = peer_pid k ∧ ifip k' = ifip k ∧ k_log k' = reverse acts ++ k_log k ∧
  ∀ a, a ≠ skb → k_skbs k' !! a = k_skbs k !! a.

Section queue_spec.
Context `{Kernel, Allocator, NlLayout}.

Lemma daddr_done k p : in_memory k p →
  on_skb (pe_skb p) (iph ← ip_hdr; ip_daddr iph) k = Done (pe_dest p) k.
Proof.
  intros (_ & Hn & _ & Hs & hdr & payload & [Hd Hi Hnh]). apply (on_skb_read _ _ _ _ _ Hn Hs).
  pose proof (ipv4_size _ Hi). unfold pe_dest, dest_of in *. destruct (pe_pkt p) as [h d t nh u c r s].
  simpl in Hd, Hnh. subst d nh. rewrite (bind_done _ _ _ (length h) (SkBuff h (hdr ++ payload) t (length h) u c r s)) by done.
  apply rd_int_at. rewrite length_app. lia.
Qed.

(** A comparison that selects packets by [sel]. *)
Definition selects (cmp : option (queue_entry → M kernel bool)) (sel : pending → bool) : Prop :=
  match cmp with
  | None => ∀ p, sel p = true
  | Some f => ∀ k p, in_memory k p → f (entry_of p) k = Done (sel p) k
  end.

Lemma dest_cmp_selects d : selects (Some (dest_cmp d)) (λ p, bool_decide (d = pe_dest p)).
Proof.
  intros k p Hp. unfold dest_cmp. cbn [qe_skb entry_of]. by rewrite (bind_done _ _ _ _ _ (daddr_done k p Hp)).
Qed.

Lemma find_prev_none cmp sel k ps : selects cmp sel → (∀ p, p ∈ ps → in_memory k p) →
  (∀ p, p ∈ ps → sel p = false) → find_prev cmp (pe_entry <$> ps) k = Done NULL k.
Proof.
  intros Hc. induction ps as [|p ps IH]; intros Hm Hs; [done|]. cbn [fmap list_fmap find_prev].
  destruct (Hm p ltac:(by left)) as (Hn & _ & Hb & _ & _).
  destruct cmp as [f|]; [|exfalso; specialize (Hs p ltac:(by left)); cbn in Hc; specialize (Hc p); congruence].
  assert (the_entry (pe_entry p) k = Done (entry_of p) k) as Ee.
  { unfold the_entry. by rewrite (bind_done _ _ _ _ _ (deref_block _ _ _ Hn Hb)). }
  rewrite (bind_done _ _ _ _ _ Ee), (bind_done _ _ _ _ _ (Hc k p ltac:(apply Hm; by left))).
  rewrite (Hs p) by (by left). apply IH; intros q Hq; [apply Hm|apply Hs]; by right.
Qed.
Lemma find_prev_some cmp sel k ps1 p ps2 : selects cmp sel → (∀ q, q ∈ ps1 ++ p :: ps2 → in_memory k q) →
  (∀ q, q ∈ ps1 → sel q = false) → sel p = true →
  find_prev cmp (pe_entry <$> ps1 ++ p :: ps2) k = Done (pe_entry p) k.
Proof.
  intros Hc. induction ps1 as [|q ps1 IH]; intros Hm Hs Hp; cbn [app fmap list_fmap find_prev].
  - destruct cmp as [f|]; [|done]. destruct (Hm p ltac:(by left)) as (Hn & _ & Hb & _ & _).
    rewrite (bind_done _ _ _ (entry_of p) k).
    2:{ unfold the_entry. by rewrite (bind_done _ _ _ _ _ (deref_block _ _ _ Hn Hb)). }
    by rewrite (bind_done _ _ _ _ _ (Hc k p ltac:(apply Hm; by left))), Hp.
  - destruct (Hm q ltac:(by left)) as (Hn & _ & Hb & _ & _).
    destruct cmp as [f|]; [|exfalso; specialize (Hs q ltac:(by left)); cbn in Hc; specialize (Hc q); congruence].
    rewrite (bind_done _ _ _ (entry_of q) k).
    2:{ unfold the_entry. by rewrite (bind_done _ _ _ _ _ (deref_block _ _ _ Hn Hb)). }
    rewrite (bind_done _ _ _ _ _ (Hc k q ltac:(apply Hm; by left))), (Hs q) by (by left).
    apply IH; [|by intros r Hr; apply Hs; right|done]. intros r Hr. apply Hm. by right.
Qed.

(** The queue after a packet left it and its entry was freed. *)
Lemma queued_removed k k' ps1 p ps2 : queued k (ps1 ++ p :: ps2) →
  queue_list k' = filter (λ a, a ≠ pe_entry p) (queue_list k) → queue_total k' = u32 (queue_total k - 1) →
  k_blocks k' = delete (pe_entry p) (k_blocks k) →
  (∀ a, a ≠ pe_skb p → k_skbs k' !! a = k_skbs k !! a) → queued k' (ps1 ++ ps2).
Proof.
  intros [Hl He Hs Hm Ht Hx] Hl' Ht' Hb' Hs'. rewrite fmap_app, fmap_cons in He, Hs.
  assert (∀ q, q ∈ ps1 ++ ps2 → q ∈ ps1 ++ p :: ps2) as Hin.
  { intros q. rewrite !elem_of_app, elem_of_cons. tauto. }
  assert (pe_entry p ∉ pe_entry <$> ps1 ++ ps2) as Hne.
  { rewrite fmap_app, elem_of_app. apply NoDup_app in He as (_ & Hd & Hc). apply NoDup_cons in Hc as [Hc _].
    intros [Ha|Ha]; [|done]. apply (Hd _ Ha). by left. }
  assert (pe_skb p ∉ pe_skb <$> ps1 ++ ps2) as Hns.
  { rewrite fmap_app, elem_of_app. apply NoDup_app in Hs as (_ & Hd & Hc). apply NoDup_cons in Hc as [Hc _].
    intros [Ha|Ha]; [|done]. apply (Hd _ Ha). by left. }
  rewrite length_app in Ht, Hx. simpl in Ht, Hx. unfold GEOSVR_QUEUE_MAX_DEFAULT in *.
  split.
  - rewrite Hl', Hl, filter_reverse. f_equal. rewrite !fmap_app, fmap_cons, filter_app, filter_cons_False by naive_solver.
    rewrite fmap_app in Hne. rewrite <- filter_app. apply list_filter_same. intros a Ha ->. done.
  - rewrite fmap_app. apply NoDup_app in He as (N1 & N2 & N3). apply NoDup_app. split_and!; [done| |apply NoDup_cons in N3; tauto].
    intros a Ha Hb. apply (N2 a Ha). by right.
  - rewrite fmap_app. apply NoDup_app in Hs as (N1 & N2 & N3). apply NoDup_app. split_and!; [done| |apply NoDup_cons in N3; tauto].
    intros a Ha Hb. apply (N2 a Ha). by right.
  - intros q Hq. destruct (Hm q (Hin q Hq)) as (Hn & Hk & Hb & Hv & Hp). split_and!; try done.
    + rewrite Hb', lookup_delete_ne; [done|]. intros E. apply Hne. rewrite E. by apply list_elem_of_fmap_2.
    + rewrite Hs'; [done|]. intros E. apply Hns. rewrite <- E. by apply list_elem_of_fmap_2.
  - rewrite Ht', Ht, length_app. unfold u32. rewrite wrap_small by lia. lia.
  - rewrite length_app. unfold GEOSVR_QUEUE_MAX_DEFAULT. lia.
Qed.

(** ** The loops that empty the queue

    All of them take the oldest packet they select, act on it, and free its entry. *)
Fixpoint serve (fuel : nat) (cmp : option (queue_entry → M kernel bool)) (act : queue_entry → M kernel unit)
    (pkts : Z) : M kernel Z :=
  match fuel with
  | O => stuck NoFuel
  | S fuel =>
      e ← queue_find_dequeue_entry cmp;
      if decide (e = NULL) then mret pkts
      else
        q ← the_entry e;
        _ ← act q;
        _ ← kfree e;
        serve fuel cmp act (s32 (pkts + 1))
  end.

Definition drop_entry (q : queue_entry) : M kernel unit :=
  v ← deref k_skbs (qe_skb q); _ ← log (HostUnreach (data v)); kfree_skb (qe_skb q).

Lemma send_loop_serve fuel msg n k :
  send_loop fuel msg n k = serve fuel (Some (dest_cmp (m_dst msg))) (send_entry msg) n k.
Proof.
  revert n k. induction fuel as [|fuel IH]; intros n k; [done|]. cbn [send_loop serve].
  apply bind_ext; [done|]. intros e k1. case_decide; [done|].
  apply bind_ext; [done|]. intros q k2. apply bind_ext; [done|]. intros _ k3.
  apply bind_ext; [done|]. intros _ k4. apply IH.
Qed.
Lemma drop_loop_serve fuel d n k : drop_loop fuel d n k = serve fuel (Some (dest_cmp d)) drop_entry n k.
Proof.
  revert n k. induction fuel as [|fuel IH]; intros n k; [done|]. cbn [drop_loop serve].
  apply bind_ext; [done|]. intros e k1. case_decide; [done|].
  apply bind_ext; [done|]. intros q k2. unfold drop_entry. rewrite !bind_assoc_at.
  apply bind_ext; [done|]. intros v k3. rewrite !bind_assoc_at. apply bind_ext; [done|]. intros _ k4.
  apply bind_ext; [done|]. intros _ k5. apply bind_ext; [done|]. intros _ k6. apply IH.
Qed.

(** An action that handles any packet of the queue, doing [acts] with it. *)
Definition handles (i : option if_info) (act : queue_entry → M kernel unit) (acts : pending → list action) : Prop :=
  ∀ k p, in_memory k p → ifip k = i → ∃ k', act (entry_of p) k = Done tt k' ∧ only_skb k k' (pe_skb p) (acts p).

Abbreviation chosen sel ps := (filter (λ p, sel p = true) ps).
Abbreviation left_over sel ps := (filter (λ p, sel p = false) ps).

Lemma dequeue_spec cmp sel k ps : selects cmp sel → queued k ps →
  (chosen sel ps = [] ∧ left_over sel ps = ps ∧ queue_find_dequeue_entry cmp k = Done NULL k) ∨
  ∃ ps1 p ps2, ps = ps1 ++ p :: ps2 ∧ chosen sel ps = p :: chosen sel (ps1 ++ ps2) ∧
    left_over sel ps = left_over sel (ps1 ++ ps2) ∧
    queue_find_dequeue_entry cmp k =
      Done (pe_entry p) (set_queue (filter (λ a, a ≠ pe_entry p) (queue_list k)) (u32 (queue_total k - 1)) k).
Proof.
  intros Hc Hq. unfold queue_find_dequeue_entry, queue_find_entry.
  assert (reverse (queue_list k) = pe_entry <$> ps) as Hl by (rewrite (qu_list _ _ Hq); apply reverse_involutive).
  destruct (list_find (λ p, sel p = true) ps) as [[j p]|] eqn:Ef.
  - right. apply list_find_Some in Ef as (Hj & Hp & Hbefore).
    exists (take j ps), p, (drop (S j) ps). rewrite <- (take_drop_middle ps j p Hj) at 1.
    assert (∀ q, q ∈ take j ps → sel q = false) as Hb.
    { intros q (m & Hm)%list_elem_of_lookup. pose proof (lookup_lt_Some _ _ _ Hm) as Hlt. rewrite length_take in Hlt.
      rewrite lookup_take_lt in Hm by lia. apply not_true_is_false. eapply Hbefore; [exact Hm|lia]. }
    assert (ps = take j ps ++ p :: drop (S j) ps) as Hps by (by rewrite take_drop_middle).
    set (ps1 := take j ps) in *. set (ps2 := drop (S j) ps) in *. rewrite Hps.
    assert (chosen sel ps1 = []) as Hn1.
    { apply list_filter_none. intros q Hq1. rewrite (Hb q Hq1). done. }
    split; [done|]. rewrite !filter_app, Hn1, filter_cons_True, filter_cons_False by (done || by rewrite Hp).
    split_and!; [done|done|].
    rewrite (bind_done _ _ _ (pe_entry p) k).
    2:{ rewrite (bind_done _ _ _ (queue_list k) k) by done. rewrite Hl, Hps.
        apply (find_prev_some cmp sel); [done| |done|done]. rewrite <- Hps. apply Hq. }
    rewrite decide_False; [done|]. apply (qu_memory _ _ Hq p). rewrite Hps. apply elem_of_app. right. by left.
  - left. apply list_find_None in Ef. rewrite Forall_forall in Ef.
    assert (∀ q, q ∈ ps → sel q = false) as Hb by (intros q Hin; by apply not_true_is_false, Ef).
    split; [apply list_filter_none; intros q Hin; by rewrite (Hb q Hin)|].
    split; [by apply list_filter_same|].
    rewrite (bind_done _ _ _ NULL k); [done|]. rewrite (bind_done _ _ _ (queue_list k) k) by done. rewrite Hl.
    apply (find_prev_none cmp sel); [done| |done]. apply Hq.
Qed.

Lemma serve_spec cmp sel act acts i fuel n k ps :
  selects cmp sel → handles i act acts → queued k ps → ifip k = i → (length ps < fuel)%nat →
  0 ≤ n → n + Z.of_nat (length ps) < 2 ^ 31 →
  ∃ k', serve fuel cmp act n k = Done (n + Z.of_nat (length (chosen sel ps))) k' ∧ queued k' (left_over sel ps) ∧
    ifip k' = i ∧ peer_pid k' = peer_pid k ∧ k_log k' = reverse (chosen sel ps ≫= acts) ++ k_log k ∧
    ∀ a, a ∉ pe_skb <$> chosen sel ps → k_skbs k' !! a = k_skbs k !! a.
Proof.
  intros Hc Ha. revert n k ps. induction fuel as [|fuel IH]; [lia|]. intros n k ps Hq Hi Hf Hn Hmax. cbn [serve].
  destruct (dequeue_spec cmp sel k ps Hc Hq) as [(Hch & Hlo & Ed)|(ps1 & p & ps2 & Hps & Hch & Hlo & Ed)];
    rewrite (bind_done _ _ _ _ _ Ed).
  - rewrite decide_True by done. exists k. rewrite Hch, Hlo. split; [|done].
    unfold mret, M_ret. simpl. do 2 f_equal. lia.
  - assert (in_memory k p) as Hp by (apply Hq; rewrite Hps; apply elem_of_app; right; by left).
    set (k1 := set_queue _ _ k). assert (in_memory k1 p) as Hp1 by exact Hp.
    destruct Hp as (Hpn & _ & Hb & _ & _). rewrite decide_False by done.
    rewrite (bind_done (the_entry _) _ _ (entry_of p) k1).
    2:{ unfold the_entry. by rewrite (bind_done _ _ _ _ _ (deref_block _ k1 _ Hpn Hb)). }
    destruct (Ha k1 p Hp1 Hi) as (k2 & Ek2 & Hb2 & Hl2 & Ht2 & Hpeer2 & Hi2 & Hlog2 & Hs2).
    rewrite (bind_done _ _ _ _ _ Ek2).
    assert (kfree (pe_entry p) k2 = Done tt (set_blocks (delete (pe_entry p) (k_blocks k2)) k2)) as Ek.
    { unfold kfree. rewrite (bind_done _ _ _ (EntryBlock (entry_of p)) k2); [done|].
      apply deref_block; [done|]. by rewrite Hb2. }
    rewrite (bind_done _ _ _ _ _ Ek). set (k3 := set_blocks _ k2).
    assert (queued k3 (ps1 ++ ps2)) as Hq3.
    { subst ps. eapply queued_removed; [exact Hq|..].
      - done.
      - done.
      - unfold k3. simpl. by rewrite Hb2.
      - intros a Hne. simpl. by rewrite Hs2. }
    assert (length ps = S (length (ps1 ++ ps2))) as Hlen by (rewrite Hps, !length_app; simpl; lia).
    rewrite Hlen in Hf, Hmax. unfold s32. rewrite swrap_small by lia.
    destruct (IH (n + 1) k3 (ps1 ++ ps2) Hq3) as (k' & E & Hq' & Hi' & Hpeer' & Hlog' & Hs'); [simpl; rewrite Hi2; exact Hi|lia|lia|lia|].
    exists k'. rewrite E, Hch, Hlo. split; [f_equal; cbn [length]; lia|]. split_and!; try done.
    + rewrite Hpeer'. simpl. by rewrite Hpeer2.
    + rewrite Hlog'. simpl. rewrite Hlog2. simpl. by rewrite reverse_app, (assoc_L app).
    + intros a Hna. rewrite fmap_cons, not_elem_of_cons in Hna. destruct Hna as [Hne Hna].
      rewrite Hs' by done. simpl. by rewrite Hs2.
Qed.

(** ** What the actions do *)

Lemma hand_on_done p act k v : p ≠ NULL → k_skbs k !! p = Some v →
  hand_on p act k = Done tt (set_log (act v :: k_log k) (set_skbs (delete p (k_skbs k)) k)).
Proof. intros Hp Hv. unfold hand_on. by rewrite (bind_done _ _ _ _ _ (deref_skb _ _ _ Hp Hv)). Qed.
Lemma kfree_skb_done p k v : p ≠ NULL → k_skbs k !! p = Some v →
  ∃ m, kfree_skb p k = Done tt (set_skbs m k) ∧ ∀ a, a ≠ p → m !! a = k_skbs k !! a.
Proof.
  intros Hp Hv. unfold kfree_skb. rewrite (bind_done _ _ _ _ _ (deref_skb _ _ _ Hp Hv)). case_decide.
  - eexists. split; [done|]. intros a Ha. by rewrite lookup_delete_ne.
  - eexists. split; [done|]. intros a Ha. by rewrite lookup_insert_ne.
Qed.

(** A message that can be acted on: its next hop is known, and its route is there. *)
Definition answer_ok (msg : geosvr_nlmsg) : Prop :=
  if decide (m_route_len msg = 0) then m_req_type msg = GEOSVR_NL_MSG_REQ_SEND ∨ is_Some (m_nhop msg)
  else ∃ src nhop route, sendable msg src nhop route.

(** What is done with a packet when the answer is to send it; a packet that cannot be
    encapsulated is freed, and one that cannot be forwarded is forgotten. *)
Definition release (msg : geosvr_nlmsg) (p : pending) : list action :=
  let v := pe_pkt p in
  if decide (m_route_len msg = 0) then
    if decide (m_req_type msg = GEOSVR_NL_MSG_REQ_SEND) then [OkFn (pe_okfn p) (data v) (skb_dst v)]
    else match forward msg v with Done (Some rt) w => [DstOutput (data w) rt] | _ => [] end
  else match encapsulate msg v with
       | Done r w => if decide (r < 0) then [] else [OkFn (pe_okfn p) (data w) (skb_dst w)]
       | _ => []
       end.

Lemma handles_send msg i : answer_ok msg → handles (Some i) (send_entry msg) (release msg).
Proof.
  intros Hok k p (Hpn & Hsn & Hb & Hs & hdr & payload & Hv) Hi. unfold send_entry, release, answer_ok in *.
  assert (∀ k1 v1, k_skbs k1 !! pe_skb p = Some v1 →
    ∃ k', call_okfn (entry_of p) k1 = Done tt k' ∧ only_skb k1 k' (pe_skb p) [OkFn (pe_okfn p) (data v1) (skb_dst v1)])
    as Hcall.
  { intros k1 v1 Hv1. eexists. split; [by apply hand_on_done|]. split_and!; try done.
    intros a Ha. simpl. by rewrite lookup_delete_ne. }
  destruct (decide (m_route_len msg = 0)) as [H0'|H0'].
  - destruct (decide (m_req_type msg = GEOSVR_NL_MSG_REQ_SEND)) as [Hr|Hr]; [by apply Hcall|].
    destruct Hok as [?|[nhop Hn]]; [done|].
    destruct (forward_done _ _ _ msg nhop Hv Hn) as (w & Ew & _). rewrite Ew. unfold geosvr_ip_forward.
    rewrite bind_assoc_at, (bind_done _ _ _ (ifip k) k) by done. rewrite Hi. cbn [qe_skb entry_of].
    rewrite bind_assoc_at, (bind_done _ _ _ _ _ (on_skb_done _ _ _ _ _ _ Hsn Hs Ew)).
    destruct (route_output nhop) as [rt|].
    + rewrite bind_assoc_at.
      rewrite (bind_done _ _ _ _ _ (hand_on_done _ _ _ w Hsn (lookup_insert_eq _ _ _))).
      eexists. split; [done|]. split_and!; try done. intros a Ha. simpl.
      by rewrite lookup_delete_ne, lookup_insert_ne.
    + eexists. split; [done|]. split_and!; try done. intros a Ha. simpl. by rewrite lookup_insert_ne.
  - destruct Hok as (src & nhop & route & Hsend).
    destruct (encapsulate_total _ _ _ _ _ _ _ Hv Hsend) as (r & w & Ew). rewrite Ew.
    unfold geosvr_ip_encapsulate. rewrite (bind_done _ _ _ r (set_skbs (<[pe_skb p := w]> (k_skbs k)) k)).
    2:{ rewrite (bind_done _ _ _ (ifip k) k) by done. rewrite Hi. by apply (on_skb_done _ _ _ (pe_pkt p)). }
    set (k1 := set_skbs _ k). assert (k_skbs k1 !! pe_skb p = Some w) as Hw by apply lookup_insert_eq.
    destruct (decide (r < 0)).
    + destruct (kfree_skb_done _ k1 w Hsn Hw) as (m & Em & Hm). cbn [qe_skb entry_of]. rewrite Em.
      eexists. split; [done|]. split_and!; try done. intros a Ha. simpl. rewrite Hm by done. simpl. by rewrite lookup_insert_ne.
    + destruct (Hcall k1 w Hw) as (k' & E' & F). exists k'. split; [done|].
      destruct F as (F1 & F2 & F3 & F4 & F5 & F6 & F7). split_and!; try done.
      intros a Ha. rewrite F7 by done. simpl. by rewrite lookup_insert_ne.
Qed.

Lemma handles_drop i : handles i drop_entry (λ p, [HostUnreach (data (pe_pkt p))]).
Proof.
  intros k p (Hpn & Hsn & Hb & Hs & _) Hi. unfold drop_entry. cbn [qe_skb entry_of].
  rewrite (bind_done _ _ _ _ _ (deref_skb _ _ _ Hsn Hs)).
  set (k1 := set_log (HostUnreach (data (pe_pkt p)) :: k_log k) k).
  rewrite (bind_done _ _ _ tt k1) by done.
  destruct (kfree_skb_done _ k1 _ Hsn Hs) as (m & Em & Hm). eexists. split; [exact Em|].
  split_and!; try done.
Qed.

(** The packets for [d] are acted on in the order of their arrival, and the others stay. *)
Definition served (k k' : kernel) (ps : list pending) (d : Z) (acts : pending → list action) : Prop :=
  let mine := filter (λ p, pe_dest p = d) ps in
  queued k' (filter (λ p, pe_dest p ≠ d) ps) ∧ k_log k' = reverse (mine ≫= acts) ++ k_log k ∧
  ifip k' = ifip k ∧ peer_pid k' = peer_pid k ∧ ∀ a, a ∉ pe_skb <$> mine → k_skbs k' !! a = k_skbs k !! a.

Lemma served_loop k ps i d act acts : queued k ps → ifip k = i → handles i act acts →
  ∃ k', serve (S (length (queue_list k))) (Some (dest_cmp d)) act 0 k =
    Done (Z.of_nat (length (filter (λ p, pe_dest p = d) ps))) k' ∧ served k k' ps d acts.
Proof.
  intros Hq Hi Ha.
  assert (length (queue_list k) = length ps) as Hl by (rewrite (qu_list _ _ Hq), length_reverse; apply length_fmap).
  pose proof (qu_max _ _ Hq) as Hmax. unfold GEOSVR_QUEUE_MAX_DEFAULT in Hmax.
  destruct (serve_spec (Some (dest_cmp d)) (λ p, bool_decide (d = pe_dest p)) act acts i (S (length ps)) 0 k ps)
    as (k' & E & Hq' & Hi' & Hp' & Hlog & Hs); try done; [apply dest_cmp_selects|lia|lia|].
  assert (chosen (λ p, bool_decide (d = pe_dest p)) ps = filter (λ p, pe_dest p = d) ps) as Ec.
  { apply list_filter_iff. intros p. rewrite bool_decide_eq_true. naive_solver. }
  assert (left_over (λ p, bool_decide (d = pe_dest p)) ps = filter (λ p, pe_dest p ≠ d) ps) as El.
  { apply list_filter_iff. intros p. rewrite bool_decide_eq_false. naive_solver. }
  rewrite Ec in *. rewrite El in Hq'. exists k'. rewrite Hl, E. split; [done|]. split_and!; try done. by rewrite Hi'.
Qed.

Lemma send_pkt_served k ps i msg : queued k ps → ifip k = Some i → answer_ok msg →
  ∃ k', geosvr_queue_send_pkt msg k = Done (Z.of_nat (length (filter (λ p, pe_dest p = m_dst msg) ps))) k' ∧
    served k k' ps (m_dst msg) (release msg).
Proof.
  intros Hq Hi Hok. unfold geosvr_queue_send_pkt. rewrite (bind_done _ _ _ (queue_list k) k), send_loop_serve by done.
  by apply (served_loop _ _ (Some i)), handles_send.
Qed.
Lemma drop_pkt_served k ps d : queued k ps →
  ∃ k', geosvr_queue_drop_pkt d k = Done (Z.of_nat (length (filter (λ p, pe_dest p = d) ps))) k' ∧
    served k k' ps d (λ p, [HostUnreach (data (pe_pkt p))]).
Proof.
  intros Hq. unfold geosvr_queue_drop_pkt. rewrite (bind_done _ _ _ (queue_list k) k), drop_loop_serve by done.
  by apply (served_loop _ _ (ifip k)), handles_drop.
Qed.

(** C20. An answer of the daemon is served in full: every packet that waits for its
    destination is handled once, in the order of arrival, and the others keep waiting in
    their order.  To send them means to hand them on as they are, to forward them, or to
    encapsulate them, as the answer says; to drop them means one ICMP message for each. *)
Theorem answer_served k ps i msg len (Hq : queued k ps) (Hi : ifip k = Some i)
    (Hlen : sizeof_nlmsg ≤ len < 2 ^ 32) :
  (answer_ok msg → ∃ k', geosvr_netlink_recv_peer GEOSVR_RSP_SEND msg len k = Done 0 k' ∧
     served k k' ps (m_dst msg) (release msg)) ∧
  ∃ k', geosvr_netlink_recv_peer GEOSVR_RSP_DROP msg len k = Done 0 k' ∧
    served k k' ps (m_dst msg) (λ p, [HostUnreach (data (pe_pkt p))]).
Proof.
  pose proof nl_layout_ok as Hlay. unfold geosvr_netlink_recv_peer, u32. rewrite wrap_small by lia.
  rewrite !(decide_True (P := GEOSVR_RSP_SEND = GEOSVR_RSP_SEND)) by done.
  rewrite (decide_False (P := GEOSVR_RSP_DROP = GEOSVR_RSP_SEND)) by done.
  rewrite (decide_True (P := GEOSVR_RSP_DROP = GEOSVR_RSP_DROP)) by done.
  rewrite !(decide_False (P := len < sizeof_nlmsg)) by lia. split.
  - intros Hok. destruct (send_pkt_served k ps i msg Hq Hi Hok) as (k' & E & Hs).
    exists k'. by rewrite (bind_done _ _ _ _ _ E).
  - destruct (drop_pkt_served k ps (m_dst msg) Hq) as (k' & E & Hs). exists k'. by rewrite (bind_done _ _ _ _ _ E).
Qed.
End queue_spec.

(** ** A queue with one packet *)
#[local] Existing Instances demo_net nl_i386.
#[local] Instance demo_memory : Allocator := bump_allocator false.

Definition demo_eth0 : if_info := IfInfo (le_value [10; 0; 0; 1]) (le_value [10; 0; 0; 255]) 2.
Definition demo_pending : pending := Pending 1 9 1 demo_skb.
Definition demo_queue : kernel :=
  Kern {[1%N := demo_skb]} {[1%N := EntryBlock (QueueEntry 1 9)]} [1%N] 1 0 (Some demo_eth0) [].

Lemma demo_queued : queued demo_queue [demo_pending].
Proof.
  split; try done; [apply NoDup_singleton|apply NoDup_singleton|].
  intros p ->%list_elem_of_singleton. split_and!; try done. exists demo_header, demo_payload. apply demo_packet_of.
Qed.
Lemma demo_answer_ok : answer_ok demo_nlmsg.
Proof. exists (le_value [10; 0; 0; 1]), (le_value [10; 0; 0; 2]), [53; 44; 54]. by split. Qed.

Lemma demo_len : sizeof_nlmsg ≤ 43 < 2 ^ 32.
Proof. by vm_compute. Qed.

Lemma answer_served_witness :
  (∃ k', geosvr_netlink_recv_peer GEOSVR_RSP_SEND demo_nlmsg 43 demo_queue = Done 0 k' ∧
     served demo_queue k' [demo_pending] (m_dst demo_nlmsg) (release demo_nlmsg)) ∧
  ∃ k', geosvr_netlink_recv_peer GEOSVR_RSP_DROP demo_nlmsg 43 demo_queue = Done 0 k' ∧
    served demo_queue k' [demo_pending] (m_dst demo_nlmsg) (λ p, [HostUnreach (data (pe_pkt p))]).
Proof.
  destruct (answer_served demo_queue [demo_pending] demo_eth0 demo_nlmsg 43 demo_queued eq_refl demo_len)
    as [Hsend Hdrop]. split; [apply Hsend, demo_answer_ok|exact Hdrop].
Defined.

(** What leaves the module: the packet, with the header and the route before its payload. *)
Example demo_release : release demo_nlmsg demo_pending =
  [OkFn 9 (enclosed demo_header demo_payload (le_value [10; 0; 0; 1]) (le_value [10; 0; 0; 3]) [53; 44; 54]) (Some 7)].
Proof. vm_compute. reflexivity. Qed.
