(* ===== verification/Netfilter.v ===== *)
(** * The netfilter hook

    [system/kernel_mod/geosvr_mod.c]: what the module does with every packet that arrives
    at the host or leaves it, and loading and unloading the module. *)
From Stdlib Require Import Ascii.
From S2P Require Import Prelude Double Daemon Wire Scan RoutingManager Skb KernState.
From S2P Require Import Ipenc KernQueue.
Open Scope Z_scope.

Inductive hooknum := NF_INET_PRE_ROUTING | NF_INET_LOCAL_OUT.
#[global] Instance hooknum_eq_dec : EqDecision hooknum.
Proof. solve_decision. Defined.
Inductive verdict := NF_DROP | NF_ACCEPT | NF_STOLEN.
#[global] Instance verdict_eq_dec : EqDecision verdict.
Proof. solve_decision. Defined.

Definition IPPROTO_TCP : Z := 6.
Definition IPPROTO_UDP : Z := 17.
Definition GPSD_PORT : Z := 2947.
Definition INADDR_BROADCAST : Z := 2 ^ 32 - 1.
Definition IN_MULTICAST (a : Z) : bool := bool_decide (Z.land a (15 * 2 ^ 28) = 14 * 2 ^ 28).

Section hook.
Context `{Kernel, Allocator, NlLayout}.

(** Traffic of gpsd, which is let through: both ports are read when the first is
    another. *)
(* [system/kernel_mod/geosvr_mod.c:53-69] geosvr_hook *)
Definition to_gpsd : M sk_buff bool :=
  iph ← ip_hdr;
  proto ← ip_protocol iph;
  if decide (proto = IPPROTO_UDP ∨ proto = IPPROTO_TCP) then
    hl ← ip_hlen iph;
    dest ← rd_int (iph + hl + 2) 2;
    if decide (swap16 dest = GPSD_PORT) then mret true
    else
      source ← rd_int (iph + hl) 2;
      mret (bool_decide (swap16 source = GPSD_PORT))
  else mret false.

(** What is done with a packet for one host.  [ifaddr] is the address of the interface,
    and [room] tells whether a message to the daemon can be built. *)
(* [system/kernel_mod/geosvr_mod.c:102-133] geosvr_hook *)
Definition hook_switch (room : bool) (hook : hooknum) (skb : addr) (ifaddr okfn : Z) : M kernel verdict :=
  match hook with
  | NF_INET_PRE_ROUTING =>
      enc ← geosvr_ip_has_encapsulated skb;
      if (enc : bool) then
        geo_hdr ← geosvr_ip_decapsulate skb;
        iph ← on_skb skb ip_hdr;
        if decide (geo_hdr = NULL) then mret NF_ACCEPT
        else
          daddr ← on_skb skb (ip_daddr iph);
          if decide (daddr = ifaddr) then _ ← kfree geo_hdr; mret NF_ACCEPT
          else
            _ ← geosvr_queue_enqueue_packet skb okfn;
            hdr ← the_header geo_hdr;
            src ← within (load 8 4 hdr);
            dst ← within (load 12 4 hdr);
            route_len ← within (load 16 4 hdr);
            _ ← geosvr_netlink_req_normal room GEOSVR_NL_MSG_TYPE_FORWARD src dst route_len (drop 20 hdr);
            mret NF_STOLEN
      else mret NF_ACCEPT
  | NF_INET_LOCAL_OUT =>
      _ ← geosvr_queue_enqueue_packet skb okfn;
      saddr ← on_skb skb (iph ← ip_hdr; ip_saddr iph);
      daddr ← on_skb skb (iph ← ip_hdr; ip_daddr iph);
      _ ← geosvr_netlink_req_normal room GEOSVR_NL_MSG_TYPE_SEND saddr daddr 0 [];
      mret NF_STOLEN
  end.

(** [dev] is the device of the hook and [bcast] the parameter of the module. *)
(* [system/kernel_mod/geosvr_mod.c:40-134] geosvr_hook *)
Definition geosvr_hook (bcast : option Z) (room : bool) (hook : hooknum) (skb : addr) (dev okfn : Z)
    : M kernel verdict :=
  gpsd ← on_skb skb to_gpsd;
  if (gpsd : bool) then mret NF_ACCEPT
  else
    i ← gets ifip;
    match i with
    | None => stuck NullDeref
    | Some i =>
        let ours := bool_decide (if_ifindex i = dev) in
        let ifaddr := if ours then if_addr i else 0 in
        let bcaddr := if ours then bc_addr i else 0 in
        daddr ← on_skb skb (iph ← ip_hdr; ip_daddr iph);
        if bool_decide (daddr = INADDR_BROADCAST) || IN_MULTICAST (swap32 daddr) || bool_decide (daddr = bcaddr)
        then
          match bcast with
          | None => mret NF_ACCEPT
          | Some bcast_addr =>
              saddr ← on_skb skb (iph ← ip_hdr; ip_saddr iph);
              mret (if decide (saddr = bcast_addr ∨ saddr = ifaddr) then NF_ACCEPT else NF_DROP)
          end
        else hook_switch room hook skb ifaddr okfn
    end.

(** ** Loading and unloading *)

(** [ifa] is the address of the device's own label, if it has one; without, the members
    keep what was in the memory. *)
(* [system/kernel_mod/geosvr_mod.h:14-47] if_info_add *)
Definition if_info_add (ifindex : Z) (ifa : option (Z * Z)) (memory : option (Z * Z)) : M kernel Z :=
  match memory with
  | None => mret (-1)
  | Some junk =>
      let a := default junk ifa in
      _ ← modify (set_ifip (Some (IfInfo a.1 a.2 ifindex))); mret 0
  end.

(** [netlink], [hook0] and [hook1] tell whether the kernel grants the socket and the
    hooks. *)
(* [system/kernel_mod/geosvr_mod.c:159-208] geosvr_linux_init *)
Definition geosvr_linux_init (netlink hook0 hook1 : bool) (memory : option (Z * Z))
    (dev : option (Z * option (Z * Z))) : M kernel Z :=
  ret ← geosvr_queue_init;
  if decide (ret < 0) then mret ret
  else if negb netlink then _ ← geosvr_queue_fini; mret (-1)
  else if negb hook0 then _ ← geosvr_queue_fini; mret (-1)
  else if negb hook1 then _ ← geosvr_queue_fini; mret (-1)
  else
    _ ← (match dev with
         | None => skip
         | Some (ifindex, ifa) => _ ← if_info_add ifindex ifa memory; skip
         end);
    mret 0.

(* [system/kernel_mod/geosvr_mod.c:210-224] geosvr_linux_exit *)
Definition geosvr_linux_exit : M kernel unit :=
  i ← gets ifip;
  match i with
  | None => stuck NullDeref
  | Some _ => geosvr_queue_fini
  end.
End hook.

(** ** What a packet looks like to the hook *)

Definition gpsd_traffic (hdr payload : list Z) : bool :=
  let proto := le_value (take 1 (drop 9 hdr)) in
  bool_decide (proto = IPPROTO_UDP ∨ proto = IPPROTO_TCP) &&
  (bool_decide (swap16 (le_value (take 2 (drop 2 payload))) = GPSD_PORT) ||
   bool_decide (swap16 (le_value (take 2 payload)) = GPSD_PORT)).
Definition our_addr (i : if_info) (dev : Z) : Z := if bool_decide (if_ifindex i = dev) then if_addr i else 0.
Definition our_bcast (i : if_info) (dev : Z) : Z := if bool_decide (if_ifindex i = dev) then bc_addr i else 0.
Definition to_many (i : if_info) (dev d : Z) : bool :=
  bool_decide (d = INADDR_BROADCAST) || IN_MULTICAST (swap32 d) || bool_decide (d = our_bcast i dev).
(** A payload that begins with the two prefixes. *)
Definition prefixed (payload : list Z) : bool :=
  bool_decide (swap16 (u16 (le_value (take 4 payload))) = GEOSVR_HDR_PREFIX) &&
  bool_decide (swap16 (u16 (le_value (take 4 (drop 4 payload)))) = GEOSVR_HDR_PREFIX).

(** The requests the module makes. *)
Definition send_request `{NlLayout} (src dst : Z) : geosvr_nlmsg :=
  NlMsg GEOSVR_PRI_NORMAL GEOSVR_NL_MSG_TYPE_SEND (Some 1) (Some src) dst (Some 0) (Some 0) (Some d_zero) (Some d_zero)
    0 (text_of_bytes (replicate (Z.to_nat (sizeof_nlmsg - route_offset)) 0)).
Definition forward_request `{NlLayout} (src dst : Z) (route : list Z) : geosvr_nlmsg :=
  NlMsg GEOSVR_PRI_NORMAL GEOSVR_NL_MSG_TYPE_FORWARD (Some 1) (Some src) dst (Some 0) (Some 0) (Some d_zero) (Some d_zero)
    (Z.of_nat (length route)) (text_of_bytes (route ++ replicate (Z.to_nat (sizeof_nlmsg - route_offset)) 0)).

Section spec.
Context `{Kernel, Allocator, NlLayout}.

Lemma rd_hdr v hdr payload off n : packet_of v hdr payload → (off + n ≤ length hdr)%nat →
  rd_int (network_header v + off) n v = Done (le_value (take n (drop off hdr))) v.
Proof.
  intros [Hd Hi Hn] Hl. rewrite Hn, rd_int_data by (rewrite Hd, length_app; lia). rewrite Hd.
  rewrite drop_app_le by lia. by rewrite take_app_le by (rewrite length_drop; lia).
Qed.
Lemma rd_payload v hdr payload off n : packet_of v hdr payload → (off + n ≤ length payload)%nat →
  rd_int (network_header v + length hdr + off) n v = Done (le_value (take n (drop off payload))) v.
Proof.
  intros [Hd Hi Hn] Hl. rewrite Hn, <- Nat.add_assoc, rd_int_data by (rewrite Hd, length_app; lia).
  by rewrite Hd, drop_app_add.
Qed.
Lemma hlen_packet v hdr payload : packet_of v hdr payload → ip_hlen (network_header v) v = Done (length hdr) v.
Proof.
  intros [Hd Hi Hn]. pose proof (ipv4_size _ Hi). destruct v as [h d t nh u c r s]. simpl in Hd, Hn. subst d nh. simpl.
  rewrite hlen_done by (rewrite length_app; lia). by rewrite hlen_of_app, <- (ipv4_length _ Hi) by lia.
Qed.

Lemma to_gpsd_done v hdr payload : packet_of v hdr payload → (4 ≤ length payload)%nat →
  to_gpsd v = Done (gpsd_traffic hdr payload) v.
Proof.
  intros Hv Hl. pose proof (ipv4_size _ (po_header _ _ _ Hv)). unfold to_gpsd, gpsd_traffic.
  rewrite (bind_done _ _ _ (network_header v) v) by done. unfold ip_protocol.
  rewrite (bind_done _ _ _ _ _ (rd_hdr v hdr payload 9 1 Hv ltac:(lia))). set (proto := le_value (take 1 (drop 9 hdr))).
  case_bool_decide as Hp; [rewrite decide_True by done|by rewrite decide_False by done]. cbn [andb].
  rewrite (bind_done _ _ _ _ _ (hlen_packet v hdr payload Hv)).
  rewrite (bind_done _ _ _ _ _ (rd_payload v hdr payload 2 2 Hv ltac:(lia))).
  case_bool_decide as Hd; [by rewrite decide_True by done|rewrite decide_False by done]. cbn [orb].
  pose proof (rd_payload v hdr payload 0 2 Hv ltac:(lia)) as E0. rewrite Nat.add_0_r in E0.
  by rewrite (bind_done _ _ _ _ _ E0).
Qed.

Lemma addr_done k p v hdr payload : p ≠ NULL → k_skbs k !! p = Some v → packet_of v hdr payload →
  on_skb p (iph ← ip_hdr; ip_saddr iph) k = Done (source_of hdr) k ∧
  on_skb p (iph ← ip_hdr; ip_daddr iph) k = Done (dest_of hdr) k.
Proof.
  intros Hp Hv Hk. pose proof (ipv4_size _ (po_header _ _ _ Hk)).
  split; apply (on_skb_read _ _ _ _ _ Hp Hv); rewrite (bind_done _ _ _ (network_header v) v) by done;
    apply (rd_hdr _ _ _ _ _ Hk); lia.
Qed.

(** The hook up to its last part. *)
Lemma hook_enters k p v hdr payload i bcast room hook dev okfn :
  p ≠ NULL → k_skbs k !! p = Some v → packet_of v hdr payload → (4 ≤ length payload)%nat → ifip k = Some i →
  geosvr_hook bcast room hook p dev okfn k =
    if gpsd_traffic hdr payload then Done NF_ACCEPT k
    else if to_many i dev (dest_of hdr) then
      Done (match bcast with
            | None => NF_ACCEPT
            | Some b => if decide (source_of hdr = b ∨ source_of hdr = our_addr i dev) then NF_ACCEPT else NF_DROP
            end) k
    else hook_switch room hook p (our_addr i dev) okfn k.
Proof.
  intros Hp Hs Hv Hl Hi. unfold geosvr_hook. destruct (addr_done k p v hdr payload Hp Hs Hv) as [Esrc Edst].
  rewrite (bind_done _ _ _ _ _ (on_skb_read _ _ _ _ _ Hp Hs (to_gpsd_done v hdr payload Hv Hl))).
  destruct (gpsd_traffic hdr payload); [done|]. rewrite (bind_done _ _ _ (Some i) k) by (unfold gets; by rewrite Hi).
  cbv zeta. rewrite (bind_done _ _ _ _ _ Edst). fold (our_bcast i dev) (our_addr i dev).
  change (bool_decide (dest_of hdr = INADDR_BROADCAST) || IN_MULTICAST (swap32 (dest_of hdr)) ||
          bool_decide (dest_of hdr = our_bcast i dev)) with (to_many i dev (dest_of hdr)).
  destruct (to_many i dev (dest_of hdr)); [|done]. destruct bcast as [b|]; [|done].
  by rewrite (bind_done _ _ _ _ _ Esrc).
Qed.

(** ** Packets join the queue *)

(** The packets in the queue stay where they are. *)
Definition keeps (k k' : kernel) (ps : list pending) : Prop :=
  queue_list k' = queue_list k ∧ queue_total k' = queue_total k ∧
  ∀ p, p ∈ ps → k_blocks k' !! pe_entry p = k_blocks k !! pe_entry p ∧ k_skbs k' !! pe_skb p = k_skbs k !! pe_skb p.

Lemma queued_keeps k k' ps : queued k ps → keeps k k' ps → queued k' ps.
Proof.
  intros [Hl He Hs Hm Ht Hx] (Hl' & Ht' & Hk). split; [by rewrite Hl'|done|done| |by rewrite Ht'|done].
  intros p Hp. destruct (Hm p Hp) as (? & ? & Hb & Hv & ?). destruct (Hk p Hp) as [Eb Es]. split_and!; try done.
  - by rewrite Eb.
  - by rewrite Es.
Qed.

(** The queue with one more packet, unless it is full. *)
Definition joined (ps : list pending) (p : pending) : list pending :=
  if decide (Z.of_nat (length ps) < GEOSVR_QUEUE_MAX_DEFAULT) then ps ++ [p] else ps.

Lemma entry_fresh k ps e : queued k ps → e ∉ dom (k_blocks k) → e ∉ pe_entry <$> ps.
Proof.
  intros Hq He (p & -> & Hp)%list_elem_of_fmap. apply He. destruct (qu_memory _ _ Hq p Hp) as (_ & _ & Hb & _).
  apply elem_of_dom. by rewrite Hb.
Qed.

Lemma queued_join k ps e okfn p v hdr payload : queued k ps → Z.of_nat (length ps) < GEOSVR_QUEUE_MAX_DEFAULT →
  e ≠ NULL → e ∉ dom (k_blocks k) → p ≠ NULL → k_skbs k !! p = Some v → packet_of v hdr payload → p ∉ pe_skb <$> ps →
  queued (set_queue (e :: queue_list k) (u32 (queue_total k + 1))
            (set_blocks (<[e := EntryBlock (QueueEntry p okfn)]> (k_blocks k)) k)) (ps ++ [Pending e okfn p v]).
Proof.
  intros Hq Hlen He0 He Hp0 Hs Hv Hp. pose proof (entry_fresh k ps e Hq He) as Hef.
  destruct Hq as [Hl Hne Hns Hm Ht Hx]. unfold GEOSVR_QUEUE_MAX_DEFAULT in *. split.
  - simpl. rewrite Hl, fmap_app, reverse_app. done.
  - rewrite fmap_app. apply NoDup_app. split_and!; [done| |apply NoDup_singleton].
    intros a Ha ->%list_elem_of_singleton. done.
  - rewrite fmap_app. apply NoDup_app. split_and!; [done| |apply NoDup_singleton].
    intros a Ha ->%list_elem_of_singleton. done.
  - intros q [Hq| ->%list_elem_of_singleton]%elem_of_app.
    + destruct (Hm q Hq) as (? & ? & Hb & ? & ?). split_and!; try done. simpl. rewrite lookup_insert_ne; [done|].
      intros E. apply Hef. rewrite E. by apply list_elem_of_fmap_2.
    + split_and!; try done; [simpl; apply lookup_insert_eq|by exists hdr, payload].
  - simpl. rewrite Ht, length_app. unfold u32. rewrite wrap_small by lia. simpl. lia.
  - rewrite length_app. simpl. unfold GEOSVR_QUEUE_MAX_DEFAULT. lia.
Qed.

Lemma enqueue_spec k ps e okfn p v hdr payload : queued k ps → malloc (dom (k_blocks k)) = Some e →
  p ≠ NULL → k_skbs k !! p = Some v → packet_of v hdr payload → p ∉ pe_skb <$> ps →
  ∃ k' r, geosvr_queue_enqueue_packet p okfn k = Done r k' ∧ queued k' (joined ps (Pending e okfn p v)) ∧
    k_skbs k' = k_skbs k ∧ k_log k' = k_log k ∧ ifip k' = ifip k ∧
    ∀ a b, k_blocks k !! a = Some b → k_blocks k' !! a = Some b.
Proof.
  intros Hq He Hp0 Hs Hv Hp. destruct (malloc_nonnull _ _ He) as [He0 Hef]. unfold geosvr_queue_enqueue_packet.
  rewrite (bind_done _ _ _ _ _ (kmalloc_done _ _ _ He)), decide_False by done. unfold joined.
  set (k1 := set_blocks _ k). unfold queue_enqueue_entry. rewrite bind_assoc_at, (bind_done _ _ _ k1 k1) by done.
  change (queue_total k1) with (queue_total k). rewrite (qu_total _ _ Hq).
  assert (∀ a b, k_blocks k !! a = Some b → k_blocks k1 !! a = Some b) as Hgrow.
  { intros a b Hb. simpl. rewrite lookup_insert_ne; [done|]. intros <-. apply Hef. apply elem_of_dom. by rewrite Hb. }
  destruct (decide (Z.of_nat (length ps) < GEOSVR_QUEUE_MAX_DEFAULT)) as [Hlt|Hge].
  - rewrite decide_False by lia. eexists _, 0. split; [done|]. split_and!; try done. rewrite <- (qu_total k ps Hq). by apply (queued_join k ps e okfn p v hdr payload).
  - rewrite decide_True by lia. exists k, ENOSPC. split; [|done].
    rewrite (bind_done _ _ _ ENOSPC k1), decide_True by done.
    unfold kfree. rewrite bind_assoc_at, (bind_done _ _ _ (EntryBlock (QueueEntry p okfn)) k1)
      by (apply deref_block; [done|apply lookup_insert_eq]).
    rewrite (bind_done _ _ _ tt k); [done|]. unfold modify, k1. f_equal. unfold set_blocks. simpl.
    rewrite delete_insert_id by (by apply not_elem_of_dom). by destruct k.
Qed.

(** ** Requests to the daemon *)

Definition told (room : bool) (m : geosvr_nlmsg) : list action :=
  if room then [Broadcast GEOSVR_PRI_NORMAL m] else [].

(** A request leaves its message in memory and does nothing else. *)
Lemma request_done k a room src dst route :
  malloc (dom (k_blocks k)) = Some a →
  ∃ m1 m2,
    geosvr_netlink_req_normal room GEOSVR_NL_MSG_TYPE_SEND src dst 0 [] k =
      Done tt (set_log (told room (send_request src dst) ++ k_log k) (set_blocks (<[a := MsgBlock m1]> (k_blocks k)) k)) ∧
    geosvr_netlink_req_normal room GEOSVR_NL_MSG_TYPE_FORWARD src dst (Z.of_nat (length route)) route k =
      Done tt (set_log (told room (forward_request src dst route) ++ k_log k) (set_blocks (<[a := MsgBlock m2]> (k_blocks k)) k)).
Proof.
  intros Ha. destruct (malloc_nonnull _ _ Ha) as [Ha0 _].
  exists (send_request src dst), (forward_request src dst route). unfold geosvr_netlink_req_normal. cbv zeta.
  split; rewrite (bind_done _ _ _ _ _ (kmalloc_done _ _ _ Ha)), decide_False by done.
  - rewrite decide_False by done. rewrite ret_bind_at.
    unfold modify at 1, mbind, M_bind. simpl. rewrite insert_insert_eq. by destruct room.
  - rewrite decide_True by done. rewrite Nat2Z.id.
    assert (read 0 (length route) route = Some route) as Er.
    { unfold read. rewrite decide_True by lia. change (drop 0 route) with route. by rewrite take_ge by lia. }
    rewrite bind_assoc_at, (bind_done _ _ _ _ _ (within_done _ _ _ Er)), ret_bind_at.
    unfold modify at 1, mbind, M_bind. simpl. rewrite insert_insert_eq. by destruct room.
Qed.

Lemma queued_block k ps a b l : queued k ps → a ∉ dom (k_blocks k) →
  queued (set_log l (set_blocks (<[a := b]> (k_blocks k)) k)) ps.
Proof.
  intros Hq Ha. eapply queued_keeps; [exact Hq|]. split_and!; [done|done|]. intros p Hp. split; [|done]. simpl.
  rewrite lookup_insert_ne; [done|]. intros ->. apply Ha. destruct (qu_memory _ _ Hq p Hp) as (_ & _ & Hb & _).
  apply elem_of_dom. by rewrite Hb.
Qed.

Context (Hmem : ∀ X, malloc X ≠ None).
Lemma memory X : ∃ a, malloc X = Some a.
Proof. destruct (malloc X) as [a|] eqn:E; [by exists a|by destruct (Hmem X)]. Qed.

(** A packet that leaves the host. *)
Lemma local_out_done k ps p v hdr payload room ifaddr okfn : queued k ps →
  p ≠ NULL → k_skbs k !! p = Some v → packet_of v hdr payload → p ∉ pe_skb <$> ps →
  ∃ k' e, hook_switch room NF_INET_LOCAL_OUT p ifaddr okfn k = Done NF_STOLEN k' ∧
    queued k' (joined ps (Pending e okfn p v)) ∧ k_skbs k' = k_skbs k ∧ ifip k' = ifip k ∧
    k_log k' = told room (send_request (source_of hdr) (dest_of hdr)) ++ k_log k.
Proof.
  intros Hq Hp0 Hs Hv Hp. destruct (memory (dom (k_blocks k))) as [e He].
  destruct (enqueue_spec k ps e okfn p v hdr payload Hq He Hp0 Hs Hv Hp) as (k1 & r & E1 & Hq1 & Hs1 & Hl1 & Hi1 & _).
  cbn [hook_switch]. rewrite (bind_done _ _ _ _ _ E1).
  destruct (addr_done k1 p v hdr payload Hp0 ltac:(by rewrite Hs1) Hv) as [Esrc Edst].
  rewrite (bind_done _ _ _ _ _ Esrc), (bind_done _ _ _ _ _ Edst).
  destruct (memory (dom (k_blocks k1))) as [a Ha].
  destruct (request_done k1 a room (source_of hdr) (dest_of hdr) [] Ha) as (m1 & _ & Er & _).
  rewrite (bind_done _ _ _ _ _ Er). eexists _, e. split; [done|]. split_and!; [|done..|by rewrite <- Hl1].
  apply queued_block; [done|]. by apply (malloc_nonnull _ _ Ha).
Qed.

(** The header a received packet is left with. *)
Definition restored (hdr : list Z) (n : nat) : list Z := summed (with_tot (tot_of hdr - Z.of_nat n) hdr).

Lemma restored_ipv4 hdr n : ipv4 hdr → ipv4 (restored hdr n).
Proof. intros Hi. apply ipv4_summed. by apply ipv4_with_tot. Qed.
Lemma restored_length hdr n : ipv4 hdr → length (restored hdr n) = length hdr.
Proof.
  intros Hi. pose proof (ipv4_size _ Hi). unfold restored. rewrite summed_length by (rewrite with_tot_length; lia).
  apply with_tot_length. lia.
Qed.
Lemma restored_dest hdr n : ipv4 hdr → dest_of (restored hdr n) = dest_of hdr.
Proof.
  intros Hi. pose proof (ipv4_size _ Hi) as Hs. unfold dest_of, restored, summed, with_tot. cbv zeta. do 2 f_equal.
  assert (∀ off bs l, (off + length bs ≤ 16)%nat → (16 ≤ length l)%nat → drop 16 (upd_bytes off bs l) = drop 16 l) as Hd.
  { intros off bs l H1' H2'. apply list_eq. intros j. rewrite !lookup_drop, upd_bytes_lookup by lia.
    by rewrite decide_False by lia. }
  set (c := le_bytes 2 (ip_fast_csum _)). set (x := le_bytes 2 (swap16 _)).
  assert (length c = 2%nat) as Lc by apply le_bytes_length. assert (length x = 2%nat) as Lx by apply le_bytes_length.
  assert (length [0; 0] = 2%nat) as Lz by done. by rewrite !Hd by bytes_len.
Qed.

Lemma load_word g off z : (off + 4 ≤ length g)%nat → take 4 (drop off g) = le_bytes 4 z → load off 4 g = Some (u32 z).
Proof.
  intros Hl Hw. unfold load. rewrite Hw, decide_True by apply le_bytes_length. by rewrite le_value_bytes.
Qed.

(** A packet with a GeoSVR header that arrives. *)
Lemma pre_routing_done k ps p h hdr payload t src dst route r s room ifaddr okfn : queued k ps → p ∉ pe_skb <$> ps →
  carries k p h hdr payload t src dst route r s → (2 * length hdr ≤ length t)%nat →
  ∃ k' w hdr', hook_switch room NF_INET_PRE_ROUTING p ifaddr okfn k =
      Done (if decide (dest_of hdr = ifaddr) then NF_ACCEPT else NF_STOLEN) k' ∧
    hdr' = restored hdr (20 + length route) ∧ packet_of w hdr' payload ∧ k_skbs k' = <[p := w]> (k_skbs k) ∧ ifip k' = ifip k ∧
    if decide (dest_of hdr = ifaddr) then queued k' ps ∧ k_log k' = k_log k
    else (∃ e, queued k' (joined ps (Pending e okfn p w))) ∧
      k_log k' = told room (forward_request (u32 src) (u32 dst) route) ++ k_log k.
Proof.
  intros Hq Hp Hc Ht. destruct (memory (dom (k_blocks k))) as [a Ha].
  pose proof (has_encapsulated_done _ _ _ _ _ _ _ _ _ _ _ Hc) as Eenc.
  destruct (decapsulate_done _ _ _ _ _ _ _ _ _ _ _ a Hc Ha) as [Hok _]. destruct (Hok Ht) as (t' & _ & Ed). clear Hok.
  destruct Hc as [Hp0 Hs Hi Hsm]. destruct (malloc_nonnull _ _ Ha) as [Ha0 Haf].
  cbn [hook_switch]. rewrite (bind_done _ _ _ _ _ Eenc), (bind_done _ _ _ _ _ Ed).
  set (g := geo_bytes src dst route) in *. fold (restored hdr (20 + length route)).
  set (hdr' := restored hdr (20 + length route)). set (w := SkBuff h (hdr' ++ payload) t' (length h) 1 false r s).
  set (k1 := set_skbs _ _). assert (packet_of w hdr' payload) as Hw by (split; [done|by apply restored_ipv4|done]).
  assert (k_skbs k1 !! p = Some w) as Hs1 by apply lookup_insert_eq.
  assert (queued k1 ps) as Hq1.
  { eapply queued_keeps; [exact (queued_block k ps a (HdrBlock g) (k_log k) Hq Haf)|]. split_and!; [done|done|].
    intros q Hq1. split; [done|]. simpl. rewrite lookup_insert_ne; [done|]. intros E. apply Hp. rewrite E.
    by apply list_elem_of_fmap_2. }
  rewrite (bind_done _ _ _ (length h) k1) by (by apply (on_skb_read _ _ _ w)).
  rewrite decide_False by done.
  assert (on_skb p (ip_daddr (length h)) k1 = Done (dest_of hdr) k1) as Edst.
  { apply (on_skb_read _ _ _ w _ Hp0 Hs1). pose proof (ipv4_size _ Hi). unfold ip_daddr.
    change (length h) with (network_header w). rewrite (rd_hdr w hdr' payload 16 4 Hw) by (unfold hdr'; rewrite restored_length by done; lia).
    fold (dest_of hdr'). unfold hdr'. by rewrite restored_dest. }
  rewrite (bind_done _ _ _ _ _ Edst). destruct (decide (dest_of hdr = ifaddr)) as [Hours|Htheirs].
  - unfold kfree. rewrite bind_assoc_at, (bind_done _ _ _ (HdrBlock g) k1) by (apply deref_block; [done|apply lookup_insert_eq]).
    eexists _, w, hdr'. split; [done|]. split_and!; [done|done|done|done| |done].
    eapply queued_keeps; [exact Hq1|]. split_and!; [done|done|]. intros q Hqq. split; [|done]. simpl.
    rewrite delete_insert_eq, delete_id by (by apply not_elem_of_dom). rewrite lookup_insert_ne; [done|].
    intros E. apply Haf. apply elem_of_dom. destruct (qu_memory _ _ Hq q Hqq) as (_ & _ & Hb & _). rewrite E, Hb. done.
  - destruct (memory (dom (k_blocks k1))) as [e He].
    destruct (enqueue_spec k1 ps e okfn p w hdr' payload Hq1 He Hp0 Hs1 Hw Hp) as (k2 & x & E2 & Hq2 & Hs2 & Hl2 & Hi2 & Hg2).
    rewrite (bind_done _ _ _ _ _ E2).
    assert (the_header a k2 = Done g k2) as Eh.
    { unfold the_header. rewrite (bind_done _ _ _ (HdrBlock g) k2); [done|]. apply deref_block; [done|].
      apply Hg2. apply lookup_insert_eq. }
    rewrite (bind_done _ _ _ _ _ Eh). pose proof (geo_bytes_length src dst route) as Lg. fold g in Lg.
    destruct (geo_word src dst route) as (_ & _ & Wsrc & Wdst & Wlen & Wroute). fold g in Wsrc, Wdst, Wlen, Wroute.
    rewrite (bind_done _ _ _ _ _ (within_done _ _ _ (load_word g 8 src ltac:(lia) Wsrc))).
    rewrite (bind_done _ _ _ _ _ (within_done _ _ _ (load_word g 12 dst ltac:(lia) Wdst))).
    rewrite (bind_done _ _ _ _ _ (within_done _ _ _ (load_word g 16 _ ltac:(lia) Wlen))).
    rewrite Wroute. unfold u32 at 3. rewrite wrap_small by lia.
    destruct (memory (dom (k_blocks k2))) as [b Hb].
    destruct (request_done k2 b room (u32 src) (u32 dst) route Hb) as (_ & m2 & _ & Er).
    rewrite (bind_done _ _ _ _ _ Er). eexists _, w, hdr'. split; [done|].
    split_and!; [done|done|by simpl; rewrite Hs2|by simpl; rewrite Hi2| |by simpl; rewrite Hl2].
    exists e. apply queued_block; [done|]. by apply (malloc_nonnull _ _ Hb).
Qed.


(** ** Packets whose buffer is shared *)

Lemma prefixed_done v hdr payload : packet_of v hdr payload → (8 ≤ length payload)%nat →
  (iph ← ip_hdr;
   hl ← ip_hlen iph;
   p0 ← rd_int (iph + hl) 4;
   if decide (swap16 (u16 p0) = GEOSVR_HDR_PREFIX) then
     p1 ← rd_int (iph + hl + 4) 4;
     mret (bool_decide (swap16 (u16 p1) = GEOSVR_HDR_PREFIX))
   else mret false) v = Done (prefixed payload) v.
Proof.
  intros Hv Hl. rewrite (bind_done _ _ _ (network_header v) v) by done.
  rewrite (bind_done _ _ _ _ _ (hlen_packet v hdr payload Hv)).
  pose proof (rd_payload v hdr payload 0 4 Hv ltac:(lia)) as E0. rewrite Nat.add_0_r in E0.
  rewrite (bind_done _ _ _ _ _ E0). unfold prefixed. change (drop 0 payload) with payload.
  case_decide as Hpre; [rewrite bool_decide_true by done|by rewrite bool_decide_false by done].
  by rewrite (bind_done _ _ _ _ _ (rd_payload v hdr payload 4 4 Hv ltac:(lia))).
Qed.

Lemma has_encapsulated_alone k p v hdr payload : p ≠ NULL → k_skbs k !! p = Some v → packet_of v hdr payload →
  (8 ≤ length payload)%nat → users v = 1 → cloned v = false →
  geosvr_ip_has_encapsulated p k = Done (prefixed payload) k.
Proof.
  intros Hp Hs Hv Hl Hu Hc. unfold geosvr_ip_has_encapsulated.
  rewrite (bind_done _ _ _ _ _ (own_packet_alone _ _ _ Hp Hs Hu Hc)), decide_False by done.
  apply (on_skb_read _ _ _ _ _ Hp Hs). by eapply prefixed_done.
Qed.

(** C22. A packet that arrives with a buffer of which there is a clone is freed by the hook
    while it looks for a GeoSVR header: it then uses the freed packet, or hands it back to
    the network stack. *)
Theorem cloned_packet_freed k p v hdr payload i bcast room dev okfn
    (Hi : ifip k = Some i) (Hp0 : p ≠ NULL) (Hs : k_skbs k !! p = Some v) (Hv : packet_of v hdr payload)
    (Hl : (8 ≤ length payload)%nat) (Hg : gpsd_traffic hdr payload = false)
    (Hd : to_many i dev (dest_of hdr) = false) (Hu : users v = 1) (Hc : cloned v = true) :
  ∃ k', k_skbs k' !! p = None ∧
    geosvr_hook bcast room NF_INET_PRE_ROUTING p dev okfn k =
      if prefixed payload then Stuck UseAfterFree else Done NF_ACCEPT k'.
Proof.
  rewrite (hook_enters k p v hdr payload i) by (done || lia). rewrite Hg, Hd. cbn [hook_switch].
  destruct (memory (dom (k_skbs k))) as [n Hn]. destruct (malloc_nonnull _ _ Hn) as [Hn0 Hnf].
  assert (p ≠ n) as Hpn by (intros ->; apply Hnf, elem_of_dom; by rewrite Hs).
  set (c := SkBuff (headroom v) (data v) (tailroom v) (network_header v) 1 false (skb_dst v) (ip_summed v)).
  set (k1 := set_skbs (<[n := c]> (k_skbs k)) k). set (k2 := set_skbs (delete p (k_skbs k1)) k1).
  assert (own_packet p k = Done n k2) as Eown.
  { unfold own_packet. rewrite (bind_done _ _ _ _ _ (deref_skb _ _ _ Hp0 Hs)), decide_True by (by right).
    rewrite (bind_done _ _ _ n k1).
    2:{ unfold pskb_copy. rewrite (bind_done _ _ _ _ _ (deref_skb _ _ _ Hp0 Hs)), (bind_done _ _ _ k k) by done. by rewrite Hn. }
    assert (k_skbs k1 !! p = Some v) as Hs1 by (simpl; by rewrite lookup_insert_ne).
    unfold kfree_skb. rewrite bind_assoc_at, (bind_done _ _ _ _ _ (deref_skb _ _ _ Hp0 Hs1)). by rewrite decide_True. }
  assert (k_skbs k2 !! p = None) as Hgone by (simpl; apply lookup_delete_eq).
  assert (k_skbs k2 !! n = Some c) as Hcopy by (simpl; rewrite lookup_delete_ne by done; apply lookup_insert_eq).
  exists k2. split; [done|].
  rewrite (bind_done (geosvr_ip_has_encapsulated p) _ _ (prefixed payload) k2).
  2:{ unfold geosvr_ip_has_encapsulated. rewrite (bind_done _ _ _ _ _ Eown), decide_False by done.
      apply (on_skb_read _ _ _ _ _ Hn0 Hcopy). apply (prefixed_done c hdr); [|done]. by destruct Hv. }
  destruct (prefixed payload); [|done].
  unfold geosvr_ip_decapsulate, own_packet, mbind, M_bind, deref. by rewrite decide_False, Hgone by done.
Qed.

(** ** The running module

    Packets that arrive at the hook and messages of the daemon, in any order.  A packet is
    put into memory by the network stack, and taken back when it is not stolen. *)
Inductive event :=
  | Packet (hook : hooknum) (p : addr) (v : sk_buff) (dev okfn : Z) (room : bool)
  | Message (denied : bool) (skblen : Z) (nlh : nlmsghdr).

Definition step (bcast : option Z) (ev : event) : M kernel unit :=
  match ev with
  | Packet hook p v dev okfn room =>
      _ ← modify (λ k, set_skbs (<[p := v]> (k_skbs k)) k);
      r ← geosvr_hook bcast room hook p dev okfn;
      if decide (r = NF_STOLEN) then skip else modify (λ k, set_skbs (delete p (k_skbs k)) k)
  | Message denied skblen nlh => geosvr_netlink_rcv_skb denied skblen nlh
  end.
Fixpoint run (bcast : option Z) (evs : list event) : M kernel unit :=
  match evs with [] => skip | ev :: evs => _ ← step bcast ev; run bcast evs end.

(** What the stack and the daemon have to see to: a packet is whole, its buffer is not
    shared and has room for two headers behind the packet, and a GeoSVR header in it is
    one a node has written; an order to send is complete. *)
Definition proper (hook : hooknum) (v : sk_buff) : Prop :=
  ∃ hdr payload, packet_of v hdr payload ∧ (8 ≤ length payload)%nat ∧
    (hook = NF_INET_PRE_ROUTING → users v = 1 ∧ cloned v = false ∧ (2 * length hdr ≤ length (tailroom v))%nat ∧
       (prefixed payload = true → ∃ src dst route rest, payload = geo_bytes src dst route ++ rest ∧
          20 + Z.of_nat (length route) < 2 ^ 31)).
Definition enabled (k : kernel) (ev : event) : Prop :=
  match ev with
  | Packet hook p v _ _ _ => p ≠ NULL ∧ p ∉ dom (k_skbs k) ∧ proper hook v
  | Message _ _ nlh => nlmsg_type nlh = GEOSVR_RSP_SEND → answer_ok (nlmsg_data nlh)
  end.
Fixpoint all_enabled (bcast : option Z) (k : kernel) (evs : list event) : Prop :=
  match evs with
  | [] => True
  | ev :: evs => enabled k ev ∧ ∀ k', step bcast ev k = Done tt k' → all_enabled bcast k' evs
  end.

(** The queue is in order, and the interface is known. *)
Definition module_ok (k : kernel) : Prop := (∃ ps, queued k ps) ∧ is_Some (ifip k).

Lemma queued_in_memory k ps p : queued k ps → p ∉ dom (k_skbs k) → p ∉ pe_skb <$> ps.
Proof.
  intros Hq Hp (q & -> & Hin)%list_elem_of_fmap. apply Hp, elem_of_dom.
  destruct (qu_memory _ _ Hq q Hin) as (_ & _ & _ & Hs & _). by rewrite Hs.
Qed.
Lemma queued_other k k' ps p : queued k ps → p ∉ pe_skb <$> ps → queue_list k' = queue_list k →
  queue_total k' = queue_total k → k_blocks k' = k_blocks k → (∀ a, a ≠ p → k_skbs k' !! a = k_skbs k !! a) →
  queued k' ps.
Proof.
  intros Hq Hp Hl Ht Hb Hs. eapply queued_keeps; [exact Hq|]. split_and!; [done|done|]. intros q Hin.
  split; [by rewrite Hb|]. apply Hs. intros E. apply Hp. rewrite <- E. by apply list_elem_of_fmap_2.
Qed.

(** Any packet at the hook. *)
Lemma hook_ok k ps p v hook bcast room dev okfn i : queued k ps → ifip k = Some i → p ≠ NULL → p ∉ pe_skb <$> ps →
  k_skbs k !! p = Some v → proper hook v →
  ∃ k' r ps', geosvr_hook bcast room hook p dev okfn k = Done r k' ∧ queued k' ps' ∧ ifip k' = ifip k ∧
    (r ≠ NF_STOLEN → p ∉ pe_skb <$> ps').
Proof.
  intros Hq Hi Hp0 Hp Hs (hdr & payload & Hv & Hl & Hpre). rewrite (hook_enters k p v hdr payload i) by (done || lia).
  destruct (gpsd_traffic hdr payload); [by exists k, NF_ACCEPT, ps|].
  destruct (to_many i dev (dest_of hdr)); [by eexists k, _, ps|].
  destruct hook.
  - destruct (Hpre eq_refl) as (Hu & Hc & Ht & Hgeo). destruct (prefixed payload) eqn:Epre.
    + destruct (Hgeo eq_refl) as (src & dst & route & rest & -> & Hsm).
      destruct v as [h d t nh u c r s]. destruct Hv as [Hdata Hip Hnh].
      cbn [users cloned tailroom data headroom network_header] in *. subst.
      assert (carries k p h hdr rest t src dst route r s) as Hcar by by split.
      destruct (pre_routing_done k ps p h hdr rest t src dst route r s room (our_addr i dev) okfn Hq Hp Hcar Ht)
        as (k' & w & hdr' & E & _ & _ & _ & Hi' & Hrest). rewrite E.
      case_decide; [destruct Hrest as [Hq' _]|destruct Hrest as [[e Hq'] _]]; eexists k', _, _; by split_and!.
    + exists k, NF_ACCEPT, ps. split; [|done]. cbn [hook_switch].
      rewrite (bind_done _ _ _ _ _ (has_encapsulated_alone k p v hdr payload Hp0 Hs Hv Hl Hu Hc)). by rewrite Epre.
  - destruct (local_out_done k ps p v hdr payload room (our_addr i dev) okfn Hq Hp0 Hs Hv Hp)
      as (k' & e & E & Hq' & _ & Hi' & _). eexists k', _, _. by rewrite E.
Qed.

(** Any message of the daemon. *)
Lemma message_ok k ps denied skblen nlh i : queued k ps → ifip k = Some i →
  (nlmsg_type nlh = GEOSVR_RSP_SEND → answer_ok (nlmsg_data nlh)) →
  ∃ k' ps', geosvr_netlink_rcv_skb denied skblen nlh k = Done tt k' ∧ queued k' ps' ∧ ifip k' = ifip k.
Proof.
  intros Hq Hi Hok.
  assert (∀ acts p, queued (set_log acts (set_peer p k)) ps) as Hlogged.
  { intros acts p. eapply queued_keeps; [exact Hq|]. by split_and!. }
  assert (∀ err, queued (set_log (NlAck err :: k_log k) k) ps) as Hack.
  { intros err. eapply queued_keeps; [exact Hq|]. by split_and!. }
  unfold geosvr_netlink_rcv_skb. cbv zeta.
  case_decide; [by exists k, ps|]. case_decide; [by exists k, ps|].
  case_decide; [by eexists _, ps|]. case_decide; [by eexists _, ps|]. destruct denied; [by eexists _, ps|].
  rewrite (bind_done _ _ _ (peer_pid k) k) by done. case_decide; [by eexists _, ps|].
  set (k1 := if decide (peer_pid k = 0) then set_peer (s32 (nlmsg_pid nlh)) k else k).
  rewrite (bind_done _ _ _ tt k1) by (unfold k1; by case_decide).
  assert (queued k1 ps ∧ ifip k1 = Some i) as [Hq1 Hi1].
  { unfold k1. case_decide; [|done]. split; [|done]. eapply queued_keeps; [exact Hq|]. by split_and!. }
  assert (∃ k2 ps2 st, geosvr_netlink_recv_peer (nlmsg_type nlh) (nlmsg_data nlh) (skblen - NLMSG_LENGTH 0) k1 = Done st k2 ∧
    queued k2 ps2 ∧ ifip k2 = ifip k) as (k2 & ps2 & st & E2 & Hq2 & Hi2).
  { unfold geosvr_netlink_recv_peer. destruct (decide (nlmsg_type nlh = GEOSVR_RSP_SEND)) as [Hty|].
    - case_decide; [eexists k1, ps, _; split_and!; [done|done|by rewrite Hi1, Hi]|].
      destruct (send_pkt_served k1 ps i (nlmsg_data nlh) Hq1 Hi1 (Hok Hty)) as (k2 & E & Hs2 & _ & Hi2 & _).
      rewrite (bind_done _ _ _ _ _ E). eexists k2, _, 0. split_and!; [done|done|by rewrite Hi2, Hi1, Hi].
    - case_decide; [|eexists k1, ps, _; split_and!; [done|done|by rewrite Hi1, Hi]].
      case_decide; [eexists k1, ps, _; split_and!; [done|done|by rewrite Hi1, Hi]|].
      destruct (drop_pkt_served k1 ps (m_dst (nlmsg_data nlh)) Hq1) as (k2 & E & Hs2 & _ & Hi2 & _).
      rewrite (bind_done _ _ _ _ _ E). eexists k2, _, 0. split_and!; [done|done|by rewrite Hi2, Hi1, Hi]. }
  rewrite (bind_done _ _ _ _ _ E2).
  assert (∀ err, queued (set_log (NlAck err :: k_log k2) k2) ps2) as Hack2.
  { intros err. eapply queued_keeps; [exact Hq2|]. by split_and!. }
  case_decide; [by eexists _, ps2|]. case_decide; by eexists _, ps2.
Qed.

Lemma step_ok bcast k ev : module_ok k → enabled k ev → ∃ k', step bcast ev k = Done tt k' ∧ module_ok k'.
Proof.
  intros [[ps Hq] [i Hi]] He. destruct ev as [hook p v dev okfn room|denied skblen nlh]; cbn [step].
  - destruct He as (Hp0 & Hp & Hv). pose proof (queued_in_memory k ps p Hq Hp) as Hps.
    set (k1 := set_skbs (<[p := v]> (k_skbs k)) k). rewrite (bind_done _ _ _ tt k1) by done.
    assert (queued k1 ps) as Hq1.
    { apply (queued_other k k1 ps p); try done. intros a Ha. simpl. by rewrite lookup_insert_ne. }
    destruct (hook_ok k1 ps p v hook bcast room dev okfn i Hq1 Hi Hp0 Hps (lookup_insert_eq _ _ _) Hv)
      as (k2 & r & ps2 & E & Hq2 & Hi2 & Hr). rewrite (bind_done _ _ _ _ _ E).
    case_decide as Hst; [exists k2; split; [done|]; split; [by exists ps2|by rewrite Hi2; exists i]|].
    eexists. split; [done|]. split; [exists ps2|simpl; rewrite Hi2; by exists i].
    apply (queued_other k2 _ ps2 p); try done; [by apply Hr|]. intros a Ha. simpl. by rewrite lookup_delete_ne.
  - destruct (message_ok k ps denied skblen nlh i Hq Hi He) as (k' & ps' & E & Hq' & Hi').
    exists k'. split; [done|]. split; [by exists ps'|rewrite Hi'; by exists i].
Qed.

End spec.

(** ** One packet out and one in *)
#[local] Existing Instances demo_net nl_i386 demo_memory.

(** A packet of this host, and one from another with a GeoSVR header for a third. *)
Definition demo_out : sk_buff := demo_skb.
Definition demo_in : sk_buff :=
  SkBuff [] (demo_header ++ geo_bytes (le_value [10; 0; 0; 9]) (le_value [10; 0; 0; 3]) [53; 44; 54] ++ demo_payload)
    (replicate 40 0) 0 1 false None 0.
Definition demo_clone : sk_buff :=
  SkBuff [] (demo_header ++ geo_bytes 1 2 [] ++ demo_payload) (replicate 40 0) 0 1 true None 0.
Definition demo_module (v : sk_buff) : kernel := Kern {[5%N := v]} ∅ [] 0 0 (Some demo_eth0) [].

Lemma demo_empty_queued v : queued (demo_module v) [].
Proof. split; try done; [by constructor|by constructor|]. intros p Hp. by apply not_elem_of_nil in Hp. Qed.
Lemma demo_memory_left X : malloc X ≠ None.
Proof. done. Qed.


Lemma cloned_packet_freed_witness :
  geosvr_hook None true NF_INET_PRE_ROUTING 5 2 9 (demo_module demo_clone) = Stuck UseAfterFree.
Proof.
  destruct (cloned_packet_freed demo_memory_left (demo_module demo_clone) 5 demo_clone demo_header
    (geo_bytes 1 2 [] ++ demo_payload) demo_eth0 None true 2 9) as (k' & _ & E);
    [done|done|done|split; [done|apply demo_header_ok|done]|rewrite length_app, geo_bytes_length; simpl; lia
    |done|done|done|done|]. exact E.
Defined.

Definition demo_events : list event :=
  [Packet NF_INET_LOCAL_OUT 7 demo_out 2 9 true; Message false 63 (NlHdr 63 GEOSVR_RSP_SEND 1 0 33 demo_nlmsg)].

