(* ===== verification/KernelDaemon.v ===== *)
(** * The kernel module and the daemon together

    A request of the module ([Netfilter.v]) is answered by the daemon ([RoutingManager.v]),
    and the answer empties the module's queue of the packets for its destination
    ([KernQueue.v]). *)
From Stdlib Require Import Ascii.
From S2P Require Import Prelude Double LinkedList Gps Daemon Timer NeighList Wire Utils.
From S2P Require Import Scan.
From S2P Require Import Database RoadMap NeighManager NeighSpec ConnManager Events.
From S2P Require Import EventLoop.
From S2P Require Import MapManager Routes RoutingManager RoutingSpec.
From S2P Require Import Skb KernState Ipenc KernQueue Netfilter.
Open Scope Z_scope.

Section exchange.
Context `{EventLib, Alloc : Allocator, Platform, NlLayout, Libm, ShortestPaths, LexicalCast, Kernel}.
Context (Hjunk : ∀ X, junk_bool X = false).

(** The module serves this daemon, or none yet. *)
Definition listens_to (pid : Z) (k : kernel) : Prop := 0 < pid < 2 ^ 31 ∧ (peer_pid k = 0 ∨ peer_pid k = pid).

Lemma long_enough n : 0 ≤ n < 2 ^ 16 → ¬ u32 (sizeof_nlmsg + n) < sizeof_nlmsg.
Proof. intros Hn. pose proof nl_layout_ok. unfold u32. rewrite wrap_small by lia. lia. Qed.

(** An answer of the daemon reaches the queue. *)
Lemma answer_received k s data ps acts : listens_to (s_pid s) k → 0 ≤ m_route_len data < 2 ^ 16 →
  (∃ k', geosvr_netlink_recv_peer (u16 (m_priority data)) data (sizeof_nlmsg + m_route_len data) (set_peer (s_pid s) k) = Done 0 k' ∧
     served (set_peer (s_pid s) k) k' ps (m_dst data) acts) →
  ∃ k', geosvr_netlink_rcv_skb false (nlmsg_len (envelope s data)) (envelope s data) k = Done tt k' ∧
    served (set_peer (s_pid s) k) k' ps (m_dst data) acts.
Proof.
  intros [Hpid Hpeer] Hlen (k' & E & Hs). exists k'. split; [|exact Hs].
  pose proof nl_layout_ok as Hlay. unfold geosvr_netlink_rcv_skb, envelope. cbv zeta.
  cbn [nlmsg_len nlmsg_type nlmsg_flags nlmsg_pid nlmsg_data]. unfold NLMSG_LENGTH.
  replace (16 + (sizeof_nlmsg + m_route_len data) - (16 + 0)) with (sizeof_nlmsg + m_route_len data) by lia.
  unfold s32. rewrite !swrap_small by lia. unfold u32. rewrite !wrap_small by lia.
  rewrite decide_False by lia. rewrite decide_False by lia.
  rewrite decide_False by (intros [?|[Hf|Hf]]; [lia|by vm_compute in Hf..]).
  rewrite decide_False by (intros Hf; by vm_compute in Hf).
  rewrite (bind_done _ _ _ (peer_pid k) k), decide_False by (done || lia).
  rewrite (bind_done _ _ _ tt (set_peer (s_pid s) k)).
  2:{ case_decide; [done|]. destruct Hpeer as [?|<-]; [done|]. by destruct k. }
  rewrite (bind_done _ _ _ _ _ E). rewrite decide_False by lia.
  by rewrite decide_False by (intros Hf; by vm_compute in Hf).
Qed.

End exchange.

(** ** Two packets and the daemon of [RoutingSpec.v] *)
#[local] Existing Instances map_events x86_64 nl_x86_64 demo_libm one_hop_paths decimal_cast demo_net.
#[local] Instance demo_memory : Allocator := bump_allocator false.

(** One for the neighbour of the daemon, and one for 10.0.0.3, which it does not know. *)
Definition near_header : list Z := [69; 0; 0; 28; 0; 1; 0; 0; 64; 17; 0; 0; 10; 0; 0; 1; 2; 0; 0; 10].
Definition near_skb : sk_buff :=
  SkBuff (replicate 16 0) (near_header ++ demo_payload) (replicate 64 0) 16 1 false None 0.
Definition two_pending : list pending := [Pending 1 9 1 near_skb; Pending 2 9 2 demo_skb].
Definition two_queued : kernel :=
  Kern {[1%N := near_skb; 2%N := demo_skb]} {[1%N := EntryBlock (QueueEntry 1 9); 2%N := EntryBlock (QueueEntry 2 9)]}
    [2%N; 1%N] 2 0 (Some demo_eth0) [].

Lemma near_header_ok : ipv4 near_header.
Proof. split; [repeat (constructor; [lia|]); constructor|done|simpl; lia]. Qed.
Lemma two_queued_ok : queued two_queued two_pending.
Proof.
  split; try done; [by apply (bool_decide_unpack _); vm_compute..|].
  intros p [->|[->|[]%elem_of_nil]%elem_of_cons]%elem_of_cons; (split_and!; [done..|]).
  - exists near_header, demo_payload. by split; [|apply near_header_ok|].
  - exists demo_header, demo_payload. apply demo_packet_of.
Qed.

