(* ===== verification/SimHeap.v ===== *)
(** * The simulator's binary heap

    [ns2/common/heap.h] and the class [Heap] of [ns2/common/scheduler.cc]: the event
    queue of the heap scheduler.  Entries are ordered by time, and by a sequence number
    among equal times.  The array, its growth by doubling and the unsigned arithmetic of
    the indices are modelled as they are; the operations are shown to implement a
    priority queue over a collection of entries. *)
From Stdlib Require Import Floats.SpecFloat.
From S2P Require Import Prelude Double.
Open Scope Z_scope.

(* [ns2/common/heap.h:72-76] Heap_elem *)
Record Heap_elem := HeapElem { he_key : double; he_s_key : Z; he_elem : addr }.

(** The array: a cell that was never written is [None]. *)
(* [ns2/common/heap.h:70-80] class Heap *)
Record Heap := MkHeap {
  h_elems : list (option Heap_elem);
  h_s_key : Z;
  h_size : Z;
  h_maxsize : Z;
  h_iter : Z;
}.

(* [ns2/common/heap.h:82-82] parent *)
Definition parent (i : Z) : Z := u32 (i - 1) / 2.
(* [ns2/common/heap.h:83-83] left *)
Definition left (i : Z) : Z := u32 (u32 (i * 2) + 1).
(* [ns2/common/heap.h:84-84] right *)
Definition right (i : Z) : Z := u32 (u32 (i + 1) * 2).

(* [ns2/common/heap.h:92-95] KEY_LESS_THAN *)
Definition KEY_LESS_THAN (k1 : double) (ks1 : Z) (k2 : double) (ks2 : Z) : bool :=
  dlt k1 k2 || (deq k1 k2 && (ks1 <? ks2)).

(** Reading and writing a cell of the array. *)
Definition elem_at (i : Z) : M Heap Heap_elem := λ h,
  match h_elems h !! Z.to_nat i with
  | Some (Some e) => Done e h
  | Some None => Stuck UninitRead
  | None => Stuck OutOfBounds
  end.
Definition set_elems (es : list (option Heap_elem)) (h : Heap) : Heap :=
  MkHeap es (h_s_key h) (h_size h) (h_maxsize h) (h_iter h).
Definition set_elem (i : Z) (e : Heap_elem) : M Heap unit := λ h,
  if decide (Z.to_nat i < length (h_elems h))%nat
  then Done tt (set_elems (<[Z.to_nat i := Some e]> (h_elems h)) h)
  else Stuck OutOfBounds.
Definition set_h_size (n : Z) (h : Heap) : Heap :=
  MkHeap (h_elems h) (h_s_key h) n (h_maxsize h) (h_iter h).
Definition set_h_s_key (n : Z) (h : Heap) : Heap :=
  MkHeap (h_elems h) n (h_size h) (h_maxsize h) (h_iter h).
Definition set_h_iter (n : Z) (h : Heap) : Heap :=
  MkHeap (h_elems h) (h_s_key h) (h_size h) (h_maxsize h) n.

(* [ns2/common/heap.h:85-91] swap *)
Definition swap (i j : Z) : M Heap unit :=
  he ← elem_at i;
  ej ← elem_at j;
  _ ← set_elem i ej;
  set_elem j he.

(* [ns2/common/scheduler.cc:355-362] Heap::Heap *)
Definition Heap_new (size : Z) : Heap :=
  MkHeap (replicate (Z.to_nat size) (Some (HeapElem d_zero 0 NULL))) 0 0 size 0.

(* [ns2/common/scheduler.cc:378-387] Heap::heap_member *)
Fixpoint heap_member_loop (fuel : nat) (elem : addr) (i : Z) : M Heap Z :=
  match fuel with
  | O => stuck NoFuel
  | S fuel =>
      n ← gets h_size;
      if decide (i < n) then
        he ← elem_at i;
        if decide (he_elem he = elem) then mret (i + 1)
        else heap_member_loop fuel elem (u32 (i + 1))
      else mret 0
  end.
Definition heap_member (elem : addr) : M Heap Z :=
  n ← gets h_size; heap_member_loop (S (Z.to_nat n)) elem 0.

(* [ns2/common/scheduler.cc:441-448] Heap::heap_insert *)
Definition grow : M Heap unit :=
  h ← get;
  if decide (h_maxsize h = h_size h) then
    let osize := h_maxsize h in
    let maxsize := u32 (h_maxsize h * 2) in
    if decide (maxsize < osize) then stuck OutOfBounds
    else put (MkHeap (take (Z.to_nat osize) (h_elems h) ++
                        replicate (Z.to_nat (maxsize - osize)) None)
                (h_s_key h) (h_size h) maxsize (h_iter h))
  else skip.

(* [ns2/common/scheduler.cc:452-458] Heap::heap_insert *)
Fixpoint sift_up (fuel : nat) (key : double) (i par : Z) : M Heap Z :=
  match fuel with
  | O => stuck NoFuel
  | S fuel =>
      if decide (i > 0) then
        p ← elem_at par;
        sk ← gets h_s_key;
        if (KEY_LESS_THAN key sk (he_key p) (he_s_key p) : bool) then
          _ ← set_elem i p;
          sift_up fuel key par (parent par)
        else mret i
      else mret i
  end.

(* [ns2/common/scheduler.cc:437-463] Heap::heap_insert *)
Definition heap_insert (key : double) (elem : addr) : M Heap unit :=
  _ ← grow;
  i ← gets h_size;
  _ ← modify (set_h_size (u32 (i + 1)));
  i ← sift_up (S (Z.to_nat i)) key i (parent i);
  sk ← gets h_s_key;
  _ ← modify (set_h_s_key (u32 (sk + 1)));
  set_elem i (HeapElem key sk elem).

(* [ns2/common/scheduler.cc:509-529] Heap::heap_extract_min *)
Fixpoint heapify (fuel : nat) (i : Z) : M Heap unit :=
  match fuel with
  | O => stuck NoFuel
  | S fuel =>
      n ← gets h_size;
      if decide (i < n) then
        let l := left i in
        let r := right i in
        x ← (if decide (r < n) then
               el ← elem_at l;
               er ← elem_at r;
               mret (if (KEY_LESS_THAN (he_key el) (he_s_key el) (he_key er) (he_s_key er) : bool)
                     then l else r)
             else mret (if decide (l < n) then l else i));
        if decide (x = i) then skip
        else
          ex ← elem_at x;
          ei ← elem_at i;
          if (KEY_LESS_THAN (he_key ex) (he_s_key ex) (he_key ei) (he_s_key ei) : bool) then
            _ ← swap i x;
            heapify fuel x
          else skip
      else skip
  end.

(* [ns2/common/scheduler.cc:497-531] Heap::heap_extract_min *)
Definition heap_extract_min : M Heap addr :=
  n ← gets h_size;
  if decide (n = 0) then mret NULL
  else
    m ← elem_at 0;
    _ ← modify (set_h_size (n - 1));
    e ← elem_at (n - 1);
    _ ← set_elem 0 e;
    _ ← heapify (Z.to_nat n) 0;
    mret (he_elem m).

(* [ns2/common/scheduler.cc:417-419] Heap::heap_delete *)
Fixpoint promote (fuel : nat) (i : Z) : M Heap unit :=
  match fuel with
  | O => stuck NoFuel
  | S fuel =>
      if decide (i = 0) then skip
      else _ ← swap i (parent i); promote fuel (parent i)
  end.

(* [ns2/common/scheduler.cc:411-422] Heap::heap_delete *)
Definition heap_delete (elem : addr) : M Heap Z :=
  i ← heap_member elem;
  if decide (i = 0) then mret 0
  else
    _ ← promote (S (Z.to_nat i)) (i - 1);
    _ ← heap_extract_min;
    mret 1.

(* [ns2/common/heap.h:162-164] heap_min *)
Definition heap_min : M Heap addr :=
  n ← gets h_size;
  if decide (n > 0) then e ← elem_at 0; mret (he_elem e) else mret NULL.

(* [ns2/common/heap.h:135-138] heap_iter_init *)
Definition heap_iter_init : M Heap addr :=
  _ ← modify (set_h_iter 1); heap_min.

(* [ns2/common/heap.h:139-146] heap_iter *)
Definition heap_iter : M Heap addr :=
  h ← get;
  if decide (h_iter h >= h_size h) then _ ← modify (set_h_iter 0); mret NULL
  else
    _ ← modify (set_h_iter (u32 (h_iter h + 1)));
    e ← elem_at (h_iter h);
    mret (he_elem e).

(** ** The order of the entries *)

Definition elt (a b : Heap_elem) : bool :=
  KEY_LESS_THAN (he_key a) (he_s_key a) (he_key b) (he_s_key b).
(** [a] may come out before [b]. *)
Definition ele (a b : Heap_elem) : Prop := elt b a = false.
Definition timed (a : Heap_elem) : Prop := is_nan (he_key a) = false.

Lemma deq_key x y : deq x y = true ↔ dcmp eq x y.
Proof.
  unfold deq, SFeqb, dcmp.
  destruct x as [[]|[]| |[] m1 e1], y as [[]|[]| |[] m2 e2];
    simpl; try (split; [done|intros [=]; lia]); try done.
  all: try (change (Pos.compare_cont Eq m1 m2) with (Pos.compare m1 m2);
    destruct (Z.compare_spec e1 e2), (Pos.compare_spec m1 m2); simpl;
      split; intros; try done; try (simplify_eq; lia); congruence).
Qed.

(** Entries with a time that is not NaN are ordered lexicographically. *)
Definition hlt (a b : Heap_elem) : Prop :=
  match dkey (he_key a), dkey (he_key b) with
  | Some (a1, a2, a3), Some (b1, b2, b3) =>
      a1 < b1 ∨ (a1 = b1 ∧ (a2 < b2 ∨ (a2 = b2 ∧ (a3 < b3 ∨
        (a3 = b3 ∧ he_s_key a < he_s_key b)))))
  | _, _ => False
  end.

Lemma elt_key a b : elt a b = true ↔ hlt a b.
Proof.
  unfold elt, KEY_LESS_THAN, hlt.
  rewrite orb_true_iff, andb_true_iff, dlt_key, deq_key, Z.ltb_lt. unfold dcmp, klt.
  destruct (dkey (he_key a)) as [[[a1 a2] a3]|], (dkey (he_key b)) as [[[b1 b2] b3]|]; try naive_solver.
Qed.

(** Decide a goal about entries from the order of their keys. *)
Ltac heap_order :=
  unfold ele, timed in *; intros;
  repeat match goal with
  | H : elt _ _ = true |- _ => apply elt_key in H
  | H : elt _ _ = false |- _ => apply not_true_iff_false in H; rewrite elt_key in H
  | |- elt _ _ = true => apply elt_key
  | |- elt _ _ = false => apply not_true_iff_false; rewrite elt_key
  | H : is_nan ?x = false |- _ => apply not_true_iff_false in H; rewrite <- dkey_nan in H
  end;
  unfold hlt in *;
  repeat match goal with
  | |- context [dkey ?x] =>
      let k := fresh "k" in set (k := dkey x) in *; clearbody k; destruct k as [[[? ?] ?]|]
  | H : context [dkey ?x] |- _ =>
      let k := fresh "k" in set (k := dkey x) in *; clearbody k; destruct k as [[[? ?] ?]|]
  end; try done; try lia.

Lemma ele_refl a : ele a a.
Proof. heap_order. Qed.
Lemma ele_trans a b c : timed b → ele a b → ele b c → ele a c.
Proof. heap_order. Qed.
Lemma ele_total a b : ele a b ∨ ele b a.
Proof.
  unfold ele. destruct (elt b a) eqn:E; [right; heap_order|by left].
Qed.
Lemma elt_ele a b : elt a b = true → ele a b.
Proof. heap_order. Qed.

(** ** Heap-ordered sequences *)

Definition up (i : nat) : nat := ((i - 1) / 2)%nat.

Lemma up_lt i : (0 < i)%nat → (up i < i)%nat.
Proof. intros. unfold up. pose proof (Nat.div_le_upper_bound (i - 1) 2 (i - 1)). lia. Qed.
Lemma up_child c i : (0 < c)%nat → up c = i ↔ c = (2 * i + 1)%nat ∨ c = (2 * i + 2)%nat.
Proof.
  intros. unfold up. pose proof (Nat.div_mod (c - 1) 2). pose proof (Nat.mod_upper_bound (c - 1) 2).
  lia.
Qed.

(** The entry at [c] is not before the entry above it. *)
Definition edge_ok (l : list Heap_elem) (c : nat) : Prop :=
  ∀ x y, l !! c = Some x → l !! up c = Some y → ele y x.
Definition heap_ordered (l : list Heap_elem) : Prop := ∀ c, (0 < c)%nat → edge_ok l c.

(** Heap-ordered but for the position [i]: its own entry is out of place. *)
Definition ordered_but (l : list Heap_elem) (i : nat) : Prop :=
  (∀ c, (0 < c)%nat → c ≠ i → up c ≠ i → edge_ok l c) ∧
  (∀ c x y, (0 < i)%nat → (0 < c)%nat → up c = i → l !! c = Some x → l !! up i = Some y → ele y x).

Definition below_ok (l : list Heap_elem) (i : nat) : Prop :=
  ∀ c, (0 < c)%nat → up c = i → edge_ok l c.
Definition above_ok (l : list Heap_elem) (i : nat) : Prop := (0 < i)%nat → edge_ok l i.

Lemma ordered_but_heap l i :
  ordered_but l i → below_ok l i → above_ok l i → heap_ordered l.
Proof.
  intros [Ho _] Hb Ha c Hc. destruct (decide (c = i)) as [->|]; [by apply Ha|].
  destruct (decide (up c = i)); [by apply Hb|by apply Ho].
Qed.

Lemma heap_ordered_but l i : Forall timed l → heap_ordered l → ordered_but l i.
Proof.
  intros Ht Hl. split; [intros; by apply Hl|].
  intros c x y Hi Hc Hup Hx Hy.
  assert (is_Some (l !! i)) as [z Hz].
  { apply lookup_lt_is_Some. apply lookup_lt_Some in Hx. pose proof (up_lt c Hc). lia. }
  apply ele_trans with z.
  - by eapply Forall_lookup_1 in Hz.
  - by apply (Hl i).
  - apply (Hl c); [done..|]. by rewrite Hup.
Qed.

(** Exchanging the entries at two positions. *)
Definition exchange (l : list Heap_elem) (i j : nat) : list Heap_elem :=
  match l !! i, l !! j with Some a, Some b => <[j := a]> (<[i := b]> l) | _, _ => l end.

Lemma exchange_lookup l i j k a b :
  l !! i = Some a → l !! j = Some b →
  exchange l i j !! k =
    if decide (k = j) then Some a else if decide (k = i) then Some b else l !! k.
Proof.
  intros Ha Hb. unfold exchange. rewrite Ha, Hb.
  assert (i < length l)%nat by by eapply lookup_lt_Some.
  assert (j < length l)%nat by by eapply lookup_lt_Some.
  destruct (decide (k = j)) as [->|].
  { rewrite list_lookup_insert_eq; [done|]. by rewrite length_insert. }
  rewrite list_lookup_insert_ne by done.
  destruct (decide (k = i)) as [->|]; [by rewrite list_lookup_insert_eq by done|].
  by rewrite list_lookup_insert_ne by done.
Qed.

Lemma exchange_Permutation l i j : exchange l i j ≡ₚ l.
Proof.
  unfold exchange. destruct (l !! i) as [a|] eqn:Ha; [|done].
  destruct (l !! j) as [b|] eqn:Hb; [|done]. by apply Permutation_insert_swap.
Qed.

Lemma length_exchange l i j : length (exchange l i j) = length l.
Proof. apply Permutation_length, exchange_Permutation. Qed.

(** Moving the entry out of place up one level moves the place. *)
Lemma exchange_up l i :
  Forall timed l → (0 < i < length l)%nat → ordered_but l i →
  ordered_but (exchange l i (up i)) (up i).
Proof.
  intros Ht Hi [Ho Hg]. pose proof (up_lt i ltac:(lia)) as Hup.
  destruct (lookup_lt_is_Some_2 l i) as [v Hv]; [lia|].
  destruct (lookup_lt_is_Some_2 l (up i)) as [w Hw]; [lia|].
  split.
  - intros c Hc Hne Hne' x y. rewrite !(exchange_lookup _ _ _ _ _ _ Hv Hw).
    rewrite (decide_False (P := c = up i)), (decide_False (P := up c = up i)) by done.
    destruct (decide (c = i)) as [->|Hci]; [done|].
    destruct (decide (up c = i)) as [Hu|Hu].
    + intros Hx [= <-]. by eapply Hg; [lia| |done..].
    + by apply Ho.
  - intros c x y Hp Hc Hu. rewrite !(exchange_lookup _ _ _ _ _ _ Hv Hw).
    pose proof (up_lt (up i) Hp). pose proof (up_lt c Hc).
    rewrite (decide_False (P := c = up i)), (decide_False (P := up (up i) = up i)),
      (decide_False (P := up (up i) = i)) by lia.
    assert (ele' : ∀ y, l !! up (up i) = Some y → ele y w).
    { intros y' Hy'. apply (Ho (up i)); [done|lia|lia|done|done]. }
    case_decide; [intros [= <-] Hy; by apply ele'|].
    intros Hx Hy. apply ele_trans with w; [by eapply Forall_lookup_1 in Hw|by apply ele'|].
    apply (Ho c); [done..| |done|by rewrite Hu]. by rewrite Hu; lia.
Qed.

(** The entry out of place is moved below its smaller child. *)
Lemma exchange_down l i x a b :
  Forall timed l → l !! i = Some a → l !! x = Some b → (0 < x)%nat → up x = i →
  ordered_but l i → elt b a = true →
  (∀ c e, (0 < c)%nat → up c = i → l !! c = Some e → ele b e) →
  ordered_but (exchange l i x) x ∧ above_ok (exchange l i x) x.
Proof.
  intros Ht Ha Hb Hx Hup [Ho Hg] Hlt Hmin. pose proof (up_lt x Hx).
  split; [split|].
  - intros c Hc Hne Hne' e f. rewrite !(exchange_lookup _ _ _ _ _ _ Ha Hb).
    rewrite (decide_False (P := c = x)), (decide_False (P := up c = x)) by done.
    destruct (decide (c = i)) as [->|Hci].
    + pose proof (up_lt i Hc). rewrite decide_False by lia. intros [= <-] Hf.
      by eapply (Hg x).
    + destruct (decide (up c = i)) as [Hu|Hu]; [intros He [= <-]; by eapply Hmin|by apply Ho].
  - intros c e f _ Hc Hu. rewrite !(exchange_lookup _ _ _ _ _ _ Ha Hb).
    pose proof (up_lt c Hc).
    rewrite (decide_False (P := c = x)), (decide_False (P := c = i)),
      (decide_False (P := up x = x)), (decide_True (P := up x = i)) by lia.
    intros He [= <-]. apply (Ho c); [done|lia|lia|done|by rewrite Hu].
  - intros _ e f. rewrite !(exchange_lookup _ _ _ _ _ _ Ha Hb).
    rewrite decide_True, decide_False, decide_True by lia.
    intros [= <-] [= <-]. by apply elt_ele.
Qed.

(** The entry out of place is moved up while it is before the one above it. *)
Lemma exchange_below l i a w :
  Forall timed l → (0 < i)%nat → l !! i = Some a → l !! up i = Some w →
  ordered_but l i → elt a w = true → below_ok (exchange l i (up i)) (up i).
Proof.
  intros Ht Hi Ha Hw [Ho Hg] Hlt c Hc Hu e f.
  rewrite !(exchange_lookup _ _ _ _ _ _ Ha Hw).
  rewrite (decide_True (P := up c = up i)) by done. pose proof (up_lt c Hc).
  rewrite (decide_False (P := c = up i)) by lia.
  case_decide; intros He [= <-]; [simplify_eq; by apply elt_ele|].
  apply ele_trans with w; [by eapply Forall_lookup_1 in Hw|by apply elt_ele|].
  apply (Ho c); [done..| |done|by rewrite Hu]. pose proof (up_lt i Hi). lia.
Qed.

Lemma heap_ordered_root l i x y :
  Forall timed l → heap_ordered l → l !! 0%nat = Some x → l !! i = Some y → ele x y.
Proof.
  intros Ht Ho Hx. revert y. induction i as [i IH] using lt_wf_ind. intros y Hy.
  destruct (decide (i = 0)%nat) as [->|]; [simplify_eq; apply ele_refl|].
  pose proof (up_lt i ltac:(lia)).
  destruct (lookup_lt_is_Some_2 l (up i)) as [z Hz]; [apply lookup_lt_Some in Hy; lia|].
  apply ele_trans with z; [by eapply Forall_lookup_1 in Hz|by eapply IH|].
  by apply (Ho i); [lia|..].
Qed.

(** A new last entry is the only one that can be out of place. *)
Lemma ordered_but_snoc l x :
  heap_ordered l → ordered_but (l ++ [x]) (length l) ∧ below_ok (l ++ [x]) (length l).
Proof.
  intros Ho.
  assert (Hbelow : ∀ c, (0 < c)%nat → up c = length l → (l ++ [x]) !! c = None).
  { intros c Hc Hu. pose proof (up_lt c Hc). apply lookup_ge_None. rewrite length_app. simpl. lia. }
  split; [split|].
  - intros c Hc Hne _ e f He Hf. pose proof (up_lt c Hc).
    assert (c < length l)%nat by (apply lookup_lt_Some in He; rewrite length_app in He; simpl in He; lia).
    rewrite lookup_app_l in He by done. rewrite lookup_app_l in Hf by lia. by apply (Ho c).
  - intros c e f _ Hc Hu He. by rewrite Hbelow in He.
  - intros c Hc Hu e f He. by rewrite Hbelow in He.
Qed.

(** Replacing the root leaves only the root out of place. *)
Lemma ordered_but_root l x :
  ordered_but l 0 → ordered_but (<[0%nat := x]> l) 0 ∧ above_ok (<[0%nat := x]> l) 0.
Proof.
  intros [Ho _]. split; [split|].
  - intros c Hc Hne Hu e f. rewrite !list_lookup_insert_ne by done. by apply Ho.
  - intros c e f ?; lia.
  - intros ?; lia.
Qed.

Lemma ordered_but_prefix l k i :
  ordered_but (l ++ k) i → ordered_but l i.
Proof.
  intros [Ho Hg]. split.
  - intros c Hc Hne Hu x y Hx Hy. apply (Ho c); [done..| |]; by apply lookup_app_l_Some.
  - intros c x y Hi Hc Hu Hx Hy. apply (Hg c); [done..| |]; by apply lookup_app_l_Some.
Qed.

(** ** The array *)

Definition meta (h : Heap) : Z * Z * Z * Z * nat :=
  (h_s_key h, h_size h, h_maxsize h, h_iter h, length (h_elems h)).

(** The array starts with the entries [l], whatever is in the cell [i]. *)
Definition arr_but (h : Heap) (i : nat) (l : list Heap_elem) : Prop :=
  (length l ≤ length (h_elems h))%nat ∧
  ∀ j, j ≠ i → (j < length l)%nat → h_elems h !! j = Some <$> (l !! j).
Definition arr (h : Heap) (l : list Heap_elem) : Prop := arr_but h (length l) l.

Lemma arr_but_lookup h i l j e :
  arr_but h i l → j ≠ i → l !! j = Some e → h_elems h !! j = Some (Some e).
Proof.
  intros [_ Ha] Hj He. rewrite Ha; [by rewrite He|done|by eapply lookup_lt_Some].
Qed.

Lemma arr_but_fill h i l : arr_but h i l → h_elems h !! i = Some <$> (l !! i) → arr h l.
Proof.
  intros [Hlen Ha] Hi. split; [done|]. intros j _ Hj.
  destruct (decide (j = i)) as [->|]; [done|by apply Ha].
Qed.

Lemma arr_but_weaken h i l : arr h l → arr_but h i l.
Proof. intros [Hlen Ha]. split; [done|]. intros j _ Hj. apply Ha; lia. Qed.

Lemma elem_at_but h i l j e :
  arr_but h i l → j ≠ i → l !! j = Some e → elem_at (Z.of_nat j) h = Done e h.
Proof.
  intros Ha Hj He. unfold elem_at. rewrite Nat2Z.id. by rewrite (arr_but_lookup _ _ _ _ _ Ha Hj He).
Qed.

Lemma elem_at_arr h l j e : arr h l → l !! j = Some e → elem_at (Z.of_nat j) h = Done e h.
Proof.
  intros Ha He. eapply elem_at_but; [done| |done]. apply lookup_lt_Some in He. lia.
Qed.

Lemma set_elem_but h i l e :
  arr_but h i l → (i < length l)%nat →
  ∃ h', set_elem (Z.of_nat i) e h = Done tt h' ∧ meta h' = meta h ∧ arr h' (<[i := e]> l).
Proof.
  intros [Hlen Ha] Hi. exists (set_elems (<[i := Some e]> (h_elems h)) h).
  unfold set_elem. rewrite Nat2Z.id, decide_True by lia. split_and!; [done| |].
  { unfold meta. simpl. by rewrite length_insert. }
  apply arr_but_fill with i.
  - split; [simpl; by rewrite !length_insert|]. simpl. intros j Hj Hlt.
    rewrite length_insert in Hlt. rewrite !list_lookup_insert_ne by done. by apply Ha.
  - simpl. rewrite !list_lookup_insert_eq by lia. done.
Qed.

Lemma swap_spec h l i j a b :
  arr h l → l !! i = Some a → l !! j = Some b →
  ∃ h', swap (Z.of_nat i) (Z.of_nat j) h = Done tt h' ∧ meta h' = meta h ∧
    arr h' (exchange l i j).
Proof.
  intros Harr Hi Hj. unfold swap, exchange. rewrite Hi, Hj.
  rewrite (bind_done _ _ _ _ _ (elem_at_arr _ _ _ _ Harr Hi)).
  rewrite (bind_done _ _ _ _ _ (elem_at_arr _ _ _ _ Harr Hj)).
  destruct (set_elem_but h i l b) as (h1 & E1 & M1 & A1);
    [by apply arr_but_weaken|by eapply lookup_lt_Some|].
  rewrite (bind_done _ _ _ _ _ E1).
  destruct (set_elem_but h1 j (<[i := b]> l) a) as (h2 & E2 & M2 & A2);
    [by apply arr_but_weaken|rewrite length_insert; by eapply lookup_lt_Some|].
  exists h2. split_and!; [done|congruence|done].
Qed.

Lemma parent_up i : (0 < i)%nat → Z.of_nat i < 2 ^ 32 → parent (Z.of_nat i) = Z.of_nat (up i).
Proof.
  intros Hi Hlt. unfold parent, up, u32. rewrite wrap_small by lia.
  rewrite Nat2Z.inj_div, Nat2Z.inj_sub by lia. done.
Qed.
Lemma left_child i : Z.of_nat i < 2 ^ 31 - 1 → left (Z.of_nat i) = Z.of_nat (2 * i + 1).
Proof. intros. unfold left, u32. rewrite !wrap_small; rewrite ?wrap_small; lia. Qed.
Lemma right_child i : Z.of_nat i < 2 ^ 31 - 1 → right (Z.of_nat i) = Z.of_nat (2 * i + 2).
Proof. intros. unfold right, u32. rewrite !wrap_small; rewrite ?wrap_small; lia. Qed.

(** The loop of [heap_insert]: the hole moves up to the place of the new entry. *)
Lemma sift_up_spec fuel h i l x :
  (i < fuel)%nat → Z.of_nat i < 2 ^ 32 → arr_but h i l → l !! i = Some x →
  h_s_key h = he_s_key x → Forall timed l → ordered_but l i → below_ok l i →
  ∃ j h' l', sift_up fuel (he_key x) (Z.of_nat i) (parent (Z.of_nat i)) h = Done (Z.of_nat j) h' ∧
    meta h' = meta h ∧ l' ≡ₚ l ∧ l' !! j = Some x ∧ arr_but h' j l' ∧ heap_ordered l'.
Proof.
  revert h i l. induction fuel as [|fuel IH]; [lia|].
  intros h i l Hfuel Hi Harr Hx Hsk Ht Ho Hb. cbn [sift_up].
  destruct (decide (Z.of_nat i > 0)) as [Hpos|Hpos].
  2:{ exists i, h, l. split_and!; [done..|]. apply ordered_but_heap with i; [done..|].
      intros ?. lia. }
  assert (0 < i)%nat as Hi0 by lia. pose proof (up_lt i Hi0) as Hup.
  rewrite parent_up by lia.
  destruct (lookup_lt_is_Some_2 l (up i)) as [w Hw]; [apply lookup_lt_Some in Hx; lia|].
  rewrite (bind_done _ _ _ _ _ (elem_at_but _ _ _ (up i) w Harr ltac:(lia) Hw)).
  rewrite (bind_done _ _ _ (h_s_key h) h) by done. rewrite Hsk.
  change (KEY_LESS_THAN (he_key x) (he_s_key x) (he_key w) (he_s_key w)) with (elt x w).
  destruct (elt x w) eqn:Elt.
  2:{ exists i, h, l. split_and!; [done..|]. apply ordered_but_heap with i; [done..|].
      intros _ e f He Hf. simplify_eq. exact Elt. }
  destruct (set_elem_but h i l w) as (h1 & E1 & M1 & A1); [done|by eapply lookup_lt_Some|].
  rewrite (bind_done _ _ _ _ _ E1).
  assert (exchange l i (up i) = <[up i := x]> (<[i := w]> l)) as Ex.
  { unfold exchange. by rewrite Hx, Hw. }
  destruct (IH h1 (up i) (exchange l i (up i))) as (j & h' & l' & E & Hm & Hp & Hj & Ha' & Ho').
  - lia.
  - lia.
  - rewrite Ex. destruct A1 as [Hlen A1]. rewrite length_insert in *.
    split; [by rewrite !length_insert|]. intros k Hk Hlt. rewrite !length_insert in *.
    rewrite list_lookup_insert_ne by done. apply A1; lia.
  - rewrite (exchange_lookup _ _ _ _ _ _ Hx Hw). by rewrite decide_True.
  - unfold meta in M1. congruence.
  - by rewrite exchange_Permutation.
  - apply exchange_up; [done|apply lookup_lt_Some in Hx; lia|done].
  - by eapply exchange_below.
  - exists j, h', l'. split_and!; [done|congruence| |done..]. by rewrite Hp, exchange_Permutation.
Qed.

(** The loop of [heap_extract_min]: the root moves down to its place. *)
Lemma heapify_spec fuel h i l :
  (length l < fuel + i)%nat → (i ≤ length l)%nat → Z.of_nat (length l) < 2 ^ 31 - 1 → arr h l →
  h_size h = Z.of_nat (length l) → Forall timed l → ordered_but l i → above_ok l i →
  ∃ h' l', heapify fuel (Z.of_nat i) h = Done tt h' ∧ meta h' = meta h ∧ l' ≡ₚ l ∧
    arr h' l' ∧ heap_ordered l'.
Proof.
  revert h i l. induction fuel as [|fuel IH]; [lia|].
  intros h i l Hfuel Hil Hlen Harr Hsize Ht Ho Ha. cbn [heapify].
  rewrite (bind_done _ _ _ (h_size h) h), Hsize by done.
  destruct (decide (Z.of_nat i < Z.of_nat (length l))) as [Hlt|Hge].
  2:{ exists h, l. split_and!; [done..|]. apply ordered_but_heap with i; [done| |done].
      intros c Hc Hu e f He. apply lookup_lt_Some in He. pose proof (up_lt c Hc). lia. }
  destruct (lookup_lt_is_Some_2 l i) as [a Hla]; [lia|].
  rewrite left_child, right_child by lia.
  (* the child to compare with *)
  assert (∃ x, (if decide (Z.of_nat (2 * i + 2) < Z.of_nat (length l)) then
               el ← elem_at (Z.of_nat (2 * i + 1));
               er ← elem_at (Z.of_nat (2 * i + 2));
               mret (if (KEY_LESS_THAN (he_key el) (he_s_key el) (he_key er) (he_s_key er) : bool)
                     then Z.of_nat (2 * i + 1) else Z.of_nat (2 * i + 2))
             else mret (if decide (Z.of_nat (2 * i + 1) < Z.of_nat (length l))
                        then Z.of_nat (2 * i + 1) else Z.of_nat i)) h = Done (Z.of_nat x) h ∧
    ((x = i ∧ length l ≤ 2 * i + 1)%nat ∨
     ∃ b, l !! x = Some b ∧ (0 < x)%nat ∧ up x = i ∧
      ∀ c e, (0 < c)%nat → up c = i → l !! c = Some e → ele b e)) as (x & Ex & Hx).
  { destruct (decide (Z.of_nat (2 * i + 2) < Z.of_nat (length l))) as [Hr|Hr].
    - destruct (lookup_lt_is_Some_2 l (2 * i + 1)) as [el Hel]; [lia|].
      destruct (lookup_lt_is_Some_2 l (2 * i + 2)) as [er Her]; [lia|].
      rewrite (bind_done _ _ _ _ _ (elem_at_arr _ _ _ _ Harr Hel)).
      rewrite (bind_done _ _ _ _ _ (elem_at_arr _ _ _ _ Harr Her)).
      change (KEY_LESS_THAN (he_key el) (he_s_key el) (he_key er) (he_s_key er)) with (elt el er).
      destruct (elt el er) eqn:Elt.
      + exists (2 * i + 1)%nat. split; [done|]. right. exists el. split_and!; [done|lia|apply up_child; lia|].
        intros c e Hc [->| ->]%up_child He; [simplify_eq; apply ele_refl|simplify_eq; by apply elt_ele|done].
      + exists (2 * i + 2)%nat. split; [done|]. right. exists er. split_and!; [done|lia|apply up_child; lia|].
        intros c e Hc [->| ->]%up_child He; [by simplify_eq|simplify_eq; apply ele_refl|done].
    - destruct (decide (Z.of_nat (2 * i + 1) < Z.of_nat (length l))) as [Hl|Hl].
      + destruct (lookup_lt_is_Some_2 l (2 * i + 1)) as [el Hel]; [lia|].
        exists (2 * i + 1)%nat. split; [done|]. right. exists el. split_and!; [done|lia|apply up_child; lia|].
        intros c e Hc [->| ->]%up_child He; [simplify_eq; apply ele_refl| |done].
        apply lookup_lt_Some in He. lia.
      + exists i. split; [done|]. left. lia. }
  rewrite (bind_done _ _ _ _ _ Ex). clear Ex.
  assert (Hdone : below_ok l i → ∃ h' l', skip h = Done tt h' ∧ meta h' = meta h ∧ l' ≡ₚ l ∧
    arr h' l' ∧ heap_ordered l').
  { intros Hb. exists h, l. split_and!; [done..|]. by apply ordered_but_heap with i. }
  destruct Hx as [[-> Hleaf]|(b & Hb & Hx0 & Hu & Hmin)].
  { rewrite decide_True by done. apply Hdone. intros c Hc Hu e f He.
    apply lookup_lt_Some in He. apply up_child in Hu; [lia|done]. }
  pose proof (up_lt x Hx0). rewrite decide_False by lia.
  rewrite (bind_done _ _ _ _ _ (elem_at_arr _ _ _ _ Harr Hb)).
  rewrite (bind_done _ _ _ _ _ (elem_at_arr _ _ _ _ Harr Hla)).
  change (KEY_LESS_THAN (he_key b) (he_s_key b) (he_key a) (he_s_key a)) with (elt b a).
  destruct (elt b a) eqn:Elt.
  2:{ apply Hdone. intros c Hc Hu' e f He Hf. rewrite Hu' in Hf. simplify_eq.
      apply ele_trans with b; [by eapply Forall_lookup_1 in Hb|done|by eapply Hmin]. }
  destruct (swap_spec h l i x a b) as (h1 & E1 & M1 & A1); [done..|].
  rewrite (bind_done _ _ _ _ _ E1).
  destruct (exchange_down l i x a b) as [Ho' Ha']; [done..|].
  destruct (IH h1 x (exchange l i x)) as (h' & l' & E & Hm & Hp & Harr' & Hord).
  - rewrite length_exchange. lia.
  - rewrite length_exchange. apply lookup_lt_Some in Hb. lia.
  - by rewrite length_exchange.
  - done.
  - rewrite length_exchange. unfold meta in M1. congruence.
  - by rewrite exchange_Permutation.
  - done.
  - done.
  - exists h', l'. split_and!; [done|congruence|by rewrite Hp, exchange_Permutation|done..].
Qed.

(** ** The heap as a collection of entries *)

(** The heap holds the entries [l], in some order. *)
Definition heap_rep (h : Heap) (l : list Heap_elem) : Prop :=
  ∃ a, a ≡ₚ l ∧ arr h a ∧ heap_ordered a ∧ Forall timed a ∧
    h_size h = Z.of_nat (length a) ∧ length (h_elems h) = Z.to_nat (h_maxsize h) ∧
    0 < h_maxsize h < 2 ^ 32 ∧ 0 ≤ h_s_key h < 2 ^ 32.

(** [m] comes out before or with every entry of [l]. *)
Definition first_of (m : Heap_elem) (l : list Heap_elem) : Prop := Forall (ele m) l.

Lemma arr_take h l n e k :
  arr h l → (n ≤ length l)%nat → arr (set_elems (take n (h_elems h) ++ replicate k e) h) (take n l).
Proof.
  intros [Hlen Ha] Hn. split.
  { simpl. rewrite length_app, !length_take. lia. }
  intros j _ Hj. rewrite length_take in Hj. simpl.
  rewrite lookup_app_l by (rewrite length_take; lia). rewrite !lookup_take_lt by lia. apply Ha; lia.
Qed.

Lemma grow_spec h a :
  arr h a → h_size h = Z.of_nat (length a) → length (h_elems h) = Z.to_nat (h_maxsize h) →
  0 < h_maxsize h < 2 ^ 32 → Z.of_nat (length a) < 2 ^ 31 - 1 →
  ∃ h', grow h = Done tt h' ∧ arr h' a ∧ h_size h' = h_size h ∧ h_s_key h' = h_s_key h ∧
    h_iter h' = h_iter h ∧ (length a < length (h_elems h'))%nat ∧
    length (h_elems h') = Z.to_nat (h_maxsize h') ∧ 0 < h_maxsize h' < 2 ^ 32.
Proof.
  intros Harr Hsize Hmax Hm Hlt. unfold grow. rewrite (bind_done _ _ _ h h) by done.
  destruct (decide (h_maxsize h = h_size h)) as [E|E].
  - assert (u32 (h_maxsize h * 2) = h_maxsize h * 2) as Eu by (apply wrap_small; lia).
    rewrite Eu, decide_False by lia.
    eexists. split; [done|]. simpl. split_and!; try done; try lia.
    + pose proof (arr_take h a (length a) None (Z.to_nat (h_maxsize h * 2 - h_maxsize h)) Harr ltac:(lia)) as [A1 A2].
      rewrite firstn_all in A1, A2. simpl in *.
      replace (Z.to_nat (h_maxsize h)) with (length a) by lia. split; done.
    + rewrite length_app, length_take, length_replicate. lia.
    + rewrite length_app, length_take, length_replicate. lia.
  - exists h. destruct Harr as [Hl ?]. split_and!; try done; lia.
Qed.

Lemma heap_insert_spec h l key e :
  heap_rep h l → is_nan key = false → Z.of_nat (length l) < 2 ^ 31 - 1 →
  ∃ h', heap_insert key e h = Done tt h' ∧
    heap_rep h' (HeapElem key (h_s_key h) e :: l) ∧ h_s_key h' = u32 (h_s_key h + 1).
Proof.
  intros (a & Hp & Harr & Ho & Ht & Hsize & Hmax & Hm & Hsk) Hkey Hlt.
  rewrite <- (Permutation_length Hp) in Hlt. unfold heap_insert.
  destruct (grow_spec h a) as (h1 & E1 & A1 & S1 & K1 & I1 & L1 & X1 & M1); [done..|].
  rewrite (bind_done _ _ _ _ _ E1), (bind_done _ _ _ (h_size h1) h1) by done.
  rewrite S1, Hsize.
  assert (u32 (Z.of_nat (length a) + 1) = Z.of_nat (S (length a))) as Eu.
  { unfold u32. rewrite wrap_small; lia. }
  rewrite Eu. set (h2 := set_h_size (Z.of_nat (S (length a))) h1).
  rewrite (bind_done _ _ _ tt h2) by done.
  set (x := HeapElem key (h_s_key h) e).
  destruct (ordered_but_snoc a x Ho) as [Hob Hbe].
  destruct (sift_up_spec (S (length a)) h2 (length a) (a ++ [x]) x)
    as (j & h3 & a3 & E3 & M3 & P3 & J3 & A3 & O3); try done; try lia.
  { destruct A1 as [Al A1]. split; [rewrite length_app; simpl; lia|].
    intros j Hj Hjl. rewrite length_app in Hjl. simpl in *.
    rewrite lookup_app_l by lia. apply A1; lia. }
  { by rewrite list_lookup_middle. }
  { apply Forall_app. split; [done|]. by apply Forall_singleton. }
  rewrite Nat2Z.id, (bind_done _ _ _ _ _ E3), (bind_done _ _ _ (h_s_key h3) h3) by done.
  unfold meta in M3. simpl in M3. injection M3 as K3 S3 X3 I3 L3.
  rewrite (bind_done _ _ _ tt (set_h_s_key (u32 (h_s_key h3 + 1)) h3)) by done.
  rewrite K3, K1.
  destruct (set_elem_but (set_h_s_key (u32 (h_s_key h + 1)) h3) j a3 x) as (h4 & E4 & M4 & A4);
    [done|by eapply lookup_lt_Some|].
  exists h4. split; [done|]. unfold meta in M4. simpl in M4. injection M4 as K4 S4 X4 I4 L4.
  split; [|done]. exists a3. rewrite list_insert_id in A4 by done.
  split_and!; try done; try congruence; try (rewrite X4, X3; lia).
  - rewrite P3, Permutation_app_comm. simpl. by rewrite Hp.
  - rewrite P3. apply Forall_app. split; [done|]. by apply Forall_singleton.
  - rewrite S4, S3, (Permutation_length P3), length_app. simpl. f_equal. lia.
  - rewrite K4. apply (wrap_range 32). lia.
  - rewrite K4. apply (wrap_range 32). lia.
Qed.

(** Removing the entry at the root, whatever the order above the others. *)
Lemma remove_root_spec h a r rest :
  arr h a → a = r :: rest → ordered_but a 0 → Forall timed a →
  h_size h = Z.of_nat (length a) → Z.of_nat (length a) < 2 ^ 31 - 1 →
  ∃ h' a', heap_extract_min h = Done (he_elem r) h' ∧ a' ≡ₚ rest ∧ arr h' a' ∧
    heap_ordered a' ∧ Forall timed a' ∧ h_size h' = Z.of_nat (length a') ∧
    length (h_elems h') = length (h_elems h) ∧ h_maxsize h' = h_maxsize h ∧
    h_s_key h' = h_s_key h.
Proof.
  intros Harr Ea Ho Ht Hsize Hlt. unfold heap_extract_min.
  rewrite (bind_done _ _ _ (h_size h) h), Hsize by done.
  assert (a !! 0%nat = Some r) as Hr by by rewrite Ea.
  rewrite decide_False by (rewrite Ea; simpl; lia).
  rewrite (bind_done _ _ _ _ _ (elem_at_arr h a 0 r Harr Hr)).
  set (h1 := set_h_size (Z.of_nat (length a) - 1) h).
  rewrite (bind_done _ _ _ tt h1) by done.
  destruct (exists_last (l := a)) as (b & z & Eb); [by rewrite Ea|].
  assert (length a = S (length b)) as El by (rewrite Eb, length_app; simpl; lia).
  replace (Z.of_nat (length a) - 1) with (Z.of_nat (length b)) by lia.
  assert (arr h1 a) as Harr1 by done.
  rewrite (bind_done _ _ _ z h1).
  2:{ apply (elem_at_arr h1 a _ z Harr1). rewrite Eb. by apply list_lookup_middle. }
  assert (∃ h2 c, set_elem 0 z h1 = Done tt h2 ∧ meta h2 = meta h1 ∧ arr h2 c ∧
    c ≡ₚ rest ∧ ordered_but c 0 ∧ above_ok c 0 ∧ length c = length b) as
    (h2 & c & E2 & M2 & A2 & P2 & O2 & B2 & L2).
  { destruct (set_elem_but h1 0 a z) as (h2 & E2 & M2 & A2);
      [by apply arr_but_weaken|rewrite Ea; simpl; lia|].
    exists h2, (<[0%nat := z]> b). split_and!; [done|done| | | | |by rewrite length_insert].
    - destruct A2 as [Al A2]. rewrite length_insert in *. split; [rewrite length_insert; lia|].
      rewrite length_insert. intros j _ Hj. rewrite A2 by lia. f_equal.
      rewrite Eb. rewrite insert_app_l by lia. rewrite lookup_app_l; [done|].
      by rewrite length_insert.
    - destruct b as [|b0 b]; simpl in Eb; subst a.
      + by injection Eb as <- ->.
      + injection Eb as <- ->. simpl. by rewrite Permutation_app_comm.
    - apply ordered_but_root. apply ordered_but_prefix with [z]. by rewrite <- Eb.
    - intros ?. lia. }
  rewrite (bind_done _ _ _ _ _ E2). unfold meta in M2. simpl in M2. injection M2 as K2 S2 X2 I2 N2.
  destruct (heapify_spec (length a) h2 0 c) as (h3 & c' & E3 & M3 & P3 & A3 & O3); try done; try lia.
  { rewrite P2. rewrite Ea in Ht. by apply Forall_cons in Ht as [_ ?]. }
  rewrite Nat2Z.id, (bind_done _ _ _ _ _ E3). unfold meta in M3. injection M3 as K3 S3 X3 I3 N3.
  exists h3, c'. split_and!; try done; try congruence.
  - by rewrite P3.
  - rewrite P3, P2. rewrite Ea in Ht. by apply Forall_cons in Ht as [_ ?].
  - rewrite S3, S2, (Permutation_length P3). lia.
Qed.

Lemma heap_extract_min_spec h l :
  heap_rep h l → Z.of_nat (length l) < 2 ^ 31 - 1 →
  (l = [] ∧ heap_extract_min h = Done NULL h) ∨
  ∃ m rest h', l ≡ₚ m :: rest ∧ first_of m l ∧ heap_extract_min h = Done (he_elem m) h' ∧
    heap_rep h' rest ∧ h_s_key h' = h_s_key h.
Proof.
  intros (a & Hp & Harr & Ho & Ht & Hsize & Hmax & Hm & Hsk) Hlt.
  rewrite <- (Permutation_length Hp) in Hlt.
  destruct a as [|r rest].
  { left. apply Permutation_nil_l in Hp. split; [done|].
    unfold heap_extract_min. rewrite (bind_done _ _ _ (h_size h) h), Hsize by done. done. }
  right. destruct (remove_root_spec h (r :: rest) r rest) as
    (h' & a' & E & P' & A' & O' & T' & S' & N' & X' & K'); try done.
  { apply heap_ordered_but; done. }
  exists r, rest, h'. split_and!; [done| |done| |done].
  - unfold first_of. rewrite <- Hp. apply Forall_lookup_2. intros i y Hy.
    by apply (heap_ordered_root (r :: rest) i).
  - exists a'. split_and!; try done; try congruence; lia.
Qed.

(** ** Deletion *)

Lemma heap_member_loop_spec fuel h a e i :
  arr h a → h_size h = Z.of_nat (length a) → Z.of_nat (length a) < 2 ^ 31 - 1 →
  (length a < fuel + i)%nat → (i ≤ length a)%nat →
  heap_member_loop fuel e (Z.of_nat i) h =
    Done (match list_find (λ x, he_elem x = e) (drop i a) with
          | Some (k, _) => Z.of_nat (S (i + k)) | None => 0 end) h.
Proof.
  intros Harr Hsize Hlt. revert i. induction fuel as [|fuel IH]; [lia|]. intros i Hf Hi.
  cbn [heap_member_loop]. rewrite (bind_done _ _ _ (h_size h) h), Hsize by done.
  destruct (decide (Z.of_nat i < Z.of_nat (length a))) as [Hl|Hl].
  2:{ by rewrite drop_ge by lia. }
  destruct (lookup_lt_is_Some_2 a i) as [x Hx]; [lia|].
  rewrite (bind_done _ _ _ _ _ (elem_at_arr _ _ _ _ Harr Hx)).
  rewrite (drop_S _ _ _ Hx). simpl.
  destruct (decide (he_elem x = e)) as [Heq|Hne].
  - unfold mret, M_ret. f_equal. lia.
  - unfold u32. rewrite wrap_small by lia.
    replace (Z.of_nat i + 1) with (Z.of_nat (S i)) by lia. rewrite IH by lia.
    destruct (list_find (λ x, he_elem x = e) (drop (S i) a)) as [[k y]|]; [|done].
    simpl. do 2 f_equal. lia.
Qed.

Lemma promote_spec fuel h a i x :
  (i < fuel)%nat → arr h a → a !! i = Some x → Forall timed a → ordered_but a i →
  Z.of_nat (length a) < 2 ^ 31 - 1 →
  ∃ h' a', promote fuel (Z.of_nat i) h = Done tt h' ∧ meta h' = meta h ∧ arr h' a' ∧
    a' ≡ₚ a ∧ a' !! 0%nat = Some x ∧ ordered_but a' 0.
Proof.
  revert h a i. induction fuel as [|fuel IH]; [lia|]. intros h a i Hf Harr Hx Ht Ho Hlt.
  cbn [promote]. destruct (decide (Z.of_nat i = 0)) as [E|E].
  { assert (i = 0%nat) as -> by lia. exists h, a. by split_and!. }
  assert (i < length a)%nat by by eapply lookup_lt_Some.
  pose proof (up_lt i ltac:(lia)). rewrite parent_up by lia.
  destruct (lookup_lt_is_Some_2 a (up i)) as [w Hw]; [lia|].
  destruct (swap_spec h a i (up i) x w) as (h1 & E1 & M1 & A1); [done..|].
  rewrite (bind_done _ _ _ _ _ E1).
  destruct (IH h1 (exchange a i (up i)) (up i)) as (h' & a' & E' & M' & A' & P' & X' & O').
  - lia.
  - done.
  - rewrite (exchange_lookup _ _ _ _ _ _ Hx Hw). by rewrite decide_True.
  - by rewrite exchange_Permutation.
  - apply exchange_up; [done|lia|done].
  - by rewrite length_exchange.
  - exists h', a'. split_and!; [done|congruence|done|by rewrite P', exchange_Permutation|done..].
Qed.

Lemma heap_delete_spec h l e :
  heap_rep h l → Z.of_nat (length l) < 2 ^ 31 - 1 →
  (e ∉ he_elem <$> l ∧ heap_delete e h = Done 0 h) ∨
  ∃ x rest h', he_elem x = e ∧ l ≡ₚ x :: rest ∧ heap_delete e h = Done 1 h' ∧
    heap_rep h' rest ∧ h_s_key h' = h_s_key h.
Proof.
  intros (a & Hp & Harr & Ho & Ht & Hsize & Hmax & Hm & Hsk) Hlt.
  rewrite <- (Permutation_length Hp) in Hlt.
  unfold heap_delete, heap_member.
  assert (Em : (n ← gets h_size; heap_member_loop (S (Z.to_nat n)) e 0) h = 
    Done (match list_find (λ x, he_elem x = e) a with
          | Some (k, _) => Z.of_nat (S k) | None => 0 end) h).
  { rewrite (bind_done _ _ _ (h_size h) h), Hsize, Nat2Z.id by done.
    apply (heap_member_loop_spec _ h a e 0); done || lia. }
  rewrite (bind_done _ _ _ _ _ Em).
  destruct (list_find (λ x, he_elem x = e) a) as [[k x]|] eqn:Ef.
  - right. apply list_find_Some in Ef as (Hk & <- & _).
    rewrite decide_False by lia.
    destruct (promote_spec (S (Z.to_nat (Z.of_nat (S k)))) h a k x)
      as (h1 & a1 & E1 & M1 & A1 & P1 & X1 & O1); try done; try lia.
    { by apply heap_ordered_but. }
    replace (Z.of_nat (S k) - 1) with (Z.of_nat k) by lia.
    rewrite (bind_done _ _ _ _ _ E1). unfold meta in M1. injection M1 as K1 S1 Y1 I1 N1.
    destruct a1 as [|r rest]; [done|]. injection X1 as ->.
    destruct (remove_root_spec h1 (x :: rest) x rest) as
      (h' & a' & E & P' & A' & O' & T' & S' & N' & X' & K'); try done.
    + by rewrite P1.
    + rewrite S1, Hsize. by rewrite <- (Permutation_length P1).
    + by rewrite (Permutation_length P1).
    + rewrite (bind_done _ _ _ _ _ E).
      exists x, rest, h'. split_and!; try done; [by rewrite <- Hp, <- P1| |congruence].
      exists a'. split_and!; try done; try congruence; rewrite ?X', ?K', ?Y1, ?K1; lia.
  - left. apply list_find_None in Ef. split; [|by rewrite decide_True].
    rewrite <- Hp. intros (y & Ey & Hy)%list_elem_of_fmap.
    rewrite Forall_forall in Ef. by eapply Ef.
Qed.
