(* ===== verification/SimEvent.v ===== *)
(** * Event queues of the simulator

    [ns2/common/scheduler.h]: events, and the interface between the class [Scheduler]
    and the data structures that order its events.  A queue holds a sequence of events
    in the order in which they will be dispatched: by time, and among equal times by the
    order of insertion.  [EventQueue] are the operations a scheduler implements and
    [EventQueueSpec] what they do to that sequence; two queues that satisfy it cannot
    be told apart. *)
From S2P Require Import Prelude Double.
Open Scope Z_scope.

(* [ns2/common/scheduler.h:56-64] class Event *)
Record Event := Ev {
  next_ : addr;
  prev_ : addr;
  handler_ : addr;
  time_ : double;
  uid_ : Z;
}.

Abbreviation event_heap := (gmap N Event).

Definition with_next (n : addr) (e : Event) : Event :=
  Ev n (prev_ e) (handler_ e) (time_ e) (uid_ e).
Definition with_uid (u : Z) (e : Event) : Event :=
  Ev (next_ e) (prev_ e) (handler_ e) (time_ e) u.
Definition with_schedule (h : addr) (t : double) (u : Z) (e : Event) : Event :=
  Ev (next_ e) (prev_ e) h t u.

(** What a client of the queue sees of an event: all but its links. *)
Definition visible (e : Event) : addr * double * Z := (handler_ e, time_ e, uid_ e).

Definition same_events (m m' : event_heap) : Prop := ∀ e, visible <$> m' !! e = visible <$> m !! e.

#[global] Instance same_events_equiv : Equivalence same_events.
Proof.
  split; [by intros m e|by intros m m' Hs e; rewrite (Hs e)|].
  intros m1 m2 m3 H1 H2 e. by rewrite (H2 e).
Qed.

(** The time of an event. *)
Definition time_of (m : event_heap) (e : addr) : option double := time_ <$> m !! e.

Lemma time_of_same m m' e : same_events m m' → time_of m' e = time_of m e.
Proof.
  intros Hs. specialize (Hs e). unfold time_of.
  destruct (m !! e) as [[]|], (m' !! e) as [[]|]; simpl in *; by simplify_eq.
Qed.

(** [e], whose time is [t], goes before the first event with a later time. *)
Fixpoint enlist (m : event_heap) (e : addr) (t : double) (xs : list addr) : list addr :=
  match xs with
  | [] => [e]
  | x :: xs' =>
      match time_of m x with
      | Some u => if dlt t u then e :: x :: xs' else x :: enlist m e t xs'
      | None => x :: enlist m e t xs'
      end
  end.

(** In the order of their times. *)
Fixpoint chronological (m : event_heap) (xs : list addr) : Prop :=
  match xs with
  | [] => True
  | x :: xs' =>
      (∃ t, time_of m x = Some t ∧ is_nan t = false ∧
        ∀ y u, y ∈ xs' → time_of m y = Some u → dle t u = true) ∧ chronological m xs'
  end.

Lemma enlist_Permutation m e t xs : enlist m e t xs ≡ₚ e :: xs.
Proof.
  induction xs as [|x xs IH]; [done|]. cbn [enlist].
  destruct (time_of m x) as [u|]; [destruct (dlt t u); [done|]|]; rewrite IH; apply Permutation_swap.
Qed.

Lemma elem_of_enlist m e t xs x : x ∈ enlist m e t xs ↔ x = e ∨ x ∈ xs.
Proof. rewrite enlist_Permutation. apply elem_of_cons. Qed.

Lemma NoDup_enlist m e t xs : e ∉ xs → NoDup xs → NoDup (enlist m e t xs).
Proof. intros. rewrite enlist_Permutation. by constructor. Qed.

Lemma enlist_ext m m' e t xs :
  (∀ x, x ∈ xs → time_of m' x = time_of m x) → enlist m' e t xs = enlist m e t xs.
Proof.
  induction xs as [|x xs IH]; [done|]. intros Hx. simpl. rewrite (Hx x) by set_solver.
  rewrite IH by set_solver. done.
Qed.

Lemma chronological_ext m m' xs :
  (∀ x, x ∈ xs → time_of m' x = time_of m x) → chronological m xs → chronological m' xs.
Proof.
  induction xs as [|x xs IH]; [done|]. intros Hx [(t & Et & Hn & Hle) Hc]. split.
  - exists t. split_and!; [by rewrite Hx by set_solver|done|].
    intros y u Hy. rewrite Hx by set_solver. by apply Hle.
  - apply IH; [set_solver|done].
Qed.

Lemma chronological_enlist m e t xs :
  time_of m e = Some t → is_nan t = false → chronological m xs → chronological m (enlist m e t xs).
Proof.
  intros He Hn. induction xs as [|x xs IH]; simpl.
  { intros _. split; [|done]. exists t. split_and!; [done..|]. intros y u Hy. set_solver. }
  intros [(u & Eu & Hu & Hle) Hc]. rewrite Eu. destruct (dlt t u) eqn:Elt.
  - split; [|split; [by exists u|done]]. exists t. split_and!; [done..|].
    intros y v [->|Hy]%elem_of_cons Hv; [simplify_eq; by apply dlt_dle|].
    eapply dlt_dle, dlt_dle_trans; [done|by eapply Hle].
  - split; [|by apply IH]. exists u. split_and!; [done..|].
    intros y v [->|Hy]%elem_of_enlist Hv; [simplify_eq; by apply dlt_false_dle|by eapply Hle].
Qed.

Lemma enlist_split m e t xs ys :
  (∀ x u, x ∈ xs → time_of m x = Some u → dle u t = true) →
  (∀ y, y ∈ ys → ∃ u, time_of m y = Some u ∧ dlt t u = true) → enlist m e t (xs ++ ys) = xs ++ e :: ys.
Proof.
  intros Hx Hy. induction xs as [|x xs IH]; simpl.
  - destruct ys as [|y ys]; [done|]. simpl. destruct (Hy y) as (u & -> & ->); [by left|done].
  - rewrite IH by (intros z u Hz; apply Hx; by right).
    destruct (time_of m x) as [u|] eqn:Eu; [|done]. by rewrite (dle_antilt _ _ (Hx x u ltac:(by left) Eu)).
Qed.

Lemma chronological_filter m (P : addr → Prop) `{∀ x, Decision (P x)} xs :
  chronological m xs → chronological m (filter P xs).
Proof.
  induction xs as [|x xs IH]; [done|]. intros [(t & Et & Hn & Hle) Hc].
  destruct (decide (P x)).
  - rewrite filter_cons_True by done. split; [|by apply IH]. exists t. split_and!; [done..|].
    intros y u [_ Hy]%list_elem_of_filter. by apply Hle.
  - rewrite filter_cons_False by done. by apply IH.
Qed.

Lemma chronological_time m xs y : chronological m xs → y ∈ xs → ∃ u, time_of m y = Some u ∧ is_nan u = false.
Proof.
  induction xs as [|x xs IH]; [set_solver|]. intros [(t & Et & Hn & _) Hc] [->|Hy]%elem_of_cons; [by exists t|by apply IH].
Qed.

Lemma chronological_app m xs ys : chronological m (xs ++ ys) ↔
  chronological m xs ∧ chronological m ys ∧
  ∀ x y t u, x ∈ xs → y ∈ ys → time_of m x = Some t → time_of m y = Some u → dle t u = true.
Proof.
  induction xs as [|x xs IH]; simpl; [set_solver|]. rewrite IH. clear IH. split.
  - intros [(t & Et & Hn & Hle) (Hx & Hy & Hc)]. split_and!; try done.
    + exists t. split_and!; try done. intros y u Hy'. apply Hle, elem_of_app. by left.
    + intros z y u v [->|Hz]%elem_of_cons Hy' Eu Ev; [|by eapply Hc].
      rewrite Et in Eu. injection Eu as <-. eapply Hle; [apply elem_of_app; by right|done].
  - intros ([(t & Et & Hn & Hle) Hx] & Hy & Hc). split_and!; try done.
    + exists t. split_and!; try done. intros y u [Hy'|Hy']%elem_of_app Eu; [by eapply Hle|].
      eapply (Hc x y); try done. by left.
    + intros z y u v Hz. apply Hc. by right.
Qed.

(** [u] is greater than the identifiers of the events [xs]. *)
Definition latest (m : event_heap) (xs : list addr) (u : Z) : Prop :=
  ∀ x ev, x ∈ xs → m !! x = Some ev → uid_ ev < u.

Lemma latest_same m m' xs u : same_events m m' → latest m xs u → latest m' xs u.
Proof.
  intros Hs Hl x ev Hx Hev. specialize (Hs x). rewrite Hev in Hs.
  destruct (m !! x) as [v|] eqn:Ev; [|done]. injection Hs as _ _ ->. by apply (Hl x).
Qed.

(** ** The interface *)

(** The virtual functions of [Scheduler]; [events] are the event objects it links. *)
Class EventQueue (Q : Type) := {
  events : Q → event_heap;
  set_events : event_heap → Q → Q;
  insert : addr → M Q unit;
  deque : M Q addr;
  cancel : addr → M Q unit;
}.

(** [queued q xs n] : the queue holds [xs], and [n] more insertions are in the range of
    its counters.  [by_uid] tells whether the queue counts on the identifiers to grow from
    one insertion to the next, as those that [Scheduler::schedule] gives do. *)
Class EventQueueSpec (Q : Type) `{EventQueue Q} := {
  by_uid : bool;
  queued : Q → list addr → nat → Prop;
  queued_events q m : events (set_events m q) = m;
  queued_NoDup q xs n : queued q xs n → NoDup xs ∧ NULL ∉ xs ∧ ∀ e, e ∈ xs → is_Some (events q !! e);
  queued_insert q xs n e ev :
    queued q xs (S n) → e ≠ NULL → e ∉ xs → events q !! e = Some ev → is_nan (time_ ev) = false →
    (by_uid = true → latest (events q) xs (uid_ ev)) →
    ∃ q', insert e q = Done tt q' ∧ same_events (events q) (events q') ∧
      queued q' (enlist (events q) e (time_ ev) xs) n;
  queued_deque q xs n :
    queued q xs n →
    ∃ q', deque q = Done (default NULL (head xs)) q' ∧ same_events (events q) (events q') ∧
      queued q' (tail xs) n;
  queued_cancel q xs n e ev :
    queued q xs n → e ∈ xs → events q !! e = Some ev → 0 < uid_ ev →
    ∃ q', cancel e q = Done tt q' ∧
      (∀ x, visible <$> events q' !! x =
        if decide (x = e) then Some (handler_ ev, time_ ev, - uid_ ev) else visible <$> events q !! x) ∧
      queued q' (filter (.≠ e) xs) n;
  queued_cancelled q e ev :
    e ≠ NULL → events q !! e = Some ev → uid_ ev ≤ 0 → cancel e q = Done tt q;
  queued_weaken q xs n : queued q xs (S n) → queued q xs n;
  queued_set q xs n m :
    queued q xs n →
    (∀ e, e ∈ xs → ∃ ev ev', events q !! e = Some ev ∧ m !! e = Some ev' ∧
      next_ ev' = next_ ev ∧ prev_ ev' = prev_ ev ∧ time_ ev' = time_ ev ∧ uid_ ev' = uid_ ev) →
    queued (set_events m q) xs n;
}.

(** ** Two implementations agree *)

Inductive queue_op := Insert (e : addr) | Deque | Cancel (e : addr).

(** Running a sequence of operations; the results of [Deque]. *)
Fixpoint run_ops {Q} `{EventQueue Q} (ops : list queue_op) : M Q (list addr) :=
  match ops with
  | [] => mret []
  | Insert e :: ops => _ ← insert e; run_ops ops
  | Deque :: ops => e ← deque; es ← run_ops ops; mret (e :: es)
  | Cancel e :: ops => _ ← cancel e; run_ops ops
  end.

(** What a program may do with a queue: insert events that are not in it, with a time,
    and cancel those that are; [xs] are the events of the queue and [m] their state. *)
Fixpoint permitted (m : event_heap) (xs : list addr) (ops : list queue_op) : Prop :=
  match ops with
  | [] => True
  | Insert e :: ops =>
      ∃ ev, m !! e = Some ev ∧ e ≠ NULL ∧ e ∉ xs ∧ is_nan (time_ ev) = false ∧
        permitted m (enlist m e (time_ ev) xs) ops
  | Deque :: ops => permitted m (tail xs) ops
  | Cancel e :: ops =>
      ∃ ev, m !! e = Some ev ∧ e ∈ xs ∧ 0 < uid_ ev ∧
        permitted (<[e := with_uid (- uid_ ev) ev]> m) (filter (.≠ e) xs) ops
  end.

(** The identifiers grow from one insertion to the next. *)
Fixpoint growing (m : event_heap) (xs : list addr) (ops : list queue_op) : Prop :=
  match ops with
  | [] => True
  | Insert e :: ops =>
      (∀ ev, m !! e = Some ev → latest m xs (uid_ ev)) ∧
      growing m (enlist m e (default d_zero (time_of m e)) xs) ops
  | Deque :: ops => growing m (tail xs) ops
  | Cancel e :: ops =>
      ∀ ev, m !! e = Some ev → growing (<[e := with_uid (- uid_ ev) ev]> m) (filter (.≠ e) xs) ops
  end.

(** The reference: the operations on the sequence itself. *)
Fixpoint spec_ops (m : event_heap) (xs : list addr) (ops : list queue_op) : list addr :=
  match ops with
  | [] => []
  | Insert e :: ops => spec_ops m (enlist m e (default d_zero (time_of m e)) xs) ops
  | Deque :: ops => default NULL (head xs) :: spec_ops m (tail xs) ops
  | Cancel e :: ops => spec_ops m (filter (.≠ e) xs) ops
  end.

Lemma spec_ops_ext m m' xs ops :
  (∀ e, time_of m' e = time_of m e) → spec_ops m' xs ops = spec_ops m xs ops.
Proof.
  intros Hm. revert xs. induction ops as [|[e| |e] ops IH]; intros xs; simpl; [done|..].
  - rewrite Hm, (enlist_ext m m') by done. apply IH.
  - by rewrite IH.
  - apply IH.
Qed.

Lemma same_lookup m m' e ev :
  same_events m m' → m !! e = Some ev →
  ∃ ev', m' !! e = Some ev' ∧ handler_ ev' = handler_ ev ∧ time_ ev' = time_ ev ∧ uid_ ev' = uid_ ev.
Proof.
  intros Hs He. specialize (Hs e). rewrite He in Hs.
  destruct (m' !! e) as [[]|]; simpl in Hs; [|done]. injection Hs as -> -> ->. by eexists.
Qed.

Lemma run_ops_spec {Q} `{EventQueueSpec Q} ops (q : Q) m xs n :
  queued q xs (length ops + n) → same_events m (events q) → permitted m xs ops →
  (by_uid (Q := Q) = true → growing m xs ops) →
  ∃ q', run_ops ops q = Done (spec_ops m xs ops) q'.
Proof.
  revert q m xs n. induction ops as [|[e| |e] ops IH]; intros q m xs n Hq Hs Hp Hg; cbn [run_ops spec_ops].
  - by exists q.
  - destruct Hp as (ev & Hev & He & Hx & Hn & Hp).
    destruct (same_lookup _ _ _ _ Hs Hev) as (ev' & Hev' & _ & Et & Eu').
    destruct (queued_insert q xs (length ops + n) e ev') as (q1 & E1 & S1 & Q1);
      [done|done|done|done|by rewrite Et|..].
    { intros Hb. destruct (Hg Hb) as [Hl _]. rewrite Eu'. eapply latest_same; [exact Hs|by apply Hl]. }
    rewrite (bind_done _ _ _ _ _ E1).
    assert (enlist (events q) e (time_ ev') xs = enlist m e (time_ ev) xs) as Een.
    { rewrite Et. apply enlist_ext. intros x _. by apply time_of_same. }
    rewrite Een in Q1. unfold time_of at 1. rewrite Hev. simpl.
    eapply (IH q1 m); [done|by etrans|done|]. intros Hb. destruct (Hg Hb) as [_ Hg'].
    unfold time_of in Hg'. by rewrite Hev in Hg'.
  - destruct (queued_deque q xs (length (Deque :: ops) + n) Hq) as (q1 & E1 & S1 & Q1).
    rewrite (bind_done _ _ _ _ _ E1).
    destruct (IH q1 m (tail xs) (S n)) as [q2 E2]; [|by etrans|done|done|].
    { replace (length ops + S n)%nat with (length (Deque :: ops) + n)%nat by (simpl; lia). done. }
    exists q2. by rewrite (bind_done _ _ _ _ _ E2).
  - destruct Hp as (ev & Hev & He & Hu & Hp).
    destruct (same_lookup _ _ _ _ Hs Hev) as (ev' & Hev' & Eh & Et & Eu).
    destruct (queued_cancel q xs (length (Cancel e :: ops) + n) e ev') as (q1 & E1 & S1 & Q1);
      [done|done|done|lia|].
    rewrite (bind_done _ _ _ _ _ E1).
    destruct (IH q1 (<[e := with_uid (- uid_ ev) ev]> m) (filter (.≠ e) xs) (S n)) as [q2 E2].
    + replace (length ops + S n)%nat with (length (Cancel e :: ops) + n)%nat by (simpl; lia). done.
    + intros x. rewrite S1. destruct (decide (x = e)) as [->|].
      * rewrite lookup_insert_eq. unfold visible. simpl. by rewrite Eh, Et, Eu.
      * by rewrite lookup_insert_ne by done.
    + done.
    + intros Hb. by apply (Hg Hb).
    + exists q2. rewrite E2. f_equal. apply spec_ops_ext. intros x. unfold time_of.
      destruct (decide (x = e)) as [->|]; [by rewrite lookup_insert_eq, Hev|by rewrite lookup_insert_ne].
Qed.
