(* ===== verification/SimChain.v ===== *)
(** * Singly linked chains

    The simulator links events and packets through a pointer member and ends the chain
    with a null pointer.  [chain nx a xs b] says that following the links [nx] from [a]
    visits the objects [xs] and arrives at [b]. *)
From S2P Require Import Prelude.
Open Scope Z_scope.

Fixpoint chain (nx : addr → option addr) (a : addr) (xs : list addr) (b : addr) : Prop :=
  match xs with
  | [] => a = b
  | x :: xs => a = x ∧ x ≠ NULL ∧ ∃ n, nx x = Some n ∧ chain nx n xs b
  end.

Lemma chain_app nx a xs ys c :
  chain nx a (xs ++ ys) c ↔ ∃ b, chain nx a xs b ∧ chain nx b ys c.
Proof.
  revert a. induction xs as [|x xs IH]; intros a; simpl.
  { split; [by exists a|by intros (b & -> & ?)]. }
  setoid_rewrite IH. naive_solver.
Qed.

Lemma chain_ext nx nx' a xs b :
  (∀ x, x ∈ xs → nx' x = nx x) → chain nx a xs b → chain nx' a xs b.
Proof.
  revert a. induction xs as [|x xs IH]; intros a Hx; simpl; [done|].
  intros (-> & Hn & n & En & Hc). split_and!; [done..|].
  exists n. split; [by rewrite Hx by set_solver|]. apply IH; [set_solver|done].
Qed.

(** Redirecting the last link. *)
Lemma chain_redirect nx nx' a xs t b c :
  (∀ x, x ∈ xs → nx' x = nx x) → nx' t = Some c → chain nx a (xs ++ [t]) b →
  chain nx' a (xs ++ [t]) c.
Proof.
  rewrite !chain_app. intros Hx Ht (d & Hc & -> & Hn & _). exists t.
  split; [by eapply chain_ext|]. split_and!; [done..|]. by exists c.
Qed.

Lemma chain_dom nx a xs b x : chain nx a xs b → x ∈ xs → x ≠ NULL ∧ is_Some (nx x).
Proof.
  revert a. induction xs as [|y xs IH]; intros a; simpl; [set_solver|].
  intros (-> & Hy & n & En & Hc) [->|Hx]%elem_of_cons; [by rewrite En|by eapply IH].
Qed.

Lemma chain_head nx a xs : chain nx a xs NULL → a = default NULL (head xs).
Proof. destruct xs; simpl; [done|]. by intros [-> _]. Qed.

Lemma chain_nil_iff nx a xs : chain nx a xs NULL → a = NULL ↔ xs = [].
Proof. destruct xs; simpl; [done|]. naive_solver. Qed.

(** A chain that ends does not visit an object twice. *)
Lemma chain_unique nx a xs ys : chain nx a xs NULL → chain nx a ys NULL → xs = ys.
Proof.
  revert a ys. induction xs as [|x xs IH]; intros a [|y ys]; simpl; try naive_solver.
Qed.

Lemma chain_NoDup nx a xs : chain nx a xs NULL → NoDup xs.
Proof.
  revert a. induction xs as [|x xs IH]; intros a; [constructor|].
  intros Hc. destruct Hc as (-> & Hx & n & En & Hc). constructor; [|by eapply IH].
  intros (l1 & l2 & ->)%list_elem_of_split.
  pose proof Hc as (b & Hb & (-> & _ & m & Em & Hm))%chain_app.
  rewrite En in Em. injection Em as <-.
  pose proof (chain_unique _ _ _ _ Hc Hm) as E. apply (f_equal length) in E.
  rewrite length_app in E. simpl in E. lia.
Qed.

(** Distinct allocated objects are no more than the allocated ones: the fuel of the
    loops over a chain. *)
Lemma NoDup_dom_length {A} (m : gmap N A) xs :
  NoDup xs → (∀ x, x ∈ xs → is_Some (m !! x)) → (length xs ≤ size m)%nat.
Proof.
  intros Hnd Hin. rewrite <- size_dom, <- (size_list_to_set (C := gset N) xs) by done.
  apply subseteq_size. intros x Hx. apply elem_of_dom, Hin. by apply elem_of_list_to_set in Hx.
Qed.
