(* ===== verification/SimQueues.v ===== *)
(** * The list scheduler and the heap scheduler

    The classes [ListScheduler] and [HeapScheduler] of [ns2/common/scheduler.cc] and
    [scheduler.h] as event queues: a chain of events in dispatch order, and the binary
    heap.  Both satisfy [EventQueueSpec], so they dispatch the same events in the same
    order. *)
From Stdlib Require Import Sorted.
From S2P Require Import Prelude Double SimChain SimEvent SimHeap.
Open Scope Z_scope.

(** ** The list scheduler *)

(* [ns2/common/scheduler.h:112-123] class ListScheduler *)
Record ListScheduler := LS { ls_events : event_heap; queue_ : addr }.

(** The variable an [Event **] points to: [queue_], or the member [next_] of an event. *)
Definition location : Type := option addr.

Definition load (p : location) : M ListScheduler addr :=
  match p with
  | None => gets queue_
  | Some x => e ← deref ls_events x; mret (next_ e)
  end.
Definition store (p : location) (v : addr) : M ListScheduler unit :=
  match p with
  | None => modify (λ s, LS (ls_events s) v)
  | Some x => e ← deref ls_events x; modify (λ s, LS (<[x := with_next v e]> (ls_events s)) (queue_ s))
  end.

(** [for (p = &queue_; *p != 0; p = &( *p)->next_)] up to the first event with a later time. *)
(* [ns2/common/scheduler.cc:306-308] ListScheduler::insert *)
Fixpoint find_later (fuel : nat) (t : double) (p : location) : M ListScheduler location :=
  match fuel with
  | O => stuck NoFuel
  | S fuel =>
      x ← load p;
      if decide (x = NULL) then mret p
      else
        e ← deref ls_events x;
        if (dlt t (time_ e) : bool) then mret p else find_later fuel t (Some x)
  end.

(* [ns2/common/scheduler.cc:301-311] ListScheduler::insert *)
Definition list_insert (e : addr) : M ListScheduler unit :=
  ev ← deref ls_events e;
  fuel ← gets (λ s, S (S (size (ls_events s))));
  p ← find_later fuel (time_ ev) None;
  x ← load p;
  _ ← store (Some e) x;
  store p e.

(* [ns2/common/scheduler.cc:325-327] ListScheduler::cancel *)
Fixpoint find_event (fuel : nat) (e : addr) (p : location) : M ListScheduler location :=
  match fuel with
  | O => stuck NoFuel
  | S fuel =>
      x ← load p;
      if decide (x = e) then mret p
      else if decide (x = NULL) then abort else find_event fuel e (Some x)
  end.

(* [ns2/common/scheduler.cc:319-331] ListScheduler::cancel *)
Definition list_cancel (e : addr) : M ListScheduler unit :=
  ev ← deref ls_events e;
  if decide (uid_ ev ≤ 0) then skip
  else
    fuel ← gets (λ s, S (S (size (ls_events s))));
    p ← find_event fuel e None;
    x ← load p;
    n ← load (Some x);
    _ ← store p n;
    ev ← deref ls_events e;
    modify (λ s, LS (<[e := with_uid (- uid_ ev) ev]> (ls_events s)) (queue_ s)).

(* [ns2/common/scheduler.cc:333-341] ListScheduler::lookup *)
Fixpoint list_lookup_loop (fuel : nat) (uid : Z) (e : addr) : M ListScheduler addr :=
  match fuel with
  | O => stuck NoFuel
  | S fuel =>
      if decide (e = NULL) then mret NULL
      else
        ev ← deref ls_events e;
        if decide (uid_ ev = uid) then mret e else list_lookup_loop fuel uid (next_ ev)
  end.
Definition list_lookup (uid : Z) : M ListScheduler addr :=
  fuel ← gets (λ s, S (S (size (ls_events s))));
  e ← gets queue_;
  list_lookup_loop fuel uid e.

(* [ns2/common/scheduler.cc:344-351] ListScheduler::deque *)
Definition list_deque : M ListScheduler addr :=
  e ← gets queue_;
  if decide (e = NULL) then mret NULL
  else
    ev ← deref ls_events e;
    _ ← modify (λ s, LS (ls_events s) (next_ ev));
    mret e.

#[export] Instance list_scheduler : EventQueue ListScheduler := {
  events := ls_events;
  set_events m s := LS m (queue_ s);
  insert := list_insert;
  deque := list_deque;
  cancel := list_cancel;
}.

(** ** The heap scheduler *)

(* [ns2/common/scheduler.h:127-144] class HeapScheduler *)
Record HeapScheduler := HS { hs_events : event_heap; hp_ : Heap }.

Definition on_heap {A} (m : M Heap A) : M HeapScheduler A := zoom hp_ (λ h s, HS (hs_events s) h) m.

(* [ns2/common/scheduler.h:136-138] HeapScheduler::insert *)
Definition heap_sched_insert (e : addr) : M HeapScheduler unit :=
  ev ← deref hs_events e; on_heap (heap_insert (time_ ev) e).

(* [ns2/common/scheduler.h:130-135] HeapScheduler::cancel *)
Definition heap_sched_cancel (e : addr) : M HeapScheduler unit :=
  ev ← deref hs_events e;
  if decide (uid_ ev ≤ 0) then skip
  else
    _ ← modify (λ s, HS (<[e := with_uid (- uid_ ev) ev]> (hs_events s)) (hp_ s));
    _ ← on_heap (heap_delete e);
    skip.

(* [ns2/common/scheduler.cc:542-552] HeapScheduler::lookup *)
Fixpoint heap_lookup_loop (fuel : nat) (uid : Z) (e : addr) : M HeapScheduler addr :=
  match fuel with
  | O => stuck NoFuel
  | S fuel =>
      if decide (e = NULL) then mret NULL
      else
        ev ← deref hs_events e;
        if decide (uid_ ev = uid) then mret e
        else n ← on_heap heap_iter; heap_lookup_loop fuel uid n
  end.
Definition heap_lookup (uid : Z) : M HeapScheduler addr :=
  fuel ← gets (λ s, S (S (length (h_elems (hp_ s)))));
  e ← on_heap heap_iter_init;
  heap_lookup_loop fuel uid e.

(* [ns2/common/scheduler.cc:554-558] HeapScheduler::deque *)
Definition heap_sched_deque : M HeapScheduler addr := on_heap heap_extract_min.

#[export] Instance heap_scheduler : EventQueue HeapScheduler := {
  events := hs_events;
  set_events m s := HS m (hp_ s);
  insert := heap_sched_insert;
  deque := heap_sched_deque;
  cancel := heap_sched_cancel;
}.

(** ** The list scheduler keeps the sequence *)

Definition nx (m : event_heap) (x : addr) : option addr := next_ <$> m !! x.

Definition list_queued (s : ListScheduler) (xs : list addr) : Prop :=
  chain (nx (ls_events s)) (queue_ s) xs NULL.

Lemma list_queued_lookup s xs e :
  list_queued s xs → e ∈ xs → e ≠ NULL ∧ is_Some (ls_events s !! e).
Proof.
  intros Hq He. destruct (chain_dom _ _ _ _ _ Hq He) as [? Hn]. split; [done|].
  unfold nx in Hn. by rewrite fmap_is_Some in Hn.
Qed.

(** The variable that points to the rest of the queue after the events [pre]. *)
Definition loc_after (pre : list addr) : location := last pre.

Lemma load_loc s pre xs :
  list_queued s (pre ++ xs) → load (loc_after pre) s = Done (default NULL (head xs)) s.
Proof.
  intros Hq. destruct pre as [|z pre _] using rev_ind; unfold loc_after.
  { rewrite app_nil_l in Hq. simpl. unfold gets. by rewrite (chain_head _ _ _ Hq). }
  rewrite last_snoc. unfold load.
  destruct (list_queued_lookup s _ z Hq) as [Hz [ev Hev]]; [set_solver|].
  rewrite (bind_done _ _ _ _ _ (deref_done _ _ _ _ Hz Hev)).
  apply chain_app in Hq as (b & (c & _ & Hb)%chain_app & Hxs). simpl in Hb.
  destruct Hb as (-> & _ & n & En & ->). unfold nx in En. rewrite Hev in En. injection En as En.
  rewrite En. by rewrite <- (chain_head _ _ _ Hxs).
Qed.

(** Storing [v] there makes the queue continue at [v]. *)
Lemma store_loc s pre xs v ys :
  list_queued s (pre ++ xs) → chain (nx (ls_events s)) v ys NULL → (∀ x, x ∈ pre → x ∉ ys) →
  ∃ s', store (loc_after pre) v s = Done tt s' ∧ list_queued s' (pre ++ ys) ∧
    same_events (ls_events s) (ls_events s') ∧
    (∀ x, x ∉ pre → ls_events s' !! x = ls_events s !! x).
Proof.
  intros Hq Hv Hdisj. destruct pre as [|z pre _] using rev_ind; unfold loc_after.
  { exists (LS (ls_events s) v). by split_and!. }
  rewrite last_snoc. unfold store.
  destruct (list_queued_lookup s _ z Hq) as [Hz [ev Hev]]; [set_solver|].
  rewrite (bind_done _ _ _ _ _ (deref_done _ _ _ _ Hz Hev)).
  eexists. split; [done|]. unfold list_queued. simpl. split_and!.
  - apply chain_app. exists v.
    pose proof (chain_NoDup _ _ _ Hq) as Hnd. apply NoDup_app in Hnd as [Hnd _].
    apply NoDup_app in Hnd as (_ & Hnd & _).
    apply chain_app in Hq as (b & Hb & _). split.
    + eapply chain_redirect; [|unfold nx; by rewrite lookup_insert_eq|done].
      intros x Hx. unfold nx. rewrite lookup_insert_ne; [done|].
      intros ->. apply (Hnd x); [done|set_solver].
    + eapply chain_ext; [|done]. intros x Hx. unfold nx. rewrite lookup_insert_ne; [done|].
      intros ->. apply (Hdisj x); [set_solver|done].
  - intros x. destruct (decide (x = z)) as [->|]; [by rewrite lookup_insert_eq, Hev|].
    by rewrite lookup_insert_ne.
  - intros x Hx. rewrite lookup_insert_ne; [done|]. intros ->. apply Hx. set_solver.
Qed.

Lemma find_later_spec fuel s t pre xs :
  list_queued s (pre ++ xs) → (length xs < fuel)%nat →
  ∃ p1 p2, xs = p1 ++ p2 ∧ find_later fuel t (loc_after pre) s = Done (loc_after (pre ++ p1)) s ∧
    ∀ e, enlist (ls_events s) e t xs = p1 ++ e :: p2.
Proof.
  revert pre xs. induction fuel as [|fuel IH]; [lia|]. intros pre xs Hq Hf. cbn [find_later].
  rewrite (bind_done _ _ _ _ _ (load_loc _ _ _ Hq)).
  destruct xs as [|x xs]; simpl.
  { exists [], []. rewrite (app_nil_r pre). by split_and!. }
  destruct (list_queued_lookup s _ x Hq) as [Hx [ev Hev]]; [set_solver|].
  rewrite decide_False by done.
  rewrite (bind_done _ _ _ _ _ (deref_done _ _ _ _ Hx Hev)).
  unfold time_of. rewrite Hev. simpl. destruct (dlt t (time_ ev)) eqn:Elt.
  { exists [], (x :: xs). rewrite (app_nil_r pre). by split_and!. }
  destruct (IH (pre ++ [x]) xs) as (p1 & p2 & -> & E & Hen); [by rewrite <- app_assoc|simpl in Hf; lia|].
  exists (x :: p1), p2. split; [done|]. split.
  - unfold loc_after in E at 1. rewrite last_snoc in E. rewrite E. by rewrite <- app_assoc.
  - intros e. by rewrite Hen.
Qed.

Lemma find_event_spec fuel s e pre p1 p2 :
  list_queued s (pre ++ p1 ++ e :: p2) → (length p1 < fuel)%nat →
  find_event fuel e (loc_after pre) s = Done (loc_after (pre ++ p1)) s.
Proof.
  revert pre p1. induction fuel as [|fuel IH]; [lia|]. intros pre p1 Hq Hf. cbn [find_event].
  rewrite (bind_done _ _ _ _ _ (load_loc _ _ _ Hq)).
  destruct p1 as [|x p1]; simpl.
  { rewrite decide_True by done. by rewrite app_nil_r. }
  pose proof (chain_NoDup _ _ _ Hq) as Hnd. apply NoDup_app in Hnd as (_ & _ & Hnd).
  apply NoDup_cons in Hnd as [Hnd _]. rewrite decide_False by set_solver.
  destruct (list_queued_lookup s _ x Hq) as [Hx _]; [set_solver|]. rewrite decide_False by done.
  specialize (IH (pre ++ [x]) p1). unfold loc_after in IH at 1. rewrite last_snoc in IH.
  rewrite IH; [by rewrite <- app_assoc|by rewrite <- app_assoc|simpl in Hf; lia].
Qed.

Lemma list_fuel s xs :
  list_queued s xs → (length xs < S (S (size (ls_events s))))%nat.
Proof.
  intros Hq. enough (length xs ≤ size (ls_events s))%nat by lia.
  apply NoDup_dom_length; [by eapply chain_NoDup|]. intros x Hx. by eapply list_queued_lookup.
Qed.

Lemma list_insert_spec s xs e ev :
  list_queued s xs → e ≠ NULL → e ∉ xs → ls_events s !! e = Some ev →
  ∃ s', list_insert e s = Done tt s' ∧ same_events (ls_events s) (ls_events s') ∧
    list_queued s' (enlist (ls_events s) e (time_ ev) xs).
Proof.
  intros Hq He Hx Hev. unfold list_insert.
  rewrite (bind_done _ _ _ _ _ (deref_done _ _ _ _ He Hev)).
  rewrite (bind_done _ _ _ (S (S (size (ls_events s)))) s) by done.
  destruct (find_later_spec (S (S (size (ls_events s)))) s (time_ ev) [] xs)
    as (p1 & p2 & -> & E & Hen); [done|by apply list_fuel|].
  change (loc_after []) with (@None addr) in E.
  rewrite (bind_done _ _ _ _ _ E), (bind_done _ _ _ _ _ (load_loc _ p1 p2 Hq)).
  assert (Es : store (Some e) (default NULL (head p2)) s =
    Done tt (LS (<[e := with_next (default NULL (head p2)) ev]> (ls_events s)) (queue_ s))).
  { unfold store. by rewrite (bind_done _ _ _ _ _ (deref_done _ _ _ _ He Hev)). }
  rewrite (bind_done _ _ _ _ _ Es).
  set (s1 := LS _ _).
  assert (Hsame : same_events (ls_events s) (ls_events s1)).
  { intros x. simpl. destruct (decide (x = e)) as [->|]; [by rewrite lookup_insert_eq, Hev|].
    by rewrite lookup_insert_ne. }
  assert (Hnx : ∀ x, x ≠ e → nx (ls_events s1) x = nx (ls_events s) x).
  { intros x Hne. unfold nx. simpl. by rewrite lookup_insert_ne. }
  assert (list_queued s1 (p1 ++ p2)) as Hq1.
  { eapply chain_ext; [|exact Hq]. intros x Hin. apply Hnx. set_solver. }
  destruct (store_loc s1 p1 p2 e (e :: p2)) as (s2 & E2 & Q2 & S2 & _).
  - done.
  - simpl. split_and!; [done..|]. exists (default NULL (head p2)). split.
    { unfold nx. simpl. by rewrite lookup_insert_eq. }
    apply chain_app in Hq1 as (b & _ & Hb). pose proof (chain_head _ _ _ Hb) as ->. exact Hb.
  - pose proof (chain_NoDup _ _ _ Hq) as Hnd. apply NoDup_app in Hnd as (_ & Hnd & _).
    intros x Hx1 [->|Hx2]%elem_of_cons; [set_solver|]. by apply (Hnd x).
  - exists s2. split_and!; [done|by etrans|]. by rewrite Hen.
Qed.

Lemma list_deque_spec s xs :
  list_queued s xs →
  ∃ s', list_deque s = Done (default NULL (head xs)) s' ∧ ls_events s' = ls_events s ∧
    list_queued s' (tail xs).
Proof.
  intros Hq. unfold list_deque. rewrite (bind_done _ _ _ (queue_ s) s) by done.
  destruct xs as [|x xs].
  - simpl in Hq. rewrite decide_True by done. by exists s.
  - destruct (list_queued_lookup s _ x Hq) as [Hx [ev Hev]]; [set_solver|].
    destruct Hq as (-> & _ & n & En & Hc). rewrite decide_False by done.
    rewrite (bind_done _ _ _ _ _ (deref_done _ _ _ _ Hx Hev)).
    unfold nx in En. rewrite Hev in En. injection En as <-. eexists. by split_and!.
Qed.

Lemma list_cancel_spec s xs e ev :
  list_queued s xs → e ∈ xs → ls_events s !! e = Some ev → 0 < uid_ ev →
  ∃ s', list_cancel e s = Done tt s' ∧
    (∀ x, visible <$> ls_events s' !! x =
      if decide (x = e) then Some (handler_ ev, time_ ev, - uid_ ev) else visible <$> ls_events s !! x) ∧
    list_queued s' (filter (.≠ e) xs).
Proof.
  intros Hq Hin Hev Hu. destruct (list_queued_lookup s _ e Hq Hin) as [He _].
  apply list_elem_of_split in Hin as (p1 & p2 & ->). unfold list_cancel.
  rewrite (bind_done _ _ _ _ _ (deref_done _ _ _ _ He Hev)). rewrite decide_False by lia.
  rewrite (bind_done _ _ _ (S (S (size (ls_events s)))) s) by done.
  pose proof (find_event_spec (S (S (size (ls_events s)))) s e [] p1 p2 Hq) as E.
  rewrite (bind_done _ _ _ _ _ (E ltac:(pose proof (list_fuel _ _ Hq) as Hf;
    rewrite length_app in Hf; simpl in Hf; lia))). clear E.
  change ([] ++ p1) with p1. rewrite (bind_done _ _ _ _ _ (load_loc _ p1 (e :: p2) Hq)).
  cbn [default head].
  assert (Hq' : list_queued s ((p1 ++ [e]) ++ p2)) by by rewrite <- app_assoc.
  pose proof (load_loc s _ _ Hq') as El. unfold loc_after in El. rewrite last_snoc in El.
  rewrite (bind_done _ _ _ _ _ El).
  pose proof (chain_NoDup _ _ _ Hq) as Hnd.
  assert (chain (nx (ls_events s)) (default NULL (head p2)) p2 NULL) as Hp2.
  { apply chain_app in Hq' as (b & _ & Hb). pose proof (chain_head _ _ _ Hb) as ->. exact Hb. }
  destruct (store_loc s p1 (e :: p2) (default NULL (head p2)) p2 Hq Hp2) as (s1 & E1 & Q1 & S1 & K1).
  { apply NoDup_app in Hnd as (_ & Hnd & _). intros x Hx Hx2. apply (Hnd x); set_solver. }
  rewrite (bind_done _ _ _ _ _ E1).
  assert (e ∉ p1) as He1.
  { apply NoDup_app in Hnd as (_ & Hnd & _). intros Hx. apply (Hnd e); set_solver. }
  assert (e ∉ p2) as He2.
  { apply NoDup_app in Hnd as (_ & _ & [Hnd _]%NoDup_cons). done. }
  assert (ls_events s1 !! e = Some ev) as Hev1 by by rewrite K1.
  rewrite (bind_done _ _ _ _ _ (deref_done _ _ _ _ He Hev1)).
  eexists. split; [done|]. simpl. split.
  - intros x. case_decide as Hd; [subst; by rewrite lookup_insert_eq|].
    rewrite lookup_insert_ne by done. apply S1.
  - rewrite filter_ne_split by done. eapply chain_ext; [|exact Q1]. intros x Hx. unfold nx. simpl.
    rewrite lookup_insert_ne; [done|]. intros ->. apply elem_of_app in Hx. tauto.
Qed.

Lemma list_queued_set s xs m :
  list_queued s xs →
  (∀ e, e ∈ xs → ∃ ev ev', ls_events s !! e = Some ev ∧ m !! e = Some ev' ∧
    next_ ev' = next_ ev ∧ prev_ ev' = prev_ ev ∧ time_ ev' = time_ ev ∧ uid_ ev' = uid_ ev) →
  list_queued (LS m (queue_ s)) xs.
Proof.
  intros Hq Hm. eapply chain_ext; [|done]. intros x Hx. unfold nx. simpl.
  destruct (Hm x Hx) as (ev & ev' & -> & -> & En & _). simpl. by rewrite En.
Qed.

Lemma list_cancelled s e ev :
  e ≠ NULL → ls_events s !! e = Some ev → uid_ ev ≤ 0 → list_cancel e s = Done tt s.
Proof.
  intros He Hev Hu. unfold list_cancel.
  rewrite (bind_done _ _ _ _ _ (deref_done _ _ _ _ He Hev)). by rewrite decide_True.
Qed.

#[local] Obligation Tactic := idtac.

#[export] Program Instance list_scheduler_spec : EventQueueSpec ListScheduler :=
  {| by_uid := false; queued s xs _ := list_queued s xs |}.
Next Obligation. done. Qed.
Next Obligation.
  intros s xs n Hq. change (list_queued s xs) in Hq.
  split_and!; [by eapply chain_NoDup| |intros e He; by destruct (list_queued_lookup _ _ _ Hq He)].
  intros Hn. by destruct (list_queued_lookup _ _ _ Hq Hn).
Qed.
Next Obligation. intros s xs n e ev Hq He Hx Hev _ _. by apply list_insert_spec. Qed.
Next Obligation.
  intros s xs n Hq. destruct (list_deque_spec s xs Hq) as (s' & E & Es & Q).
  exists s'. split_and!; [done|simpl; by rewrite Es|done].
Qed.
Next Obligation. intros s xs n e ev Hq He Hev Hu. by apply list_cancel_spec. Qed.
Next Obligation. intros. by eapply list_cancelled. Qed.
Next Obligation. done. Qed.
Next Obligation. intros s xs n m Hq Hm. by apply list_queued_set. Qed.

(** ** The heap scheduler keeps the sequence *)

Definition before (a b : Heap_elem) : Prop := elt a b = true.

(** The entry [x] in its place among sorted entries. *)
Fixpoint place (x : Heap_elem) (l : list Heap_elem) : list Heap_elem :=
  match l with
  | [] => [x]
  | y :: l' => if elt x y then x :: l else y :: place x l'
  end.

Lemma place_Permutation x l : place x l ≡ₚ x :: l.
Proof.
  induction l as [|y l IH]; [done|]. cbn [place]. destruct (elt x y); [done|].
  rewrite IH. apply Permutation_swap.
Qed.

Lemma before_trans a b c : before a b → before b c → before a c.
Proof. unfold before. heap_order. Qed.
Lemma before_total a b : timed a → timed b → he_s_key b < he_s_key a → elt a b = false → before b a.
Proof. unfold before. heap_order. Qed.

Lemma place_sorted x l :
  timed x → Forall timed l → Forall (λ y, he_s_key y < he_s_key x) l →
  StronglySorted before l → StronglySorted before (place x l).
Proof.
  intros Hx. induction l as [|y l IH]; intros Ht Hs Hl; cbn [place].
  { by repeat constructor. }
  apply StronglySorted_inv in Hl as [Hl Hy]. apply Forall_cons in Ht as [Hty Ht].
  apply Forall_cons in Hs as [Hsy Hs]. destruct (elt x y) eqn:E.
  - constructor; [by constructor|]. constructor; [done|].
    eapply Forall_impl; [exact Hy|]. intros z Hz. by eapply before_trans.
  - constructor; [by apply IH|]. rewrite place_Permutation. constructor; [|done].
    by apply before_total.
Qed.

Definition entry_ok (m : event_heap) (sk : Z) (x : Heap_elem) : Prop :=
  time_of m (he_elem x) = Some (he_key x) ∧ timed x ∧ 0 ≤ he_s_key x < sk.

Lemma place_enlist m sk e t l :
  is_nan t = false → Forall (entry_ok m sk) l →
  he_elem <$> place (HeapElem t sk e) l = enlist m e t (he_elem <$> l).
Proof.
  intros Ht. induction l as [|y l IH]; [done|]. intros [(Ey & Hty & Hs) Hl]%Forall_cons.
  cbn [place fmap list_fmap enlist]. rewrite Ey.
  assert (elt (HeapElem t sk e) y = dlt t (he_key y)) as ->.
  { unfold elt, KEY_LESS_THAN. simpl. destruct (Z.ltb_spec sk (he_s_key y)); [lia|].
    by rewrite andb_false_r, orb_false_r. }
  destruct (dlt t (he_key y)); [done|]. simpl. by rewrite <- IH.
Qed.

Definition heap_queued (s : HeapScheduler) (xs : list addr) (n : nat) : Prop :=
  ∃ l, heap_rep (hp_ s) l ∧ xs = he_elem <$> l ∧ StronglySorted before l ∧ NoDup xs ∧ NULL ∉ xs ∧
    Forall (entry_ok (hs_events s) (h_s_key (hp_ s))) l ∧
    0 ≤ h_s_key (hp_ s) ∧ h_s_key (hp_ s) + Z.of_nat n < 2 ^ 32 ∧
    Z.of_nat (length l) + Z.of_nat n < 2 ^ 31 - 1.

Lemma heap_rep_perm h l l' : l ≡ₚ l' → heap_rep h l → heap_rep h l'.
Proof. intros Hp (a & Ha & Hr). exists a. split; [by rewrite Ha|done]. Qed.

Lemma on_heap_done {A} (m : M Heap A) s a h' :
  m (hp_ s) = Done a h' → on_heap m s = Done a (HS (hs_events s) h').
Proof. unfold on_heap, zoom. by intros ->. Qed.

Lemma entry_ok_weaken m sk sk' x : sk ≤ sk' → entry_ok m sk x → entry_ok m sk' x.
Proof. unfold entry_ok. intros ? (? & ? & ?). split_and!; done || lia. Qed.

Lemma heap_sched_insert_spec s xs n e ev :
  heap_queued s xs (S n) → e ≠ NULL → e ∉ xs → hs_events s !! e = Some ev →
  is_nan (time_ ev) = false →
  ∃ s', heap_sched_insert e s = Done tt s' ∧ hs_events s' = hs_events s ∧
    heap_queued s' (enlist (hs_events s) e (time_ ev) xs) n.
Proof.
  intros (l & Hr & -> & Hl & Hnd & Hnull & Hok & Hk0 & Hk & Hlen) He Hx Hev Ht.
  unfold heap_sched_insert. rewrite (bind_done _ _ _ _ _ (deref_done _ _ _ _ He Hev)).
  destruct (heap_insert_spec (hp_ s) l (time_ ev) e Hr Ht) as (h' & E & R & K); [lia|].
  rewrite (on_heap_done _ _ _ _ E). eexists. split_and!; [done..|].
  assert (h_s_key h' = h_s_key (hp_ s) + 1) as K' by (rewrite K; apply wrap_small; lia).
  rewrite <- (place_enlist _ (h_s_key (hp_ s))) by done.
  exists (place (HeapElem (time_ ev) (h_s_key (hp_ s)) e) l). simpl. rewrite K'.
  split_and!; try done; try lia.
  - eapply heap_rep_perm; [|exact R]. by rewrite place_Permutation.
  - apply place_sorted; [done|by eapply Forall_impl; [exact Hok|intros ? (_ & ? & _)]| |done].
    eapply Forall_impl; [exact Hok|]. intros y (_ & _ & ?). simpl. lia.
  - rewrite (place_enlist (hs_events s)) by done. by apply NoDup_enlist.
  - rewrite (place_enlist (hs_events s)) by done. rewrite elem_of_enlist. intros [?|?]; congruence.
  - rewrite place_Permutation. constructor.
    + split_and!; simpl; [by unfold time_of; rewrite Hev|done|lia..].
    + eapply Forall_impl; [exact Hok|]. intros y. apply entry_ok_weaken. lia.
  - rewrite place_Permutation. simpl. lia.
Qed.

Lemma heap_sched_deque_spec s xs n :
  heap_queued s xs n →
  ∃ s', heap_sched_deque s = Done (default NULL (head xs)) s' ∧ hs_events s' = hs_events s ∧
    heap_queued s' (tail xs) n.
Proof.
  intros (l & Hr & -> & Hl & Hnd & Hnull & Hok & Hk0 & Hk & Hlen). unfold heap_sched_deque.
  destruct (heap_extract_min_spec (hp_ s) l Hr) as [[-> E]|(m & rest & h' & Hp & Hm & E & R & K)]; [lia|..].
  - rewrite (on_heap_done _ _ _ _ E). destruct s as [m h]. eexists. split_and!; [done..|].
    by exists [].
  - rewrite (on_heap_done _ _ _ _ E). destruct l as [|y l].
    { by apply Permutation_nil_l in Hp. }
    apply StronglySorted_inv in Hl as [Hl Hy]. apply Forall_cons in Hm as [Hmy _].
    assert (m = y) as ->.
    { assert (m ∈ y :: l) as Hin by (rewrite Hp; set_solver).
      apply elem_of_cons in Hin as [->|Hin]; [done|].
      rewrite Forall_forall in Hy. specialize (Hy m Hin). unfold before, ele in *. congruence. }
    eexists. split_and!; [done..|]. apply Permutation_cons_inv in Hp.
    apply Forall_cons in Hok as [_ Hok]. apply NoDup_cons in Hnd as [_ Hnd]. simpl in *.
    exists l. simpl. rewrite K. split_and!; try done; [by eapply heap_rep_perm|set_solver|lia].
Qed.

Lemma filter_elems (e : addr) (l : list Heap_elem) :
  filter (.≠ e) (he_elem <$> l) = he_elem <$> filter (λ x, he_elem x ≠ e) l.
Proof.
  induction l as [|y l IH]; [done|]. cbn [fmap list_fmap].
  destruct (decide (he_elem y = e)).
  - rewrite !filter_cons_False by naive_solver. exact IH.
  - rewrite !filter_cons_True by done. cbn [fmap list_fmap]. f_equal. exact IH.
Qed.

Lemma filter_sorted (P : Heap_elem → Prop) `{∀ x, Decision (P x)} (l : list Heap_elem) :
  StronglySorted before l → StronglySorted before (filter P l).
Proof.
  induction 1 as [|y l Hl IH Hy]; [constructor|]. destruct (decide (P y)).
  - rewrite filter_cons_True by done. constructor; [done|].
    apply Forall_forall. intros z [_ Hz]%list_elem_of_filter. by eapply Forall_forall in Hy.
  - by rewrite filter_cons_False.
Qed.

Lemma heap_sched_cancel_spec s xs n e ev :
  heap_queued s xs n → e ∈ xs → hs_events s !! e = Some ev → 0 < uid_ ev →
  ∃ s', heap_sched_cancel e s = Done tt s' ∧
    hs_events s' = <[e := with_uid (- uid_ ev) ev]> (hs_events s) ∧
    heap_queued s' (filter (.≠ e) xs) n.
Proof.
  intros (l & Hr & -> & Hl & Hnd & Hnull & Hok & Hk0 & Hk & Hlen) He Hev Hu.
  unfold heap_sched_cancel.
  assert (e ≠ NULL) as Hne by (intros ->; done).
  rewrite (bind_done _ _ _ _ _ (deref_done _ _ _ _ Hne Hev)), decide_False by lia.
  set (s1 := HS (<[e := with_uid (- uid_ ev) ev]> (hs_events s)) (hp_ s)).
  rewrite (bind_done _ _ _ tt s1) by done.
  destruct (heap_delete_spec (hp_ s) l e Hr) as [[Hn _]|(x & rest & h' & Hx & Hp & E & R & K)];
    [lia|done|].
  rewrite (bind_done _ _ _ _ _ (on_heap_done _ s1 _ _ E)). eexists. split_and!; [done..|].
  exists (filter (λ x, he_elem x ≠ e) l). simpl. rewrite K, filter_elems.
  assert (rest ≡ₚ filter (λ x, he_elem x ≠ e) l) as Hrest.
  { rewrite Hp, filter_cons_False by naive_solver. rewrite (Permutation_map he_elem Hp) in Hnd.
    apply NoDup_cons in Hnd as [Hxr _]. clear -Hxr Hx. subst e.
    induction rest as [|y rest IH]; [done|]. cbn [map] in Hxr. rewrite filter_cons_True by set_solver.
    constructor. apply IH. set_solver. }
  split_and!; try done; try lia.
  - by eapply heap_rep_perm.
  - by apply filter_sorted.
  - rewrite <- filter_elems. by apply NoDup_filter.
  - rewrite <- filter_elems. intros [_ ?]%list_elem_of_filter. done.
  - apply Forall_forall. intros y [_ Hy]%list_elem_of_filter.
    rewrite Forall_forall in Hok. destruct (Hok y Hy) as (Et & Hty & Hs). split; [|done].
    rewrite <- Et. unfold time_of. destruct (decide (he_elem y = e)) as [->|].
    + by rewrite lookup_insert_eq, Hev.
    + by rewrite lookup_insert_ne.
  - rewrite <- Hrest. apply Permutation_length in Hp. simpl in Hp. lia.
Qed.

#[export] Program Instance heap_scheduler_spec : EventQueueSpec HeapScheduler :=
  {| by_uid := false; queued := heap_queued |}.
Next Obligation. done. Qed.
Next Obligation.
  intros s xs n (l & _ & -> & _ & Hnd & Hnull & Hok & _). split_and!; [done..|].
  intros e (x & -> & Hx)%list_elem_of_fmap. rewrite Forall_forall in Hok.
  destruct (Hok x Hx) as (Et & _). unfold time_of in Et. simpl.
  destruct (hs_events s !! he_elem x); [by eexists|done].
Qed.
Next Obligation.
  intros s xs n e ev Hq He Hx Hev Ht _.
  destruct (heap_sched_insert_spec s xs n e ev) as (s' & E & Es & Q); [done..|].
  exists s'. split_and!; [done|simpl; by rewrite Es|done].
Qed.
Next Obligation.
  intros s xs n Hq. destruct (heap_sched_deque_spec s xs n Hq) as (s' & E & Es & Q).
  exists s'. split_and!; [done|simpl; by rewrite Es|done].
Qed.
Next Obligation.
  intros s xs n e ev Hq He Hev Hu.
  destruct (heap_sched_cancel_spec s xs n e ev) as (s' & E & Es & Q); [done..|].
  exists s'. split_and!; [done| |done]. intros x. simpl in *. rewrite Es.
  case_decide as Hd; [subst; by rewrite lookup_insert_eq|by rewrite lookup_insert_ne].
Qed.
Next Obligation.
  intros s e ev He Hev Hu. simpl. unfold heap_sched_cancel.
  rewrite (bind_done _ _ _ _ _ (deref_done _ _ _ _ He Hev)). by rewrite decide_True.
Qed.
Next Obligation.
  intros s xs n (l & Hr & -> & Hl & Hnd & Hnull & Hok & Hk0 & Hk & Hlen).
  exists l. split_and!; try done; lia.
Qed.
Next Obligation.
  intros s xs n m (l & Hr & -> & Hl & Hnd & Hnull & Hok & Hrest) Hm.
  exists l. split_and!; try done; try tauto. simpl.
  apply Forall_forall. intros x Hx. rewrite Forall_forall in Hok.
  destruct (Hok x Hx) as (Et & Hty & Hs). split; [|done]. rewrite <- Et.
  destruct (Hm (he_elem x)) as (ev & ev' & E1 & E2 & _ & _ & E3 & _); [set_solver|].
  unfold time_of. simpl in *. by rewrite E1, E2; simpl; rewrite E3.
Qed.

(** ** The two schedulers *)

Lemma heap_rep_empty : heap_rep (Heap_new 32) [].
Proof.
  exists []. split_and!; try done. split; [simpl; lia|]. intros j _ Hj. simpl in Hj. lia.
Qed.

Lemma heap_queued_empty m n : Z.of_nat n < 2 ^ 31 - 1 → heap_queued (HS m (Heap_new 32)) [] n.
Proof.
  intros Hn. exists []. simpl. split_and!; try done; try lia; try (by constructor).
  - apply heap_rep_empty.
  - set_solver.
Qed.

(** Decide a closed proposition by computation. *)
Ltac by_decision := apply (bool_decide_unpack _); vm_compute; exact I.

(** The sequence number of the heap is 32 bits wide: of two simultaneous events
    inserted where it wraps around, the later one comes out first. *)
Theorem heap_order_wraps h t a b :
  heap_rep h [] → h_s_key h = 2 ^ 32 - 1 → is_nan t = false →
  ∃ h1 h2 h3, heap_insert t a h = Done tt h1 ∧ heap_insert t b h1 = Done tt h2 ∧
    heap_extract_min h2 = Done b h3.
Proof.
  intros Hr Hk Ht.
  destruct (heap_insert_spec h [] t a Hr Ht) as (h1 & E1 & R1 & K1); [done|].
  rewrite Hk in R1, K1. change (u32 (2 ^ 32 - 1 + 1)) with 0 in K1.
  destruct (heap_insert_spec h1 _ t b R1 Ht) as (h2 & E2 & R2 & K2); [done|]. rewrite K1 in R2.
  destruct (heap_extract_min_spec h2 _ R2) as [[[=] _]|(m & rest & h3 & Hp & Hm & E3 & _)]; [done|].
  exists h1, h2, h3. split_and!; [done..|]. rewrite E3. f_equal.
  assert (m ∈ [HeapElem t 0 b; HeapElem t (2 ^ 32 - 1) a]) as Hin by (rewrite Hp; set_solver).
  apply elem_of_cons in Hin as [->|Hin]; [done|].
  apply list_elem_of_singleton in Hin as ->. exfalso.
  apply Forall_cons in Hm as [Hm _]. unfold ele in Hm.
  assert (before (HeapElem t 0 b) (HeapElem t (2 ^ 32 - 1) a)) as Hb.
  { apply before_total; [done..|]. unfold elt, KEY_LESS_THAN. cbn [he_key he_s_key].
    change (2 ^ 32 - 1 <? 0) with false. by rewrite dlt_irrefl, andb_false_r. }
  unfold before in Hb. congruence.
Qed.

Lemma heap_order_wraps_witness :
  ∃ h1 h2 h3, heap_insert (d_of_Z 7) 1%N (set_h_s_key (2 ^ 32 - 1) (Heap_new 32)) = Done tt h1 ∧
    heap_insert (d_of_Z 7) 2%N h1 = Done tt h2 ∧ heap_extract_min h2 = Done 2%N h3.
Proof.
  apply (heap_order_wraps (set_h_s_key (2 ^ 32 - 1) (Heap_new 32)) (d_of_Z 7) 1%N 2%N).
  - exists []. split_and!; try done. split; [simpl; lia|]. intros j _ Hj. simpl in Hj. lia.
  - reflexivity.
  - reflexivity.
Defined.
