(* ===== verification/SimTree.v ===== *)
(** * Linked trees

    Binary trees whose nodes point to their children, as the splay scheduler
    ([ns2/common/splay-scheduler.cc]) keeps its events: the tree that a set of links holds,
    and the path from a tree's root to a place in it, with the subtrees beside the path.  A
    pointer that is part of a path is where the rest of the tree hangs. *)
From S2P Require Import Prelude.
Open Scope Z_scope.

Inductive side := Lft | Rgt.
#[export] Instance side_eq_dec : EqDecision side.
Proof. solve_decision. Defined.
Definition opp (d : side) : side := match d with Lft => Rgt | Rgt => Lft end.

(** Where a pointer to a node can be stored: in the root, or in a node. *)
Inductive place := Root | Child (d : side) (a : addr).
#[export] Instance place_eq_dec : EqDecision place.
Proof. solve_decision. Defined.

Inductive tree := Leaf | Node (l : tree) (a : addr) (r : tree).
#[export] Instance tree_eq_dec : EqDecision tree.
Proof. solve_decision. Defined.
Definition root (T : tree) : addr := match T with Leaf => NULL | Node _ a _ => a end.
Fixpoint elems (T : tree) : list addr :=
  match T with Leaf => [] | Node l a r => elems l ++ a :: elems r end.
(** The node [a] with the child [T] on the side [d] and the child [S] on the other. *)
Definition mk (d : side) (T : tree) (a : addr) (S : tree) : tree :=
  match d with Lft => Node T a S | Rgt => Node S a T end.

(** A step of a path: to the side [f_side] of [f_node], past its other child [f_sib]. *)
Record frame := Fr { f_side : side; f_node : addr; f_sib : tree }.

(** The place where a path from [base] ends; the last step comes first. *)
Definition hole (base : place) (C : list frame) : place :=
  match C with [] => base | f :: _ => Child (f_side f) (f_node f) end.
(** The whole tree when [T] hangs at the end of the path. *)
Fixpoint fill (C : list frame) (T : tree) : tree :=
  match C with [] => T | f :: C => fill C (mk (f_side f) T (f_node f) (f_sib f)) end.
Fixpoint nodes (C : list frame) : list addr :=
  match C with [] => [] | f :: C => f_node f :: elems (f_sib f) ++ nodes C end.
(** The elements before the end of the path, and after it. *)
Fixpoint pre (C : list frame) : list addr :=
  match C with
  | [] => []
  | f :: C => pre C ++ (if decide (f_side f = Lft) then [] else elems (f_sib f) ++ [f_node f])
  end.
Fixpoint post (C : list frame) : list addr :=
  match C with
  | [] => []
  | f :: C => (if decide (f_side f = Lft) then f_node f :: elems (f_sib f) else []) ++ post C
  end.

Lemma elems_cons T : T ≠ Leaf → ∃ x xs, elems T = x :: xs.
Proof.
  intros Hne. destruct (elems T) eqn:E; [|by eexists _, _]. destruct T as [|l a r]; [done|].
  simpl in E. by destruct (elems l).
Qed.
Lemma mk_node d T a S : ∃ l r, mk d T a S = Node l a r.
Proof. destruct d; by do 2 eexists. Qed.
Lemma root_mk d T a S : root (mk d T a S) = a.
Proof. by destruct d. Qed.
Lemma node_mk d T : T ≠ Leaf → ∃ T1 a T2, T = mk d T1 a T2.
Proof. destruct T as [|l a r]; [done|]. intros _. destruct d; [by exists l, a, r|by exists r, a, l]. Qed.
Lemma elems_mk d T a S : elems (mk d T a S) ≡ₚ a :: elems T ++ elems S.
Proof.
  destruct d; simpl; [by rewrite <- Permutation_middle|].
  rewrite <- Permutation_middle. by rewrite (Permutation_app_comm (elems S)).
Qed.

Lemma elems_fill C T : elems (fill C T) = pre C ++ elems T ++ post C.
Proof.
  revert T. induction C as [|[d a sib] C IH]; intros T; simpl; [by rewrite app_nil_r|].
  rewrite IH. destruct d; simpl; by rewrite ?app_nil_r, <- ?app_assoc.
Qed.
Lemma nodes_pre_post C : nodes C ≡ₚ pre C ++ post C.
Proof.
  induction C as [|[d a sib] C IH]; simpl; [done|]. rewrite IH.
  destruct d; simpl; rewrite ?app_nil_r, <- ?app_assoc.
  - rewrite app_comm_cons, (Permutation_app_comm (a :: elems sib)), <- app_assoc.
    apply Permutation_app_head, Permutation_app_comm.
  - simpl. rewrite (Permutation_app_comm (pre C) (elems sib ++ _)), <- app_assoc. simpl.
    rewrite <- Permutation_middle. by rewrite (Permutation_app_comm (pre C)).
Qed.

(** ** What the links hold *)

Section links.
Abbreviation links := (place → option addr).
Implicit Types v : links.

Fixpoint holds v (T : tree) : Prop :=
  match T with
  | Leaf => True
  | Node l a r =>
      a ≠ NULL ∧ v (Child Lft a) = Some (root l) ∧ v (Child Rgt a) = Some (root r) ∧ holds v l ∧ holds v r
  end.

(** All of a path but the pointer at its end. *)
Fixpoint frames v (base : place) (C : list frame) : Prop :=
  match C with
  | [] => True
  | f :: C =>
      f_node f ≠ NULL ∧ v (hole base C) = Some (f_node f) ∧
      v (Child (opp (f_side f)) (f_node f)) = Some (root (f_sib f)) ∧ holds v (f_sib f) ∧ frames v base C
  end.

Lemma holds_mk v d T a S : holds v (mk d T a S) ↔
  a ≠ NULL ∧ v (Child d a) = Some (root T) ∧ v (Child (opp d) a) = Some (root S) ∧ holds v T ∧ holds v S.
Proof. destruct d; simpl; tauto. Qed.

Lemma holds_root v T : holds v T → T ≠ Leaf → root T ≠ NULL.
Proof. destruct T; [done|]. by intros [? _] _. Qed.
Lemma holds_leaf v T : holds v T → root T = NULL → T = Leaf.
Proof. destruct T; [done|]. by intros [? _] ?. Qed.

(** With the rest of the tree at its end, a path is a tree. *)
Lemma close v base C T : frames v base C → v (hole base C) = Some (root T) → holds v T →
  v base = Some (root (fill C T)) ∧ holds v (fill C T).
Proof.
  revert T. induction C as [|f C IH]; intros T Hf Hh HT; [done|]. destruct Hf as (Hn & Hp & Hs & Hsib & Hf).
  simpl. apply IH; [done|by rewrite root_mk|]. apply holds_mk. simpl in Hh. by split_and!.
Qed.

(** One more step. *)
Lemma open v base C d T a S : frames v base C → v (hole base C) = Some a → holds v (mk d T a S) →
  frames v base (Fr d a S :: C) ∧ v (hole base (Fr d a S :: C)) = Some (root T) ∧ holds v T.
Proof. intros Hf Hh (Hn & Hd & Ho & HT & HS)%holds_mk. by split_and!. Qed.

(** The pointer at [p] becomes [x]. *)
Definition updated (p : place) (x : addr) v v' : Prop := v' p = Some x ∧ ∀ q, q ≠ p → v' q = v q.
Definition off (p : place) (xs : list addr) : Prop :=
  match p with Root => True | Child _ a => a ∉ xs end.

Lemma off_child p xs d a : off p xs → a ∈ xs → Child d a ≠ p.
Proof. intros Ho Ha <-. done. Qed.
Lemma off_incl p xs ys : off p ys → (∀ x, x ∈ xs → x ∈ ys) → off p xs.
Proof. destruct p; simpl; [done|]. intros Hy Hin Hx. by apply Hy, Hin. Qed.

Lemma holds_updated p x v v' T : updated p x v v' → off p (elems T) → holds v T → holds v' T.
Proof.
  intros [_ Hu]. induction T as [|l IHl a r IHr]; [done|]. intros Ho (Hn & H1 & H2 & Hl & Hr). simpl in *.
  assert (∀ d, Child d a ≠ p) as Hc by (intros d; apply (off_child _ _ _ _ Ho); set_solver).
  rewrite !Hu by done. split_and!; try done; [apply IHl|apply IHr]; try done;
    (eapply off_incl; [exact Ho|]; set_solver).
Qed.

Lemma frames_updated p x v v' base C : updated p x v v' → off base (nodes C) → NoDup (nodes C) →
  p = hole base C ∨ (p ≠ base ∧ off p (nodes C)) → frames v base C → frames v' base C.
Proof.
  intros Hu Hb Hnd Hp. revert Hb Hnd Hp. induction C as [|[d a sib] C IH]; intros Hb Hnd Hp; [done|].
  intros (Hn & Hh & Ho & Hs & Hf). simpl in *. apply NoDup_cons in Hnd as [Ha (Hnd1 & Hdis & Hnd2)%NoDup_app].
  assert (off base (nodes C)) as Hb' by (eapply off_incl; [exact Hb|]; set_solver).
  assert (hole base C ≠ p ∧ Child (opp d) a ≠ p ∧ off p (elems sib) ∧ p ≠ base ∧ off p (nodes C))
    as (H1 & H2 & H3 & H4 & H5).
  { destruct Hp as [->|[Hpb Hp]].
    - split_and!.
      + destruct C as [|[d' a' sib'] C']; simpl.
        * intros ->. simpl in Hb. set_solver.
        * intros [= -> ->]. simpl in Ha. set_solver.
      + by destruct d.
      + simpl. set_solver.
      + intros <-. simpl in Hb. set_solver.
      + simpl. set_solver.
    - split_and!.
      + destruct C as [|[d' a' sib'] C']; simpl; [done|]. apply (off_child _ _ _ _ Hp). simpl. set_solver.
      + apply (off_child _ _ _ _ Hp). set_solver.
      + eapply off_incl; [exact Hp|]. set_solver.
      + done.
      + eapply off_incl; [exact Hp|]. set_solver. }
  destruct Hu as [Hu1 Hu2]. rewrite !Hu2 by done. split_and!; try done.
  - by eapply holds_updated.
  - apply IH; try done. by right.
Qed.

(** Only pointers in the nodes [xs] differ. *)
Definition outside (xs : list addr) v v' : Prop := ∀ p, off p xs → v' p = v p.

Lemma outside_trans xs v1 v2 v3 : outside xs v1 v2 → outside xs v2 v3 → outside xs v1 v3.
Proof. intros H1 H2 p Hp. by rewrite H2, H1. Qed.
Lemma outside_weaken xs ys v v' : (∀ x, x ∈ xs → x ∈ ys) → outside xs v v' → outside ys v v'.
Proof. intros Hin Ho p Hp. apply Ho. by eapply off_incl. Qed.
Lemma updated_outside d a x v v' : updated (Child d a) x v v' → outside [a] v v'.
Proof. intros [_ Hu] p Hp. apply Hu. intros ->. simpl in Hp. set_solver. Qed.

Lemma holds_outside xs v v' T : outside xs v v' → (∀ x, x ∈ xs → x ∉ elems T) → holds v T → holds v' T.
Proof.
  intros Ho. induction T as [|l IHl a r IHr]; [done|]. intros Hd (Hn & H1 & H2 & Hl & Hr). simpl in *.
  assert (a ∉ xs) as Ha by (intros Hin; apply (Hd a Hin); set_solver).
  rewrite !Ho by done. split_and!; try done; [apply IHl|apply IHr]; try done; set_solver.
Qed.
Lemma frames_outside xs v v' base C : outside xs v v' → (∀ x, x ∈ xs → x ∉ nodes C) → off base xs →
  frames v base C → frames v' base C.
Proof.
  intros Ho Hd Hb. induction C as [|[d a sib] C IH]; [done|]. intros (Hn & Hh & Hs & Hsib & Hf). simpl in *.
  assert (a ∉ xs) as Ha by (intros Hin; apply (Hd a Hin); set_solver).
  assert (off (hole base C) xs) as Hhole.
  { destruct C as [|f C]; [done|]. simpl. intros Hin. apply (Hd _ Hin). simpl. set_solver. }
  rewrite !Ho by done. split_and!; try done; [|apply IH; [set_solver|done]].
  eapply holds_outside; [done| |done]. set_solver.
Qed.
End links.

(** A path that only turns to one side, from the node [n]. *)
Abbreviation spine d := (Forall (λ f, f_side f = d)).
Definition bottom (n : addr) (C : list frame) : addr := match C with [] => n | f :: _ => f_node f end.
Lemma hole_bottom d n C : spine d C → hole (Child d n) C = Child d (bottom n C).
Proof. destruct 1 as [|f C Hf _]; simpl; [done|]. by rewrite Hf. Qed.
Lemma bottom_in n C : bottom n C ∈ n :: nodes C.
Proof. destruct C; simpl; set_solver. Qed.
Lemma spine_pre C : spine Lft C → pre C = [].
Proof. induction 1 as [|[d a S] C Hd _ IH]; [done|]. simpl in *. by rewrite IH, decide_True. Qed.
Lemma spine_post C : spine Rgt C → post C = [].
Proof. induction 1 as [|[d a S] C Hd _ IH]; [done|]. simpl in *. subst d. by rewrite IH. Qed.
