(* ===== verification/SimSplay.v ===== *)
(** * The splay scheduler

    [ns2/common/splay-scheduler.cc]: the class [SplayScheduler] keeps the events in a binary
    search tree on the links of the events, and splays it when an event is inserted or
    removed.  It satisfies [EventQueueSpec] as the other schedulers do, under the condition
    that identifiers grow, which its [cancel] needs. *)
From S2P Require Import Prelude Double SimEvent SimTree.
Open Scope Z_scope.

(* [ns2/common/scheduler.h:193-218] class SplayScheduler *)
Record SplayScheduler := SS { sp_events : event_heap; root_ : addr; lookup_uid_ : Z; qsize_ : Z }.

Definition set_sp_events m (s : SplayScheduler) := SS m (root_ s) (lookup_uid_ s) (qsize_ s).
Definition set_root r (s : SplayScheduler) := SS (sp_events s) r (lookup_uid_ s) (qsize_ s).
Definition set_qsize n (s : SplayScheduler) := SS (sp_events s) (root_ s) (lookup_uid_ s) n.

Definition link_of (d : side) (e : Event) : addr := match d with Lft => prev_ e | Rgt => next_ e end.
Definition with_link (d : side) (x : addr) (e : Event) : Event :=
  match d with Lft => Ev (next_ e) x (handler_ e) (time_ e) (uid_ e) | Rgt => with_next x e end.

(** The variable an [Event **] points to. *)
Definition load (p : place) : M SplayScheduler addr :=
  match p with Root => gets root_ | Child d a => e ← deref sp_events a; mret (link_of d e) end.
Definition store (p : place) (x : addr) : M SplayScheduler unit :=
  match p with
  | Root => modify (set_root x)
  | Child d a =>
      e ← deref sp_events a; modify (λ s, set_sp_events (<[a := with_link d x e]> (sp_events s)) s)
  end.

(* [ns2/common/splay-scheduler.cc:97-98] LEFT and RIGHT *)
Definition LEFT (e : addr) : M SplayScheduler addr := load (Child Lft e).
Definition RIGHT (e : addr) : M SplayScheduler addr := load (Child Rgt e).
Definition set_LEFT (e x : addr) : M SplayScheduler unit := store (Child Lft e) x.
Definition set_RIGHT (e x : addr) : M SplayScheduler unit := store (Child Rgt e) x.

(** The child [x] of [t] on the side [d] becomes its parent; the new [t]. *)
(* [ns2/common/splay-scheduler.cc:100-112] ROTATE_RIGHT and ROTATE_LEFT *)
Definition ROTATE (d : side) (t x : addr) : M SplayScheduler addr :=
  y ← load (Child (opp d) x);
  _ ← store (Child d t) y;
  _ ← store (Child (opp d) x) t;
  mret x.
(** The new end of the path and the new [t]. *)
(* [ns2/common/splay-scheduler.cc:113-124] LINK_LEFT and LINK_RIGHT *)
Definition LINK (d : side) (r t : addr) : M SplayScheduler (addr * addr) :=
  _ ← store (Child d r) t;
  x ← load (Child d t);
  mret (t, x).

(** One half of the loop below, for [d] to the left as it is written and for the right in
    its mirror image: [near] is the end of the path that [t] is added to, and [far] that of
    the other.  The new [near] and [t], unless the loop is left. *)
(* [ns2/common/splay-scheduler.cc:149-180] SplayScheduler::insert *)
Definition insert_branch (d : side) (time : double) (near far t : addr) : M SplayScheduler (option (addr * addr)) :=
  x ← load (Child d t);
  if decide (x = NULL) then
    _ ← store (Child d near) t;
    _ ← store (Child (opp d) far) NULL;
    mret None
  else
    xe ← deref sp_events x;
    let further := match d with Lft => dlt time (time_ xe) | Rgt => dle (time_ xe) time end in
    t ← (if (further : bool) then ROTATE d t x else mret t);
    '(near, t) ← LINK d near t;
    if decide (t = NULL) then _ ← store (Child (opp d) far) NULL; mret None
    else mret (Some (near, t)).

(* [ns2/common/splay-scheduler.cc:148-181] SplayScheduler::insert *)
Fixpoint insert_loop (fuel : nat) (time : double) (l r t : addr) : M SplayScheduler unit :=
  match fuel with
  | O => stuck NoFuel
  | S fuel =>
      te ← deref sp_events t;
      if (dlt time (time_ te) : bool) then
        o ← insert_branch Lft time r l t;
        match o with None => skip | Some (r, t) => insert_loop fuel time l r t end
      else
        o ← insert_branch Rgt time l r t;
        match o with None => skip | Some (l, t) => insert_loop fuel time l r t end
  end.

(** The size of the heap bounds every path. *)
Definition path_fuel : M SplayScheduler nat := gets (λ s, S (size (sp_events s))).

(* [ns2/common/splay-scheduler.cc:126-189] SplayScheduler::insert *)
Definition splay_insert (n : addr) : M SplayScheduler unit :=
  _ ← modify (λ s, set_qsize (s32 (qsize_ s + 1)) s);
  ne ← deref sp_events n;
  t ← gets root_;
  if decide (t = NULL) then
    _ ← set_RIGHT n NULL;
    _ ← set_LEFT n NULL;
    modify (set_root n)
  else
    _ ← modify (set_root n);
    fuel ← path_fuel;
    _ ← insert_loop fuel (time_ ne) n n t;
    x ← LEFT n;
    y ← RIGHT n;
    _ ← set_LEFT n y;
    set_RIGHT n x.

Fixpoint leftmost (fuel : nat) (t : addr) : M SplayScheduler addr :=
  match fuel with
  | O => stuck NoFuel
  | S fuel => l ← LEFT t; if decide (l = NULL) then mret t else leftmost fuel l
  end.
(* [ns2/common/splay-scheduler.cc:191-202] SplayScheduler::head *)
Definition splay_head : M SplayScheduler addr :=
  t ← gets root_;
  if decide (t = NULL) then mret NULL else fuel ← path_fuel; leftmost fuel t.

(* [ns2/common/splay-scheduler.cc:259-281] SplayScheduler::deque *)
Fixpoint deque_loop (fuel : nat) (t l : addr) : M SplayScheduler addr :=
  match fuel with
  | O => stuck NoFuel
  | S fuel =>
      ll ← LEFT l;
      if decide (ll = NULL) then x ← RIGHT l; _ ← set_LEFT t x; mret l
      else
        lll ← LEFT ll;
        if decide (lll = NULL) then x ← RIGHT ll; _ ← set_LEFT l x; mret ll
        else
          _ ← set_LEFT t ll;
          x ← RIGHT ll;
          _ ← set_LEFT l x;
          _ ← set_RIGHT ll l;
          deque_loop fuel ll lll
  end.
(* [ns2/common/splay-scheduler.cc:238-282] SplayScheduler::deque *)
Definition splay_deque : M SplayScheduler addr :=
  t ← gets root_;
  if decide (t = NULL) then mret NULL
  else
    _ ← modify (λ s, set_qsize (s32 (qsize_ s - 1)) s);
    l ← LEFT t;
    if decide (l = NULL) then
      x ← RIGHT t;
      _ ← modify (set_root x);
      mret t
    else fuel ← path_fuel; deque_loop fuel t l.

(** The search for the pointer to [e]; it ends at a null pointer if there is none. *)
(* [ns2/common/splay-scheduler.cc:299-305] SplayScheduler::cancel *)
Fixpoint find_loop (fuel : nat) (e : addr) (ev : Event) (t : place) : M SplayScheduler place :=
  match fuel with
  | O => stuck NoFuel
  | S fuel =>
      x ← load t;
      if decide (x = NULL) then mret t
      else
        xe ← deref sp_events x;
        let right := dlt (time_ xe) (time_ ev) ||
                     (deq (time_ ev) (time_ xe) && bool_decide (uid_ ev > uid_ xe)) in
        let t := Child (if right then Rgt else Lft) x in
        y ← load t;
        if decide (y = e) then mret t else find_loop fuel e ev t
  end.

(** The parent of the leftmost node below [p], and that node; [q] is the left child of
    [p]. *)
(* [ns2/common/splay-scheduler.cc:338-339] SplayScheduler::cancel *)
Fixpoint successor (fuel : nat) (p q : addr) : M SplayScheduler (addr * addr) :=
  match fuel with
  | O => stuck NoFuel
  | S fuel => x ← LEFT q; if decide (x = NULL) then mret (p, q) else successor fuel q x
  end.

(** The event [e], to which [t] points, leaves the tree. *)
(* [ns2/common/splay-scheduler.cc:315-347] SplayScheduler::cancel *)
Definition unlink (e : addr) (t : place) : M SplayScheduler unit :=
  r ← RIGHT e;
  if decide (r = NULL) then
    l ← LEFT e; _ ← store t l; set_LEFT e NULL
  else
    l ← LEFT e;
    if decide (l = NULL) then _ ← store t r; set_RIGHT e NULL
    else
      let p := r in
      q ← LEFT p;
      if decide (q = NULL) then _ ← store t p; x ← LEFT e; set_LEFT p x
      else
        fuel ← path_fuel;
        '(p, q) ← successor fuel p q;
        _ ← store t q;
        x ← RIGHT q; _ ← set_LEFT p x;
        x ← LEFT e; _ ← set_LEFT q x;
        x ← RIGHT e; _ ← set_RIGHT q x;
        _ ← set_LEFT e NULL;
        set_RIGHT e NULL.

(* [ns2/common/splay-scheduler.cc:284-348] SplayScheduler::cancel *)
Definition splay_cancel (e : addr) : M SplayScheduler unit :=
  ev ← deref sp_events e;
  if decide (uid_ ev ≤ 0) then skip
  else
    r ← gets root_;
    t ← (if decide (e = r) then mret Root else fuel ← path_fuel; find_loop fuel e ev Root);
    x ← load t;
    if decide (x = NULL) then abort
    else
      _ ← modify (λ s, set_sp_events (<[e := with_uid (- uid_ ev) ev]> (sp_events s)) s);
      _ ← modify (λ s, set_qsize (s32 (qsize_ s - 1)) s);
      unlink e t.

(* [ns2/common/splay-scheduler.cc:358-372] SplayScheduler::uid_lookup *)
Fixpoint uid_lookup (fuel : nat) (e : addr) : M SplayScheduler addr :=
  match fuel with
  | O => stuck NoFuel
  | S fuel =>
      if decide (e = NULL) then mret NULL
      else
        ev ← deref sp_events e;
        u ← gets lookup_uid_;
        if decide (uid_ ev = u) then mret e
        else
          l ← LEFT e;
          res ← uid_lookup fuel l;
          if decide (res ≠ NULL) then mret res
          else r ← RIGHT e; uid_lookup fuel r
  end.
(* [ns2/common/splay-scheduler.cc:351-356] SplayScheduler::lookup *)
Definition splay_lookup (uid : Z) : M SplayScheduler addr :=
  _ ← modify (λ s, SS (sp_events s) (root_ s) uid (qsize_ s));
  fuel ← path_fuel;
  r ← gets root_;
  uid_lookup (S fuel) r.

#[export] Instance splay_scheduler : EventQueue SplayScheduler := {
  events := sp_events;
  set_events := set_sp_events;
  insert := splay_insert;
  deque := splay_deque;
  cancel := splay_cancel;
}.

(** ** The links of the events *)

Definition links (s : SplayScheduler) (p : place) : option addr :=
  match p with
  | Root => Some (root_ s)
  | Child d a => if decide (a = NULL) then None else link_of d <$> sp_events s !! a
  end.

(** What the pointers are not part of. *)
Definition kept (s s' : SplayScheduler) : Prop :=
  same_events (sp_events s) (sp_events s') ∧ qsize_ s' = qsize_ s ∧ lookup_uid_ s' = lookup_uid_ s.
#[export] Instance kept_equiv : Equivalence kept.
Proof.
  split.
  - by intros s.
  - intros s s' (Hs & Hq & Hl). split_and!; [by symmetry|done|done].
  - intros s1 s2 s3 (H1 & Hq & Hl) (H2 & Hq' & Hl'). split_and!; [by etrans|congruence|congruence].
Qed.

Lemma link_with d d' x e : link_of d' (with_link d x e) = if decide (d' = d) then x else link_of d' e.
Proof. by destruct d, d'. Qed.

Lemma links_cell s d d' a : is_Some (links s (Child d a)) → is_Some (links s (Child d' a)).
Proof. simpl. case_decide; [done|]. intros [x Hx]. destruct (sp_events s !! a); [by eexists|done]. Qed.

Lemma load_done s p x : links s p = Some x → load p s = Done x s.
Proof.
  destruct p as [|d a]; simpl; [by intros [= <-]|]. case_decide as Ha; [done|]. intros Hx.
  destruct (sp_events s !! a) as [e|] eqn:Ee; [|done]. injection Hx as <-.
  by rewrite (bind_done _ _ _ _ _ (deref_done _ _ _ _ Ha Ee)).
Qed.

Lemma store_done s p x : is_Some (links s p) →
  ∃ s', store p x s = Done tt s' ∧ updated p x (links s) (links s') ∧ kept s s'.
Proof.
  destruct p as [|d a]; simpl.
  { intros _. exists (set_root x s). split_and!; try done. split; [done|]. by intros [|d a] Hq. }
  case_decide as Ha; [by intros []|]. intros [y Hy]. destruct (sp_events s !! a) as [e|] eqn:Ee; [|done].
  rewrite (bind_done _ _ _ _ _ (deref_done _ _ _ _ Ha Ee)). eexists. split; [done|].
  split; [split|split_and!; [|done|done]].
  - simpl. rewrite decide_False by done. rewrite lookup_insert_eq. simpl. by rewrite link_with, decide_True.
  - intros [|d' b] Hq; simpl; [done|]. case_decide; [done|]. destruct (decide (b = a)) as [->|].
    + rewrite lookup_insert_eq, Ee. simpl. by rewrite link_with, decide_False by congruence.
    + by rewrite lookup_insert_ne.
  - intros b. simpl. destruct (decide (b = a)) as [->|]; [|by rewrite lookup_insert_ne].
    rewrite lookup_insert_eq, Ee. by destruct d.
Qed.

Lemma kept_time s s' x : kept s s' → time_of (sp_events s') x = time_of (sp_events s) x.
Proof. intros (Hs & _). by apply time_of_same. Qed.

Lemma links_event s d a : is_Some (links s (Child d a)) → a ≠ NULL ∧ ∃ ev, sp_events s !! a = Some ev.
Proof.
  simpl. case_decide as Ha; [by intros []|]. intros [x Hx]. split; [done|].
  destruct (sp_events s !! a) as [e|]; [by exists e|done].
Qed.

Lemma holds_event s T x : holds (links s) T → x ∈ elems T → x ≠ NULL ∧ ∃ ev, sp_events s !! x = Some ev.
Proof.
  induction T as [|l IHl a r IHr]; [set_solver|]. intros (_ & Ha & _ & Hl & Hr) Hx. simpl in Hx.
  apply elem_of_app in Hx as [Hx|[->|Hx]%elem_of_cons]; [by apply IHl| |by apply IHr].
  apply (links_event s Lft). by eexists.
Qed.

(** The end of a path can be written. *)
Lemma hole_some s d n C : frames (links s) (Child d n) C → is_Some (links s (Child d n)) →
  is_Some (links s (hole (Child d n) C)).
Proof.
  destruct C as [|f C]; [done|]. intros (_ & _ & Ho & _) _. eapply links_cell. simpl hole. by eexists.
Qed.

(** ** Splaying *)

(** A rotation at the root of a tree. *)
Lemma rotate_done s d X1 x X2 a T2 : let T := mk d (mk d X1 x X2) a T2 in
  holds (links s) T → NoDup (elems T) →
  ∃ s', ROTATE d a x s = Done x s' ∧ kept s s' ∧ outside [a; x] (links s) (links s') ∧
    holds (links s') (mk d X1 x (mk d X2 a T2)).
Proof.
  intros T HT Hnd. unfold T in *. rewrite !elems_mk in Hnd. apply NoDup_cons in Hnd as [Ha Hnd].
  apply NoDup_app in Hnd as ([Hx _]%NoDup_cons & Hdis & _).
  apply holds_mk in HT as (Hna & Hla & Hoa & HX & HT2).
  apply holds_mk in HX as (Hnx & Hlx & Hox & HX1 & HX2). rewrite root_mk in Hla.
  unfold ROTATE. rewrite (bind_done _ _ _ _ _ (load_done _ _ _ Hox)).
  destruct (store_done s (Child d a) (root X2)) as (s1 & E1 & U1 & K1); [by eexists|].
  rewrite (bind_done _ _ _ _ _ E1).
  assert (a ≠ x) as Hax by set_solver.
  assert (links s1 (Child (opp d) x) = Some (root X2)) as Hox1 by (rewrite (proj2 U1); [done|congruence]).
  destruct (store_done s1 (Child (opp d) x) a) as (s2 & E2 & U2 & K2); [by eexists|].
  rewrite (bind_done _ _ _ _ _ E2). exists s2. split; [done|]. split; [by etrans|].
  split.
  { eapply outside_trans; eapply outside_weaken; [|by eapply updated_outside| |by eapply updated_outside]; set_solver. }
  assert (∀ S, a ∉ elems S → x ∉ elems S → holds (links s) S → holds (links s2) S) as Hkeep.
  { intros S Has Hxs HS. eapply holds_updated; [exact U2|done|]. by eapply holds_updated. }
  assert (opp d ≠ d) as Hd by by destruct d.
  apply holds_mk. split_and!; [done| | |apply Hkeep; set_solver|].
  - rewrite (proj2 U2), (proj2 U1) by congruence. done.
  - rewrite root_mk. apply U2.
  - apply holds_mk. split_and!; [done| | |apply Hkeep; set_solver|apply Hkeep; set_solver].
    + rewrite (proj2 U2) by congruence. apply U1.
    + rewrite (proj2 U2), (proj2 U1) by congruence. done.
Qed.

(** The node of the remaining tree moves to the end of a path. *)
Lemma splay_link_done s d n C T1 a T2 : let T := mk d T1 a T2 in
  spine d C → frames (links s) (Child d n) C → holds (links s) T → is_Some (links s (Child d n)) →
  NoDup (n :: nodes C ++ elems T) →
  ∃ s', store (Child d (bottom n C)) a s = Done tt s' ∧ kept s s' ∧
    updated (Child d (bottom n C)) a (links s) (links s') ∧
    frames (links s') (Child d n) (Fr d a T2 :: C) ∧ links s' (Child d a) = Some (root T1) ∧ holds (links s') T1.
Proof.
  intros T Hd Hf HT Hn Hnd. unfold T in *. apply NoDup_cons in Hnd as [[Hnc Hnt]%not_elem_of_app (Hnd & Hdis & _)%NoDup_app].
  destruct (store_done s (Child d (bottom n C)) a) as (s' & E & U & K).
  { rewrite <- (hole_bottom d n C Hd). by apply hole_some. }
  exists s'. do 3 (split; [done|]). apply open.
  - eapply frames_updated; [exact U|done|done|left; by rewrite hole_bottom|done].
  - rewrite hole_bottom by done. apply U.
  - eapply holds_updated; [exact U| |done]. by destruct (elem_of_cons (nodes C) (bottom n C) n) as [[->|?] _];
      [apply bottom_in| |apply Hdis].
Qed.

(** What one step of the search moves away from the remaining tree: its root, or the root's
    child with it. *)
Inductive taken (d : side) (further : addr → bool) : tree → frame → tree → Prop :=
  | taken_root T1 a T2 : taken d further (mk d T1 a T2) (Fr d a T2) T1
  | taken_both X1 x X2 a T2 : further x = true →
      taken d further (mk d (mk d X1 x X2) a T2) (Fr d x (mk d X2 a T2)) X1.

Definition beyond (d : side) (m : event_heap) (time : double) (x : addr) : bool :=
  match time_of m x with
  | Some u => match d with Lft => dlt time u | Rgt => dle u time end
  | None => false
  end.

Lemma taken_nodes d further T f T' : taken d further T f T' →
  elems T ≡ₚ f_node f :: elems (f_sib f) ++ elems T'.
Proof.
  destruct 1 as [T1 a T2|X1 x X2 a T2 _]; simpl; rewrite !elems_mk.
  - constructor. apply Permutation_app_comm.
  - solve_Permutation.
Qed.

(** The two paths from [n] and the remaining tree, while [insert] searches on the side [d]. *)
Record splaying (s : SplayScheduler) (d : side) (n : addr) (Cn Cf : list frame) (T : tree) : Prop := {
  sp_near : spine d Cn;
  sp_far : spine (opp d) Cf;
  sp_near_at : frames (links s) (Child d n) Cn;
  sp_far_at : frames (links s) (Child (opp d) n) Cf;
  sp_tree : holds (links s) T;
  sp_cell : is_Some (links s (Child d n));
  sp_apart : NoDup (n :: nodes Cn ++ nodes Cf ++ elems T);
}.

Lemma splaying_mirror s d n Cn Cf T : splaying s d n Cn Cf T → splaying s (opp d) n Cf Cn T.
Proof.
  intros [H1 H2 H3 H4 H5 H6 H7]. assert (opp (opp d) = d) as Hd by by destruct d.
  split; rewrite ?Hd; try done; [by eapply links_cell|].
  rewrite (assoc_L app), (Permutation_app_comm (nodes Cf)), <- (assoc_L app). exact H7.
Qed.

Lemma splaying_disjoint s d n Cn Cf T : splaying s d n Cn Cf T →
  n ∉ nodes Cn ∧ n ∉ nodes Cf ∧ n ∉ elems T ∧ NoDup (nodes Cn) ∧ NoDup (nodes Cf) ∧ NoDup (elems T) ∧
  (∀ x, x ∈ nodes Cn → x ∉ nodes Cf) ∧ (∀ x, x ∈ nodes Cn → x ∉ elems T) ∧ (∀ x, x ∈ nodes Cf → x ∉ elems T).
Proof.
  intros [_ _ _ _ _ _ [Hn (H1 & H2 & (H3 & H4 & H5)%NoDup_app)%NoDup_app]%NoDup_cons].
  rewrite !not_elem_of_app in Hn. destruct Hn as (Hn1 & Hn2 & Hn3). split_and!; try done.
  - intros x Hx Hx'. apply (H2 x Hx), elem_of_app. by left.
  - intros x Hx Hx'. apply (H2 x Hx), elem_of_app. by right.
Qed.

(** The path on the other side stays where it is. *)
Lemma far_updated s s' d n Cn Cf T a : splaying s d n Cn Cf T →
  updated (Child d (bottom n Cn)) a (links s) (links s') → frames (links s') (Child (opp d) n) Cf.
Proof.
  intros Hs U. destruct (splaying_disjoint _ _ _ _ _ _ Hs) as (Hn1 & Hn2 & _ & _ & Hnd & _ & Hd & _).
  eapply frames_updated; [exact U|done|done| |apply Hs]. right. split; [by destruct d|]. simpl.
  by destruct (elem_of_cons (nodes Cn) (bottom n Cn) n) as [[->|?] _]; [apply bottom_in| |apply Hd].
Qed.

Lemma link_step s d n Cn Cf T1 a T2 : splaying s d n Cn Cf (mk d T1 a T2) →
  ∃ s', store (Child d (bottom n Cn)) a s = Done tt s' ∧ kept s s' ∧ outside (n :: nodes Cn) (links s) (links s') ∧
    splaying s' d n (Fr d a T2 :: Cn) Cf T1 ∧ links s' (Child d a) = Some (root T1).
Proof.
  intros Hs. destruct (splay_link_done s d n Cn T1 a T2) as (s' & E & K & U & F & L & H1); [apply Hs..| |].
  { destruct (splaying_disjoint _ _ _ _ _ _ Hs) as (Hn1 & _ & Hn3 & Hnd & _ & HT & _ & Hd & _).
    apply NoDup_cons. rewrite not_elem_of_app. split; [done|]. by apply NoDup_app. }
  exists s'. split; [done|]. split; [done|].
  split; [eapply outside_weaken; [|by eapply updated_outside]; intros x ->%list_elem_of_singleton; apply bottom_in|].
  split; [|done]. pose proof Hs as [S1 S2 S3 S4 S5 S6 S7]. split; try done.
  - by constructor.
  - by eapply far_updated.
  - destruct (decide (Cn = [])) as [->|Hne]; [by eexists; apply U|].
    rewrite (proj2 U); [done|]. intros Heq. rewrite <- (hole_bottom d n Cn S1) in Heq.
    destruct (splaying_disjoint _ _ _ _ _ _ Hs) as (Hn1 & _). destruct Cn as [|f C]; [done|].
    injection Heq as _ Heq. apply Hn1. simpl. rewrite Heq. by left.
  - rewrite elems_mk in S7. simpl. apply NoDup_Permutation_proper with (x := n :: nodes Cn ++ nodes Cf ++ a :: elems T1 ++ elems T2); [|done].
    solve_Permutation.
Qed.

(** The other path ends when nothing remains. *)
Lemma far_end s d n Cn Cf T : splaying s d n Cn Cf T →
  ∃ s', store (Child (opp d) (bottom n Cf)) NULL s = Done tt s' ∧ kept s s' ∧
    outside (n :: nodes Cf) (links s) (links s') ∧ splaying s' d n Cn Cf T ∧
    links s' (Child (opp d) (bottom n Cf)) = Some NULL ∧
    links s' (Child d (bottom n Cn)) = links s (Child d (bottom n Cn)).
Proof.
  intros Hs. pose proof (splaying_mirror _ _ _ _ _ _ Hs) as Hm. pose proof Hs as [S1 S2 S3 S4 S5 S6 S7].
  destruct (store_done s (Child (opp d) (bottom n Cf)) NULL) as (s' & E & U & K).
  { rewrite <- (hole_bottom _ _ _ S2). apply hole_some; [done|]. by eapply links_cell. }
  destruct (splaying_disjoint _ _ _ _ _ _ Hs) as (Hn1 & Hn2 & Hn3 & Hnd & Hnd' & HT & Hd1 & Hd2 & Hd3).
  assert (∀ b, Child d b ≠ Child (opp d) (bottom n Cf)) as Hne by (intros b; by destruct d).
  exists s'. split; [done|]. split; [done|].
  split; [eapply outside_weaken; [|by eapply updated_outside]; intros x ->%list_elem_of_singleton; apply bottom_in|].
  split; [|split; [apply U|by apply U]].
  split; try done.
  - assert (opp (opp d) = d) as Hd by by destruct d.
    pose proof (far_updated s s' (opp d) n Cf Cn T NULL Hm U) as Hf. by rewrite Hd in Hf.
  - eapply frames_updated; [exact U|done|done|left; by rewrite hole_bottom|done].
  - eapply holds_updated; [exact U| |done].
    by destruct (elem_of_cons (nodes Cf) (bottom n Cf) n) as [[->|?] _]; [apply bottom_in| |apply Hd3].
  - by rewrite (proj2 U) by apply Hne.
Qed.

(** Every node that the search can touch. *)
Abbreviation touched n Cn Cf T := (n :: nodes Cn ++ nodes Cf ++ elems T).

Lemma splaying_rotate s s' d n Cn Cf T xs T' : splaying s d n Cn Cf T →
  outside xs (links s) (links s') → (∀ x, x ∈ xs → x ∈ elems T) → holds (links s') T' → elems T' ≡ₚ elems T →
  splaying s' d n Cn Cf T'.
Proof.
  intros Hs Ho Hin HT' Hp. destruct (splaying_disjoint _ _ _ _ _ _ Hs) as (Hn1 & Hn2 & Hn3 & _ & _ & _ & _ & Hd2 & Hd3).
  assert (n ∉ xs) as Hn by (intros Hx; by apply Hn3, Hin).
  destruct Hs as [S1 S2 S3 S4 S5 S6 S7]. split; try done.
  - eapply frames_outside; [done| |done|done]. intros x Hx Hx'. by apply (Hd2 x Hx'), Hin.
  - eapply frames_outside; [done| |done|done]. intros x Hx Hx'. by apply (Hd3 x Hx'), Hin.
  - by rewrite (Ho (Child d n)).
  - by rewrite Hp.
Qed.

Lemma insert_branch_done time m s d n Cn Cf T : splaying s d n Cn Cf T → T ≠ Leaf → same_events m (sp_events s) →
  ∃ f T' o s', insert_branch d time (bottom n Cn) (bottom n Cf) (root T) s = Done o s' ∧ kept s s' ∧
    outside (touched n Cn Cf T) (links s) (links s') ∧
    taken d (beyond d m time) T f T' ∧ splaying s' d n (f :: Cn) Cf T' ∧
    links s' (Child d (f_node f)) = Some (root T') ∧
    ((T' = Leaf ∧ o = None ∧ links s' (Child (opp d) (bottom n Cf)) = Some NULL) ∨
     (T' ≠ Leaf ∧ o = Some (f_node f, root T'))).
Proof.
  intros Hs Hne Hm. destruct (node_mk d T Hne) as (T1 & a & T2 & ->). rewrite root_mk. unfold insert_branch.
  pose proof (sp_tree _ _ _ _ _ _ Hs) as HT. pose proof HT as (Ha & Hla & Hoa & HT1 & HT2)%holds_mk.
  rewrite (bind_done _ _ _ _ _ (load_done _ _ _ Hla)).
  destruct (decide (root T1 = NULL)) as [Hl|Hx].
  - apply (holds_leaf _ _ HT1) in Hl as ->.
    destruct (link_step s d n Cn Cf Leaf a T2 Hs) as (s1 & E1 & K1 & O1 & Hs1 & L1).
    destruct (far_end s1 d n (Fr d a T2 :: Cn) Cf Leaf Hs1) as (s2 & E2 & K2 & O2 & Hs2 & L2 & Le2).
    rewrite (bind_done _ _ _ _ _ E1), (bind_done _ _ _ _ _ E2).
    exists (Fr d a T2), Leaf, None, s2. split; [done|]. split; [by etrans|].
    split; [eapply outside_trans; eapply outside_weaken; [|exact O1| |exact O2]; set_solver|].
    split; [constructor|]. split; [done|]. split; [by etrans; [exact Le2|exact L1]|by left].
  - assert (T1 ≠ Leaf) as HT1' by (intros ->; done). destruct (node_mk d T1 HT1') as (X1 & x & X2 & ->).
    rewrite root_mk in *. destruct (holds_event s _ x HT1) as [_ [xe Hxe]].
    { rewrite elems_mk. by left. }
    rewrite (bind_done _ _ _ _ _ (deref_done _ _ _ _ Hx Hxe)).
    assert (match d with Lft => dlt time (time_ xe) | Rgt => dle (time_ xe) time end =
      beyond d m time x) as Hb by (unfold beyond; rewrite <- (time_of_same _ _ _ Hm); unfold time_of; by rewrite Hxe).
    cbv zeta. rewrite Hb.
    assert (∃ s1 a1 S1 T', (if beyond d m time x then ROTATE d a x else mret a) s = Done a1 s1 ∧ kept s s1 ∧
      outside (elems (mk d (mk d X1 x X2) a T2)) (links s) (links s1) ∧
      taken d (beyond d m time) (mk d (mk d X1 x X2) a T2) (Fr d a1 S1) T' ∧
      splaying s1 d n Cn Cf (mk d T' a1 S1)) as (s1 & a1 & S1 & T' & E1 & K1 & O1 & Ht & Hs1).
    { destruct (beyond d m time x) eqn:Ex.
      - destruct (splaying_disjoint _ _ _ _ _ _ Hs) as (_ & _ & _ & _ & _ & Hnd & _).
        destruct (rotate_done s d X1 x X2 a T2 HT Hnd) as (s1 & E1 & K1 & O1 & H1).
        assert (∀ y, y ∈ [a; x] → y ∈ elems (mk d (mk d X1 x X2) a T2)) as Hin.
        { intros y Hy. rewrite !elems_mk. set_solver. }
        exists s1, x, (mk d X2 a T2), X1. split; [done|]. split; [done|].
        split; [by eapply outside_weaken|]. split; [by constructor|].
        eapply splaying_rotate; [exact Hs|exact O1|exact Hin|exact H1|]. rewrite !elems_mk. solve_Permutation.
      - exists s, a, T2, (mk d X1 x X2). split; [done|]. split; [done|]. split; [by intros p|].
        split; [constructor|done]. }
    rewrite (bind_done _ _ _ _ _ E1). unfold LINK.
    destruct (link_step s1 d n Cn Cf T' a1 S1 Hs1) as (s2 & E2 & K2 & O2 & Hs2 & L2).
    rewrite bind_assoc_at, (bind_done _ _ _ _ _ E2).
    rewrite bind_assoc_at, (bind_done _ _ _ _ _ (load_done _ _ _ L2)), ret_bind_at.
    assert (outside (touched n Cn Cf (mk d (mk d X1 x X2) a T2)) (links s) (links s2)) as O12.
    { eapply outside_trans; eapply outside_weaken; [|exact O1| |exact O2]; set_solver. }
    destruct (decide (root T' = NULL)) as [Hl|Hr].
    + apply (holds_leaf _ _ (sp_tree _ _ _ _ _ _ Hs2)) in Hl as ->.
      destruct (far_end s2 d n _ Cf Leaf Hs2) as (s3 & E3 & K3 & O3 & Hs3 & L3 & Le3).
      rewrite (bind_done _ _ _ _ _ E3). exists (Fr d a1 S1), Leaf, None, s3.
      split; [done|]. split; [by etrans; [|etrans]|].
      split; [eapply outside_trans; [exact O12|]; eapply outside_weaken; [|exact O3]; set_solver|].
      split; [done|]. split; [done|]. split; [by etrans; [exact Le3|exact L2]|by left].
    + exists (Fr d a1 S1), T', (Some (a1, root T')), s2. split; [done|]. split; [by etrans|]. split; [done|].
      split; [done|]. split; [done|]. split; [done|]. right. split; [|done]. intros ->. done.
Qed.

Lemma taken_order d m time T f T' : taken d (beyond d m time) T f T' → chronological m (elems T) →
  beyond d m time (root T) = true →
  (∀ y, y ∈ f_node f :: elems (f_sib f) → beyond d m time y = true) ∧ chronological m (elems T') ∧
  elems T = match d with
            | Lft => elems T' ++ f_node f :: elems (f_sib f)
            | Rgt => elems (f_sib f) ++ f_node f :: elems T'
            end.
Proof.
  intros Ht Hc Hr.
  assert (f_side f = d ∧ beyond d m time (f_node f) = true ∧
    elems T = match d with
              | Lft => elems T' ++ f_node f :: elems (f_sib f)
              | Rgt => elems (f_sib f) ++ f_node f :: elems T'
              end) as (_ & Hf & He).
  { destruct Ht as [T1 a T2|X1 x X2 a T2 Hx]; simpl; split_and!; try done; [by rewrite root_mk in Hr|by destruct d|].
    destruct d; simpl; by rewrite <- !app_assoc. }
  rewrite He in Hc. split; [|split; [|done]].
  - intros y [->|Hy]%elem_of_cons; [done|]. destruct d; apply chronological_app in Hc as (H1 & H2 & H3).
    + destruct H2 as [(t & Et & _ & Hle) H2]. unfold beyond in *. rewrite Et in Hf.
      destruct (chronological_time m _ y H2 Hy) as (u & Eu & _).
      rewrite Eu. eapply dlt_dle_trans; [exact Hf|by eapply Hle].
    + unfold beyond in *. destruct H2 as [(t & Et & _) _]. rewrite Et in Hf.
      destruct (chronological_time m _ y H1 Hy) as (u & Eu & _).
      rewrite Eu. eapply dle_trans; [|exact Hf]. eapply (H3 y); [done|by left|done|done].
  - destruct d; apply chronological_app in Hc as (H1 & H2 & _); [done|by destruct H2].
Qed.

Lemma kept_beyond s s' d time x : kept s s' → beyond d (sp_events s') time x = beyond d (sp_events s) time x.
Proof. intros K. unfold beyond. by rewrite (kept_time _ _ _ K). Qed.

(** The tree is split at [time]: the events [xs] up to [time] are to the right of [n],
    which is where [insert] builds the left tree, and the others to the left. *)
Definition split_at (s : SplayScheduler) (n : addr) (m : event_heap) (time : double) (xs : list addr) : Prop :=
  ∃ TL TR, links s (Child Rgt n) = Some (root TL) ∧ links s (Child Lft n) = Some (root TR) ∧
    holds (links s) TL ∧ holds (links s) TR ∧ xs = elems TL ++ elems TR ∧
    (∀ x, x ∈ elems TL → beyond Rgt m time x = true) ∧ (∀ x, x ∈ elems TR → beyond Lft m time x = true).

(** The paths that lead to both sides of [time]. *)
Definition bounded (m : event_heap) (time : double) (R L : list frame) : Prop :=
  (∀ x, x ∈ pre L → beyond Rgt m time x = true) ∧ (∀ x, x ∈ post R → beyond Lft m time x = true).

Lemma paths_split s n m time R L : spine Lft R → spine Rgt L →
  frames (links s) (Child Lft n) R → frames (links s) (Child Rgt n) L →
  links s (Child Lft (bottom n R)) = Some NULL → links s (Child Rgt (bottom n L)) = Some NULL →
  bounded m time R L → split_at s n m time (pre L ++ post R).
Proof.
  intros HR HL FR FL ER EL [B1 B2]. rewrite <- (hole_bottom _ _ _ HR) in ER. rewrite <- (hole_bottom _ _ _ HL) in EL.
  destruct (close _ _ _ Leaf FR ER I) as [R1 R2]. destruct (close _ _ _ Leaf FL EL I) as [L1 L2].
  exists (fill L Leaf), (fill R Leaf). rewrite !elems_fill. simpl. rewrite (spine_pre R), (spine_post L) by done.
  rewrite app_nil_r. by split_and!.
Qed.

(** The loop splits the tree at [time]. *)
Lemma insert_loop_done fuel time m s n R L T :
  splaying s Lft n R L T → T ≠ Leaf → (length (elems T) ≤ fuel)%nat → is_nan time = false →
  same_events m (sp_events s) → chronological m (elems T) → bounded m time R L →
  ∃ s', insert_loop fuel time (bottom n L) (bottom n R) (root T) s = Done tt s' ∧ kept s s' ∧
    outside (touched n R L T) (links s) (links s') ∧ split_at s' n m time (pre L ++ elems T ++ post R).
Proof.
  revert s R L T. induction fuel as [|fuel IH]; intros s R L T Hs Hne Hf Hnan Hm Hc HB.
  { destruct T; [done|]. simpl in Hf. rewrite length_app in Hf. simpl in Hf. lia. }
  assert (root T ∈ elems T) as Ha by (destruct T; [done|]; simpl; set_solver).
  destruct (holds_event s T (root T) (sp_tree _ _ _ _ _ _ Hs) Ha) as (Hn & te & Hte).
  assert (time_of m (root T) = Some (time_ te)) as Eu.
  { rewrite <- (time_of_same _ _ _ Hm). unfold time_of. by rewrite Hte. }
  cbn [insert_loop]. rewrite (bind_done _ _ _ _ _ (deref_done _ _ _ _ Hn Hte)).
  destruct (chronological_time _ _ _ Hc Ha) as (u & Eu' & Hu). rewrite Eu in Eu'. injection Eu' as <-.
  assert (∀ s1 f Cn Cf T', elems T ≡ₚ f_node f :: elems (f_sib f) ++ elems T' → kept s s1 →
    (∀ x, x ∈ touched n (f :: Cn) Cf T' → x ∈ touched n Cn Cf T) ∧ same_events m (sp_events s1) ∧
    (length (elems T') ≤ fuel)%nat) as Hstep.
  { intros s1 f Cn Cf T' Hp (K & _). split_and!; [|by etrans|].
    - intros x. rewrite Hp. simpl. set_solver.
    - rewrite Hp in Hf. simpl in Hf. rewrite length_app in Hf. lia. }
  destruct HB as [HL HR]. destruct (dlt time (time_ te)) eqn:Et.
  - destruct (insert_branch_done time m s Lft n R L T Hs Hne Hm) as (f & T' & o & s1 & E1 & K1 & O1 & Ht & Hs1 & Lf & Hend).
    rewrite (bind_done _ _ _ _ _ E1).
    destruct (taken_order Lft m time T f T' Ht Hc) as (Hfs & Hc' & He); [by unfold beyond; rewrite Eu|].
    destruct (Hstep s1 f R L T' (taken_nodes _ _ _ _ _ Ht) K1) as (Hin & Hm1 & Hf1).
    pose proof Hs1 as [[Hside Hsp]%Forall_cons Hsp' FR FL _ _ _].
    assert (pre L ++ elems T ++ post R = pre L ++ elems T' ++ post (f :: R)) as ->.
    { rewrite He. simpl. rewrite decide_True by done. by rewrite <- (assoc_L app). }
    assert (bounded m time (f :: R) L) as HB.
    { split; [done|]. intros x. simpl. rewrite decide_True by done. intros [Hx|Hx]%elem_of_app; [by apply Hfs|by apply HR]. }
    destruct Hend as [(-> & -> & Lnull)|(Hne' & ->)].
    + exists s1. do 3 (split; [done|]). by apply paths_split; [constructor|..].
    + destruct (IH s1 (f :: R) L T') as (s' & E & K & O & Hsplit); try done.
      exists s'. split; [done|]. split; [by etrans|].
      split; [eapply outside_trans; [exact O1|by eapply outside_weaken]|done].
  - destruct (insert_branch_done time m s Rgt n L R T (splaying_mirror _ _ _ _ _ _ Hs) Hne Hm)
      as (f & T' & o & s1 & E1 & K1 & O1 & Ht & Hs1 & Lf & Hend).
    rewrite (bind_done _ _ _ _ _ E1).
    destruct (taken_order Rgt m time T f T' Ht Hc) as (Hfs & Hc' & He).
    { unfold beyond. rewrite Eu. by apply dlt_false_dle. }
    destruct (Hstep s1 f L R T' (taken_nodes _ _ _ _ _ Ht) K1) as (Hin & Hm1 & Hf1).
    pose proof Hs1 as [[Hside Hsp]%Forall_cons Hsp' FL FR _ _ _].
    assert (pre L ++ elems T ++ post R = pre (f :: L) ++ elems T' ++ post R) as ->.
    { rewrite He. simpl. rewrite decide_False by (by rewrite Hside). by rewrite <- !(assoc_L app). }
    assert (bounded m time R (f :: L)) as HB.
    { split; [|done]. intros x. simpl. rewrite decide_False by (by rewrite Hside).
      rewrite !elem_of_app, list_elem_of_singleton. intros [Hx|[Hx| ->]]; [by apply HL|apply Hfs; by right|apply Hfs; by left]. }
    assert (∀ p, off p (touched n R L T) → off p (touched n L R T)) as Hoff.
    { intros p Hp. eapply off_incl; [exact Hp|]. set_solver. }
    destruct Hend as [(-> & -> & Lnull)|(Hne' & ->)].
    + exists s1. split; [done|]. split; [done|]. split; [by intros p Hp; apply O1, Hoff|].
      by apply paths_split; [|constructor|..].
    + destruct (IH s1 R (f :: L) T') as (s' & E & K & O & Hsplit); try done.
      { by apply splaying_mirror in Hs1. }
      exists s'. split; [done|]. split; [by etrans|]. split; [|done].
      intros p Hp. rewrite (O p), (O1 p); [done|by apply Hoff|].
      eapply off_incl; [apply Hoff, Hp|]. intros x Hx. apply Hin. set_solver.
Qed.

(** ** The sequence of the events *)

(** Of two events of the same time the first has the smaller identifier. *)
Fixpoint uid_sorted (m : event_heap) (xs : list addr) : Prop :=
  match xs with
  | [] => True
  | x :: xs =>
      (∀ y ex ey, y ∈ xs → m !! x = Some ex → m !! y = Some ey →
        dle (time_ ey) (time_ ex) = true → uid_ ex < uid_ ey) ∧ uid_sorted m xs
  end.

Lemma uid_sorted_app m xs ys : uid_sorted m (xs ++ ys) ↔ uid_sorted m xs ∧ uid_sorted m ys ∧
  ∀ x y ex ey, x ∈ xs → y ∈ ys → m !! x = Some ex → m !! y = Some ey →
    dle (time_ ey) (time_ ex) = true → uid_ ex < uid_ ey.
Proof.
  induction xs as [|x xs IH]; simpl; [set_solver|]. rewrite IH. clear IH. split.
  - intros [Hx (Hxs & Hy & Hc)]. split_and!; try done.
    + intros y ex ey Hin. apply Hx, elem_of_app. by left.
    + intros z y ez ey [->|Hz]%elem_of_cons Hin; [apply Hx, elem_of_app; by right|by apply Hc].
  - intros ([Hx Hxs] & Hy & Hc). split_and!; try done.
    + intros y ex ey [Hin|Hin]%elem_of_app; [by apply Hx|]. apply Hc; [by left|done].
    + intros z y ez ey Hz. apply Hc. by right.
Qed.

Lemma uid_sorted_ext m m' xs :
  (∀ x e', x ∈ xs → m' !! x = Some e' → ∃ e, m !! x = Some e ∧ time_ e = time_ e' ∧ uid_ e = uid_ e') →
  uid_sorted m xs → uid_sorted m' xs.
Proof.
  induction xs as [|x xs IH]; [done|]. intros Hx [H1 H2]. split.
  - intros y ex ey Hy Hex Hey Hle. destruct (Hx x ex ltac:(by left) Hex) as (ex0 & E1 & T1 & <-).
    destruct (Hx y ey ltac:(by right) Hey) as (ey0 & E2 & T2 & <-). apply (H1 y ex0 ey0 Hy E1 E2). by rewrite T1, T2.
  - apply IH; [|done]. intros y ey Hy. apply Hx. by right.
Qed.
Lemma uid_sorted_same m m' xs : same_events m m' → uid_sorted m xs → uid_sorted m' xs.
Proof.
  intros Hs. apply uid_sorted_ext. intros x e' _ He'. specialize (Hs x). rewrite He' in Hs.
  destruct (m !! x) as [e|] eqn:Ee; [|done]. injection Hs as _ Ht Hu. by exists e.
Qed.

(** The tree of the links holds the events [xs]. *)
Definition splay_queued (s : SplayScheduler) (xs : list addr) : Prop :=
  ∃ T, root_ s = root T ∧ holds (links s) T ∧ elems T = xs ∧ NoDup xs ∧
    chronological (sp_events s) xs ∧ uid_sorted (sp_events s) xs.

Lemma splay_queued_done s s' T : same_events (sp_events s) (sp_events s') → NoDup (elems T) →
  chronological (sp_events s) (elems T) → uid_sorted (sp_events s) (elems T) →
  root_ s' = root T → holds (links s') T → splay_queued s' (elems T).
Proof.
  intros Hs Hnd Hc Hu Hr HT. exists T. split_and!; try done.
  - eapply chronological_ext; [|exact Hc]. intros x _. by apply time_of_same.
  - by eapply uid_sorted_same.
Qed.

Lemma elems_fuel s T : holds (links s) T → NoDup (elems T) → (length (elems T) ≤ size (sp_events s))%nat.
Proof.
  intros HT Hnd. rewrite <- (size_list_to_set (C := gset N)) by done. rewrite <- (size_dom (D := gset N)).
  apply subseteq_size. intros x Hx%elem_of_list_to_set. apply elem_of_dom.
  destruct (holds_event s T x HT Hx) as (_ & e & He). by exists e.
Qed.
Lemma splay_insert_empty s e ev : e ≠ NULL → sp_events s !! e = Some ev → root_ s = NULL →
  ∃ s', splay_insert e s = Done tt s' ∧ same_events (sp_events s) (sp_events s') ∧ root_ s' = e ∧
    holds (links s') (Node Leaf e Leaf).
Proof.
  intros He Hev Hr. unfold splay_insert. set (s0 := set_qsize (s32 (qsize_ s + 1)) s).
  rewrite (bind_done _ _ _ tt s0), (bind_done _ _ s0 ev s0), (bind_done _ _ s0 NULL s0), decide_True
    by (done || by apply deref_done || by unfold gets; rewrite <- Hr).
  assert (is_Some (links s0 (Child Rgt e))) as H0 by (simpl; rewrite decide_False, Hev by done; by eexists).
  destruct (store_done s0 (Child Rgt e) NULL H0) as (s1 & E1 & U1 & K1).
  destruct (store_done s1 (Child Lft e) NULL) as (s2 & E2 & U2 & K2); [eapply links_cell; by eexists; apply U1|].
  unfold set_RIGHT, set_LEFT. rewrite (bind_done _ _ _ _ _ E1), (bind_done _ _ _ _ _ E2).
  eexists. split; [done|]. split; [apply (transitivity (y := sp_events s1)); [apply K1|apply K2]|]. split; [done|].
  simpl. split_and!; try done; [apply U2|]. by rewrite <- (proj1 U1), <- (proj2 U2).
Qed.

(** Around the loop: [e] becomes the root, and in the end its children change sides. *)
Lemma splay_insert_node s T e ev : e ≠ NULL → e ∉ elems T → T ≠ Leaf → sp_events s !! e = Some ev →
  is_nan (time_ ev) = false → root_ s = root T → holds (links s) T → NoDup (elems T) →
  chronological (sp_events s) (elems T) →
  ∃ s' TL TR, splay_insert e s = Done tt s' ∧ same_events (sp_events s) (sp_events s') ∧ root_ s' = e ∧
    holds (links s') (Node TL e TR) ∧ elems T = elems TL ++ elems TR ∧
    (∀ x, x ∈ elems TL → beyond Rgt (sp_events s) (time_ ev) x = true) ∧
    (∀ x, x ∈ elems TR → beyond Lft (sp_events s) (time_ ev) x = true).
Proof.
  intros He Hx Hne Hev Ht Hr HT Hnd Hc. unfold splay_insert. set (s0 := set_qsize (s32 (qsize_ s + 1)) s).
  rewrite (bind_done _ _ _ tt s0), (bind_done _ _ s0 ev s0), (bind_done _ _ s0 (root T) s0)
    by (done || by apply deref_done || by unfold gets; rewrite <- Hr).
  rewrite decide_False by by eapply holds_root. set (s1 := set_root e s0).
  rewrite (bind_done _ _ s0 tt s1), (bind_done _ _ _ (S (size (sp_events s1))) s1) by done.
  assert (splaying s1 Lft e [] [] T) as Hs1.
  { split; try done.
    - by apply (holds_updated Root e (links s)); [split; [|intros [|]]| |].
    - simpl. rewrite decide_False, Hev by done. by eexists.
    - simpl. by apply NoDup_cons. }
  destruct (insert_loop_done (S (size (sp_events s1))) (time_ ev) (sp_events s) s1 e [] [] T)
    as (s2 & E2 & K2 & O2 & TL & TR & LL & LR & HTL & HTR & Hel & Hlow & Hhigh); try done.
  { pose proof (elems_fuel s T HT Hnd). simpl. lia. }
  { by split; intros x Hx'%elem_of_nil. }
  simpl in E2, Hel. rewrite app_nil_r in Hel. rewrite (bind_done _ _ _ _ _ E2).
  unfold LEFT, RIGHT, set_LEFT, set_RIGHT. rewrite (bind_done _ _ _ _ _ (load_done _ _ _ LR)).
  rewrite (bind_done _ _ _ _ _ (load_done _ _ _ LL)).
  destruct (store_done s2 (Child Lft e) (root TL)) as (s3 & E3 & U3 & K3); [by eexists|].
  destruct (store_done s3 (Child Rgt e) (root TR)) as (s4 & E4 & U4 & K4); [eapply links_cell; by eexists; apply U3|].
  rewrite (bind_done _ _ _ _ _ E3), E4. rewrite Hel, not_elem_of_app in Hx. destruct Hx as [HxL HxR].
  exists s4, TL, TR. split; [done|].
  split; [apply (transitivity (y := sp_events s2)); [apply K2|]; apply (transitivity (y := sp_events s3)); [apply K3|apply K4]|].
  split; [|split; [|done]].
  - assert (links s4 Root = Some e) as E; [|by injection E].
    rewrite (proj2 U4), (proj2 U3), (O2 Root) by done. done.
  - apply (holds_mk _ Lft TL e TR). split_and!; [done| |apply U4|..].
    + rewrite (proj2 U4) by done. apply U3.
    + eapply holds_updated; [exact U4|done|]. by eapply holds_updated.
    + eapply holds_updated; [exact U4|done|]. by eapply holds_updated.
Qed.

Lemma splay_insert_spec s xs e ev : splay_queued s xs → e ≠ NULL → e ∉ xs → sp_events s !! e = Some ev →
  is_nan (time_ ev) = false → latest (sp_events s) xs (uid_ ev) →
  ∃ s', splay_insert e s = Done tt s' ∧ same_events (sp_events s) (sp_events s') ∧
    splay_queued s' (enlist (sp_events s) e (time_ ev) xs).
Proof.
  intros (T & Hr & HT & <- & Hnd & Hc & Hu) He Hx Hev Ht Hl.
  assert (chronological (sp_events s) (enlist (sp_events s) e (time_ ev) (elems T))) as Hc'.
  { apply chronological_enlist; [unfold time_of; by rewrite Hev|done..]. }
  pose proof (NoDup_enlist (sp_events s) e (time_ ev) _ Hx Hnd) as Hnd'.
  destruct (decide (T = Leaf)) as [->|Hne].
  - destruct (splay_insert_empty s e ev He Hev Hr) as (s' & E & Hs & Hr' & HT').
    exists s'. split; [done|]. split; [done|]. apply (splay_queued_done s s' (Node Leaf e Leaf)); try done.
    by split; [intros y ex ey Hy%elem_of_nil|].
  - destruct (splay_insert_node s T e ev) as (s' & TL & TR & E & Hs & Hr' & HT' & Hel & Hlow & Hhigh); try done.
    exists s'. split; [done|]. split; [done|]. unfold beyond in *.
    assert (enlist (sp_events s) e (time_ ev) (elems T) = elems (Node TL e TR)) as Een.
    { rewrite Hel. apply enlist_split.
      - intros x u Hin Eu. specialize (Hlow x Hin). by rewrite Eu in Hlow.
      - intros y Hin. specialize (Hhigh y Hin). destruct (time_of _ y) as [u|]; [by exists u|done]. }
    rewrite Een in *. apply (splay_queued_done s s'); try done. rewrite Hel in Hu, Hl. simpl.
    apply uid_sorted_app in Hu as (Hu1 & Hu2 & Hu3). apply uid_sorted_app. split; [done|]. split.
    + split; [|done]. intros y ex ey Hin Hex Hey Hle. specialize (Hhigh y Hin).
      unfold time_of in Hhigh. rewrite Hey in Hhigh. rewrite Hev in Hex. injection Hex as <-.
      apply dle_antilt in Hle. simpl in Hhigh. congruence.
    + intros x y ex ey Hin [->|Hin']%elem_of_cons Hex Hey Hle; [|by eapply Hu3].
      rewrite Hev in Hey. injection Hey as <-. apply (Hl x); [apply elem_of_app; by left|done].
Qed.

(** ** Removing the first event *)

(** The path down the left side of the tree, from the node [b]. *)
Record descending (s : SplayScheduler) (b : addr) (C : list frame) (T : tree) : Prop := {
  de_spine : spine Lft C;
  de_path : frames (links s) (Child Lft b) C;
  de_tree : holds (links s) T;
  de_hole : links s (Child Lft (bottom b C)) = Some (root T);
  de_cell : is_Some (links s (Child Lft b));
  de_apart : NoDup (b :: nodes C ++ elems T);
}.

Lemma descending_apart s b C T : descending s b C T →
  b ∉ nodes C ∧ b ∉ elems T ∧ NoDup (nodes C) ∧ NoDup (elems T) ∧ (∀ x, x ∈ nodes C → x ∉ elems T) ∧
  bottom b C ∉ elems T.
Proof.
  intros [_ _ _ _ _ [[H1 H2]%not_elem_of_app (H3 & H4 & H5)%NoDup_app]%NoDup_cons]. split_and!; try done.
  by destruct (elem_of_cons (nodes C) (bottom b C) b) as [[->|?] _]; [apply bottom_in| |apply H4].
Qed.

(** When the pointer at the end of the path changes to another tree. *)
Lemma descending_end s s' b C T T' : descending s b C T →
  updated (Child Lft (bottom b C)) (root T') (links s) (links s') → holds (links s) T' → bottom b C ∉ elems T' →
  links s' (Child Lft b) = Some (root (fill C T')) ∧ holds (links s') (fill C T') ∧ elems (fill C T') = elems T' ++ post C.
Proof.
  intros Hd U HT' Hb. destruct (descending_apart _ _ _ _ Hd) as (H1 & _ & H3 & _). destruct Hd as [S1 S2 S3 S4 S5 S6].
  rewrite elems_fill, (spine_pre C S1). assert (frames (links s') (Child Lft b) C) as F.
  { eapply frames_updated; [exact U|done|done|left; by rewrite hole_bottom|done]. }
  destruct (close _ _ C T' F) as [R H]; [rewrite hole_bottom by done; apply U|by eapply holds_updated|done].
Qed.

(** When the tree at the end of the path changes inside. *)
Lemma descending_inside s s' b C T T' xs : descending s b C T → outside xs (links s) (links s') →
  (∀ x, x ∈ xs → x ∈ elems T) → root T' = root T → holds (links s') T' → elems T' ≡ₚ elems T →
  descending s' b C T'.
Proof.
  intros Hd Ho Hin Hr HT' Hp. destruct (descending_apart _ _ _ _ Hd) as (H1 & H2 & H3 & H4 & H5 & H6).
  destruct Hd as [S1 S2 S3 S4 S5 S6].
  assert (b ∉ xs ∧ bottom b C ∉ xs) as [Hb Hb'] by (split; intros Hx; [by apply H2, Hin|by apply H6, Hin]).
  split; try done.
  - eapply frames_outside; [done| |done|done]. intros x Hx Hx'. by apply (H5 x Hx'), Hin.
  - rewrite (Ho (Child _ _)) by done. by rewrite Hr.
  - by rewrite (Ho (Child _ _)).
  - by rewrite Hp.
Qed.

Lemma descend s b C l a r : descending s b C (Node l a r) → descending s b (Fr Lft a r :: C) l.
Proof.
  intros [S1 S2 S3 S4 S5 S6]. destruct (open (links s) (Child Lft b) C Lft l a r) as (F & L & H); try done.
  { by rewrite hole_bottom. }
  split; try done; [by constructor|]. simpl in S6 |- *.
  eapply NoDup_Permutation_proper; [|exact S6]. solve_Permutation.
Qed.

(** The first event is the root of what remains. *)
Lemma deque_root s b C l tr : descending s b C (Node Leaf l tr) →
  ∃ s', store (Child Lft (bottom b C)) (root tr) s = Done tt s' ∧ kept s s' ∧ outside (b :: nodes C) (links s) (links s') ∧
    links s' (Child Rgt b) = links s (Child Rgt b) ∧
    links s' (Child Lft b) = Some (root (fill C tr)) ∧ holds (links s') (fill C tr) ∧ elems (fill C tr) = elems tr ++ post C.
Proof.
  intros Hd. pose proof (de_tree _ _ _ _ Hd) as (_ & _ & _ & _ & Htr).
  destruct (descending_apart _ _ _ _ Hd) as (_ & _ & _ & _ & _ & Hbt).
  destruct (store_done s (Child Lft (bottom b C)) (root tr)) as (s1 & E1 & U1 & K1); [rewrite (de_hole _ _ _ _ Hd); by eexists|].
  exists s1. split; [done|]. split; [done|].
  split; [eapply outside_weaken; [|by eapply updated_outside]; intros x ->%list_elem_of_singleton; apply bottom_in|].
  split; [by apply U1|]. apply (descending_end s s1 b C _ tr Hd U1 Htr). simpl in Hbt. set_solver.
Qed.

(** It is the left child of that root. *)
Lemma deque_child s b C l ll tlr tr : descending s b C (Node (Node Leaf ll tlr) l tr) →
  let T := Node tlr l tr in
  ∃ s', store (Child Lft l) (root tlr) s = Done tt s' ∧ kept s s' ∧ outside [l] (links s) (links s') ∧
    links s' (Child Rgt b) = links s (Child Rgt b) ∧
    links s' (Child Lft b) = Some (root (fill C T)) ∧ holds (links s') (fill C T) ∧ elems (fill C T) = elems T ++ post C.
Proof.
  intros Hd T. pose proof (de_tree _ _ _ _ Hd) as (Hl & Ll & Lr & (_ & _ & _ & _ & Htlr) & Htr).
  destruct (descending_apart _ _ _ _ Hd) as (Hb1 & Hb2 & _ & Hnd & Hdis & Hbt).
  destruct (store_done s (Child Lft l) (root tlr)) as (s1 & E1 & U1 & K1); [by eexists|].
  assert (outside [l] (links s) (links s1)) as O1 by by eapply updated_outside.
  assert (l ∉ elems tlr ∧ l ∉ elems tr) as [Hl1 Hl2].
  { simpl in Hnd. apply NoDup_cons in Hnd as [_ Hnd]. apply NoDup_app in Hnd as (_ & H1 & [H2 _]%NoDup_cons).
    split; [|done]. intros Hin. apply (H1 _ Hin). by left. }
  assert (holds (links s1) T) as H1.
  { apply (holds_mk _ Lft tlr l tr). split_and!; [done|apply U1|by rewrite (proj2 U1)|..]; by eapply holds_updated. }
  destruct (close (links s1) (Child Lft b) C T) as [F1 F2]; [| |done|].
  { eapply frames_outside; [exact O1| |simpl; set_solver|apply Hd].
    intros x ->%list_elem_of_singleton Hx. apply (Hdis l Hx). simpl. set_solver. }
  { rewrite hole_bottom by apply Hd. rewrite (O1 (Child _ _)) by (simpl in Hbt |- *; set_solver). apply Hd. }
  exists s1. split; [done|]. split; [done|]. split; [done|].
  split; [apply O1; simpl in Hb2 |- *; set_solver|]. split; [done|]. split; [done|].
  by rewrite elems_fill, (spine_pre C) by apply Hd.
Qed.

Lemma rotate_unfold {A} d t x s s' (k : M SplayScheduler A) : ROTATE d t x s = Done x s' →
  (y ← load (Child (opp d) x); _ ← store (Child d t) y; _ ← store (Child (opp d) x) t; k) s = k s'.
Proof.
  unfold ROTATE, mbind, M_bind. destruct (load _ s) as [y s1| |]; [|done|done].
  destruct (store _ y s1) as [u s2| |]; [|done|done]. destruct (store _ t s2) as [u' s3| |]; [|done|done].
  by intros [= ->].
Qed.

(** Otherwise it is further down: a rotation on the way. *)
Lemma deque_down s b C l ll tll tlr tr : descending s b C (Node (Node tll ll tlr) l tr) →
  ∃ s1 s2, store (Child Lft (bottom b C)) ll s = Done tt s1 ∧ ROTATE Lft l ll s1 = Done ll s2 ∧ kept s s2 ∧
    outside (b :: nodes C ++ elems (Node (Node tll ll tlr) l tr)) (links s) (links s2) ∧
    links s2 (Child Rgt b) = links s (Child Rgt b) ∧ descending s2 b (Fr Lft ll (Node tlr l tr) :: C) tll.
Proof.
  intros Hd. destruct (descending_apart _ _ _ _ Hd) as (Hb1 & Hb2 & Hnc & Hnd & Hdis & Hbt).
  destruct (store_done s (Child Lft (bottom b C)) ll) as (s1 & E1 & U1 & K1); [rewrite (de_hole _ _ _ _ Hd); by eexists|].
  assert (frames (links s1) (Child Lft b) C) as F1.
  { eapply frames_updated; [exact U1|done|done|left; by rewrite hole_bottom by apply Hd|apply Hd]. }
  destruct (rotate_done s1 Lft tll ll tlr l tr) as (s2 & E2 & K2 & O2 & H2); [|done|].
  { eapply holds_updated; [exact U1|done|apply Hd]. }
  assert (∀ x, x ∈ [l; ll] → x ∈ elems (Node (Node tll ll tlr) l tr)) as Hin by (intros x; simpl; set_solver).
  exists s1, s2. split; [done|]. split; [done|]. split; [by etrans|]. split; [|split].
  - eapply outside_trans; eapply outside_weaken; [|by eapply updated_outside| |exact O2].
    + intros x ->%list_elem_of_singleton. pose proof (bottom_in b C). set_solver.
    + intros x Hx. apply Hin in Hx. set_solver.
  - rewrite (O2 (Child Rgt b)) by (simpl; intros Hx; by apply Hb2, Hin). by apply U1.
  - apply descend. destruct Hd as [S1 S2 S3 S4 S5 S6]. split; try done.
    + eapply frames_outside; [exact O2| | |exact F1]; [intros x Hx Hx'; by apply (Hdis x Hx'), Hin|].
      simpl. intros Hx. by apply Hb2, Hin.
    + rewrite (O2 (Child _ _)) by (simpl; intros Hx; by apply Hbt, Hin). apply U1.
    + rewrite (O2 (Child Lft b)) by (simpl; intros Hx; by apply Hb2, Hin).
      destruct (decide (bottom b C = b)) as [E|Hne]; [rewrite <- E; by eexists; apply U1|].
      rewrite (proj2 U1); [done|]. intros [= E]. by apply Hne.
    + eapply NoDup_Permutation_proper; [|exact S6]. simpl. solve_Permutation.
Qed.

Lemma deque_loop_done fuel s b C T : descending s b C T → T ≠ Leaf → (length (elems T) ≤ fuel)%nat →
  ∃ s' T', deque_loop fuel (bottom b C) (root T) s = Done (default NULL (head (elems T))) s' ∧ kept s s' ∧
    outside (b :: nodes C ++ elems T) (links s) (links s') ∧ links s' (Child Rgt b) = links s (Child Rgt b) ∧
    links s' (Child Lft b) = Some (root T') ∧ holds (links s') T' ∧ elems T' = tail (elems T) ++ post C.
Proof.
  revert s C T. induction fuel as [|fuel IH]; intros s C T Hd Hne Hf.
  { destruct T; [done|]. simpl in Hf. rewrite length_app in Hf. simpl in Hf. lia. }
  destruct T as [|tl l tr]; [done|]. pose proof (de_tree _ _ _ _ Hd) as (_ & Lll & Lr & Htl & _).
  cbn [deque_loop root]. unfold LEFT, RIGHT, set_LEFT, set_RIGHT. rewrite (bind_done _ _ _ _ _ (load_done _ _ _ Lll)).
  destruct (decide (root tl = NULL)) as [E0|Hll].
  { apply (holds_leaf _ _ Htl) in E0 as ->. rewrite (bind_done _ _ _ _ _ (load_done _ _ _ Lr)).
    destruct (deque_root s b C l tr Hd) as (s1 & E1 & K1 & O1 & Rest). rewrite (bind_done _ _ _ _ _ E1).
    exists s1, (fill C tr). split; [done|]. split; [done|]. split; [eapply outside_weaken; [|exact O1]; set_solver|done]. }
  destruct tl as [|tll ll tlr]; [done|]. pose proof Htl as (_ & Llll & Llr & Htll & _). cbn [root] in *.
  rewrite (bind_done _ _ _ _ _ (load_done _ _ _ Llll)).
  destruct (decide (root tll = NULL)) as [E0|Hlll].
  { apply (holds_leaf _ _ Htll) in E0 as ->. rewrite (bind_done _ _ _ _ _ (load_done _ _ _ Llr)).
    destruct (deque_child s b C l ll tlr tr Hd) as (s1 & E1 & K1 & O1 & Rest). rewrite (bind_done _ _ _ _ _ E1).
    exists s1, (fill C (Node tlr l tr)). split; [done|]. split; [done|].
    split; [eapply outside_weaken; [|exact O1]; intros x ->%list_elem_of_singleton; simpl; set_solver|done]. }
  destruct (deque_down s b C l ll tll tlr tr Hd) as (s1 & s2 & E1 & E2 & K2 & O2 & L2 & Hd2).
  rewrite (bind_done _ _ _ _ _ E1). change (Child Rgt ll) with (Child (opp Lft) ll).
  rewrite (rotate_unfold Lft l ll s1 s2 _ E2).
  assert (tll ≠ Leaf) as Hne' by (intros ->; done).
  destruct (IH s2 _ tll Hd2 Hne') as (s3 & T' & E3 & K3 & O3 & L3 & L3' & H3 & Hel).
  { simpl in Hf. rewrite !length_app in Hf. simpl in Hf. lia. }
  destruct (elems_cons tll Hne') as (h & t & Eh).
  exists s3, T'. split; [etrans; [exact E3|]; simpl; by rewrite Eh|]. split; [by etrans|].
  split; [eapply outside_trans; [exact O2|eapply outside_weaken; [|exact O3]]; intros x; simpl; set_solver|].
  split; [by rewrite L3|]. split; [done|]. split; [done|]. rewrite Hel. simpl. rewrite Eh. simpl.
  by rewrite <- ?(assoc_L app), <- ?app_comm_cons, <- ?(assoc_L app).
Qed.

Lemma splay_deque_spec s xs : splay_queued s xs →
  ∃ s', splay_deque s = Done (default NULL (head xs)) s' ∧ same_events (sp_events s) (sp_events s') ∧
    splay_queued s' (tail xs).
Proof.
  intros (T & Hr & HT & <- & Hnd & Hc & Hu). unfold splay_deque.
  rewrite (bind_done _ _ _ (root T) s) by (by unfold gets; rewrite <- Hr).
  destruct T as [|tl t tr]; [rewrite decide_True by done; exists s; split; [done|]; split; [done|]; by exists Leaf|].
  pose proof HT as (Ht & Ll & Lr & Htl & Htr). cbn [root]. rewrite decide_False by done.
  set (s0 := set_qsize (s32 (qsize_ s - 1)) s). rewrite (bind_done _ _ _ tt s0) by done.
  unfold LEFT, RIGHT. rewrite (bind_done _ _ s0 _ _ (load_done s0 (Child Lft t) (root tl) Ll)).
  destruct (decide (root tl = NULL)) as [E0|Hl].
  - apply (holds_leaf _ _ Htl) in E0 as ->. rewrite (bind_done _ _ s0 _ _ (load_done s0 (Child Rgt t) (root tr) Lr)).
    rewrite (bind_done _ _ s0 tt (set_root (root tr) s0)) by done. eexists. split; [done|]. split; [done|].
    simpl in Hnd, Hc, Hu |- *. apply NoDup_cons in Hnd as [_ Hnd].
    apply (splay_queued_done s); try done; [apply Hc|apply Hu|].
    by apply (holds_updated Root (root tr) (links s)); [split; [|intros [|]]| |].
  - rewrite (bind_done _ _ s0 (S (size (sp_events s0))) s0) by done.
    simpl in Hnd. pose proof Hnd as (Hnl & Hdis & [Hnr Hndr]%NoDup_cons)%NoDup_app.
    assert (tl ≠ Leaf) as Hne by (intros ->; done).
    assert (t ∉ elems tl) as Htt by (intros Hx; apply (Hdis t Hx); by left).
    destruct (deque_loop_done (S (size (sp_events s0))) s0 t [] tl) as (s1 & T' & E1 & K1 & O1 & L1 & L1' & H1 & Hel).
    { split; try done. simpl. by apply NoDup_cons. }
    { done. }
    { pose proof (elems_fuel s tl Htl Hnl). simpl. lia. }
    cbn [bottom] in E1. destruct (elems_cons tl Hne) as (h & xl & Eh).
    rewrite Eh in E1, Hel. simpl in Hel, E1. rewrite app_nil_r in Hel.
    exists s1. simpl. rewrite Eh. simpl. split; [exact E1|]. split; [apply K1|].
    rewrite <- Hel. change (elems T' ++ t :: elems tr) with (elems (Node T' t tr)).
    simpl in Hc, Hu. rewrite Eh, <- Hel in Hc, Hu, Hnd. apply NoDup_cons in Hnd as [_ Hnd].
    apply (splay_queued_done s); [apply K1|done|apply Hc|apply Hu| |].
    + assert (links s1 Root = Some t) as E; [|by injection E]. rewrite (O1 Root) by done. simpl. by rewrite Hr.
    + apply (holds_mk _ Lft T' t tr). split_and!; [done|done|exact (eq_trans L1 Lr)|done|].
      eapply holds_outside; [exact O1| |exact Htr]. intros x. cbn [nodes app].
      intros [->|Hx]%elem_of_cons; [done|]. intros Hx'. apply (Hdis x Hx). by right.
Qed.

(** ** Cancelling *)

(** On the way from the node [x] to the event [e] below it the comparison takes the right
    side. *)
Lemma search_side m x e xe ev tl tr : m !! x = Some xe → m !! e = Some ev →
  chronological m (elems (Node tl x tr)) → uid_sorted m (elems (Node tl x tr)) → e ∈ elems tl ∨ e ∈ elems tr →
  let right := dlt (time_ xe) (time_ ev) || (deq (time_ ev) (time_ xe) && bool_decide (uid_ ev > uid_ xe)) in
  e ∈ elems (if right then tr else tl).
Proof.
  intros Hx He Hc Hu Hin right. simpl in Hc, Hu.
  apply chronological_app in Hc as (_ & [(t & Et & _ & Hcr) _] & Hcl).
  apply uid_sorted_app in Hu as (_ & [Hur _] & Hul). unfold time_of in *.
  rewrite Hx in Et. injection Et as <-.
  destruct Hin as [Hin|Hin].
  - assert (dle (time_ ev) (time_ xe) = true) as Hle by (apply (Hcl e x); [done|by left|by rewrite He|by rewrite Hx]).
    assert (right = false) as ->; [|done]. unfold right. rewrite (dle_antilt _ _ Hle), deq_dle, Hle. simpl.
    destruct (dle (time_ xe) (time_ ev)) eqn:E; [|done]. simpl. apply bool_decide_eq_false.
    assert (uid_ ev < uid_ xe); [|lia]. apply (Hul e x); try done. by left.
  - assert (dle (time_ xe) (time_ ev) = true) as Hle by (apply (Hcr e); [done|by rewrite He]).
    assert (right = true) as ->; [|done]. unfold right. destruct (dlt (time_ xe) (time_ ev)) eqn:E; [done|]. simpl.
    rewrite deq_dle, Hle. destruct (dle (time_ ev) (time_ xe)) eqn:E'.
    + simpl. apply bool_decide_eq_true. assert (uid_ xe < uid_ ev); [|lia]. by apply (Hur e).
    + exfalso. revert Hle E E'. dorder.
Qed.

(** The search ends at the pointer to the event. *)
Lemma find_loop_done fuel s e ev C T : frames (links s) Root C → links s (hole Root C) = Some (root T) →
  holds (links s) T → e ∈ elems T → e ≠ root T → sp_events s !! e = Some ev →
  chronological (sp_events s) (elems T) → uid_sorted (sp_events s) (elems T) → (length (elems T) ≤ fuel)%nat →
  ∃ C' l r, find_loop fuel e ev (hole Root C) s = Done (hole Root C') s ∧ frames (links s) Root C' ∧
    links s (hole Root C') = Some e ∧ holds (links s) (Node l e r) ∧ fill C' (Node l e r) = fill C T.
Proof.
  intros F L H He Hne Hev Hc Hu. revert C T F L H He Hne Hc Hu.
  induction fuel as [|fuel IH]; intros C T F L H He Hne Hc Hu Hf; (destruct T as [|tl x tr]; [set_solver|]).
  { simpl in Hf. rewrite length_app in Hf. simpl in Hf. lia. }
  destruct (holds_event s _ x H) as (Hx & xe & Hxe); [simpl; set_solver|]. simpl in Hne.
  assert (e ∈ elems tl ∨ e ∈ elems tr) as Hin by (simpl in He; set_solver).
  pose proof (search_side _ x e xe ev tl tr Hxe Hev Hc Hu Hin) as Hside. cbv zeta in Hside.
  cbn [find_loop]. rewrite (bind_done _ _ _ _ _ (load_done _ _ _ L)). cbn [root]. rewrite decide_False by done.
  rewrite (bind_done _ _ _ _ _ (deref_done _ _ _ _ Hx Hxe)). cbv zeta.
  set (d := if dlt (time_ xe) (time_ ev) || (deq (time_ ev) (time_ xe) && bool_decide (uid_ ev > uid_ xe)) then Rgt else Lft).
  assert (∃ T1 T2, Node tl x tr = mk d T1 x T2 ∧ e ∈ elems T1) as (T1 & T2 & ET & He1).
  { unfold d. destruct (_ || _); [by exists tr, tl|by exists tl, tr]. }
  rewrite ET in *. rewrite elems_mk in Hf. simpl in Hf. rewrite length_app in Hf.
  destruct (open _ _ _ _ _ _ _ F ltac:(by rewrite L, root_mk) H) as (F' & L' & H').
  change (Child d x) with (hole Root (Fr d x T2 :: C)). rewrite (bind_done _ _ _ _ _ (load_done _ _ _ L')).
  destruct (decide (root T1 = e)) as [Hroot|Hroot].
  - destruct T1 as [|l e' r]; [set_solver|]. simpl in Hroot. subst e'.
    by exists (Fr d x T2 :: C), l, r.
  - destruct (IH (Fr d x T2 :: C) T1 F' L' H' He1) as (C' & l & r & E & Rest); [congruence|..|lia|].
    + destruct d; simpl in Hc; apply chronological_app in Hc as (H1 & H2 & _); [done|apply H2].
    + destruct d; simpl in Hu; apply uid_sorted_app in Hu as (H1 & H2 & _); [done|apply H2].
    + by exists C', l, r.
Qed.

(** The pointer at the end of a path, after it was set and nodes beside the path changed. *)
Lemma path_close s1 s2 s3 C x xs T : frames (links s1) Root C → NoDup (nodes C) →
  updated (hole Root C) x (links s1) (links s2) → outside xs (links s2) (links s3) →
  (∀ y, y ∈ xs → y ∉ nodes C) → root T = x → holds (links s3) T →
  links s3 Root = Some (root (fill C T)) ∧ holds (links s3) (fill C T).
Proof.
  intros F Hnd U O Hd Hr HT. apply close; [|rewrite (O _), Hr; [apply U|]|done].
  - eapply frames_outside; [exact O|done|done|]. by eapply frames_updated; [exact U|..|left|].
  - destruct C as [|f C]; [done|]. simpl. intros Hin. apply (Hd _ Hin). simpl. by left.
Qed.

(** What is left of the tree without [e], whose subtrees hold the events [xs]. *)
Definition unlinked (s s' : SplayScheduler) (C : list frame) (xs : list addr) : Prop :=
  kept s s' ∧ ∃ T, links s' Root = Some (root (fill C T)) ∧ holds (links s') (fill C T) ∧ elems T = xs.

Section unlink.
Context (s : SplayScheduler) (C : list frame) (e : addr) (l r : tree).
Context (F : frames (links s) Root C) (Lh : links s (hole Root C) = Some e).
Context (H : holds (links s) (Node l e r)) (Hnd : NoDup (nodes C ++ elems (Node l e r))).

Lemma unlink_apart : e ∉ nodes C ∧ e ∉ elems l ∧ e ∉ elems r ∧ NoDup (nodes C) ∧ NoDup (elems l) ∧ NoDup (elems r) ∧
  (∀ x, x ∈ elems l → x ∉ elems r) ∧ (∀ x, x ∈ e :: elems l ++ elems r → x ∉ nodes C) ∧
  ∀ xs, (∀ x, x ∈ nodes C → x ∉ xs) → off (hole Root C) xs.
Proof.
  apply NoDup_app in Hnd as (H1 & H2 & H3). simpl in H2, H3.
  apply NoDup_app in H3 as (H3 & H4 & [H5 H6]%NoDup_cons). split_and!; try done.
  - intros Hin. apply (H2 e Hin). set_solver.
  - intros Hin. apply (H4 e Hin). by left.
  - intros x Hx Hx'. apply (H4 x Hx). by right.
  - intros x Hx Hx'. apply (H2 x Hx'). set_solver.
  - intros xs Hxs. destruct C as [|f C']; [done|]. simpl. apply Hxs. simpl. by left.
Qed.

(** One child takes the place of [e]. *)
Lemma unlink_one d T : T = l ∨ T = r → elems T = elems l ++ elems r →
  ∃ s', (_ ← store (hole Root C) (root T); store (Child d e) NULL) s = Done tt s' ∧
    unlinked s s' C (elems l ++ elems r).
Proof.
  intros HT Hel. destruct unlink_apart as (He & Hel' & Her & Hnc & _ & _ & _ & Hd & Hoff).
  pose proof H as (_ & _ & _ & Hl & Hr).
  destruct (store_done s (hole Root C) (root T)) as (s1 & E1 & U1 & K1); [by eexists|].
  assert (is_Some (links s1 (Child d e))) as Hcell.
  { rewrite (proj2 U1); [destruct H as (_ & L & _); apply (links_cell _ Lft); by eexists|].
    intros Heq. specialize (Hoff [e]). rewrite <- Heq in Hoff. simpl in Hoff. apply Hoff; [|by left].
    intros x Hx ->%list_elem_of_singleton. done. }
  destruct (store_done s1 (Child d e) NULL Hcell) as (s2 & E2 & U2 & K2).
  rewrite (bind_done _ _ _ _ _ E1), E2. exists s2. split; [done|]. split; [by etrans|]. exists T.
  destruct (path_close s s1 s2 C (root T) [e] T) as [R HF]; try done; [by eapply updated_outside|..].
  - by intros y ->%list_elem_of_singleton.
  - assert (holds (links s) T ∧ e ∉ elems T) as [H0 Hne] by by destruct HT as [-> | ->].
    eapply holds_updated; [exact U2|done|]. eapply holds_updated; [exact U1| |done].
    apply Hoff. intros x Hx Hx'. apply (Hd x); [|done]. destruct HT as [-> | ->]; set_solver.
Qed.

(** The pointer to [e] is set to a node of the right subtree. *)
Lemma unlink_root x : ∃ s1, store (hole Root C) x s = Done tt s1 ∧ kept s s1 ∧ updated (hole Root C) x (links s) (links s1) ∧
  holds (links s1) (Node l e r).
Proof.
  destruct unlink_apart as (He & Hel' & Her & Hnc & _ & _ & _ & Hd & Hoff).
  destruct (store_done s (hole Root C) x) as (s1 & E1 & U1 & K1); [by eexists|].
  exists s1. do 3 (split; [done|]). eapply holds_updated; [exact U1| |done]. apply Hoff.
  intros y Hy Hy'. apply (Hd y); [|done]. simpl in Hy'. set_solver.
Qed.

(** The right child is the successor of [e]. *)
Lemma unlink_right p pr : r = Node Leaf p pr →
  ∃ s', (_ ← store (hole Root C) p; x ← LEFT e; set_LEFT p x) s = Done tt s' ∧
    unlinked s s' C (elems l ++ elems r).
Proof.
  intros Er. destruct unlink_apart as (He & Hel' & Her & Hnc & _ & Hndr & Hlr & Hd & Hoff).
  destruct (unlink_root p) as (s1 & E1 & K1 & U1 & (_ & Ll & Lr & Hl & Hr)).
  unfold LEFT, set_LEFT. rewrite (bind_done _ _ _ _ _ E1), (bind_done _ _ _ _ _ (load_done _ _ _ Ll)).
  rewrite Er in *. destruct Hr as (Hp & Lpl & Lpr & _ & Hpr).
  destruct (store_done s1 (Child Lft p) (root l)) as (s2 & E2 & U2 & K2); [by eexists|].
  exists s2. split; [exact E2|]. split; [by etrans|]. exists (Node l p pr).
  destruct (path_close s s1 s2 C p [p] (Node l p pr)) as [R HF]; try done; [by eapply updated_outside|..].
  - intros y ->%list_elem_of_singleton. apply Hd. simpl. set_solver.
  - simpl in Hndr, Hlr. apply NoDup_cons in Hndr as [Hpn _].
    apply (holds_mk _ Lft l p pr). split_and!; [done|apply U2|by rewrite (proj2 U2)|..].
    + eapply holds_updated; [exact U2| |done]. simpl. intros Hin. apply (Hlr p Hin). by left.
    + by eapply holds_updated; [exact U2| |].
Qed.
End unlink.

Lemma descending_off s s' b C T p x : descending s b C T → updated p x (links s) (links s') →
  off p (b :: nodes C ++ elems T) → descending s' b C T.
Proof.
  intros Hd U Ho. destruct (descending_apart _ _ _ _ Hd) as (H1 & H2 & H3 & _). destruct Hd as [S1 S2 S3 S4 S5 S6].
  assert (∀ d a, a ∈ b :: nodes C ++ elems T → Child d a ≠ p) as Hne.
  { intros d a Ha. by eapply off_child. }
  split; try done.
  - eapply frames_updated; [exact U|done|done| |done]. right. split; [|eapply off_incl; [exact Ho|set_solver]].
    apply not_eq_sym, Hne. by left.
  - eapply holds_updated; [exact U| |done]. eapply off_incl; [exact Ho|set_solver].
  - rewrite (proj2 U); [done|]. apply Hne. pose proof (bottom_in b C). set_solver.
  - rewrite (proj2 U); [done|]. apply Hne. by left.
Qed.

(** The successor is the leftmost event below [p]. *)
Lemma successor_done fuel s p C T : descending s p C T → T ≠ Leaf → (length (elems T) ≤ fuel)%nat →
  ∃ D q qr, successor fuel (bottom p C) (root T) s = Done (bottom p D, q) s ∧ descending s p D (Node Leaf q qr) ∧
    fill D (Node Leaf q qr) = fill C T.
Proof.
  revert C T. induction fuel as [|fuel IH]; intros C T Hd Hne Hf; (destruct T as [|tl q qr]; [done|]).
  { simpl in Hf. rewrite length_app in Hf. simpl in Hf. lia. }
  pose proof (de_tree _ _ _ _ Hd) as (_ & Ll & _ & Htl & _).
  cbn [successor root]. unfold LEFT. rewrite (bind_done _ _ _ _ _ (load_done _ _ _ Ll)).
  destruct (decide (root tl = NULL)) as [E|Hn].
  - apply (holds_leaf _ _ Htl) in E as ->. by exists C, q, qr.
  - apply (IH (Fr Lft q qr :: C) tl); [by apply descend|by intros ->|].
    simpl in Hf. rewrite length_app in Hf. simpl in Hf. lia.
Qed.

(** [q] takes over the children of [e]. *)
Lemma take_over s e q l r : links s (Child Lft e) = Some (root l) → links s (Child Rgt e) = Some (root r) →
  is_Some (links s (Child Rgt q)) → holds (links s) l → holds (links s) r → e ≠ q →
  q ∉ elems l → q ∉ elems r → e ∉ elems l → e ∉ elems r →
  ∃ s', (x ← LEFT e; _ ← set_LEFT q x; x ← RIGHT e; _ ← set_RIGHT q x; _ ← set_LEFT e NULL; set_RIGHT e NULL) s =
      Done tt s' ∧ kept s s' ∧ outside [e; q] (links s) (links s') ∧ holds (links s') (Node l q r).
Proof.
  intros Ll Lr Hq Hl Hr Hne Hql Hqr Hel Her. unfold LEFT, RIGHT, set_LEFT, set_RIGHT.
  assert (q ≠ NULL) as Hqn by by apply links_event in Hq as [? _].
  rewrite (bind_done _ _ _ _ _ (load_done _ _ _ Ll)).
  destruct (store_done s (Child Lft q) (root l)) as (s1 & E1 & U1 & K1); [by eapply links_cell|].
  assert (links s1 (Child Rgt e) = Some (root r)) as Lr1 by (rewrite (proj2 U1) by congruence; done).
  rewrite (bind_done _ _ _ _ _ E1), (bind_done _ _ _ _ _ (load_done _ _ _ Lr1)).
  destruct (store_done s1 (Child Rgt q) (root r)) as (s2 & E2 & U2 & K2); [by rewrite (proj2 U1)|].
  destruct (store_done s2 (Child Lft e) NULL) as (s3 & E3 & U3 & K3).
  { rewrite (proj2 U2), (proj2 U1), Ll by congruence. by eexists. }
  destruct (store_done s3 (Child Rgt e) NULL) as (s4 & E4 & U4 & K4).
  { rewrite (proj2 U3), (proj2 U2), Lr1 by congruence. by eexists. }
  rewrite (bind_done _ _ _ _ _ E2), (bind_done _ _ _ _ _ E3), E4. exists s4. split; [done|].
  split; [by etrans; [|etrans; [|etrans]]|].
  assert (∀ T, q ∉ elems T → e ∉ elems T → holds (links s) T → holds (links s4) T) as Hkeep.
  { intros T H1 H2 HT. eapply holds_updated; [exact U4|done|]. eapply holds_updated; [exact U3|done|].
    eapply holds_updated; [exact U2|done|]. by eapply holds_updated. }
  split.
  - intros p Hp. assert (∀ d, p ≠ Child d q ∧ p ≠ Child d e) as Hd.
    { intros d. split; intros ->; simpl in Hp; set_solver +Hp. }
    by rewrite (proj2 U4), (proj2 U3), (proj2 U2), (proj2 U1) by apply Hd.
  - apply (holds_mk _ Lft l q r). split_and!; [done|..]; [| |by apply Hkeep|by apply Hkeep].
    + rewrite (proj2 U4), (proj2 U3), (proj2 U2) by congruence. apply U1.
    + rewrite (proj2 U4), (proj2 U3) by (simpl; congruence). apply U2.
Qed.

Section splice.
Context (s : SplayScheduler) (C : list frame) (e : addr) (l : tree) (p q : addr) (D : list frame) (qr pr : tree).
Let r : tree := Node (fill D (Node Leaf q qr)) p pr.
Context (F : frames (links s) Root C) (Lh : links s (hole Root C) = Some e).
Context (H : holds (links s) (Node l e r)) (Hnd : NoDup (nodes C ++ elems (Node l e r))).
Context (Hdesc : descending s p D (Node Leaf q qr)).

Lemma splice_elems : elems r = (q :: elems qr ++ post D) ++ p :: elems pr ∧ nodes D ≡ₚ post D.
Proof.
  pose proof (spine_pre D (de_spine _ _ _ _ Hdesc)) as Hpre. unfold r. simpl. rewrite elems_fill, Hpre. split; [done|].
  by rewrite nodes_pre_post, Hpre.
Qed.

(** No two of the nodes that are linked anew are the same. *)
Lemma splice_apart : p ∉ nodes D ∧ p ≠ q ∧ p ∉ elems pr ∧ q ∉ nodes D ∧ q ∉ elems qr ∧ q ∉ elems pr ∧
  (∀ x, x ∈ nodes D → x ∉ elems pr) ∧ e ∉ p :: q :: nodes D ++ elems qr ++ elems pr ∧
  (∀ x, x ∈ elems l → x ∉ p :: q :: nodes D ++ elems qr ++ elems pr) ∧
  (∀ x, x ∈ p :: q :: nodes D ++ elems qr ++ elems pr → x ∈ elems r).
Proof.
  destruct splice_elems as [Er Ep]. destruct (unlink_apart s C e l r F Lh H Hnd) as (_ & _ & Her & _ & _ & Hndr & Hlr & _).
  assert (p :: q :: nodes D ++ elems qr ++ elems pr ≡ₚ elems r) as Hp.
  { rewrite Er, Ep. solve_Permutation. }
  assert (∀ x, x ∈ p :: q :: nodes D ++ elems qr ++ elems pr → x ∈ elems r) as Hin by (intros x; by rewrite Hp).
  rewrite <- Hp in Hndr. apply NoDup_cons in Hndr as [Hp1 [Hq1 (_ & Hd & Hd')%NoDup_app]%NoDup_cons].
  split_and!; try done; try (set_solver +Hp1 Hq1 Hd).
  - intros Hx. by apply Her, Hin.
  - intros x Hx Hx'. by apply (Hlr x Hx), Hin.
Qed.

Lemma unlink_splice :
  ∃ s', (_ ← store (hole Root C) q; x ← RIGHT q; _ ← set_LEFT (bottom p D) x; x ← LEFT e; _ ← set_LEFT q x;
         x ← RIGHT e; _ ← set_RIGHT q x; _ ← set_LEFT e NULL; set_RIGHT e NULL) s = Done tt s' ∧
    unlinked s s' C (elems l ++ elems r).
Proof.
  destruct (unlink_apart s C e l r F Lh H Hnd) as (He & Hel & Her & Hnc & _ & _ & _ & Hd & Hoff).
  destruct splice_apart as (Hp1 & Hpq & Hp2 & Hq1 & Hq2 & Hq3 & Hdp & He1 & Hl1 & Hin).
  destruct splice_elems as [Er Ep].
  destruct (unlink_root s C e l r F Lh H Hnd q) as (s1 & E1 & K1 & U1 & (_ & Lel & Ler & Hl & Hr)).
  assert (descending s1 p D (Node Leaf q qr)) as Hd1.
  { eapply descending_off; [exact Hdesc|exact U1|]. apply Hoff. intros x Hx Hx'. apply (Hd x); [|done].
    simpl in Hx'. right. apply elem_of_app. right. apply Hin. set_solver +Hx'. }
  pose proof (de_tree _ _ _ _ Hd1) as (Hq & _ & Lqr & _ & Hqr).
  destruct (deque_root s1 p D q qr Hd1) as (s2 & E2 & K2 & O2 & Lp & Lp' & Hfill & Hfe).
  destruct Hr as (Hpn & _ & Lpr & _ & Hpr). set (R := Node (fill D qr) p pr).
  assert (holds (links s2) R) as HR.
  { apply (holds_mk _ Lft (fill D qr) p pr). split_and!; [done|done|by etrans; [exact Lp|]|done|].
    eapply holds_outside; [exact O2| |done]. intros x [->|Hx]%elem_of_cons; [done|by apply Hdp]. }
  assert (∀ x, x ∈ elems R → x ∈ p :: nodes D ++ elems qr ++ elems pr) as HinR.
  { intros x. unfold R. simpl. rewrite Hfe, Ep. set_solver +. }
  assert (e ∉ p :: nodes D ∧ q ∉ p :: nodes D) as [Heo Hqo] by (split; set_solver +He1 Hq1 Hpq).
  destruct (take_over s2 e q l R) as (s3 & E3 & K3 & O3 & HN).
  - by rewrite (O2 (Child Lft e)).
  - by rewrite (O2 (Child Rgt e)).
  - rewrite (O2 (Child Rgt q)) by done. by eexists.
  - eapply holds_outside; [exact O2| |done]. intros x Hx Hx'. apply (Hl1 x Hx'). set_solver +Hx.
  - done.
  - set_solver +He1.
  - intros Hx. apply (Hl1 q Hx). set_solver +.
  - intros Hx%HinR. set_solver +Hx Hpq Hq1 Hq2 Hq3.
  - done.
  - intros Hx%HinR. apply He1. set_solver +Hx.
  - unfold RIGHT, set_LEFT at 1. rewrite (bind_done _ _ _ _ _ E1), (bind_done _ _ _ _ _ (load_done _ _ _ Lqr)).
    rewrite (bind_done _ _ _ _ _ E2). exists s3. split; [exact E3|]. split; [by etrans; [|etrans]|].
    exists (Node l q R).
    destruct (path_close s s1 s3 C q (e :: p :: q :: nodes D) (Node l q R) F Hnc U1) as [H1 H2]; [| |done|done|].
    + eapply outside_trans; eapply outside_weaken; [|exact O2| |exact O3]; set_solver +.
    + intros y Hy. apply Hd. assert (y = e ∨ y ∈ elems r) as [->|Hr]; [|by left|].
      * apply elem_of_cons in Hy as [->|Hy]; [by left|]. right. apply Hin. set_solver +Hy.
      * right. apply elem_of_app. by right.
    + split; [done|]. split; [done|]. rewrite Er. unfold R. simpl. rewrite Hfe. done.
Qed.
End splice.

Lemma unlink_done s C e l r : frames (links s) Root C → links s (hole Root C) = Some e →
  holds (links s) (Node l e r) → NoDup (nodes C ++ elems (Node l e r)) →
  ∃ s', unlink e (hole Root C) s = Done tt s' ∧ unlinked s s' C (elems l ++ elems r).
Proof.
  intros F Lh H Hnd. pose proof H as (He & Ll & Lr & Hl & Hr). unfold unlink.
  unfold RIGHT at 1. rewrite (bind_done _ _ _ _ _ (load_done _ _ _ Lr)).
  destruct (decide (root r = NULL)) as [E|Hrn].
  { apply (holds_leaf _ _ Hr) in E as ->. unfold LEFT. rewrite (bind_done _ _ _ _ _ (load_done _ _ _ Ll)).
    apply (unlink_one s C e l Leaf F Lh H Hnd Lft l); [by left|by rewrite app_nil_r]. }
  unfold LEFT at 1. rewrite (bind_done _ _ _ _ _ (load_done _ _ _ Ll)).
  destruct (decide (root l = NULL)) as [E|Hln].
  { apply (holds_leaf _ _ Hl) in E as ->. by apply (unlink_one s C e Leaf r F Lh H Hnd Rgt r); [right|]. }
  destruct r as [|rl p pr]; [done|]. cbn [root] in *. cbv zeta.
  pose proof Hr as (Hp & Lpl & Lpr & Hrl & Hpr). unfold LEFT at 1. rewrite (bind_done _ _ _ _ _ (load_done _ _ _ Lpl)).
  destruct (decide (root rl = NULL)) as [E|Hrln].
  { apply (holds_leaf _ _ Hrl) in E as ->. by eapply (unlink_right s C e l (Node Leaf p pr)). }
  assert (rl ≠ Leaf) as Hne by (intros ->; done).
  assert (NoDup (p :: elems rl)) as Hnd'.
  { apply NoDup_app in Hnd as (_ & _ & Hnd). simpl in Hnd.
    apply NoDup_app in Hnd as (_ & _ & [_ (H1 & H2 & _)%NoDup_app]%NoDup_cons).
    apply NoDup_cons. split; [|done]. intros Hx. apply (H2 p Hx). by left. }
  destruct (successor_done (S (size (sp_events s))) s p [] rl) as (D & q & qr & E & Hd & Hf); [|done|..].
  { by split. }
  { pose proof (elems_fuel s rl Hrl (proj2 (proj1 (NoDup_cons _ _) Hnd'))). lia. }
  unfold path_fuel. rewrite (bind_done _ _ _ (S (size (sp_events s))) s) by done.
  rewrite (bind_done _ _ _ _ _ E). cbn [fill] in Hf. subst rl. by apply unlink_splice.
Qed.

Lemma uid_sorted_filter m (P : addr → Prop) `{∀ x, Decision (P x)} xs : uid_sorted m xs → uid_sorted m (filter P xs).
Proof.
  induction xs as [|x xs IH]; [done|]. intros [Hx Hs]. destruct (decide (P x)).
  - rewrite filter_cons_True by done. split; [|by apply IH]. intros y ex ey [_ Hy]%list_elem_of_filter. by apply Hx.
  - rewrite filter_cons_False by done. by apply IH.
Qed.

(** The place of an event in the tree. *)
Lemma find_done s T e ev : root_ s = root T → holds (links s) T → e ∈ elems T → sp_events s !! e = Some ev →
  NoDup (elems T) → chronological (sp_events s) (elems T) → uid_sorted (sp_events s) (elems T) →
  ∃ C l r, (if decide (e = root T) then mret Root else fuel ← path_fuel; find_loop fuel e ev Root) s = Done (hole Root C) s ∧
    frames (links s) Root C ∧ links s (hole Root C) = Some e ∧ holds (links s) (Node l e r) ∧ fill C (Node l e r) = T.
Proof.
  intros Hr HT He Hev Hnd Hc Hu. destruct (decide (e = root T)) as [->|Hne].
  - destruct T as [|l a r]; [set_solver|]. exists [], l, r. split_and!; try done. simpl. by rewrite Hr.
  - unfold path_fuel. rewrite (bind_done _ _ _ (S (size (sp_events s))) s) by done.
    apply (find_loop_done _ s e ev [] T); try done; [simpl; by rewrite Hr|].
    pose proof (elems_fuel s T HT Hnd). lia.
Qed.

Lemma splay_cancel_spec s xs e ev : splay_queued s xs → e ∈ xs → sp_events s !! e = Some ev → 0 < uid_ ev →
  ∃ s', splay_cancel e s = Done tt s' ∧
    (∀ x, visible <$> sp_events s' !! x =
      if decide (x = e) then Some (handler_ ev, time_ ev, - uid_ ev) else visible <$> sp_events s !! x) ∧
    splay_queued s' (filter (.≠ e) xs).
Proof.
  intros (T & Hr & HT & <- & Hnd & Hc & Hu) He Hev Hpos.
  destruct (holds_event s T e HT He) as [Hn _]. unfold splay_cancel.
  rewrite (bind_done _ _ _ _ _ (deref_done _ _ _ _ Hn Hev)), decide_False by lia.
  rewrite (bind_done _ _ _ (root T) s) by (by unfold gets; rewrite <- Hr).
  destruct (find_done s T e ev Hr HT He Hev Hnd Hc Hu) as (C & l & r & E & F & L & H & Hf).
  rewrite (bind_done _ _ _ _ _ E), (bind_done _ _ _ _ _ (load_done _ _ _ L)), decide_False by done.
  set (m := <[e := with_uid (- uid_ ev) ev]> (sp_events s)).
  set (s1 := set_qsize (s32 (qsize_ s - 1)) (set_sp_events m s)).
  rewrite (bind_done _ _ s tt (set_sp_events m s)), (bind_done _ _ _ tt s1) by done.
  assert (∀ p, links s1 p = links s p) as Hl.
  { intros [|d a]; [done|]. unfold links. destruct (decide (a = NULL)); [done|]. simpl. unfold m.
    destruct (decide (a = e)) as [->|].
    - rewrite lookup_insert_eq, Hev. by destruct d.
    - by rewrite lookup_insert_ne. }
  rewrite <- Hf, elems_fill in Hnd. simpl in Hnd.
  destruct (unlink_done s1 C e l r) as (s2 & E2 & K2 & T' & R2 & H2 & Hel).
  { eapply (frames_outside [] (links s)); [by intros p _|set_solver|done|done]. }
  { by rewrite Hl. }
  { eapply (holds_outside [] (links s)); [by intros p _|set_solver|done]. }
  { simpl. rewrite nodes_pre_post. eapply NoDup_Permutation_proper; [|exact Hnd]. solve_Permutation. }
  rewrite E2. exists s2. split; [done|]. split.
  - intros x. destruct K2 as [Hs _]. rewrite (Hs x). simpl. unfold m. destruct (decide (x = e)) as [->|Hx].
    + by rewrite lookup_insert_eq.
    + by rewrite lookup_insert_ne.
  - assert (filter (.≠ e) (elems T) = elems (fill C T')) as Efil.
    { rewrite <- Hf, !elems_fill, Hel. simpl.
      assert (pre C ++ (elems l ++ e :: elems r) ++ post C = (pre C ++ elems l) ++ e :: (elems r ++ post C)) as Heq
        by (by rewrite <- !(assoc_L app)).
      rewrite Heq in Hnd |- *. rewrite filter_ne_split by done. by rewrite <- !(assoc_L app). }
    rewrite Efil. apply (splay_queued_done s1); [apply K2| | | |by injection R2|done]; rewrite <- Efil.
    + apply NoDup_filter. by rewrite <- Hf, elems_fill.
    + eapply chronological_ext; [|by apply chronological_filter]. intros x [Hx _]%list_elem_of_filter.
      unfold time_of. simpl. unfold m. by rewrite lookup_insert_ne.
    + eapply uid_sorted_ext; [|by apply uid_sorted_filter]. intros x e' [Hx _]%list_elem_of_filter.
      simpl. unfold m. rewrite lookup_insert_ne by done. intros He'. by exists e'.
Qed.

(** ** Looking without removing *)

Lemma leftmost_done fuel s b C T : descending s b C T → T ≠ Leaf → (length (elems T) ≤ fuel)%nat →
  leftmost fuel (root T) s = Done (default NULL (head (elems T))) s.
Proof.
  revert C T. induction fuel as [|fuel IH]; intros C T Hd Hne Hf; (destruct T as [|tl t tr]; [done|]).
  { simpl in Hf. rewrite length_app in Hf. simpl in Hf. lia. }
  pose proof (de_tree _ _ _ _ Hd) as (_ & Ll & _ & Htl & _). cbn [leftmost root]. unfold LEFT.
  rewrite (bind_done _ _ _ _ _ (load_done _ _ _ Ll)). destruct (decide (root tl = NULL)) as [E|Hn].
  - by apply (holds_leaf _ _ Htl) in E as ->.
  - assert (tl ≠ Leaf) as Hne' by (intros ->; done).
    rewrite (IH (Fr Lft t tr :: C) tl); [|by apply descend|done|].
    + simpl. by destruct (elems_cons tl Hne') as (x & xs & ->).
    + simpl in Hf. rewrite length_app in Hf. simpl in Hf. lia.
Qed.

(** [lookup] finds an event with the identifier if there is one. *)
Definition found (s : SplayScheduler) (u : Z) (xs : list addr) (a : addr) : Prop :=
  (a = NULL ∧ ∀ x ev, x ∈ xs → sp_events s !! x = Some ev → uid_ ev ≠ u) ∨
  (a ∈ xs ∧ ∃ ev, sp_events s !! a = Some ev ∧ uid_ ev = u).

Lemma uid_lookup_done fuel s T : holds (links s) T → (length (elems T) < fuel)%nat →
  ∃ a, uid_lookup fuel (root T) s = Done a s ∧ found s (lookup_uid_ s) (elems T) a.
Proof.
  revert T. induction fuel as [|fuel IH]; intros T HT Hf; [lia|]. cbn [uid_lookup].
  destruct T as [|tl t tr]; [exists NULL; split; [done|left; split; [done|set_solver]]|].
  pose proof HT as (Ht & Ll & Lr & Htl & Htr). cbn [root]. rewrite decide_False by done.
  destruct (holds_event s _ t HT) as (_ & ev & Hev); [simpl; set_solver|].
  rewrite (bind_done _ _ _ _ _ (deref_done _ _ _ _ Ht Hev)), (bind_done _ _ _ (lookup_uid_ s) s) by done.
  destruct (decide (uid_ ev = lookup_uid_ s)) as [Eu|Hu].
  { exists t. split; [done|]. right. split; [simpl; set_solver|by exists ev]. }
  simpl in Hf. rewrite length_app in Hf. simpl in Hf.
  unfold LEFT, RIGHT. rewrite (bind_done _ _ _ _ _ (load_done _ _ _ Ll)).
  destruct (IH tl Htl ltac:(lia)) as (a & E & Ha). rewrite (bind_done _ _ _ _ _ E).
  destruct Ha as [[-> Hno]|[Hin Hfound]].
  - rewrite decide_False by (intros Hn; by apply Hn). rewrite (bind_done _ _ _ _ _ (load_done _ _ _ Lr)).
    destruct (IH tr Htr ltac:(lia)) as (b & E' & Hb). exists b. split; [exact E'|]. destruct Hb as [[-> Hno']|[Hin Hfound]].
    + left. split; [done|]. intros x v [Hx|[->|Hx]%elem_of_cons]%elem_of_app Hv; [by eapply Hno| |by eapply Hno'].
      congruence.
    + right. split; [simpl; set_solver +Hin|done].
  - destruct (holds_event s tl a Htl Hin) as [Hn _]. rewrite decide_True by done.
    exists a. split; [done|]. right. split; [simpl; set_solver +Hin|done].
Qed.

(** [head] returns the first event, and [lookup] one with the given identifier. *)
Lemma splay_queries s xs u : splay_queued s xs →
  splay_head s = Done (default NULL (head xs)) s ∧
  ∃ a s', splay_lookup u s = Done a s' ∧ found s u xs a ∧ splay_queued s' xs.
Proof.
  intros (T & Hr & HT & <- & Hnd & Hc & Hu). pose proof (elems_fuel s T HT Hnd) as Hfuel. split.
  - unfold splay_head. rewrite (bind_done _ _ _ (root T) s) by (by unfold gets; rewrite <- Hr).
    destruct T as [|tl t tr]; [done|]. pose proof HT as (Ht & Ll & Lr & Htl & Htr).
    cbn [root]. rewrite decide_False by done. rewrite (bind_done _ _ _ (S (size (sp_events s))) s) by done.
    cbn [leftmost]. unfold LEFT. rewrite (bind_done _ _ _ _ _ (load_done _ _ _ Ll)).
    destruct (decide (root tl = NULL)) as [E|Hn]; [by apply (holds_leaf _ _ Htl) in E as ->|].
    assert (tl ≠ Leaf) as Hne by (intros ->; done). simpl in Hnd, Hfuel.
    rewrite length_app in Hfuel. simpl in Hfuel. apply NoDup_app in Hnd as (Hnl & Hdis & _).
    rewrite (leftmost_done _ s t [] tl); [|split; try done|done|lia].
    + simpl. by destruct (elems_cons tl Hne) as (x & xs & ->).
    + apply NoDup_cons. split; [|done]. intros Hx. apply (Hdis t Hx). by left.
  - unfold splay_lookup. set (s1 := SS (sp_events s) (root_ s) u (qsize_ s)).
    rewrite (bind_done _ _ s tt s1), (bind_done _ _ _ (S (size (sp_events s1))) s1) by done.
    rewrite (bind_done _ _ _ (root T) s1) by (unfold gets; by rewrite <- Hr).
    destruct (uid_lookup_done (S (S (size (sp_events s1)))) s1 T HT) as (a & E & Ha); [simpl; lia|].
    exists a, s1. split; [done|]. split; [exact Ha|]. by exists T.
Qed.

(** ** The splay scheduler as an event queue *)

#[local] Obligation Tactic := idtac.

#[export] Program Instance splay_scheduler_spec : EventQueueSpec SplayScheduler :=
  {| by_uid := true; queued s xs _ := splay_queued s xs |}.
Next Obligation. done. Qed.
Next Obligation.
  intros s xs n (T & _ & HT & <- & Hnd & _). split_and!; [done| |].
  - intros Hn. by destruct (holds_event s T NULL HT Hn).
  - intros e He. destruct (holds_event s T e HT He) as (_ & ev & Hev). by eexists.
Qed.
Next Obligation. intros s xs n e ev Hq He Hx Hev Ht Hl. by apply splay_insert_spec; [..|apply Hl]. Qed.
Next Obligation. intros s xs n Hq. by apply splay_deque_spec. Qed.
Next Obligation. intros s xs n e ev Hq He Hev Hu. by apply splay_cancel_spec. Qed.
Next Obligation.
  intros s e ev He Hev Hu. simpl. unfold splay_cancel.
  rewrite (bind_done _ _ _ _ _ (deref_done _ _ _ _ He Hev)). by rewrite decide_True.
Qed.
Next Obligation. done. Qed.
Next Obligation.
  intros s xs n m (T & Hr & HT & <- & Hnd & Hc & Hu) Hm. exists T. split_and!; try done.
  - clear Hc Hu Hr. induction T as [|l IHl a r IHr]; [done|]. simpl in Hnd, Hm.
    apply NoDup_app in Hnd as (H1 & _ & [_ H2]%NoDup_cons). pose proof HT as (Ha & L1 & L2 & Hl & Hr).
    destruct (Hm a) as (ev & ev' & E1 & E2 & N1 & N2 & _); [set_solver|].
    assert (∀ d, links (set_sp_events m s) (Child d a) = links s (Child d a)) as Hd.
    { intros d. unfold links. simpl. rewrite E1, E2. by destruct d; simpl; rewrite ?N1, ?N2. }
    split; [done|]. rewrite !Hd. split_and!; [done|done|apply IHl|apply IHr]; try done; intros e He; apply Hm; set_solver +He.
  - eapply chronological_ext; [|exact Hc]. intros x Hx. destruct (Hm x Hx) as (ev & ev' & E1 & E2 & _ & _ & Et & _).
    simpl in E1. unfold time_of. simpl. rewrite E1, E2. simpl. by rewrite Et.
  - eapply uid_sorted_ext; [|exact Hu]. intros x e' Hx He'.
    destruct (Hm x Hx) as (ev & ev' & E1 & E2 & _ & _ & Et & Eu). simpl in *. exists ev.
    rewrite He' in E2. by injection E2 as ->.
Qed.

Lemma splay_queued_empty m u n : splay_queued (SS m NULL u n) [].
Proof. exists Leaf. split_and!; try done. constructor. Qed.
