(* ===== verification/SimAgree.v ===== *)
(** * The schedulers agree

    The list, the heap and the splay scheduler of the simulator dispatch the same events in
    the same order. *)
From S2P Require Import Prelude Double SimEvent SimHeap SimQueues SimTree SimSplay.
Open Scope Z_scope.

(** C23. The schedulers hand out the same events in the same order: for every sequence of
    insertions, cancellations and removals that a program may make, the list scheduler and
    the heap scheduler return what the sorted sequence of events returns, and so does the
    splay scheduler if the identifiers grow as the class [Scheduler] makes them grow. *)
Theorem schedulers_agree ops m :
  permitted m [] ops → Z.of_nat (length ops) < 2 ^ 31 - 1 →
  (∃ s h, run_ops ops (LS m NULL) = Done (spec_ops m [] ops) s ∧
    run_ops ops (HS m (Heap_new 32)) = Done (spec_ops m [] ops) h) ∧
  (growing m [] ops → ∃ t, run_ops ops (SS m NULL 0 0) = Done (spec_ops m [] ops) t).
Proof.
  intros Hp Hn. split.
  - destruct (run_ops_spec ops (LS m NULL) m [] 0) as [s Es]; [done|done|done|done|].
    destruct (run_ops_spec ops (HS m (Heap_new 32)) m [] 0) as [h Eh]; [|done|done|done|by exists s, h].
    rewrite Nat.add_0_r. by apply heap_queued_empty.
  - intros Hg. apply (run_ops_spec ops (SS m NULL 0 0) m [] 0); try done. apply splay_queued_empty.
Qed.

Definition demo_event (t u : Z) : Event := Ev NULL NULL NULL (d_of_Z t) u.
Definition demo_events : event_heap :=
  <[1%N := demo_event 5 1]> (<[2%N := demo_event 3 2]> (<[3%N := demo_event 5 3]> (<[4%N := demo_event 4 4]> ∅))).
Definition demo_ops : list queue_op :=
  [Insert 1; Insert 2; Insert 3; Insert 4; Deque; Cancel 4; Deque; Deque; Deque]%N.

Lemma demo_permitted : permitted demo_events [] demo_ops.
Proof.
  cbn [permitted demo_ops].
  do 4 (eexists; split; [vm_compute; reflexivity|]; do 3 (split; [by_decision|])).
  eexists. split; [vm_compute; reflexivity|]. do 2 (split; [by_decision|]). exact I.
Qed.

(** A closed list of events is [latest] by computation. *)
Lemma latest_compute m xs u :
  forallb (λ x, match m !! x with Some ev => uid_ ev <? u | None => true end) xs = true → latest m xs u.
Proof.
  intros Hb x ev Hx Hev. rewrite forallb_forall in Hb. specialize (Hb x). rewrite Hev in Hb.
  apply Z.ltb_lt, Hb, list_elem_of_In. done.
Qed.
Lemma demo_growing : growing demo_events [] demo_ops.
Proof.
  cbn [growing demo_ops].
  do 4 (split; [intros ev Hev; apply latest_compute; vm_compute in Hev; injection Hev as <-; vm_compute; reflexivity|]).
  intros ev _. exact I.
Qed.

Lemma schedulers_agree_witness :
  spec_ops demo_events [] demo_ops = [2; 1; 3; 0]%N ∧
  (∃ s h, run_ops demo_ops (LS demo_events NULL) = Done [2; 1; 3; 0]%N s ∧
     run_ops demo_ops (HS demo_events (Heap_new 32)) = Done [2; 1; 3; 0]%N h) ∧
  ∃ t, run_ops demo_ops (SS demo_events NULL 0 0) = Done [2; 1; 3; 0]%N t.
Proof.
  split; [vm_compute; reflexivity|].
  destruct (schedulers_agree demo_ops demo_events demo_permitted eq_refl) as [Hlh Hs].
  split; [exact Hlh|apply Hs, demo_growing].
Defined.
