(* ===== verification/SimScheduler.v ===== *)
(** * The simulator's scheduler and its timers

    The class [Scheduler] of [ns2/common/scheduler.cc], over any event queue that
    satisfies [EventQueueSpec], and the class [TimerHandler] of
    [ns2/common/timer-handler.cc] on top of it.  What an event's handler does is code of
    the simulated protocols: it is a parameter, with the contract that it leaves the
    scheduler in order and returns. *)
From S2P Require Import Prelude Double SimChain SimEvent SimHeap SimQueues.
Open Scope Z_scope.

(** [world] is the state of the handlers; [s_log] records the dispatched events, latest
    first, for the statements below. *)
(* [ns2/common/scheduler.h:106-109] class Scheduler *)
Record Scheduler (Q W : Type) := Sched {
  s_queue : Q;
  clock_ : double;
  halted_ : bool;
  next_uid : Z;          (** the static member [uid_] *)
  s_log : list (double * addr);
  world : W;
}.
Arguments Sched {Q W}.
Arguments s_queue {Q W}.
Arguments clock_ {Q W}.
Arguments halted_ {Q W}.
Arguments next_uid {Q W}.
Arguments s_log {Q W}.
Arguments world {Q W}.

Section scheduler.
Context {Q W : Type} `{EventQueueSpec Q}.
Abbreviation sched := (Scheduler Q W).

Definition set_queue (q : Q) (s : sched) : sched :=
  Sched q (clock_ s) (halted_ s) (next_uid s) (s_log s) (world s).
Definition set_clock (t : double) (s : sched) : sched :=
  Sched (s_queue s) t (halted_ s) (next_uid s) (s_log s) (world s).
Definition set_halted (b : bool) (s : sched) : sched :=
  Sched (s_queue s) (clock_ s) b (next_uid s) (s_log s) (world s).
Definition set_next_uid (u : Z) (s : sched) : sched :=
  Sched (s_queue s) (clock_ s) (halted_ s) u (s_log s) (world s).
Definition set_world (w : W) (s : sched) : sched :=
  Sched (s_queue s) (clock_ s) (halted_ s) (next_uid s) (s_log s) w.
Definition record_dispatch (t : double) (e : addr) (s : sched) : sched :=
  Sched (s_queue s) (clock_ s) (halted_ s) (next_uid s) ((t, e) :: s_log s) (world s).

Definition all_events (s : sched) : event_heap := events (s_queue s).
Definition on_queue {A} (m : M Q A) : M sched A := zoom s_queue set_queue m.
Definition upd_event (e : addr) (f : Event → Event) : M sched unit :=
  ev ← deref all_events e;
  modify (λ s, set_queue (set_events (<[e := f ev]> (all_events s)) (s_queue s)) s).

(** A negative delay is only reported. *)
(* [ns2/common/scheduler.cc:82-116] Scheduler::schedule *)
Definition schedule (h e : addr) (delay : double) : M sched unit :=
  if decide (h = NULL) then abort
  else
    ev ← deref all_events e;
    if decide (uid_ ev > 0) then abort
    else
      u ← gets next_uid;
      if decide (u < 0) then abort
      else
        _ ← modify (set_next_uid (swrap 64 (u + 1)));
        now ← gets clock_;
        _ ← upd_event e (with_schedule h (dadd now delay) u);
        on_queue (insert e).

Context (handle : addr → addr → M sched unit).

(* [ns2/common/scheduler.cc:140-151] Scheduler::dispatch *)
Definition dispatch (p : addr) (t : double) : M sched unit :=
  now ← gets clock_;
  if (dlt t now : bool) then abort
  else
    _ ← modify (set_clock t);
    _ ← modify (record_dispatch t p);
    _ ← upd_event p (λ ev, with_uid (- uid_ ev) ev);
    ev ← deref all_events p;
    handle (handler_ ev) p.

(** At most [n] events; the result tells whether the loop has ended. *)
(* [ns2/common/scheduler.cc:118-131] Scheduler::run *)
Fixpoint run (n : nat) : M sched bool :=
  match n with
  | O => mret false
  | S n =>
      halted ← gets halted_;
      if (halted : bool) then mret true
      else
        p ← on_queue deque;
        if decide (p = NULL) then mret true
        else
          ev ← deref all_events p;
          _ ← dispatch p (time_ ev);
          run n
  end.

(* [ns2/common/scheduler.cc:182-186] Scheduler::reset *)
Definition reset : M sched unit := modify (set_clock d_zero).

End scheduler.

(** ** The scheduler in order *)

Section order.
Context {Q W : Type} `{EventQueueSpec Q}.
Abbreviation sched := (Scheduler Q W).
Implicit Types s : sched.

(** The queue holds the events [xs], those with a positive identifier, in the order of
    times that are not before the clock; [n] more events can be scheduled. *)
Definition sched_ok (s : sched) (xs : list addr) (n : nat) : Prop :=
  queued (s_queue s) xs n ∧
  chronological (all_events s) xs ∧
  is_nan (clock_ s) = false ∧
  (∀ e t, e ∈ xs → time_of (all_events s) e = Some t → dle (clock_ s) t = true) ∧
  (∀ e ev, all_events s !! e = Some ev → 0 < uid_ ev ↔ e ∈ xs) ∧
  0 < next_uid s ∧ next_uid s + Z.of_nat n < 2 ^ 63 ∧
  all_events s !! NULL = None ∧
  (∀ e ev, all_events s !! e = Some ev → uid_ ev < next_uid s).

(** The dispatched events, oldest last, are in the order of their times. *)
Fixpoint log_ok (now : double) (l : list (double * addr)) : Prop :=
  match l with
  | [] => True
  | (t, _) :: l => dle t now = true ∧ log_ok t l
  end.

Lemma on_queue_done {A} (m : M Q A) s a q' :
  m (s_queue s) = Done a q' → on_queue m s = Done a (set_queue q' s).
Proof. unfold on_queue, zoom. by intros ->. Qed.

Lemma upd_event_done e f s ev :
  e ≠ NULL → all_events s !! e = Some ev →
  upd_event e f s = Done tt (set_queue (set_events (<[e := f ev]> (all_events s)) (s_queue s)) s).
Proof. intros He Hev. unfold upd_event. by rewrite (bind_done _ _ _ _ _ (deref_done _ _ _ _ He Hev)). Qed.

Lemma all_events_set m s : all_events (set_queue (set_events m (s_queue s)) s) = m.
Proof. apply queued_events. Qed.

Lemma visible_uid (m m' : event_heap) x v :
  visible <$> m' !! x = visible <$> m !! x → m' !! x = Some v → ∃ w, m !! x = Some w ∧ uid_ v = uid_ w.
Proof. intros Hs Hv. rewrite Hv in Hs. destruct (m !! x) as [w|]; [|done]. injection Hs as _ _ ->. by exists w. Qed.

(** Scheduling an event that is not in the queue puts it in its place. *)
Lemma schedule_ok s xs n h e delay ev :
  sched_ok s xs (S n) → h ≠ NULL → all_events s !! e = Some ev → uid_ ev ≤ 0 →
  dle (clock_ s) (dadd (clock_ s) delay) = true →
  ∃ s' ys, schedule h e delay s = Done tt s' ∧ sched_ok s' ys n ∧ ys ≡ₚ e :: xs ∧
    clock_ s' = clock_ s ∧ halted_ s' = halted_ s ∧ s_log s' = s_log s ∧ world s' = world s ∧
    (∀ x, x ≠ e → visible <$> all_events s' !! x = visible <$> all_events s !! x) ∧
    (visible <$> all_events s' !! e = Some (h, dadd (clock_ s) delay, next_uid s)).
Proof.
  intros (Hq & Hc & Hn & Hle & Huid & Hu & Hmax & Hnull & Hnew) Hh Hev Hidle Htime.
  assert (e ≠ NULL) as He by (intros ->; congruence).
  assert (e ∉ xs) as Hx by (rewrite <- Huid by done; lia).
  unfold schedule. rewrite decide_False by done.
  rewrite (bind_done _ _ _ _ _ (deref_done _ _ _ _ He Hev)), decide_False by lia.
  rewrite (bind_done _ _ _ (next_uid s) s), decide_False by (done || lia).
  assert (swrap 64 (next_uid s + 1) = next_uid s + 1) as -> by (apply swrap_small; lia).
  set (s1 := set_next_uid (next_uid s + 1) s).
  rewrite (bind_done _ _ _ tt s1), (bind_done _ _ _ (clock_ s) s1) by done.
  set (t := dadd (clock_ s) delay) in *.
  rewrite (bind_done _ _ _ _ _ (upd_event_done e _ s1 ev He Hev)).
  set (m := <[e := with_schedule h t (next_uid s) ev]> (all_events s)).
  change (all_events s1) with (all_events s). fold m.
  assert (queued (set_events m (s_queue s)) xs (S n)) as Hq1.
  { apply queued_set; [done|]. intros x Hin. apply queued_NoDup in Hq as (_ & _ & Hd).
    destruct (Hd x Hin) as [v Hv]. exists v, v. split_and!; try done.
    unfold m. rewrite lookup_insert_ne by (intros ->; done). done. }
  assert (is_nan t = false) as Ht.
  { destruct (is_nan t) eqn:E; [|done]. clear -Htime E. by destruct t, (clock_ s). }
  destruct (queued_insert (set_events m (s_queue s)) xs n e (with_schedule h t (next_uid s) ev))
    as (q' & E & Sm & Q'); [done|done|done|by rewrite queued_events; unfold m; rewrite lookup_insert_eq|done|..].
  { intros _ x v Hin. rewrite queued_events. unfold m. rewrite lookup_insert_ne by (intros ->; done).
    apply Hnew. }
  rewrite queued_events in Sm, Q'. simpl in Q'.
  pose proof (on_queue_done (insert e) (set_queue (set_events m (s_queue s1)) s1) _ _ E) as Eq.
  eexists _, _. split; [exact Eq|].
  assert (Hvis : ∀ x, x ≠ e → visible <$> events q' !! x = visible <$> all_events s !! x).
  { intros x Hne. rewrite (Sm x). unfold m. by rewrite lookup_insert_ne. }
  assert (Htm : ∀ x, time_of (events q') x = if decide (x = e) then Some t else time_of (all_events s) x).
  { intros x. rewrite (time_of_same m) by done. unfold time_of, m. case_decide as Hd.
    - subst. by rewrite lookup_insert_eq.
    - by rewrite lookup_insert_ne. }
  split_and!.
  - split_and!; simpl; try done; try lia.
    + apply (chronological_ext m); [intros x _; by apply time_of_same|].
      apply chronological_enlist; [unfold time_of, m; by rewrite lookup_insert_eq|done|].
      eapply chronological_ext; [|exact Hc]. intros x Hin. unfold time_of, m.
      rewrite lookup_insert_ne; [done|]. intros ->. done.
    + intros x u. rewrite elem_of_enlist. unfold all_events. simpl. rewrite Htm.
      intros [->|Hin]; [rewrite decide_True by done; by intros [= <-]|].
      rewrite decide_False by (intros ->; done). by apply Hle.
    + intros x v Hv. rewrite elem_of_enlist. unfold all_events in Hv. simpl in Hv.
      destruct (decide (x = e)) as [->|Hne].
      * specialize (Sm e). unfold m in Sm. rewrite lookup_insert_eq, Hv in Sm. simpl in Sm.
        injection Sm as _ _ ->. split; [by left|lia].
      * destruct (visible_uid _ _ _ _ (Hvis x Hne) Hv) as (w & Ew & ->).
        rewrite (Huid x w Ew). naive_solver.
    + unfold all_events. simpl. specialize (Hvis NULL). rewrite Hnull in Hvis.
      destruct (events q' !! NULL); [|done]. by specialize (Hvis (not_eq_sym He)).
    + intros x v Hv. unfold all_events in Hv. simpl in Hv. destruct (decide (x = e)) as [->|Hne].
      * specialize (Sm e). unfold m in Sm. rewrite lookup_insert_eq, Hv in Sm. simpl in Sm.
        injection Sm as _ _ ->. lia.
      * destruct (visible_uid _ _ _ _ (Hvis x Hne) Hv) as (w & Ew & ->).
        specialize (Hnew x w Ew). lia.
  - apply enlist_Permutation.
  - done.
  - done.
  - done.
  - done.
  - done.
  - unfold all_events. simpl. rewrite (Sm e). unfold m. by rewrite lookup_insert_eq.
Qed.

(** The events to come with their handlers. *)
Definition agenda (s : sched) (xs : list addr) : list (addr * addr) :=
  (λ e, (e, default NULL (handler_ <$> all_events s !! e))) <$> xs.

Lemma agenda_ext s s' xs :
  (∀ x, x ∈ xs → handler_ <$> all_events s' !! x = handler_ <$> all_events s !! x) →
  agenda s' xs = agenda s xs.
Proof.
  intros Hx. unfold agenda. apply list_fmap_ext. intros i x Hi. apply list_elem_of_lookup_2 in Hi.
  by rewrite Hx.
Qed.

Lemma handler_visible (m m' : event_heap) x :
  visible <$> m' !! x = visible <$> m !! x → handler_ <$> m' !! x = handler_ <$> m !! x.
Proof. destruct (m' !! x) as [[]|], (m !! x) as [[]|]; simpl; try done. by intros [= -> -> ->]. Qed.

Lemma visible_inv (m : event_heap) e h t u :
  visible <$> m !! e = Some (h, t, u) →
  ∃ ev, m !! e = Some ev ∧ handler_ ev = h ∧ time_ ev = t ∧ uid_ ev = u.
Proof. destruct (m !! e) as [ev|]; [|done]. intros [= <- <- <-]. by exists ev. Qed.

(** Cancelling an event takes it out of the queue, if it is in it. *)
Lemma cancel_ok s xs n e ev :
  sched_ok s xs n → all_events s !! e = Some ev →
  ∃ s', on_queue (cancel e) s = Done tt s' ∧ sched_ok s' (filter (.≠ e) xs) n ∧
    clock_ s' = clock_ s ∧ halted_ s' = halted_ s ∧ s_log s' = s_log s ∧ world s' = world s ∧
    (∀ x, handler_ <$> all_events s' !! x = handler_ <$> all_events s !! x).
Proof.
  intros (Hq & Hc & Hn & Hle & Huid & Hu & Hmax & Hnull & Hnew) Hev.
  assert (e ≠ NULL) as He by (intros ->; congruence).
  destruct (decide (0 < uid_ ev)) as [Hpos|Hneg].
  - assert (e ∈ xs) as Hin by by apply (Huid e ev).
    destruct (queued_cancel _ _ _ _ _ Hq Hin Hev Hpos) as (q' & E & Sm & Q').
    exists (set_queue q' s). split; [by apply on_queue_done|].
    assert (Htm : ∀ x, time_of (events q') x = time_of (all_events s) x).
    { intros x. specialize (Sm x). unfold time_of. case_decide as Hd.
      - subst x. apply visible_inv in Sm as (v & -> & _ & Ht & _). rewrite Hev. simpl. by rewrite Ht.
      - change (events (s_queue s)) with (all_events s) in Sm.
        destruct (events q' !! x) as [[]|], (all_events s !! x) as [[]|]; simpl in *; by simplify_eq. }
    split_and!; try done.
    + split_and!; try done.
      * apply chronological_filter. eapply chronological_ext; [|exact Hc]. intros x _. apply Htm.
      * intros x t [_ Hx]%list_elem_of_filter. change (all_events (set_queue q' s)) with (events q').
        rewrite Htm. by apply Hle.
      * intros x v Hv. change (events q' !! x = Some v) in Hv. specialize (Sm x). rewrite Hv in Sm.
        rewrite list_elem_of_filter. case_decide as Hd.
        { subst x. injection Sm as _ _ ->. split; [lia|naive_solver]. }
        destruct (events (s_queue s) !! x) as [w|] eqn:Ew; [|done]. injection Sm as _ _ ->.
        rewrite (Huid x w Ew). naive_solver.
      * change (events q' !! NULL = None). specialize (Sm NULL).
        rewrite decide_False in Sm by done. change (events (s_queue s)) with (all_events s) in Sm.
        rewrite Hnull in Sm. by destruct (events q' !! NULL).
      * intros x v Hv. change (events q' !! x = Some v) in Hv. specialize (Sm x). rewrite Hv in Sm.
        case_decide as Hd.
        { subst x. injection Sm as _ _ ->. change (- uid_ ev < next_uid s). lia. }
        destruct (events (s_queue s) !! x) as [w|] eqn:Ew; [|done]. injection Sm as _ _ ->. by apply (Hnew x w).
    + intros x. change (all_events (set_queue q' s)) with (events q'). specialize (Sm x).
      case_decide as Hd;
        [subst x; apply visible_inv in Sm as (v & -> & Hh & _); rewrite Hev; simpl; by rewrite Hh|].
      by apply handler_visible.
  - exists s. assert (e ∉ xs) as Hx by (rewrite <- (Huid e ev Hev); lia).
    assert (filter (.≠ e) xs = xs) as ->.
    { apply list_filter_same. intros x Hx' ->. done. }
    split_and!; try done. destruct s as [q cl ha nu lo w].
    pose proof (queued_cancelled q e ev He Hev ltac:(lia)) as E.
    unfold on_queue, zoom. simpl. by rewrite E.
Qed.
End order.

Section runs.
Context {Q W : Type} `{EventQueueSpec Q}.
Abbreviation sched := (Scheduler Q W).
Implicit Types s : sched.
Context (handle : addr → addr → M sched unit).

(** What [run] does with the first event before it calls the handler. *)
Lemma dispatch_first s p xs n ev :
  sched_ok s (p :: xs) n → all_events s !! p = Some ev →
  ∃ s1 s2 ev1,
    on_queue deque s = Done p s1 ∧ all_events s1 !! p = Some ev1 ∧ time_ ev1 = time_ ev ∧
    dispatch handle p (time_ ev1) s1 = handle (handler_ ev) p s2 ∧
    sched_ok s2 xs n ∧ clock_ s2 = time_ ev ∧ s_log s2 = (time_ ev, p) :: s_log s ∧
    world s2 = world s ∧ halted_ s2 = halted_ s ∧ agenda s2 xs = agenda s xs ∧
    dle (clock_ s) (clock_ s2) = true.
Proof.
  intros (Hq & [(t & Et & Hnt & Hmin) Hc] & Hn & Hle & Huid & Hu & Hmax & Hnull & Hnew) Hev.
  pose proof (queued_NoDup _ _ _ Hq) as ([Hp Hnd]%NoDup_cons & Hz & Hd).
  assert (p ≠ NULL) as Hpn by (intros ->; set_solver).
  assert (t = time_ ev) as -> by (unfold time_of in Et; rewrite Hev in Et; by injection Et).
  destruct (queued_deque _ _ _ Hq) as (q1 & E1 & S1 & Q1). simpl in E1, Q1.
  set (s1 := set_queue q1 s).
  destruct (same_lookup _ _ p ev S1 Hev) as (ev1 & Hev1 & Eh & Eti & Eu).
  set (m2 := <[p := with_uid (- uid_ ev1) ev1]> (events q1)).
  set (s2 := set_queue (set_events m2 q1) (record_dispatch (time_ ev) p (set_clock (time_ ev) s1))).
  assert (Hm2 : all_events s2 = m2) by apply queued_events.
  assert (Htm : ∀ x, time_of m2 x = time_of (all_events s) x).
  { intros x. transitivity (time_of (events q1) x); [|by apply time_of_same]. unfold time_of, m2.
    destruct (decide (x = p)) as [->|]; [by rewrite lookup_insert_eq, Hev1|by rewrite lookup_insert_ne]. }
  exists s1, s2, ev1. split_and!.
  - by apply on_queue_done.
  - exact Hev1.
  - done.
  - unfold dispatch. rewrite (bind_done _ _ _ (clock_ s) s1) by done.
    rewrite Eti. assert (dle (clock_ s) (time_ ev) = true) as Hct by (apply (Hle p); [set_solver|done]).
    rewrite (dle_antilt _ _ Hct).
    rewrite (bind_done _ _ _ tt (set_clock (time_ ev) s1)) by done.
    rewrite (bind_done _ _ _ tt (record_dispatch (time_ ev) p (set_clock (time_ ev) s1))) by done.
    rewrite (bind_done _ _ _ _ _ (upd_event_done p _ (record_dispatch (time_ ev) p (set_clock (time_ ev) s1)) ev1 Hpn Hev1)).
    change (set_queue _ _) with s2.
    rewrite (bind_done _ _ _ _ _ (deref_done all_events p (with_uid (- uid_ ev1) ev1) s2 Hpn
      ltac:(rewrite Hm2; unfold m2; by rewrite lookup_insert_eq))).
    simpl. by rewrite Eh.
  - split_and!; try done; try lia.
    + change (queued (set_events m2 q1) xs n). apply queued_set; [done|].
      intros x Hx. destruct (queued_NoDup _ _ _ Q1) as (_ & _ & Hd1).
      destruct (Hd1 x Hx) as [v Hv]. exists v, v. split_and!; try done.
      unfold m2. rewrite lookup_insert_ne by (intros ->; done). done.
    + rewrite Hm2. eapply chronological_ext; [|exact Hc]. intros x _. apply Htm.
    + intros x u Hx. rewrite Hm2, Htm. by apply Hmin.
    + intros x v. rewrite Hm2. unfold m2. destruct (decide (x = p)) as [->|Hne].
      * rewrite lookup_insert_eq. intros [= <-]. simpl.
        assert (0 < uid_ ev) by (apply (Huid p ev Hev); set_solver). split; [lia|done].
      * rewrite lookup_insert_ne by done. intros Hv.
        destruct (visible_uid _ _ _ _ (S1 x) Hv) as (w & Ew & ->).
        rewrite (Huid x w Ew). set_solver.
    + rewrite Hm2. unfold m2. rewrite lookup_insert_ne by done. specialize (S1 NULL).
      change (events (s_queue s)) with (all_events s) in S1. rewrite Hnull in S1.
      by destruct (events q1 !! NULL).
    + intros x v. rewrite Hm2. unfold m2. destruct (decide (x = p)) as [->|Hne].
      * rewrite lookup_insert_eq. intros [= <-]. simpl.
        assert (0 < uid_ ev) by (apply (Huid p ev Hev); set_solver). lia.
      * rewrite lookup_insert_ne by done. intros Hv. destruct (visible_uid _ _ _ _ (S1 x) Hv) as (w & Ew & ->). by apply (Hnew x w).
  - done.
  - done.
  - done.
  - done.
  - apply agenda_ext. intros x Hx. apply handler_visible. rewrite Hm2. unfold m2.
    rewrite lookup_insert_ne by (intros ->; done). apply S1.
  - simpl. apply (Hle p); [set_solver|done].
Qed.

(** ** Runs *)

(** [I world agenda] is an invariant of the handlers; a handler makes at most [b] calls
    of [schedule], leaves the scheduler in order, and does not touch the clock. *)
Context (I : W → list (addr * addr) → Prop) (b : nat).

Definition handlers_ok : Prop := ∀ h e s xs n,
  sched_ok s xs (b + n) → e ∉ xs → I (world s) ((e, h) :: agenda s xs) →
  ∃ s' ys, handle h e s = Done tt s' ∧ sched_ok s' ys n ∧ I (world s') (agenda s' ys) ∧
    clock_ s' = clock_ s ∧ s_log s' = s_log s.

Context (Hhandle : handlers_ok).

Lemma run_ok k s xs n :
  sched_ok s xs (k * b + n) → I (world s) (agenda s xs) → log_ok (clock_ s) (s_log s) →
  ∃ fin s' ys, run handle k s = Done fin s' ∧ (∃ n', sched_ok s' ys (n' + n)) ∧ I (world s') (agenda s' ys) ∧
    log_ok (clock_ s') (s_log s') ∧ dle (clock_ s) (clock_ s') = true ∧
    (∃ l, s_log s' = l ++ s_log s ∧ (fin = false → length l = k)) ∧
    (fin = true → halted_ s' = true ∨ ys = []).
Proof.
  revert s xs. induction k as [|k IH]; intros s xs Hok HI Hlog.
  { exists false, s, xs. split_and!; try done; [by exists 0%nat|apply dle_refl; apply Hok|by exists []]. }
  cbn [run]. rewrite (bind_done _ _ _ (halted_ s) s) by done. destruct (halted_ s) eqn:Eh.
  { exists true, s, xs. split_and!; try done; [by eexists|apply dle_refl; apply Hok|by exists []|by left]. }
  destruct xs as [|p xs].
  - destruct Hok as (Hq & Hrest). destruct (queued_deque _ _ _ Hq) as (q1 & E1 & S1 & Q1).
    rewrite (bind_done _ _ _ _ _ (on_queue_done _ _ _ _ E1)).
    change (default NULL (head [])) with NULL. rewrite decide_True by done.
    exists true, (set_queue q1 s), []. destruct Hrest as (_ & Hn & _ & Huid & Hu & Hmax & Hnull & Hnew).
    split_and!; try done; [|by apply dle_refl|by exists []|by right].
    exists (S k * b)%nat. split_and!; try done; try lia.
    + intros e t He. set_solver.
    + intros e v Hv. change (events q1 !! e = Some v) in Hv. destruct (visible_uid _ _ _ _ (S1 e) Hv) as (w & Ew & ->).
      by apply (Huid e).
    + change (events q1 !! NULL = None). specialize (S1 NULL).
      change (events (s_queue s)) with (all_events s) in S1. rewrite Hnull in S1.
      by destruct (events q1 !! NULL).
    + intros e v Hv. change (events q1 !! e = Some v) in Hv. destruct (visible_uid _ _ _ _ (S1 e) Hv) as (w & Ew & ->). by apply (Hnew e w).
  - assert (∃ ev, all_events s !! p = Some ev) as [ev Hev].
    { destruct Hok as (Hq & _). apply queued_NoDup in Hq as (_ & _ & Hd). apply Hd. set_solver. }
    assert (p ≠ NULL) as Hp.
    { intros ->. destruct Hok as (_ & _ & _ & _ & _ & _ & _ & Hnull & _). congruence. }
    destruct (dispatch_first s p xs _ ev Hok Hev)
      as (s1 & s2 & ev1 & E1 & Hev1 & Et & E2 & Hok2 & Ec & El & Ew & Ehalt & Ea & Hcl).
    rewrite (bind_done _ _ _ _ _ E1), decide_False by done.
    rewrite (bind_done _ _ _ _ _ (deref_done _ _ _ _ Hp Hev1)).
    destruct (Hhandle (handler_ ev) p s2 xs (k * b + n)%nat) as (s3 & ys & E3 & Hok3 & HI3 & Ec3 & El3).
    + rewrite Nat.add_assoc. exact Hok2.
    + destruct Hok as (Hq & _). by apply queued_NoDup in Hq as ([? _]%NoDup_cons & _).
    + rewrite Ew, Ea. unfold agenda in HI. simpl in HI. rewrite Hev in HI. exact HI.
    + rewrite E3 in E2. rewrite (bind_done _ _ _ _ _ E2).
      destruct (IH s3 ys Hok3 HI3) as (fin & s' & zs & E4 & Hok4 & HI4 & Hlog4 & Hle4 & (l & Hl & Hlen) & Hfin).
      { rewrite Ec3, El3, El, Ec. split; [|].
        - apply dle_refl. destruct Hok as (_ & [(t & Ht & Hnt & _) _] & _).
          unfold time_of in Ht. rewrite Hev in Ht. by injection Ht as ->.
        - destruct (s_log s) as [|[t e] ll]; [done|]. destruct Hlog as [Hlt Hll]. split; [|done].
          eapply dle_trans; [exact Hlt|]. by rewrite Ec in Hcl. }
      exists fin, s', zs. split_and!; try done.
      * eapply dle_trans; [exact Hcl|]. by rewrite <- Ec3.
      * exists (l ++ [(time_ ev, p)]). rewrite Hl, El3, El, <- app_assoc. split; [done|].
        intros Hf. rewrite length_app. simpl. rewrite Hlen by done. lia.
Qed.

End runs.

(** ** Timers *)

(* [ns2/common/timer-handler.h:94-94] enum TimerStatus *)
Inductive TimerStatus := TIMER_IDLE | TIMER_PENDING | TIMER_HANDLING.

#[global] Instance TimerStatus_eq_dec : EqDecision TimerStatus.
Proof. solve_decision. Defined.

Section timers.
Context {Q : Type} `{EventQueueSpec Q}.

(** The member [status_] of every [TimerHandler]; the member [event_] of a timer is
    identified with the timer. *)
Abbreviation timers := (gmap N TimerStatus).
Abbreviation sched := (Scheduler Q timers).

Definition get_status (t : addr) : M sched TimerStatus := λ s,
  match world s !! t with Some st => Done st s | None => Stuck UseAfterFree end.
Definition set_status (t : addr) (st : TimerStatus) : M sched unit :=
  modify (λ s, set_world (<[t := st]> (world s)) s).

(* [ns2/common/timer-handler.h:106-108] TimerHandler::_sched *)
Definition _sched (t : addr) (delay : double) : M sched unit := schedule t t delay.
(* [ns2/common/timer-handler.h:109-112] TimerHandler::_cancel *)
Definition _cancel (t : addr) : M sched unit := on_queue (cancel t).

(* [ns2/common/timer-handler.cc:73-82] TimerHandler::sched *)
Definition timer_sched (t : addr) (delay : double) : M sched unit :=
  st ← get_status t;
  if decide (st ≠ TIMER_IDLE) then abort
  else
    _ ← _sched t delay;
    set_status t TIMER_PENDING.

(* [ns2/common/timer-handler.cc:84-91] TimerHandler::resched *)
Definition timer_resched (t : addr) (delay : double) : M sched unit :=
  st ← get_status t;
  _ ← (if decide (st = TIMER_PENDING) then _cancel t else skip);
  _ ← _sched t delay;
  set_status t TIMER_PENDING.

(* [ns2/common/timer-handler.cc:55-66] TimerHandler::cancel *)
Definition timer_cancel (t : addr) : M sched unit :=
  st ← get_status t;
  if decide (st ≠ TIMER_PENDING) then abort
  else
    _ ← _cancel t;
    set_status t TIMER_IDLE.

(* [ns2/common/timer-handler.h:88-93] TimerHandler::force_cancel *)
Definition force_cancel (t : addr) : M sched unit :=
  st ← get_status t;
  if decide (st = TIMER_PENDING) then _ ← _cancel t; set_status t TIMER_IDLE else skip.

(** The calls a protocol makes on its timers. *)
Inductive timer_call :=
  | TSched (t : addr) (delay : double) | TResched (t : addr) (delay : double)
  | TCancel (t : addr) | TForceCancel (t : addr).

Definition run_call (c : timer_call) : M sched unit :=
  match c with
  | TSched t d => timer_sched t d
  | TResched t d => timer_resched t d
  | TCancel t => timer_cancel t
  | TForceCancel t => force_cancel t
  end.
Fixpoint run_calls (cs : list timer_call) : M sched unit :=
  match cs with [] => skip | c :: cs => _ ← run_call c; run_calls cs end.

(** The virtual function [expire], as the calls it makes. *)
Context (expire : addr → sched → list timer_call).

(* [ns2/common/timer-handler.cc:93-103] TimerHandler::handle *)
Definition timer_handle (h e : addr) : M sched unit :=
  st ← get_status h;
  if decide (st ≠ TIMER_PENDING) then abort
  else
    _ ← set_status h TIMER_HANDLING;
    s ← get;
    _ ← run_calls (expire h s);
    st ← get_status h;
    if decide (st = TIMER_HANDLING) then set_status h TIMER_IDLE else skip.

End timers.

Section timers_order.
Context {Q : Type} `{EventQueueSpec Q}.
Abbreviation timers := (gmap N TimerStatus).
Abbreviation sched := (Scheduler Q timers).

(** A timer is pending when its event is in the queue; the events are the timers'. *)
Definition timers_ok (w : timers) (l : list (addr * addr)) : Prop :=
  (∀ t, w !! t = Some TIMER_PENDING ↔ t ∈ l.*1) ∧ Forall (λ p, p.2 = p.1) l.

(** A timer exists; its time is not before the clock; [sched] is for idle timers, and
    [cancel] for pending ones. *)
Definition legal (s : sched) (c : timer_call) : Prop :=
  match c with
  | TSched t d =>
      is_Some (all_events s !! t) ∧ dle (clock_ s) (dadd (clock_ s) d) = true ∧
      world s !! t = Some TIMER_IDLE
  | TResched t d =>
      is_Some (all_events s !! t) ∧ dle (clock_ s) (dadd (clock_ s) d) = true ∧ is_Some (world s !! t)
  | TCancel t => is_Some (all_events s !! t) ∧ world s !! t = Some TIMER_PENDING
  | TForceCancel t => is_Some (all_events s !! t) ∧ is_Some (world s !! t)
  end.
Fixpoint legal_calls (s : sched) (cs : list timer_call) : Prop :=
  match cs with
  | [] => True
  | c :: cs => legal s c ∧ ∀ s', run_call c s = Done tt s' → legal_calls s' cs
  end.

Implicit Types s : sched.

Lemma agenda_fst s xs : (agenda s xs).*1 = xs.
Proof. unfold agenda. rewrite <- list_fmap_compose. by apply list_fmap_id. Qed.

Lemma sched_ok_weaken s xs n : sched_ok s xs (S n) → sched_ok s xs n.
Proof.
  intros (Hq & Hrest). split; [by apply queued_weaken|]. naive_solver lia.
Qed.

Lemma get_status_done s t st : world s !! t = Some st → get_status t s = Done st s.
Proof. unfold get_status. by intros ->. Qed.

(** In a state in order, with the timers' states [w]. *)
Definition timed_ok (s : sched) (xs : list addr) (n : nat) : Prop :=
  sched_ok s xs n ∧ timers_ok (world s) (agenda s xs).

Lemma own_handlers s xs x : Forall (λ p, p.2 = p.1) (agenda s xs) → x ∈ xs →
  default NULL (handler_ <$> all_events s !! x) = x.
Proof.
  unfold agenda. rewrite Forall_fmap, Forall_forall. intros Hf Hx. by apply (Hf x).
Qed.

Lemma sched_ok_set_world s xs n w : sched_ok s xs n → sched_ok (set_world w s) xs n.
Proof. done. Qed.

(** Scheduling a timer that is not pending. *)
Lemma start_timer s xs n t d :
  sched_ok s xs (S n) → Forall (λ p, p.2 = p.1) (agenda s xs) →
  (∀ x, x ≠ t → world s !! x = Some TIMER_PENDING ↔ x ∈ xs) → t ∉ xs →
  is_Some (all_events s !! t) → dle (clock_ s) (dadd (clock_ s) d) = true →
  ∃ s' ys, (_ ← _sched t d; set_status t TIMER_PENDING) s = Done tt s' ∧ timed_ok s' ys n ∧
    clock_ s' = clock_ s ∧ s_log s' = s_log s ∧ world s' = <[t := TIMER_PENDING]> (world s).
Proof.
  intros Hok Hown Hpend Ht [ev Hev] Htime.
  assert (t ≠ NULL) as Hn.
  { intros ->. destruct Hok as (_ & _ & _ & _ & _ & _ & _ & Hnull & _). congruence. }
  assert (uid_ ev ≤ 0) as Hidle.
  { destruct Hok as (_ & _ & _ & _ & Huid & _). specialize (Huid t ev Hev). apply Z.nlt_ge. tauto. }
  destruct (schedule_ok s xs n t t d ev Hok Hn Hev Hidle Htime)
    as (s1 & ys & E & Hok1 & Hp & Ec & _ & El & Ew & Hvis & Hvt).
  unfold _sched. rewrite (bind_done _ _ _ _ _ E). eexists _, ys. split; [done|].
  split_and!; [|done|done|simpl; by rewrite Ew]. split; [by apply sched_ok_set_world|]. split.
  - intros x. rewrite agenda_fst, Hp, elem_of_cons. simpl. rewrite Ew.
    destruct (decide (x = t)) as [->|Hne]; [rewrite lookup_insert_eq; naive_solver|].
    rewrite lookup_insert_ne by done. rewrite Hpend by done. naive_solver.
  - unfold agenda. rewrite Forall_fmap, Forall_forall. intros x Hx. simpl.
    change (default NULL (handler_ <$> all_events s1 !! x) = x).
    destruct (decide (x = t)) as [->|Hne].
    + by apply visible_inv in Hvt as (v & -> & <- & _).
    + rewrite (handler_visible (all_events s) _ x (Hvis x Hne)). eapply own_handlers; [done|].
      rewrite Hp in Hx. set_solver.
Qed.

(** Taking the event of a timer out of the queue. *)
Lemma stop_timer s xs n t st :
  timed_ok s xs n → is_Some (all_events s !! t) → st ≠ TIMER_PENDING →
  ∃ s', _cancel t s = Done tt s' ∧ timed_ok (set_world (<[t := st]> (world s')) s') (filter (.≠ t) xs) n ∧
    world s' = world s ∧ clock_ s' = clock_ s ∧ s_log s' = s_log s ∧ sched_ok s' (filter (.≠ t) xs) n ∧
    is_Some (all_events s' !! t).
Proof.
  intros (Hok & Hpend & Hown) [ev Hev] Hst.
  destruct (cancel_ok s xs n t ev Hok Hev) as (s' & E & Hok' & Ec & _ & El & Ew & Hh).
  exists s'. split_and!; try done.
  - split; [by apply sched_ok_set_world|]. split.
    + intros x. rewrite agenda_fst, list_elem_of_filter. simpl. rewrite Ew.
      destruct (decide (x = t)) as [->|Hne]; [rewrite lookup_insert_eq; naive_solver|].
      rewrite lookup_insert_ne by done. rewrite Hpend, agenda_fst. naive_solver.
    + unfold agenda. rewrite Forall_fmap, Forall_forall.
      intros x [_ Hx]%list_elem_of_filter. simpl.
      change (default NULL (handler_ <$> all_events s' !! x) = x). rewrite Hh. by eapply own_handlers.
  - specialize (Hh t). rewrite Hev in Hh. destruct (all_events s' !! t); [by eexists|done].
Qed.

(** Timers do not disappear. *)
Definition same_timers (s s' : sched) : Prop := ∀ t, is_Some (world s !! t) → is_Some (world s' !! t).

Lemma same_timers_insert s s' t st :
  world s' = <[t := st]> (world s) → same_timers s s'.
Proof. intros Ew x Hx; rewrite Ew. by apply lookup_insert_is_Some'; right. Qed.

Definition call_done (c : M sched unit) (s s' : sched) : Prop :=
  c s = Done tt s' ∧ clock_ s' = clock_ s ∧ s_log s' = s_log s ∧ same_timers s s'.

Lemma run_call_ok s xs n c :
  timed_ok s xs (S n) → legal s c →
  ∃ s' ys, call_done (run_call c) s s' ∧ timed_ok s' ys n.
Proof.
  intros Hok Hl. pose proof Hok as (Hs & Hpend & Hown). unfold call_done.
  assert (Hpend' : ∀ t, world s !! t = Some TIMER_PENDING ↔ t ∈ xs).
  { intros t. by rewrite Hpend, agenda_fst. }
  assert (Hstart : ∀ t d, is_Some (all_events s !! t) → dle (clock_ s) (dadd (clock_ s) d) = true →
    world s !! t ≠ Some TIMER_PENDING →
    ∃ s' ys, call_done (_ ← _sched t d; set_status t TIMER_PENDING) s s' ∧ timed_ok s' ys n).
  { intros t d He Htime Hst. destruct (start_timer s xs n t d) as (s' & ys & E & Hok' & Ec & El & Ew);
      try done; [by rewrite <- Hpend'|].
    exists s', ys. split; [|done]. split_and!; try done. by eapply same_timers_insert. }
  assert (Hstop : ∀ t, is_Some (all_events s !! t) →
    ∃ s' ys, call_done (_ ← _cancel t; set_status t TIMER_IDLE) s s' ∧ timed_ok s' ys n).
  { intros t He.
    destruct (stop_timer s xs (S n) t TIMER_IDLE Hok He) as (s1 & E & [Hs1 Ht1] & Ew & Ec & El & _); [done|].
    unfold call_done. rewrite (bind_done _ _ _ _ _ E). eexists _, _. split; [split_and!; try done|].
    - eapply same_timers_insert. simpl. by rewrite Ew.
    - split; [by apply sched_ok_weaken|exact Ht1]. }
  destruct c as [t d|t d|t|t]; cbn [run_call].
  - destruct Hl as (He & Htime & Hidle). unfold timer_sched.
    rewrite (bind_done _ _ _ _ _ (get_status_done _ _ _ Hidle)), decide_False by naive_solver.
    apply Hstart; [done..|congruence].
  - destruct Hl as (He & Htime & st & Hst). unfold timer_resched.
    rewrite (bind_done _ _ _ _ _ (get_status_done _ _ _ Hst)).
    destruct (decide (st = TIMER_PENDING)) as [->|Hne].
    2:{ rewrite (bind_done _ _ s tt s) by done. apply Hstart; [done..|congruence]. }
    destruct (stop_timer s xs (S n) t TIMER_IDLE Hok He) as (s1 & E & (_ & Hp1 & Ho1) & Ew & Ec & El & Hs1 & He1);
      [done|].
    rewrite (bind_done _ _ _ _ _ E).
    destruct (start_timer s1 (filter (.≠ t) xs) n t d) as (s' & ys & E' & Hok' & Ec' & El' & Ew'); try done.
    + intros x Hx. specialize (Hp1 x). simpl in Hp1. rewrite lookup_insert_ne in Hp1 by done.
      rewrite Hp1. by rewrite agenda_fst.
    + intros [? _]%list_elem_of_filter. done.
    + by rewrite Ec.
    + exists s', ys. split; [|done]. split_and!; [done|congruence|congruence|].
      eapply same_timers_insert. by rewrite Ew', Ew.
  - destruct Hl as (He & Hp). unfold timer_cancel.
    rewrite (bind_done _ _ _ _ _ (get_status_done _ _ _ Hp)), decide_False by naive_solver.
    by apply Hstop.
  - destruct Hl as (He & st & Hst). unfold force_cancel.
    rewrite (bind_done _ _ _ _ _ (get_status_done _ _ _ Hst)).
    destruct (decide (st = TIMER_PENDING)) as [->|Hne]; [by apply Hstop|].
    exists s, xs. split; [split_and!; try done; by intros x|]. split; [by apply sched_ok_weaken|done].
Qed.

Lemma run_calls_ok s xs n cs :
  timed_ok s xs (length cs + n) → legal_calls s cs →
  ∃ s' ys, call_done (run_calls cs) s s' ∧ timed_ok s' ys n.
Proof.
  revert s xs. induction cs as [|c cs IH]; intros s xs Hok Hl.
  { exists s, xs. split; [|done]. unfold call_done. split_and!; try done; by intros x. }
  destruct Hl as [Hc Hl]. destruct (run_call_ok s xs _ c Hok Hc) as (s1 & ys & (E & Ec & El & Es) & Hok1).
  destruct (IH s1 ys Hok1 (Hl s1 E)) as (s' & zs & (E' & Ec' & El' & Es') & Hok').
  exists s', zs. split; [|done]. unfold call_done. cbn [run_calls]. rewrite (bind_done _ _ _ _ _ E).
  split_and!; [done|congruence|congruence|]. intros t Ht. by apply Es', Es.
Qed.

(** The handlers of timers satisfy the scheduler's contract, as long as what they do when
    they expire is legal and no more than [b] calls. *)
Context (expire : addr → sched → list timer_call) (b : nat)
  (Hlegal : ∀ t s xs n, sched_ok s xs n → legal_calls s (expire t s) ∧ (length (expire t s) ≤ b)%nat).

Lemma timed_ok_room s xs m n : (n ≤ m)%nat → timed_ok s xs m → timed_ok s xs n.
Proof.
  intros Hle [Hs Ht]. split; [|done]. clear Ht. induction Hle; [done|]. apply IHHle. by apply sched_ok_weaken.
Qed.

Lemma timer_handlers_ok : handlers_ok (timer_handle expire) timers_ok b.
Proof.
  intros h e s xs n Hok He [Hpend Hown]. simpl in Hpend.
  apply Forall_cons in Hown as [Hhe Hown]. simpl in Hhe. subst h.
  rewrite agenda_fst in Hpend.
  assert (world s !! e = Some TIMER_PENDING) as Hst by (apply Hpend; set_solver).
  unfold timer_handle. rewrite (bind_done _ _ _ _ _ (get_status_done _ _ _ Hst)), decide_False by naive_solver.
  set (s1 := set_world (<[e := TIMER_HANDLING]> (world s)) s).
  rewrite (bind_done _ _ _ tt s1), (bind_done _ _ _ s1 s1) by done.
  assert (timed_ok s1 xs (b + n)) as Hok1.
  { split; [by apply sched_ok_set_world|]. split; [|exact Hown].
    intros x. rewrite agenda_fst. simpl. destruct (decide (x = e)) as [->|Hne].
    - rewrite lookup_insert_eq. naive_solver.
    - rewrite lookup_insert_ne by done. rewrite Hpend. set_solver. }
  destruct (Hlegal e s1 xs (b + n)%nat) as [Hl Hlen]; [apply Hok1|].
  destruct (run_calls_ok s1 xs n (expire e s1)) as (s2 & ys & (E & Ec & El & Es) & [Hs2 Ht2]);
    [eapply timed_ok_room; [|done]; lia|done|].
  rewrite (bind_done _ _ _ _ _ E).
  destruct (Es e) as [st Hst2]; [simpl; by rewrite lookup_insert_eq|].
  rewrite (bind_done _ _ _ _ _ (get_status_done _ _ _ Hst2)).
  destruct (decide (st = TIMER_HANDLING)) as [->|]; [|by exists s2, ys].
  exists (set_world (<[e := TIMER_IDLE]> (world s2)) s2), ys. split_and!; try done.
  destruct Ht2 as [Hp2 Ho2]. split; [|exact Ho2].
  intros x. specialize (Hp2 x). change (agenda (set_world _ s2) ys) with (agenda s2 ys). simpl.
  destruct (decide (x = e)) as [->|Hne]; [|by rewrite lookup_insert_ne].
  rewrite lookup_insert_eq. rewrite Hst2 in Hp2. naive_solver.
Qed.
End timers_order.


(** Two periodic timers on the heap scheduler. *)
Definition demo_expire (t : addr) (s : Scheduler HeapScheduler (gmap N TimerStatus)) : list timer_call :=
  if decide (is_Some (all_events s !! t) ∧ is_Some (world s !! t)) then
    if dle (clock_ s) (dadd (clock_ s) (d_of_Z (Z.of_N t))) then [TResched t (d_of_Z (Z.of_N t))] else []
  else [].

Definition idle_event : Event := Ev NULL NULL NULL d_zero 0.
Definition demo_sched : Scheduler HeapScheduler (gmap N TimerStatus) :=
  Sched (HS (<[2%N := idle_event]> (<[3%N := idle_event]> ∅)) (Heap_new 32)) d_zero false 1 []
    (<[2%N := TIMER_IDLE]> (<[3%N := TIMER_IDLE]> ∅)).

Lemma demo_expire_legal t s xs n :
  sched_ok s xs n → legal_calls s (demo_expire t s) ∧ (length (demo_expire t s) ≤ 1)%nat.
Proof.
  intros _. unfold demo_expire. destruct (decide _) as [[He Hw]|]; [|simpl; split; [done|lia]].
  destruct (dle _ _) eqn:E; simpl; [|split; [done|lia]]. split; [|lia]. by split_and!.
Qed.

Lemma demo_sched_ok : timed_ok demo_sched [] 10.
Proof.
  split.
  - split_and!; try done.
    + by apply heap_queued_empty.
    + intros e t He. set_solver.
    + intros e ev Hev. split; [|set_solver]. unfold all_events in Hev. simpl in Hev.
      rewrite !lookup_insert in Hev. repeat case_decide; simplify_eq; simpl; lia || done.
    + intros e ev Hev. unfold all_events in Hev. simpl in Hev.
      rewrite !lookup_insert in Hev. repeat case_decide; simplify_eq; simpl; lia || done.
  - split; [|by constructor]. intros t. simpl. rewrite !lookup_insert.
    split; [|set_solver]. repeat case_decide; done.
Qed.


(** Timer 2 fires at 2, 4, 6 and 8, timer 3 at 3 and 6, where it was scheduled first. *)
Example demo_fires :
  match (_ ← run_calls [TSched 2%N (d_of_Z 2); TSched 3%N (d_of_Z 3)];
         run (timer_handle demo_expire) 6) demo_sched with
  | Done _ s => (λ p, p.2) <$> s_log s
  | _ => []
  end = [2; 2; 3; 2; 3; 2]%N.
Proof. vm_compute. reflexivity. Qed.
