(* ===== verification/SimPacket.v ===== *)
(** * Packets of the simulator

    [ns2/common/packet.h] and [ip.h]: the common and the IP header, and the pool from
    which packets are allocated, with its free list and reference counts.  The headers
    of the simulated protocols are a parameter of the packet. *)
From S2P Require Import Prelude Double Daemon SimChain SimEvent SimQueues.
Open Scope Z_scope.

(** The members the modelled code reads or writes; the callback [xmit_failure_] is set or
    not. *)
(* [ns2/common/packet.h:569-641] struct hdr_cmn *)
Record hdr_cmn := Cmn {
  ptype_ : Z;
  size_ : Z;
  cmn_uid_ : Z;
  error_ : Z;
  ts_ : double;
  direction_ : Z;
  prev_hop_ : Z;
  next_hop_ : Z;
  addr_type_ : Z;
  last_hop_ : Z;
  xmit_failure_ : bool;
  xmit_reason_ : Z;
  num_forwards_ : Z;
}.

(** Packet types the modelled code tells apart. *)
(* [ns2/common/packet.h:86-91] PT_TCP to PT_ACK *)
Definition PT_TCP : Z := 0.
Definition PT_CBR : Z := 2.
Definition PT_AUDIO : Z := 3.
Definition PT_VIDEO : Z := 4.
Definition PT_ACK : Z := 5.
(* [ns2/common/packet.h:114-114] PT_TELNET *)
Definition PT_TELNET : Z := 26.
(* [ns2/common/packet.h:168-169] PT_SCTP and PT_SCTP_APP1 *)
Definition PT_SCTP : Z := 55.
Definition PT_SCTP_APP1 : Z := 56.
(* [ns2/common/packet.h:411-419] DATA_PACKET *)
Definition DATA_PACKET (type : Z) : bool :=
  bool_decide (type ∈ [PT_TCP; PT_TELNET; PT_CBR; PT_AUDIO; PT_VIDEO; PT_ACK; PT_SCTP; PT_SCTP_APP1]).
(* [ns2/common/packet.h:99-99] PT_MESSAGE *)
Definition PT_MESSAGE : Z := 13.
(* [ns2/common/packet.h:126-126] PT_ARP *)
Definition PT_ARP : Z := 34.
(* [ns2/common/packet.h:128-128] PT_TORA *)
Definition PT_TORA : Z := 36.
(* [ns2/common/packet.h:129-129] PT_DSR *)
Definition PT_DSR : Z := 37.
(* [ns2/common/packet.h:130-130] PT_AODV *)
Definition PT_AODV : Z := 38.
(* [ns2/common/packet.h:183-183] PT_AOMDV *)
Definition PT_AOMDV : Z := 61.
(* [ns2/common/packet.h:185-185] PT_MSVR *)
Definition PT_MSVR : Z := 62.

(* [ns2/common/packet.h:51-51] RT_PORT *)
Definition RT_PORT : Z := 255.

Definition DOWN : Z := -1.
Definition UP : Z := 1.
(* [ns2/common/packet.h:565-565] enum ns_af_enum *)
Definition NS_AF_NONE : Z := 0.
Definition NS_AF_ILINK : Z := 1.
Definition NS_AF_INET : Z := 2.

(* [ns2/common/ip.h:58-72] struct hdr_ip *)
Record hdr_ip := Ip { saddr : Z; sport : Z; daddr : Z; dport : Z; ttl_ : Z }.

(* [ns2/common/ip.h:43-55] IP_HDR_LEN, IP_DEF_TTL and IP_BROADCAST *)
Definition IP_HDR_LEN : Z := 20.
Definition IP_DEF_TTL : Z := 32.
Definition IP_BROADCAST : Z := 4294967295.

(** [hdrs] are the headers after these, and [pk_uid] the identifier of the event a packet
    is. *)
(* [ns2/common/packet.h:457-528] class Packet *)
Record Packet (P : Type) := Pkt {
  pk_next : addr;
  pk_uid : Z;
  ref_count_ : Z;
  fflag_ : bool;
  data_ : option (list Z);
  cmn : hdr_cmn;
  ip : hdr_ip;
  hdrs : P;
}.
Arguments Pkt {P}.
Arguments pk_next {P}.
Arguments pk_uid {P}.
Arguments ref_count_ {P}.
Arguments fflag_ {P}.
Arguments data_ {P}.
Arguments cmn {P}.
Arguments ip {P}.
Arguments hdrs {P}.

(** The zero value of the protocols' headers. *)
Class Headers (P : Type) := no_headers : P.

Definition zero_cmn : hdr_cmn := Cmn 0 0 0 0 d_zero 0 0 0 0 0 false 0 0.
Definition zero_ip : hdr_ip := Ip 0 0 0 0 0.

(** Setting members. *)
Definition cmn_size (n : Z) (c : hdr_cmn) : hdr_cmn :=
  Cmn (ptype_ c) n (cmn_uid_ c) (error_ c) (ts_ c) (direction_ c) (prev_hop_ c) (next_hop_ c)
    (addr_type_ c) (last_hop_ c) (xmit_failure_ c) (xmit_reason_ c) (num_forwards_ c).
Definition cmn_ts (t : double) (c : hdr_cmn) : hdr_cmn :=
  Cmn (ptype_ c) (size_ c) (cmn_uid_ c) (error_ c) t (direction_ c) (prev_hop_ c) (next_hop_ c)
    (addr_type_ c) (last_hop_ c) (xmit_failure_ c) (xmit_reason_ c) (num_forwards_ c).
Definition cmn_direction (d : Z) (c : hdr_cmn) : hdr_cmn :=
  Cmn (ptype_ c) (size_ c) (cmn_uid_ c) (error_ c) (ts_ c) d (prev_hop_ c) (next_hop_ c)
    (addr_type_ c) (last_hop_ c) (xmit_failure_ c) (xmit_reason_ c) (num_forwards_ c).
Definition cmn_hops (next last : Z) (c : hdr_cmn) : hdr_cmn :=
  Cmn (ptype_ c) (size_ c) (cmn_uid_ c) (error_ c) (ts_ c) (direction_ c) (prev_hop_ c) next
    (addr_type_ c) last (xmit_failure_ c) (xmit_reason_ c) (num_forwards_ c).
Definition cmn_type_size (type size error : Z) (c : hdr_cmn) : hdr_cmn :=
  Cmn type size (cmn_uid_ c) error (ts_ c) (direction_ c) (prev_hop_ c) (next_hop_ c)
    (addr_type_ c) (last_hop_ c) (xmit_failure_ c) (xmit_reason_ c) (num_forwards_ c).
Definition cmn_prev_hop (h : Z) (c : hdr_cmn) : hdr_cmn :=
  Cmn (ptype_ c) (size_ c) (cmn_uid_ c) (error_ c) (ts_ c) (direction_ c) h (next_hop_ c)
    (addr_type_ c) (last_hop_ c) (xmit_failure_ c) (xmit_reason_ c) (num_forwards_ c).
Definition cmn_set_failure (c : hdr_cmn) : hdr_cmn :=
  Cmn (ptype_ c) (size_ c) (cmn_uid_ c) (error_ c) (ts_ c) (direction_ c) (prev_hop_ c) (next_hop_ c)
    (addr_type_ c) (last_hop_ c) true (xmit_reason_ c) (num_forwards_ c).
Definition cmn_addr_type (t : Z) (c : hdr_cmn) : hdr_cmn :=
  Cmn (ptype_ c) (size_ c) (cmn_uid_ c) (error_ c) (ts_ c) (direction_ c) (prev_hop_ c) (next_hop_ c)
    t (last_hop_ c) (xmit_failure_ c) (xmit_reason_ c) (num_forwards_ c).

Section packet.
Context {P : Type} `{Headers P}.
Abbreviation packet := (Packet P).

Definition with_pk_next (n : addr) (p : packet) : packet :=
  Pkt n (pk_uid p) (ref_count_ p) (fflag_ p) (data_ p) (cmn p) (ip p) (hdrs p).
Definition with_cmn (f : hdr_cmn → hdr_cmn) (p : packet) : packet :=
  Pkt (pk_next p) (pk_uid p) (ref_count_ p) (fflag_ p) (data_ p) (f (cmn p)) (ip p) (hdrs p).
Definition with_ip (f : hdr_ip → hdr_ip) (p : packet) : packet :=
  Pkt (pk_next p) (pk_uid p) (ref_count_ p) (fflag_ p) (data_ p) (cmn p) (f (ip p)) (hdrs p).
Definition with_ref_count (n : Z) (p : packet) : packet :=
  Pkt (pk_next p) (pk_uid p) n (fflag_ p) (data_ p) (cmn p) (ip p) (hdrs p).
Definition with_hdrs (h : P) (p : packet) : packet :=
  Pkt (pk_next p) (pk_uid p) (ref_count_ p) (fflag_ p) (data_ p) (cmn p) (ip p) h.

(** The packets in memory, and the static member [free_]. *)
Record pool := Pool { packets : gmap N packet; free_ : addr }.

Definition set_packets (m : gmap N packet) (s : pool) : pool := Pool m (free_ s).
Definition upd_packet (a : addr) (f : packet → packet) : M pool unit :=
  p ← deref packets a; modify (λ s, set_packets (<[a := f p]> (packets s)) s).

(* [ns2/common/packet.h:660-663] Packet::init *)
Definition init (p : packet) : packet :=
  Pkt (pk_next p) (pk_uid p) (ref_count_ p) (fflag_ p) (data_ p) zero_cmn zero_ip no_headers.

(** A packet as [alloc] returns it. *)
Definition fresh_cmn : hdr_cmn := cmn_direction DOWN (cmn_hops (-2) (-2) zero_cmn).

Section alloc.
Context `{Allocator}.

(* [ns2/common/packet.h:665-689] Packet::alloc *)
Definition alloc : M pool addr :=
  p ← gets free_;
  p ← (if decide (p ≠ NULL) then
         v ← deref packets p;
         _ ← assert_ (negb (fflag_ v));
         _ ← modify (λ s, Pool (packets s) (pk_next v));
         _ ← assert_ (bool_decide (data_ v = None));
         _ ← upd_packet p (λ v, Pkt (pk_next v) 0 (ref_count_ v) (fflag_ v) (data_ v) (cmn v) (ip v) (hdrs v));
         mret p
       else
         s ← get;
         match malloc (dom (packets s)) with
         | None => abort
         | Some a =>
             _ ← put (set_packets (<[a := Pkt NULL 0 0 false None zero_cmn zero_ip no_headers]> (packets s)) s);
             mret a
         end);
  _ ← upd_packet p init;
  _ ← upd_packet p (λ v, Pkt NULL (pk_uid v) (ref_count_ v) true (data_ v)
                           (cmn_direction DOWN (cmn_hops (-2) (-2) (cmn v))) (ip v) (hdrs v));
  mret p.

(* [ns2/common/packet.h:738-747] Packet::copy *)
Definition copy (p : addr) : M pool addr :=
  q ← alloc;
  v ← deref packets p;
  _ ← upd_packet q (λ w, Pkt (pk_next w) (pk_uid w) (ref_count_ w) (fflag_ w) (data_ v)
                           (cmn v) (ip v) (hdrs v));
  mret q.
End alloc.

(* [ns2/common/packet.h:475-475] Packet::refcopy *)
Definition refcopy (p : addr) : M pool addr :=
  _ ← upd_packet p (λ v, with_ref_count (s32 (ref_count_ v + 1)) v); mret p.

(* [ns2/common/packet.h:714-736] Packet::free *)
Definition free (p : addr) : M pool unit :=
  v ← deref packets p;
  if (fflag_ v : bool) then
    if decide (ref_count_ v = 0) then
      _ ← assert_ (bool_decide (pk_uid v ≤ 0));
      f ← gets free_;
      _ ← upd_packet p (λ v, init (Pkt f (pk_uid v) (ref_count_ v) false None (cmn v) (ip v) (hdrs v)));
      modify (λ s, Pool (packets s) p)
    else upd_packet p (λ v, with_ref_count (s32 (ref_count_ v - 1)) v)
  else skip.

(** ** The free list *)

Definition pnx (m : gmap N packet) (x : addr) : option addr := pk_next <$> m !! x.

(** The free list holds the packets [fs]: those that are not in use, without data and
    references. *)
Definition pool_ok (s : pool) (fs : list addr) : Prop :=
  chain (pnx (packets s)) (free_ s) fs NULL ∧ packets s !! NULL = None ∧
  (∀ a v, packets s !! a = Some v → fflag_ v = false ↔ a ∈ fs) ∧
  (∀ a v, packets s !! a = Some v → a ∈ fs → data_ v = None ∧ ref_count_ v = 0).

Lemma upd_packet_done a f s v :
  a ≠ NULL → packets s !! a = Some v →
  upd_packet a f s = Done tt (set_packets (<[a := f v]> (packets s)) s).
Proof. intros Ha Hv. unfold upd_packet. by rewrite (bind_done _ _ _ _ _ (deref_done _ _ _ _ Ha Hv)). Qed.

Lemma pool_ok_used s fs a v :
  pool_ok s fs → packets s !! a = Some v → a ∉ fs → fflag_ v = true.
Proof. intros (_ & _ & Hf & _) Hv Ha. specialize (Hf a v Hv). destruct (fflag_ v); [done|]. tauto. Qed.

(** Changing a packet in use, but not its flag. *)
Lemma pool_ok_insert s fs a v w :
  pool_ok s fs → packets s !! a = Some v → a ∉ fs → fflag_ w = true →
  pool_ok (set_packets (<[a := w]> (packets s)) s) fs.
Proof.
  intros (Hc & Hn & Hf & Hd) Hv Ha Hw.
  assert (a ≠ NULL) by (intros ->; congruence). split_and!; simpl.
  - eapply chain_ext; [|exact Hc]. intros x Hx. unfold pnx. rewrite lookup_insert_ne; [done|].
    by intros ->.
  - by rewrite lookup_insert_ne.
  - intros b u. destruct (decide (b = a)) as [->|]; [rewrite lookup_insert_eq; intros [= <-]; split; [congruence|done]|].
    rewrite lookup_insert_ne by done. apply Hf.
  - intros b u. destruct (decide (b = a)) as [->|]; [done|]. rewrite lookup_insert_ne by done. apply Hd.
Qed.

Definition fresh_packet (v : packet) : Prop :=
  pk_next v = NULL ∧ pk_uid v = 0 ∧ ref_count_ v = 0 ∧ fflag_ v = true ∧ data_ v = None ∧
  cmn v = fresh_cmn ∧ ip v = zero_ip ∧ hdrs v = no_headers.

Lemma alloc_spec `{Allocator} s fs :
  pool_ok s fs → (fs = [] → is_Some (malloc (dom (packets s)))) →
  ∃ p s' v, alloc s = Done p s' ∧ pool_ok s' (tail fs) ∧ p ≠ NULL ∧ p ∉ tail fs ∧
    packets s' !! p = Some v ∧ fresh_packet v ∧
    (∀ b u, packets s !! b = Some u → fflag_ u = true → b ≠ p ∧ packets s' !! b = Some u).
Proof.
  intros (Hc & Hn & Hf & Hd) Hm. unfold alloc. rewrite (bind_done _ _ _ (free_ s) s) by done.
  destruct fs as [|p fs].
  - simpl in Hc. rewrite Hc, decide_False by naive_solver.
    destruct (Hm eq_refl) as [a Ea]. destruct (malloc_fresh _ _ Ea) as [Ha Ha0].
    apply not_elem_of_dom in Ha.
    set (s1 := set_packets (<[a := Pkt NULL 0 0 false None zero_cmn zero_ip no_headers]> (packets s)) s).
    rewrite (bind_done _ _ _ a s1).
    2:{ rewrite (bind_done _ _ _ s s) by done. by rewrite Ea. }
    rewrite (bind_done _ _ _ _ _ (upd_packet_done a _ s1 _ Ha0 (lookup_insert_eq _ _ _))).
    set (s2 := set_packets _ s1).
    rewrite (bind_done _ _ _ _ _ (upd_packet_done a _ s2 _ Ha0 (lookup_insert_eq _ _ _))).
    eexists _, _, _. split; [done|]. simpl. rewrite lookup_insert_eq. split_and!; try done.
    + split_and!; simpl.
      * done.
      * by rewrite !lookup_insert_ne.
      * intros b u. destruct (decide (b = a)) as [->|]; [rewrite lookup_insert_eq; intros [= <-]; simpl; set_solver|].
        rewrite !lookup_insert_ne by done. apply Hf.
      * intros b u _ Hb. set_solver.
    + set_solver.
    + intros b u Hb Hu. assert (b ≠ a) by (intros ->; congruence). split; [done|].
      by rewrite !lookup_insert_ne.
  - pose proof (chain_NoDup _ _ _ Hc) as [Hp Hnd]%NoDup_cons.
    destruct Hc as (Ep & Hp0 & n & En & Hc). rewrite Ep, decide_True by done.
    unfold pnx in En. destruct (packets s !! p) as [v|] eqn:Ev; [|done]. injection En as En.
    assert (fflag_ v = false) as Hfv by (apply (Hf p v Ev); set_solver).
    destruct (Hd p v Ev) as [Hdv Hrv]; [set_solver|].
    rewrite bind_done with (a := p) (s' := Pool (<[p := Pkt (pk_next v) 0 (ref_count_ v) (fflag_ v) (data_ v) (cmn v) (ip v) (hdrs v)]> (packets s)) (pk_next v)).
    2:{ rewrite (bind_done _ _ _ _ _ (deref_done _ _ _ _ Hp0 Ev)).
        rewrite (bind_done _ _ _ tt s) by (by rewrite Hfv).
        rewrite (bind_done _ _ _ tt (Pool (packets s) (pk_next v))) by done.
        rewrite (bind_done _ _ _ tt (Pool (packets s) (pk_next v))) by (rewrite bool_decide_true; done).
        by rewrite (bind_done _ _ _ _ _ (upd_packet_done p _ (Pool (packets s) (pk_next v)) v Hp0 Ev)). }
    set (s1 := Pool _ (pk_next v)).
    rewrite (bind_done _ _ _ _ _ (upd_packet_done p _ s1 _ Hp0 (lookup_insert_eq _ _ _))).
    set (s2 := set_packets _ s1).
    rewrite (bind_done _ _ _ _ _ (upd_packet_done p _ s2 _ Hp0 (lookup_insert_eq _ _ _))).
    eexists _, _, _. split; [done|]. simpl. rewrite lookup_insert_eq. split_and!; try done.
    + split_and!; simpl.
      * rewrite En. eapply chain_ext; [|exact Hc]. intros x Hx. unfold pnx.
        by rewrite !lookup_insert_ne by (intros ->; done).
      * by rewrite !lookup_insert_ne.
      * intros b u. destruct (decide (b = p)) as [->|]; [rewrite lookup_insert_eq; intros [= <-]; simpl; naive_solver|].
        rewrite !lookup_insert_ne by done. intros Hb. rewrite (Hf b u Hb). set_solver.
      * intros b u. destruct (decide (b = p)) as [->|]; [done|].
        rewrite !lookup_insert_ne by done. intros Hb Hin. apply (Hd b u Hb). set_solver.
    + intros b u Hb Hu. assert (b ≠ p) by (intros ->; congruence). split; [done|].
      by rewrite !lookup_insert_ne.
Qed.

Lemma free_spec s fs p v :
  pool_ok s fs → packets s !! p = Some v → fflag_ v = true → ref_count_ v = 0 → pk_uid v ≤ 0 →
  ∃ s', free p s = Done tt s' ∧ pool_ok s' (p :: fs) ∧
    ∀ b, b ≠ p → packets s' !! b = packets s !! b.
Proof.
  intros (Hc & Hn & Hf & Hd) Ev Hfv Hr Hu.
  assert (p ≠ NULL) as Hp by (intros ->; congruence).
  assert (p ∉ fs) as Hpf by (rewrite <- (Hf p v Ev); congruence).
  unfold free. rewrite (bind_done _ _ _ _ _ (deref_done _ _ _ _ Hp Ev)), Hfv, decide_True by done.
  rewrite (bind_done _ _ _ tt s) by (by rewrite bool_decide_true).
  rewrite (bind_done _ _ _ (free_ s) s) by done.
  rewrite (bind_done _ _ _ _ _ (upd_packet_done p _ s v Hp Ev)). eexists. split; [done|]. split.
  - split_and!; simpl.
    + split_and!; [done..|]. exists (free_ s). split; [unfold pnx; by rewrite lookup_insert_eq|].
      eapply chain_ext; [|exact Hc]. intros x Hx. unfold pnx. rewrite lookup_insert_ne; [done|]. by intros ->.
    + by rewrite lookup_insert_ne.
    + intros b u. destruct (decide (b = p)) as [->|]; [rewrite lookup_insert_eq; intros [= <-]; simpl; set_solver|].
      rewrite lookup_insert_ne by done. intros Hb. rewrite (Hf b u Hb). set_solver.
    + intros b u. destruct (decide (b = p)) as [->|]; [rewrite lookup_insert_eq; by intros [= <-]|].
      rewrite lookup_insert_ne by done. intros Hb Hin. apply (Hd b u Hb). set_solver.
  - intros b Hb. simpl. by rewrite lookup_insert_ne.
Qed.

(** Calling [free] [n] times. *)
Fixpoint free_times (n : nat) (p : addr) : M pool unit :=
  match n with O => skip | S n => _ ← free p; free_times n p end.

(** A packet to which there are other references only loses one. *)
Lemma free_shared s fs p v :
  pool_ok s fs → packets s !! p = Some v → fflag_ v = true → 0 < ref_count_ v < 2 ^ 31 →
  let w := with_ref_count (ref_count_ v - 1) v in
  free p s = Done tt (set_packets (<[p := w]> (packets s)) s) ∧
  pool_ok (set_packets (<[p := w]> (packets s)) s) fs.
Proof.
  intros Hok Ev Hfv Hr w. pose proof Hok as (_ & Hn & Hf & _).
  assert (p ≠ NULL) as Hp by (intros ->; congruence).
  assert (p ∉ fs) as Hpf by (rewrite <- (Hf p v Ev); congruence).
  split; [|by eapply pool_ok_insert].
  unfold free. rewrite (bind_done _ _ _ _ _ (deref_done _ _ _ _ Hp Ev)), Hfv, decide_False by lia.
  rewrite (upd_packet_done p _ s v Hp Ev). unfold s32. rewrite swrap_small by lia. done.
Qed.

Lemma free_times_spec n s fs p v :
  pool_ok s fs → packets s !! p = Some v → fflag_ v = true → pk_uid v ≤ 0 →
  ref_count_ v = Z.of_nat n → Z.of_nat n < 2 ^ 31 →
  ∃ s1 s' w, free_times n p s = Done tt s1 ∧ packets s1 !! p = Some w ∧ fflag_ w = true ∧
    free p s1 = Done tt s' ∧ pool_ok s' (p :: fs) ∧ (∀ b, b ≠ p → packets s' !! b = packets s !! b).
Proof.
  revert s v. induction n as [|n IH]; intros s v Hok Ev Hfv Hu Hr Hlt.
  - destruct (free_spec s fs p v) as (s' & E & Hok' & Hsame); try done.
    exists s, s', v. by split_and!.
  - destruct (free_shared s fs p v) as [E Hok1]; [done..|lia|].
    set (w := with_ref_count (ref_count_ v - 1) v) in *.
    destruct (IH (set_packets (<[p := w]> (packets s)) s) w)
      as (s1 & s' & u & E1 & Eu & Hfu & E2 & Hok' & Hsame); [done|by simpl; rewrite lookup_insert_eq|done|done|simpl; lia|lia|].
    exists s1, s', u. cbn [free_times]. rewrite (bind_done _ _ _ _ _ E). split_and!; try done.
    intros b Hb. rewrite Hsame by done. simpl. by rewrite lookup_insert_ne.
Qed.

(** The packet freed last is allocated first. *)
Lemma alloc_first `{Allocator} s p fs q s' : pool_ok s (p :: fs) → alloc s = Done q s' → q = p.
Proof.
  intros ((Ep & Hp & _) & _) E. unfold alloc in E. rewrite (bind_done _ _ _ (free_ s) s) in E by done.
  rewrite Ep, decide_True in E by done. apply bind_done_inv in E as (q' & t & Eq & E).
  do 2 (apply bind_done_inv in E as ([] & ? & _ & E)). injection E as -> _.
  do 2 (apply bind_done_inv in Eq as (? & ? & _ & Eq)).
  do 3 (apply bind_done_inv in Eq as (? & ? & _ & Eq)). by injection Eq as ->.
Qed.

(** A packet to which [n] references were taken stays in use until it has been freed
    [n + 1] times; freeing it again does nothing; and the next [alloc] returns it, with
    its headers cleared, and leaves every packet in use as it is. *)
Theorem packet_recycled `{Allocator} s fs p v n
    (Hok : pool_ok s fs) (Hv : packets s !! p = Some v) (Hused : fflag_ v = true)
    (Huid : pk_uid v ≤ 0) (Href : ref_count_ v = Z.of_nat n) (Hn : Z.of_nat n < 2 ^ 31) :
  ∃ s1 s2 s3 w u,
    free_times n p s = Done tt s1 ∧ packets s1 !! p = Some w ∧ fflag_ w = true ∧
    free p s1 = Done tt s2 ∧ free p s2 = Done tt s2 ∧
    alloc s2 = Done p s3 ∧ packets s3 !! p = Some u ∧ fresh_packet u ∧
    ∀ b x, b ≠ p → packets s !! b = Some x → fflag_ x = true → packets s3 !! b = Some x.
Proof.
  destruct (free_times_spec n s fs p v Hok Hv Hused Huid Href Hn)
    as (s1 & s2 & w & E1 & Ew & Hfw & E2 & Hok2 & Hsame).
  pose proof Hok2 as (Hc & Hn2 & Hf2 & _). destruct Hc as (Ep & Hp & k & Ek & _).
  destruct (alloc_spec s2 (p :: fs) Hok2) as (q & s3 & u & E3 & Hok3 & Hq & _ & Eu & Hfresh & Hkeep); [done|].
  pose proof (alloc_first _ _ _ _ _ Hok2 E3) as ->.
  unfold pnx in Ek. destruct (packets s2 !! p) as [w2|] eqn:E; [|done].
  exists s1, s2, s3, w, u. split_and!; try done.
  - unfold free. rewrite (bind_done _ _ _ _ _ (deref_done _ _ _ _ Hp E)).
    assert (fflag_ w2 = false) as -> by (apply (Hf2 p w2 E); set_solver). done.
  - intros b x Hb Hx Hfx. apply (Hkeep b x); [|done]. by rewrite Hsame.
Qed.
End packet.

Definition demo_pool : pool (P := unit) :=
  Pool (<[7%N := Pkt NULL (-3) 1 true None (cmn_size 512 zero_cmn) zero_ip tt]>
    (<[9%N := Pkt NULL 0 0 false None zero_cmn zero_ip tt]> ∅)) 9.

#[local] Instance no_unit_headers : Headers unit := tt.
#[local] Instance demo_pool_malloc : Allocator := bump_allocator false.

Lemma demo_pool_ok : pool_ok demo_pool [9%N].
Proof.
  split_and!.
  - simpl. split_and!; [done..|]. by exists NULL.
  - done.
  - intros a v. unfold demo_pool. cbn [packets]. rewrite !lookup_insert.
    repeat case_decide; intros; simplify_eq; cbn [fflag_]; rewrite list_elem_of_singleton; naive_solver.
  - intros a v. unfold demo_pool. cbn [packets]. rewrite !lookup_insert.
    intros Hv Ha%list_elem_of_singleton. repeat case_decide; simplify_eq; done.
Qed.

Lemma packet_recycled_witness :
  ∃ s1 s2 s3 u, free_times 1 7%N demo_pool = Done tt s1 ∧ free 7%N s1 = Done tt s2 ∧
    alloc s2 = Done 7%N s3 ∧ packets s3 !! 7%N = Some u ∧ fresh_packet u.
Proof.
  destruct (packet_recycled demo_pool [9%N] 7%N
    (Pkt NULL (-3) 1 true None (cmn_size 512 zero_cmn) zero_ip tt) 1)
    as (s1 & s2 & s3 & w & u & E1 & _ & _ & E2 & _ & E3 & E4 & Hu & _).
  - apply demo_pool_ok.
  - reflexivity.
  - reflexivity.
  - simpl. lia.
  - reflexivity.
  - lia.
  - exists s1, s2, s3, u. by split_and!.
Defined.
