(* ===== verification/PacketQueue.v ===== *)
(** * Packet queues

    The class [PacketQueue] of [ns2/queue/queue.h] and [queue.cc]: a first-in first-out
    queue of packets linked through their [next_] members, with counts of packets and
    bytes.  The operations are shown to act on the sequence of packets. *)
From S2P Require Import Prelude Double SimChain SimQueues SimPacket.
Open Scope Z_scope.

Section packet_queue.
Context {P : Type}.
Abbreviation packet := (Packet P).

(** [iter] is not initialised by the constructor. *)
(* [ns2/queue/queue.h:99-107] class PacketQueue *)
Record PacketQueue := PQ {
  pq_packets : gmap N packet;
  head_ : addr;
  tail_ : addr;
  len_ : Z;
  bytes_ : Z;
  iter : option addr;
}.

Definition set_pq_packets (m : gmap N packet) (q : PacketQueue) : PacketQueue :=
  PQ m (head_ q) (tail_ q) (len_ q) (bytes_ q) (iter q).
Definition set_head (a : addr) (q : PacketQueue) : PacketQueue :=
  PQ (pq_packets q) a (tail_ q) (len_ q) (bytes_ q) (iter q).
Definition set_tail (a : addr) (q : PacketQueue) : PacketQueue :=
  PQ (pq_packets q) (head_ q) a (len_ q) (bytes_ q) (iter q).
Definition set_iter (a : addr) (q : PacketQueue) : PacketQueue :=
  PQ (pq_packets q) (head_ q) (tail_ q) (len_ q) (bytes_ q) (Some a).
Definition count (n b : Z) (q : PacketQueue) : PacketQueue :=
  PQ (pq_packets q) (head_ q) (tail_ q) (s32 (len_ q + n)) (s32 (bytes_ q + b)) (iter q).

(** [p->next_ = n]. *)
Definition link (p n : addr) : M PacketQueue unit :=
  v ← deref pq_packets p; modify (λ q, set_pq_packets (<[p := with_pk_next n v]> (pq_packets q)) q).
(** [hdr_cmn::access(p)->size()]. *)
Definition size_of (v : packet) : Z := size_ (cmn v).

(* [ns2/queue/queue.h:47-47] PacketQueue::PacketQueue *)
Definition PacketQueue_new (m : gmap N packet) : PacketQueue := PQ m NULL NULL 0 0 None.

(* [ns2/queue/queue.h:48-48] length *)
Definition length_ (q : PacketQueue) : Z := len_ q.
(* [ns2/queue/queue.h:49-49] byteLength *)
Definition byteLength (q : PacketQueue) : Z := bytes_ q.

(** Returns the previous tail. *)
(* [ns2/queue/queue.h:50-61] PacketQueue::enque *)
Definition enque (p : addr) : M PacketQueue addr :=
  pt ← gets tail_;
  _ ← (if decide (pt = NULL) then modify (λ q, set_head p (set_tail p q))
       else _ ← link pt p; modify (set_tail p));
  t ← gets tail_;
  _ ← link t NULL;
  v ← deref pq_packets p;
  _ ← modify (count 1 (size_of v));
  mret pt.

(* [ns2/queue/queue.h:62-70] PacketQueue::deque *)
Definition deque : M PacketQueue addr :=
  p ← gets head_;
  if decide (p = NULL) then mret NULL
  else
    v ← deref pq_packets p;
    _ ← modify (set_head (pk_next v));
    t ← gets tail_;
    _ ← (if decide (p = t) then modify (λ q, set_head NULL (set_tail NULL q)) else skip);
    _ ← modify (count (-1) (- size_of v));
    mret p.

(* [ns2/queue/queue.h:71-77] PacketQueue::lookup *)
Fixpoint lookup_loop (fuel : nat) (n : Z) (p : addr) : M PacketQueue addr :=
  match fuel with
  | O => stuck NoFuel
  | S fuel =>
      if decide (p = NULL) then mret NULL
      else if decide (n - 1 < 0) then mret p
      else v ← deref pq_packets p; lookup_loop fuel (n - 1) (pk_next v)
  end.
(* [ns2/queue/queue.h:71-77] PacketQueue::lookup *)
Definition lookup_ (n : Z) : M PacketQueue addr :=
  fuel ← gets (λ q, S (size (pq_packets q)));
  p ← gets head_;
  lookup_loop fuel n p.

(* [ns2/queue/queue.cc:46-58] PacketQueue::remove *)
Fixpoint remove_loop (fuel : nat) (target pp p : addr) : M PacketQueue unit :=
  match fuel with
  | O => stuck NoFuel
  | S fuel =>
      if decide (p = NULL) then abort
      else if decide (p = target) then
        if decide (pp = NULL) then _ ← deque; skip
        else
          t ← gets tail_;
          _ ← (if decide (p = t) then modify (set_tail pp) else skip);
          v ← deref pq_packets p;
          _ ← link pp (pk_next v);
          modify (count (-1) (- size_of v))
      else v ← deref pq_packets p; remove_loop fuel target p (pk_next v)
  end.
(* [ns2/queue/queue.cc:44-61] PacketQueue::remove *)
Definition remove (target : addr) : M PacketQueue unit :=
  fuel ← gets (λ q, S (size (pq_packets q)));
  p ← gets head_;
  remove_loop fuel target NULL p.

(* [ns2/queue/queue.cc:67-81] PacketQueue::remove *)
Definition remove_after (pkt prev : addr) : M PacketQueue unit :=
  if decide (pkt = NULL) then skip
  else
    h ← gets head_;
    if decide (h = pkt) then _ ← deque; skip
    else
      v ← deref pq_packets pkt;
      _ ← link prev (pk_next v);
      t ← gets tail_;
      _ ← (if decide (t = pkt) then modify (set_tail prev) else skip);
      modify (count (-1) (- size_of v)).

(* [ns2/queue/queue.h:85-91] PacketQueue::enqueHead *)
Definition enqueHead (p : addr) : M PacketQueue unit :=
  h ← gets head_;
  _ ← (if decide (h = NULL) then modify (set_tail p) else skip);
  _ ← link p h;
  _ ← modify (set_head p);
  v ← deref pq_packets p;
  modify (count 1 (size_of v)).

(* [ns2/queue/queue.h:92-92] resetIterator *)
Definition resetIterator : M PacketQueue unit := modify (λ q, set_iter (head_ q) q).
(* [ns2/queue/queue.h:93-97] getNext *)
Definition getNext : M PacketQueue addr :=
  i ← gets iter;
  match i with
  | None => stuck UninitRead
  | Some i =>
      if decide (i = NULL) then mret NULL
      else v ← deref pq_packets i; _ ← modify (set_iter (pk_next v)); mret i
  end.

(** ** The sequence of a queue *)

Implicit Types (q : PacketQueue) (m : gmap N packet).

Definition total (m : gmap N packet) (xs : list addr) : Z :=
  foldr (λ x n, default 0 (size_of <$> m !! x) + n) 0 xs.

(** The queue holds the packets [xs]; its counts are right in 32 bits. *)
Definition holds (q : PacketQueue) (xs : list addr) : Prop :=
  chain (pnx (pq_packets q)) (head_ q) xs NULL ∧ tail_ q = default NULL (last xs) ∧
  len_ q = s32 (Z.of_nat (length xs)) ∧ bytes_ q = s32 (total (pq_packets q) xs).

(** Only links change. *)
Definition same_packets (m m' : gmap N packet) : Prop :=
  ∀ a, with_pk_next NULL <$> m' !! a = with_pk_next NULL <$> m !! a.

#[global] Instance same_packets_equiv : Equivalence same_packets.
Proof.
  split; [by intros m a|by intros m m' Hs a; rewrite (Hs a)|].
  intros m1 m2 m3 H1 H2 a. by rewrite (H2 a).
Qed.

Lemma same_packets_insert m a v n : m !! a = Some v → same_packets m (<[a := with_pk_next n v]> m).
Proof.
  intros Hv b. destruct (decide (b = a)) as [->|]; [by rewrite lookup_insert_eq, Hv|by rewrite lookup_insert_ne].
Qed.

Lemma same_packets_lookup m m' a v :
  same_packets m m' → m !! a = Some v → ∃ n, m' !! a = Some (with_pk_next n v).
Proof.
  intros Hs Hv. specialize (Hs a). rewrite Hv in Hs. destruct (m' !! a) as [[n]|]; [|done].
  exists n. destruct v. simpl in *. by simplify_eq.
Qed.

#[global] Instance total_proper : Proper (same_packets ==> eq ==> eq) total.
Proof.
  intros m m' Hs xs _ <-. induction xs as [|x xs IH]; [done|]. simpl. rewrite IH. f_equal. specialize (Hs x).
  destruct (m !! x) as [[]|], (m' !! x) as [[]|]; simpl in *; by simplify_eq.
Qed.

Lemma total_app m xs ys : total m (xs ++ ys) = total m xs + total m ys.
Proof. induction xs as [|x xs IH]; simpl; [done|]. rewrite IH. lia. Qed.

Lemma link_done q a v n :
  a ≠ NULL → pq_packets q !! a = Some v →
  link a n q = Done tt (set_pq_packets (<[a := with_pk_next n v]> (pq_packets q)) q).
Proof. intros Ha Hv. unfold link. by rewrite (bind_done _ _ _ _ _ (deref_done _ _ _ _ Ha Hv)). Qed.

Lemma holds_lookup q xs a : holds q xs → a ∈ xs → a ≠ NULL ∧ ∃ v, pq_packets q !! a = Some v.
Proof.
  intros (Hc & _) Ha. destruct (chain_dom _ _ _ _ _ Hc Ha) as [? Hs]. split; [done|].
  unfold pnx in Hs. by rewrite fmap_is_Some in Hs.
Qed.

Lemma holds_NoDup q xs : holds q xs → NoDup xs.
Proof. intros (Hc & _). by eapply chain_NoDup. Qed.

Lemma pnx_insert_ne m a b v : a ≠ b → pnx (<[a := v]> m) b = pnx m b.
Proof. intros. unfold pnx. by rewrite lookup_insert_ne. Qed.
Lemma pnx_insert_eq m a v : pnx (<[a := v]> m) a = Some (pk_next v).
Proof. unfold pnx. by rewrite lookup_insert_eq. Qed.

(** The counts after adding or removing a packet of size [b]. *)
Lemma counted q xs n b ys :
  len_ q = s32 (Z.of_nat (length xs)) → bytes_ q = s32 (total (pq_packets q) xs) →
  Z.of_nat (length ys) = Z.of_nat (length xs) + n →
  total (pq_packets q) ys = total (pq_packets q) xs + b →
  len_ (count n b q) = s32 (Z.of_nat (length ys)) ∧
  bytes_ (count n b q) = s32 (total (pq_packets (count n b q)) ys).
Proof. intros El Eb Hn Hb. simpl. by rewrite El, Eb, !s32_add, Hn, Hb. Qed.

Lemma enque_spec q xs p v :
  holds q xs → p ≠ NULL → p ∉ xs → pq_packets q !! p = Some v →
  ∃ q', enque p q = Done (default NULL (last xs)) q' ∧ holds q' (xs ++ [p]) ∧
    same_packets (pq_packets q) (pq_packets q') ∧ iter q' = iter q.
Proof.
  intros (Hc & Ht & Hl & Hb) Hp Hx Hv. unfold enque.
  rewrite (bind_done _ _ _ (tail_ q) q), Ht by done.
  assert (∃ q1, (if decide (default NULL (last xs) = NULL) then modify (λ q, set_head p (set_tail p q))
       else _ ← link (default NULL (last xs)) p; modify (set_tail p)) q = Done tt q1 ∧
    chain (pnx (pq_packets q1)) (head_ q1) xs p ∧ tail_ q1 = p ∧ len_ q1 = len_ q ∧
    bytes_ q1 = bytes_ q ∧ iter q1 = iter q ∧ same_packets (pq_packets q) (pq_packets q1) ∧
    pq_packets q1 !! p = Some v) as (q1 & E1 & C1 & T1 & L1 & B1 & I1 & S1 & V1).
  { destruct xs as [|t ys _] using rev_ind.
    - simpl. eexists. split; [done|]. by split_and!.
    - rewrite last_snoc. simpl. destruct (chain_dom _ _ _ _ t Hc) as [Hn [n En]]; [set_solver|].
      unfold pnx in En. destruct (pq_packets q !! t) as [w|] eqn:Ew; [|done].
      rewrite decide_False by done. rewrite (bind_done _ _ _ _ _ (link_done q t w p Hn Ew)).
      eexists. split; [done|]. simpl. split_and!; try done.
      + pose proof (chain_NoDup _ _ _ Hc) as Hnd. apply NoDup_app in Hnd as (_ & Hnd & _).
        eapply chain_redirect; [|by rewrite pnx_insert_eq|exact Hc].
        intros x Hxs. rewrite pnx_insert_ne; [done|]. intros ->. apply (Hnd x); [done|set_solver].
      + by apply same_packets_insert.
      + rewrite lookup_insert_ne; [done|]. intros ->. set_solver. }
  rewrite (bind_done _ _ _ _ _ E1), (bind_done _ _ _ p q1) by by rewrite <- T1.
  rewrite (bind_done _ _ _ _ _ (link_done q1 p v NULL Hp V1)).
  set (q2 := set_pq_packets _ q1).
  rewrite (bind_done _ _ _ (with_pk_next NULL v) q2).
  2:{ apply deref_done; [done|]. simpl. by rewrite lookup_insert_eq. }
  assert (S2 : same_packets (pq_packets q) (pq_packets q2)) by (etrans; [exact S1|by apply same_packets_insert]).
  eexists. split; [done|]. split_and!; [|done|done].
  split_and!.
  - simpl. apply chain_app. exists p. split.
    + eapply chain_ext; [|exact C1]. intros x Hxs. rewrite pnx_insert_ne; [done|]. by intros ->.
    + split_and!; [done..|]. exists NULL. split; [by rewrite pnx_insert_eq|done].
  - by rewrite last_snoc.
  - apply (counted q2 xs); simpl; [congruence|by rewrite B1, Hb, S2|rewrite length_app; simpl; lia|].
    rewrite total_app. simpl. rewrite lookup_insert_eq. simpl. unfold size_of. simpl. lia.
  - apply (counted q2 xs); simpl; [congruence|by rewrite B1, Hb, S2|rewrite length_app; simpl; lia|].
    rewrite total_app. simpl. rewrite lookup_insert_eq. simpl. unfold size_of. simpl. lia.
Qed.

Lemma chain_from m a x xs : chain (pnx m) a (x :: xs) NULL →
  ∃ v, m !! x = Some v ∧ pk_next v = default NULL (head xs) ∧ chain (pnx m) (pk_next v) xs NULL.
Proof.
  intros (_ & _ & n & En & Hc). unfold pnx in En. destruct (m !! x) as [v|]; [|done].
  injection En as <-. exists v. split_and!; [done|by eapply chain_head|done].
Qed.

Lemma deque_spec q xs :
  holds q xs →
  ∃ q', deque q = Done (default NULL (head xs)) q' ∧ holds q' (tail xs) ∧
    pq_packets q' = pq_packets q ∧ iter q' = iter q.
Proof.
  intros Hq. pose proof Hq as (Hc & Ht & Hl & Hb). unfold deque.
  rewrite (bind_done _ _ _ (head_ q) q), (chain_head _ _ _ Hc) by done.
  destruct xs as [|x xs]; [by exists q|]. simpl.
  destruct (holds_lookup _ _ x Hq) as [Hx [v Hv]]; [set_solver|]. rewrite decide_False by done.
  rewrite (bind_done _ _ _ _ _ (deref_done _ _ _ _ Hx Hv)).
  destruct (chain_from _ _ _ _ Hc) as (v' & Hv' & En & Hc'). rewrite Hv in Hv'. injection Hv' as <-.
  rewrite (bind_done _ _ _ tt (set_head (pk_next v) q)), (bind_done _ _ _ (tail_ q) (set_head (pk_next v) q)) by done.
  assert (Hcount : ∀ q1, pq_packets q1 = pq_packets q → len_ q1 = len_ q → bytes_ q1 = bytes_ q →
    len_ (count (-1) (- size_of v) q1) = s32 (Z.of_nat (length xs)) ∧
    bytes_ (count (-1) (- size_of v) q1) = s32 (total (pq_packets (count (-1) (- size_of v) q1)) xs)).
  { intros q1 E1 E2 E3. apply (counted q1 (x :: xs)); rewrite ?E1, ?E2, ?E3; try done; [simpl; lia|].
    simpl. rewrite Hv. simpl. lia. }
  rewrite Ht. destruct xs as [|y ys].
  - simpl. rewrite decide_True by done.
    rewrite (bind_done _ _ _ tt (set_head NULL (set_tail NULL (set_head (pk_next v) q)))) by done.
    eexists. split; [done|]. split_and!; try done. split_and!; try done; by apply Hcount.
  - assert (last (x :: y :: ys) = last (y :: ys)) as -> by done.
    rewrite decide_False.
    2:{ apply holds_NoDup in Hq as [Hn _]%NoDup_cons. intros E. apply Hn.
        destruct (last (y :: ys)) as [z|] eqn:Ez; [|by apply last_None in Ez].
        simpl in E. subst z. apply last_Some in Ez as [l ->]. set_solver. }
    rewrite (bind_done _ _ _ tt (set_head (pk_next v) q)) by done.
    eexists. split; [done|]. split_and!; try done. split_and!; try done; by apply Hcount.
Qed.

Lemma enqueHead_spec q xs p v :
  holds q xs → p ≠ NULL → p ∉ xs → pq_packets q !! p = Some v →
  ∃ q', enqueHead p q = Done tt q' ∧ holds q' (p :: xs) ∧ same_packets (pq_packets q) (pq_packets q').
Proof.
  intros Hq Hp Hx Hv. pose proof Hq as (Hc & Ht & Hl & Hb). unfold enqueHead.
  rewrite (bind_done _ _ _ (head_ q) q) by done. pose proof (chain_head _ _ _ Hc) as Eh.
  assert (∃ q1, (if decide (head_ q = NULL) then modify (set_tail p) else skip) q = Done tt q1 ∧
    tail_ q1 = default NULL (last (p :: xs)) ∧ pq_packets q1 = pq_packets q ∧ len_ q1 = len_ q ∧
    bytes_ q1 = bytes_ q) as (q1 & E1 & T1 & M1 & L1 & B1).
  { destruct xs as [|x xs].
    - rewrite decide_True by done. by eexists.
    - destruct (holds_lookup _ _ x Hq) as [Hx0 _]; [set_solver|]. rewrite decide_False by (rewrite Eh; done).
      by exists q. }
  rewrite (bind_done _ _ _ _ _ E1). rewrite <- M1 in Hv.
  rewrite (bind_done _ _ _ _ _ (link_done q1 p v _ Hp Hv)).
  set (q2 := set_pq_packets _ q1). rewrite (bind_done _ _ _ tt (set_head p q2)) by done.
  rewrite (bind_done _ _ _ (with_pk_next (head_ q) v) (set_head p q2)).
  2:{ apply deref_done; [done|]. simpl. by rewrite lookup_insert_eq. }
  assert (S2 : same_packets (pq_packets q) (pq_packets q2)).
  { rewrite <- M1. by apply same_packets_insert. }
  eexists. split; [done|]. split; [|done].
  assert (Hcnt : len_ (count 1 (size_of v) (set_head p q2)) = s32 (Z.of_nat (length (p :: xs))) ∧
    bytes_ (count 1 (size_of v) (set_head p q2)) =
      s32 (total (pq_packets (count 1 (size_of v) (set_head p q2))) (p :: xs))).
  { apply (counted (set_head p q2) xs).
    - simpl. congruence.
    - change (bytes_ q1 = s32 (total (pq_packets q2) xs)). by rewrite <- S2, B1.
    - simpl. lia.
    - simpl. rewrite lookup_insert_eq. simpl. unfold size_of. simpl. lia. }
  split_and!; [|done|apply Hcnt..]. simpl. split_and!; [done..|]. exists (head_ q).
  split; [by rewrite pnx_insert_eq|]. rewrite M1. eapply chain_ext; [|exact Hc].
  intros x Hin. rewrite pnx_insert_ne; [done|]. by intros ->.
Qed.

(** Unlinking the packet [p] that comes after [pre ++ [pp]]. *)
Lemma unlink_spec q pre pp p post v m' :
  holds q (pre ++ pp :: p :: post) → pq_packets q !! p = Some v →
  (∃ w, pq_packets q !! pp = Some w ∧ m' = <[pp := with_pk_next (pk_next v) w]> (pq_packets q)) →
  let q' := count (-1) (- size_of v)
    (set_pq_packets m' (if decide (p = tail_ q) then set_tail pp q else q)) in
  holds q' (pre ++ pp :: post) ∧ same_packets (pq_packets q) (pq_packets q').
Proof.
  intros Hq Hv (w & Hw & ->). pose proof Hq as (Hc & Ht & Hl & Hb).
  pose proof (holds_NoDup _ _ Hq) as Hnd.
  set (q1 := if decide (p = tail_ q) then set_tail pp q else q).
  assert (E1 : pq_packets q1 = pq_packets q ∧ head_ q1 = head_ q ∧ len_ q1 = len_ q ∧ bytes_ q1 = bytes_ q).
  { unfold q1. by case_decide. }
  destruct E1 as (M1 & H1 & L1 & B1). intros q'. split; [|by apply same_packets_insert].
  assert (S1 : same_packets (pq_packets q) (<[pp := with_pk_next (pk_next v) w]> (pq_packets q)))
    by by apply same_packets_insert.
  assert (Hcnt : len_ q' = s32 (Z.of_nat (length (pre ++ pp :: post))) ∧
    bytes_ q' = s32 (total (pq_packets q') (pre ++ pp :: post))).
  { unfold q'. apply (counted _ (pre ++ pp :: p :: post)); simpl.
    - congruence.
    - by rewrite <- S1, B1.
    - rewrite !length_app. simpl. lia.
    - rewrite <- S1, !total_app. simpl. rewrite Hv. simpl. lia. }
  split_and!; [|..|apply Hcnt|apply Hcnt].
  - change (chain (pnx (<[pp := with_pk_next (pk_next v) w]> (pq_packets q))) (head_ q1) (pre ++ pp :: post) NULL).
    rewrite H1. replace (pre ++ pp :: p :: post) with ((pre ++ [pp]) ++ p :: post) in Hc, Hnd
      by by rewrite <- app_assoc.
    replace (pre ++ pp :: post) with ((pre ++ [pp]) ++ post) by by rewrite <- app_assoc.
    apply chain_app in Hc as (b & Hc1 & Hc2). apply chain_app. exists (pk_next v).
    apply NoDup_app in Hnd as (Hnd1 & Hnd2 & Hnd3). apply NoDup_app in Hnd1 as (_ & Hnd1 & _). split.
    + eapply chain_redirect; [|by rewrite pnx_insert_eq|exact Hc1].
      intros x Hx. rewrite pnx_insert_ne; [done|]. intros ->. apply (Hnd1 x); [done|set_solver].
    + destruct (chain_from _ _ _ _ Hc2) as (v' & Hv' & _ & Hc3). rewrite Hv in Hv'. injection Hv' as <-.
      eapply chain_ext; [|exact Hc3]. intros x Hx. rewrite pnx_insert_ne; [done|].
      intros ->. apply (Hnd2 x); set_solver.
  - change (tail_ q1 = default NULL (last (pre ++ pp :: post))). unfold q1.
    rewrite Ht. destruct post as [|y ys].
    + replace (pre ++ [pp; p]) with ((pre ++ [pp]) ++ [p]) by by rewrite <- app_assoc.
      rewrite last_snoc. simpl. rewrite decide_True by done. by rewrite last_snoc.
    + replace (pre ++ pp :: p :: y :: ys) with ((pre ++ [pp; p]) ++ y :: ys) by by rewrite <- app_assoc.
      replace (pre ++ pp :: y :: ys) with ((pre ++ [pp]) ++ y :: ys) by by rewrite <- app_assoc.
      assert (last ((pre ++ [pp; p]) ++ y :: ys) = last (y :: ys) ∧
        last ((pre ++ [pp]) ++ y :: ys) = last (y :: ys)) as [-> ->].
      { rewrite !last_app. destruct (last (y :: ys)) eqn:E; [done|by apply last_None in E]. }
      rewrite decide_False; [rewrite Ht|].
      * replace (pre ++ pp :: p :: y :: ys) with ((pre ++ [pp; p]) ++ y :: ys) by by rewrite <- app_assoc.
        rewrite last_app. destruct (last (y :: ys)) eqn:E; [done|by apply last_None in E].
      * intros E. destruct (last (y :: ys)) as [z|] eqn:Ez; [|by apply last_None in Ez].
        simpl in E. subst z. apply last_Some in Ez as [l El]. rewrite El in Hnd.
        apply NoDup_app in Hnd as (_ & _ & Hnd). apply NoDup_cons in Hnd as [_ Hnd].
        apply NoDup_cons in Hnd as [Hnd _]. apply Hnd. set_solver.
Qed.

Lemma remove_loop_spec fuel q pre pp p post t1 t2 v :
  holds q (pre ++ pp :: t1 ++ p :: t2) → post = t1 ++ p :: t2 → (length t1 < fuel)%nat →
  pq_packets q !! p = Some v →
  ∃ q', remove_loop fuel p pp (default NULL (head post)) q = Done tt q' ∧
    holds q' (pre ++ pp :: t1 ++ t2) ∧ same_packets (pq_packets q) (pq_packets q').
Proof.
  revert pre pp t1 post. induction fuel as [|fuel IH]; [lia|].
  intros pre pp t1 post Hq -> Hf Hv. cbn [remove_loop].
  destruct (holds_lookup _ _ p Hq) as [Hp _]; [set_solver|].
  destruct t1 as [|x t1].
  - simpl. rewrite decide_False, decide_True by done.
    destruct (holds_lookup _ _ pp Hq) as [Hpp [w Hw]]; [set_solver|]. rewrite decide_False by done.
    rewrite (bind_done _ _ _ (tail_ q) q) by done.
    set (q1 := if decide (p = tail_ q) then set_tail pp q else q).
    assert (E1 : (if decide (p = tail_ q) then modify (set_tail pp) else skip) q = Done tt q1).
    { unfold q1. by case_decide. }
    assert (M1 : pq_packets q1 = pq_packets q) by (unfold q1; by case_decide).
    rewrite (bind_done _ _ _ _ _ E1).
    rewrite <- M1 in Hv, Hw. rewrite (bind_done _ _ _ _ _ (deref_done _ _ _ _ Hp Hv)).
    rewrite (bind_done _ _ _ _ _ (link_done q1 pp w _ Hpp Hw)). eexists. split; [done|].
    rewrite M1 in *. apply (unlink_spec q pre pp p t2 v); [done..|]. by exists w.
  - destruct (holds_lookup _ _ x Hq) as [Hx [w Hw]]; [set_solver|].
    assert (x ≠ p) as Hxp.
    { intros ->. apply holds_NoDup in Hq. apply NoDup_app in Hq as (_ & _ & Hq).
      apply NoDup_cons in Hq as [_ Hq]. simpl in Hq. apply NoDup_cons in Hq as [Hq _]. apply Hq. set_solver. }
    simpl. rewrite !decide_False by done. rewrite (bind_done _ _ _ _ _ (deref_done _ _ _ _ Hx Hw)).
    assert (holds q ((pre ++ [pp]) ++ x :: t1 ++ p :: t2)) as Hq1
      by (rewrite <- app_assoc; exact Hq).
    assert (pk_next w = default NULL (head (t1 ++ p :: t2))) as ->.
    { pose proof Hq1 as (Hc & _). apply chain_app in Hc as (b & _ & Hc).
      destruct (chain_from _ _ _ _ Hc) as (w' & Hw' & En & _). congruence. }
    destruct (IH (pre ++ [pp]) x t1 (t1 ++ p :: t2)) as (q' & E & Hq' & Hs); [done|done|simpl in Hf; lia|done|].
    exists q'. split_and!; [done| |done]. by rewrite <- app_assoc in Hq'.
Qed.

Lemma remove_spec q xs p :
  holds q xs → p ∈ xs →
  ∃ q', remove p q = Done tt q' ∧ holds q' (filter (.≠ p) xs) ∧
    same_packets (pq_packets q) (pq_packets q').
Proof.
  intros Hq Hin. pose proof (holds_NoDup _ _ Hq) as Hnd. pose proof Hq as (Hc & _).
  destruct (holds_lookup _ _ p Hq Hin) as [Hp [v Hv]].
  assert (Hf : (length xs < S (size (pq_packets q)))%nat).
  { enough (length xs ≤ size (pq_packets q))%nat by lia. apply NoDup_dom_length; [done|].
    intros x Hx. by destruct (holds_lookup _ _ x Hq Hx). }
  unfold remove. rewrite (bind_done _ _ _ (S (size (pq_packets q))) q), (bind_done _ _ _ (head_ q) q) by done.
  rewrite (chain_head _ _ _ Hc).
  apply list_elem_of_split in Hin as (l1 & l2 & ->). rewrite filter_ne_split by done.
  destruct l1 as [|x l1].
  - cbn [remove_loop]. simpl. rewrite decide_False, decide_True by done.
    destruct (deque_spec _ _ Hq) as (q' & E & Hq' & Em & _).
    rewrite (bind_done _ _ _ _ _ E). exists q'. split_and!; [done|done|by rewrite Em].
  - destruct (holds_lookup _ _ x Hq) as [Hx [w Hw]]; [set_solver|].
    assert (x ≠ p) as Hxp by (simpl in Hnd; apply NoDup_cons in Hnd as [Hnd _]; set_solver).
    destruct (size (pq_packets q)) as [|n] eqn:En; [simpl in Hf; lia|].
    cbn [remove_loop]. simpl. rewrite !decide_False by done.
    rewrite (bind_done _ _ _ _ _ (deref_done _ _ _ _ Hx Hw)).
    destruct (chain_from _ _ _ _ Hc) as (w' & Hw' & Enx & _). rewrite Hw in Hw'. injection Hw' as <-.
    rewrite Enx. apply (remove_loop_spec (S n) q [] x p _ l1 l2 v); try done.
    simpl in Hf. rewrite length_app in Hf. lia.
Qed.

(** Packets that are not written. *)
Lemma deque_packets q p q' : deque q = Done p q' → pq_packets q' = pq_packets q.
Proof.
  unfold deque, deref, mbind, M_bind, gets, modify, skip, mret, M_ret. intros E.
  repeat (case_match; simplify_eq/=; try done).
Qed.
Lemma remove_first_frame q p q' : remove p q = Done tt q' → head_ q = p → p ≠ NULL → pq_packets q' = pq_packets q.
Proof.
  unfold remove. rewrite (bind_done _ _ _ (S (size (pq_packets q))) q), (bind_done _ _ _ (head_ q) q) by done.
  intros E <- Hp. simpl in E. rewrite decide_False, !decide_True in E by done.
  apply bind_done_inv in E as (b & q1 & E & [= <-]). by eapply deque_packets.
Qed.
Lemma remove_after_frame q p pp q' a :
  remove_after p pp q = Done tt q' → a ≠ pp → pq_packets q' !! a = pq_packets q !! a.
Proof.
  unfold remove_after. case_decide; [by intros [= <-]|]. rewrite (bind_done _ _ _ (head_ q) q) by done.
  case_decide.
  { intros (b & q1 & E & [= <-])%bind_done_inv _. by rewrite (deque_packets _ _ _ E). }
  unfold link, deref, mbind, M_bind, gets, modify, skip, mret, M_ret. intros E Ha.
  repeat (case_match; simplify_eq/=; try done); by rewrite lookup_insert_ne.
Qed.

Lemma remove_after_spec q pre pp p post :
  holds q (pre ++ pp :: p :: post) →
  ∃ q', remove_after p pp q = Done tt q' ∧ holds q' (pre ++ pp :: post) ∧
    same_packets (pq_packets q) (pq_packets q').
Proof.
  intros Hq. pose proof (holds_NoDup _ _ Hq) as Hnd. pose proof Hq as (Hc & _).
  destruct (holds_lookup _ _ p Hq) as [Hp [v Hv]]; [set_solver|].
  destruct (holds_lookup _ _ pp Hq) as [Hpp [w Hw]]; [set_solver|].
  unfold remove_after. rewrite decide_False by done. rewrite (bind_done _ _ _ (head_ q) q) by done.
  rewrite decide_False.
  2:{ rewrite (chain_head _ _ _ Hc). intros E. destruct pre as [|x pre]; simpl in E.
      - subst. simpl in Hnd. apply NoDup_cons in Hnd as [Hnd _]. set_solver.
      - subst x. simpl in Hnd. apply NoDup_cons in Hnd as [Hnd _]. set_solver. }
  rewrite (bind_done _ _ _ _ _ (deref_done _ _ _ _ Hp Hv)).
  rewrite (bind_done _ _ _ _ _ (link_done q pp w _ Hpp Hw)).
  set (m' := <[pp := with_pk_next (pk_next v) w]> (pq_packets q)).
  rewrite (bind_done _ _ _ (tail_ q) (set_pq_packets m' q)) by done.
  destruct (unlink_spec q pre pp p post v m' Hq Hv) as [Hq' Hs]; [by exists w|].
  destruct (decide (p = tail_ q)) as [E|E].
  - rewrite decide_True by done. eexists. split; [done|]. by split.
  - rewrite decide_False by congruence. eexists. split; [done|]. by split.
Qed.

Lemma lookup_loop_spec fuel q xs a n :
  chain (pnx (pq_packets q)) a xs NULL → (length xs < fuel)%nat →
  lookup_loop fuel n a q = Done (default NULL (xs !! Z.to_nat n)) q.
Proof.
  revert a xs n. induction fuel as [|fuel IH]; [lia|]. intros a xs n Hc Hf. cbn [lookup_loop].
  rewrite (chain_head _ _ _ Hc) in *. destruct xs as [|x xs]; [done|]. simpl.
  destruct (chain_dom _ _ _ _ x Hc) as [Hx _]; [set_solver|]. rewrite decide_False by done.
  destruct (decide (n - 1 < 0)).
  - by replace (Z.to_nat n) with 0%nat by lia.
  - destruct (chain_from _ _ _ _ Hc) as (v & Hv & _ & Hc').
    rewrite (bind_done _ _ _ _ _ (deref_done _ _ _ _ Hx Hv)).
    rewrite (IH _ xs) by (done || (simpl in Hf; lia)).
    by replace (Z.to_nat n) with (S (Z.to_nat (n - 1))) by lia.
Qed.

Lemma holds_size q xs : holds q xs → (length xs < S (size (pq_packets q)))%nat.
Proof.
  intros Hq. enough (length xs ≤ size (pq_packets q))%nat by lia.
  apply NoDup_dom_length; [by eapply holds_NoDup|]. intros x Hx. by destruct (holds_lookup _ _ x Hq Hx).
Qed.

Lemma lookup_spec q xs n : holds q xs → lookup_ n q = Done (default NULL (xs !! Z.to_nat n)) q.
Proof.
  intros Hq. unfold lookup_. rewrite (bind_done _ _ _ (S (size (pq_packets q))) q) by done.
  rewrite (bind_done _ _ _ (head_ q) q) by done.
  apply lookup_loop_spec; [apply Hq|by apply holds_size].
Qed.

(** The iterator visits the queue from its head. *)
Fixpoint visit (n : nat) : M PacketQueue (list addr) :=
  match n with O => mret [] | S n => p ← getNext; ps ← visit n; mret (p :: ps) end.

Lemma visit_spec q xs a :
  chain (pnx (pq_packets q)) a xs NULL → iter q = Some a →
  ∃ q', visit (length xs) q = Done xs q' ∧ pq_packets q' = pq_packets q ∧ iter q' = Some NULL.
Proof.
  revert q a. induction xs as [|x xs IH]; intros q a Hc Hi.
  { simpl in Hc. subst. by exists q. }
  pose proof Hc as (-> & Hx & _). destruct (chain_from _ _ _ _ Hc) as (v & Hv & _ & Hc').
  cbn [length visit].
  assert (E : getNext q = Done x (set_iter (pk_next v) q)).
  { unfold getNext. rewrite (bind_done _ _ _ (iter q) q), Hi by done. rewrite decide_False by done.
    by rewrite (bind_done _ _ _ _ _ (deref_done _ _ _ _ Hx Hv)). }
  rewrite (bind_done _ _ _ _ _ E).
  destruct (IH (set_iter (pk_next v) q) (pk_next v)) as (q' & E' & Em & Ei); [done|done|].
  rewrite (bind_done _ _ _ _ _ E'). by exists q'.
Qed.

(** ** Histories *)

(** What the owner of a queue does with it. *)
Inductive queue_call := Enque (p : addr) | EnqueHead (p : addr) | Deque | Remove (p : addr).

Definition run_call (c : queue_call) : M PacketQueue addr :=
  match c with
  | Enque p => enque p
  | EnqueHead p => _ ← enqueHead p; mret NULL
  | Deque => deque
  | Remove p => _ ← remove p; mret NULL
  end.
Fixpoint run_calls (cs : list queue_call) : M PacketQueue (list addr) :=
  match cs with [] => mret [] | c :: cs => r ← run_call c; rs ← run_calls cs; mret (r :: rs) end.

(** The same on a sequence: the results and the sequence left. *)
Definition spec_call (c : queue_call) (xs : list addr) : addr * list addr :=
  match c with
  | Enque p => (default NULL (last xs), xs ++ [p])
  | EnqueHead p => (NULL, p :: xs)
  | Deque => (default NULL (head xs), tail xs)
  | Remove p => (NULL, filter (.≠ p) xs)
  end.
Fixpoint spec_calls (cs : list queue_call) (xs : list addr) : list addr * list addr :=
  match cs with
  | [] => ([], xs)
  | c :: cs => let '(r, ys) := spec_call c xs in let '(rs, zs) := spec_calls cs ys in (r :: rs, zs)
  end.

(** Packets are added that exist and are not in the queue, and removed that are. *)
Definition call_ok (m : gmap N packet) (xs : list addr) (c : queue_call) : Prop :=
  match c with
  | Enque p | EnqueHead p => p ≠ NULL ∧ is_Some (m !! p) ∧ p ∉ xs
  | Deque => True
  | Remove p => p ∈ xs
  end.
Fixpoint calls_ok (m : gmap N packet) (xs : list addr) (cs : list queue_call) : Prop :=
  match cs with
  | [] => True
  | c :: cs => call_ok m xs c ∧ calls_ok m (spec_call c xs).2 cs
  end.

Lemma calls_ok_same m m' xs cs : same_packets m m' → calls_ok m xs cs → calls_ok m' xs cs.
Proof.
  intros Hs. revert xs. induction cs as [|c cs IH]; [done|]. intros xs [Hc Hcs]. split; [|by apply IH].
  destruct c; simpl in *; try done; destruct Hc as (? & [v Hv] & ?);
    destruct (same_packets_lookup _ _ _ _ Hs Hv) as [n Hn]; (split_and!; [done|by rewrite Hn|done]).
Qed.

Lemma run_call_spec q xs c :
  holds q xs → call_ok (pq_packets q) xs c →
  ∃ q', run_call c q = Done (spec_call c xs).1 q' ∧ holds q' (spec_call c xs).2 ∧
    same_packets (pq_packets q) (pq_packets q').
Proof.
  intros Hq Hc. destruct c as [p|p| |p]; simpl in *.
  - destruct Hc as (Hp & [v Hv] & Hx). destruct (enque_spec q xs p v) as (q' & E & Hq' & Hs & _); [done..|].
    by exists q'.
  - destruct Hc as (Hp & [v Hv] & Hx). destruct (enqueHead_spec q xs p v) as (q' & E & Hq' & Hs); [done..|].
    exists q'. by rewrite (bind_done _ _ _ _ _ E).
  - destruct (deque_spec q xs Hq) as (q' & E & Hq' & Em & _). exists q'. split_and!; [done|done|by rewrite Em].
  - destruct (remove_spec q xs p Hq Hc) as (q' & E & Hq' & Hs). exists q'. by rewrite (bind_done _ _ _ _ _ E).
Qed.

(** C25. A packet queue is a sequence of packets: every history of calls on it returns what
    the operations on sequences return and leaves that sequence in the queue, read from
    the head by [lookup] and by the iterator, and the counts of packets and of bytes are
    those of the sequence, in 32 bits. *)
Theorem queue_refines_sequence q xs cs (Hq : holds q xs) (Hcs : calls_ok (pq_packets q) xs cs) :
  let ys := (spec_calls cs xs).2 in
  ∃ q', run_calls cs q = Done (spec_calls cs xs).1 q' ∧
    length_ q' = s32 (Z.of_nat (length ys)) ∧ byteLength q' = s32 (total (pq_packets q) ys) ∧
    (∀ n, lookup_ n q' = Done (default NULL (ys !! Z.to_nat n)) q') ∧
    ∃ q'', (_ ← resetIterator; visit (length ys)) q' = Done ys q''.
Proof.
  cut (∃ q', run_calls cs q = Done (spec_calls cs xs).1 q' ∧ holds q' (spec_calls cs xs).2 ∧
    same_packets (pq_packets q) (pq_packets q')).
  { intros (q' & E & Hq' & Hs) ys. pose proof Hq' as (Hc & _ & Hl & Hb). exists q'. split_and!; [done|done| | |].
    - unfold byteLength. by rewrite Hb, <- Hs.
    - intros n. by apply lookup_spec.
    - destruct (visit_spec (set_iter (head_ q') q') ys (head_ q')) as (q'' & E' & _); [done|done|].
      exists q''. by rewrite (bind_done _ _ _ tt (set_iter (head_ q') q')). }
  revert q xs Hq Hcs. induction cs as [|c cs IH]; intros q xs Hq Hcs; [by exists q|].
  destruct Hcs as [Hc Hcs]. destruct (run_call_spec q xs c Hq Hc) as (q1 & E1 & Hq1 & S1).
  destruct (IH q1 (spec_call c xs).2 Hq1) as (q2 & E2 & Hq2 & S2); [by eapply calls_ok_same|].
  exists q2. cbn [run_calls spec_calls]. rewrite (bind_done _ _ _ _ _ E1), (bind_done _ _ _ _ _ E2).
  destruct (spec_call c xs) as [r ys]. simpl in *. destruct (spec_calls cs ys) as [rs zs]. simpl in *.
  split_and!; [done|done|by etrans].
Qed.
End packet_queue.
Arguments PacketQueue : clear implicits.

Definition demo_packet (n : Z) : Packet unit := Pkt NULL 0 0 true None (cmn_size n zero_cmn) zero_ip tt.
Definition demo_queue : PacketQueue unit :=
  PacketQueue_new (<[1%N := demo_packet 100]> (<[2%N := demo_packet 200]> (<[3%N := demo_packet 300]> ∅))).
Definition demo_calls : list queue_call := [Enque 1; Enque 2; EnqueHead 3; Remove 1; Deque]%N.

Lemma queue_refines_sequence_witness :
  spec_calls demo_calls [] = ([0; 1; 0; 0; 3]%N, [2%N]) ∧
  ∃ q', run_calls demo_calls demo_queue = Done [0; 1; 0; 0; 3]%N q' ∧ byteLength q' = 200.
Proof.
  split; [vm_compute; reflexivity|].
  destruct (queue_refines_sequence demo_queue [] demo_calls) as (q' & E & _ & Hb & _).
  - by split_and!.
  - cbn [calls_ok demo_calls call_ok]. split_and!; try by_decision; exact I.
  - exists q'. split; [exact E|]. rewrite Hb. vm_compute. reflexivity.
Defined.
