(* ===== verification/DropTail.v ===== *)
(** * Drop-tail queues and the queue's output

    The class [DropTail] of [ns2/queue/drop-tail.cc] on the packet queue of queue.cc, and
    the class [Queue] that feeds a link from it: packets are sent one at a time, the next
    one when the link reports that it is done.  The time of a call is an argument.  What
    the link and the drop target do with a packet is outside: the model records the
    packets handed to them. *)
From S2P Require Import Prelude Double SimChain SimQueues SimPacket PacketQueue.
Open Scope Z_scope.

(** [exp] of [<cmath>]. *)
Class MathExp := exp : double → double.

(* [ns2/queue/queue.h:140-174] class Queue *)
Record Queue := MkQueue {
  blocked_ : Z;
  unblock_on_resume_ : bool;
  true_ave_ : double;
  total_time_ : double;
  last_change_ : double;
  old_util_ : double;
  util_weight_ : double;
  util_check_intv_ : double;
  period_begin_ : double;
  cur_util_ : double;
  buf_slot_ : Z;
  util_buf_ : list double;
  util_records_ : Z;
}.

(* [ns2/queue/drop-tail.h:47-73] class DropTail *)
Record DropTail (P : Type) := MkDropTail {
  q_ : PacketQueue P;
  qlim_ : Z;             (** a member of [Queue] *)
  drop_front_ : bool;
  summarystats : bool;
  qib_ : bool;
  mean_pktsize_ : Z;
  base : Queue;
  dropped : list addr;   (** handed to [drop], latest first *)
  sent : list addr;      (** handed to [target_], latest first *)
}.
Arguments MkDropTail {P}.
Arguments q_ {P}.
Arguments qlim_ {P}.
Arguments drop_front_ {P}.
Arguments summarystats {P}.
Arguments qib_ {P}.
Arguments mean_pktsize_ {P}.
Arguments base {P}.
Arguments dropped {P}.
Arguments sent {P}.

Section drop_tail.
Context {P : Type} `{MathExp}.
Abbreviation dt := (DropTail P).

Definition set_q (q : PacketQueue P) (d : dt) : dt :=
  MkDropTail q (qlim_ d) (drop_front_ d) (summarystats d) (qib_ d) (mean_pktsize_ d) (base d) (dropped d) (sent d).
Definition set_base (b : Queue) (d : dt) : dt :=
  MkDropTail (q_ d) (qlim_ d) (drop_front_ d) (summarystats d) (qib_ d) (mean_pktsize_ d) b (dropped d) (sent d).
Definition on_q {A} (m : M (PacketQueue P) A) : M dt A := zoom q_ set_q m.
Definition on_base (f : Queue → Queue) : M dt unit := modify (λ d, set_base (f (base d)) d).

(** [drop(p)] and [target_->recv(p, &qh_)]. *)
Definition drop (p : addr) : M dt unit :=
  if decide (p = NULL) then stuck NullDeref
  else modify (λ d, MkDropTail (q_ d) (qlim_ d) (drop_front_ d) (summarystats d) (qib_ d) (mean_pktsize_ d)
    (base d) (p :: dropped d) (sent d)).
Definition target_recv (p : addr) : M dt unit :=
  modify (λ d, MkDropTail (q_ d) (qlim_ d) (drop_front_ d) (summarystats d) (qib_ d) (mean_pktsize_ d)
    (base d) (dropped d) (p :: sent d)).

(* [ns2/queue/queue.cc:197-208] Queue::updateStats *)
Definition updateStats (now : double) (queuesize : Z) (b : Queue) : Queue :=
  let newtime := dsub now (total_time_ b) in
  if dlt d_zero newtime then
    MkQueue (blocked_ b) (unblock_on_resume_ b)
      (ddiv (dadd (dmul (total_time_ b) (true_ave_ b)) (dmul newtime (d_of_Z queuesize))) now) now
      (last_change_ b) (old_util_ b) (util_weight_ b) (util_check_intv_ b) (period_begin_ b) (cur_util_ b)
      (buf_slot_ b) (util_buf_ b) (util_records_ b)
  else b.

(** The loop over the periods that have ended. *)
(* [ns2/queue/queue.cc:153-161] Queue::utilUpdate *)
Fixpoint util_periods (guard : nat) (int_end tot_intv intv link : double) (b : Queue) : outcome Queue unit :=
  match guard with
  | O => Done tt b
  | S guard =>
      if dlt (util_check_intv_ b) (dadd tot_intv intv) then
        if decide (0 ≤ buf_slot_ b ∧ (Z.to_nat (buf_slot_ b) < length (util_buf_ b))%nat) then
          util_periods guard int_end tot_intv (dsub intv (util_check_intv_ b)) link
            (MkQueue (blocked_ b) (unblock_on_resume_ b) (true_ave_ b) (total_time_ b) (last_change_ b)
              (old_util_ b) (util_weight_ b) (util_check_intv_ b) int_end link
              (Z.rem (buf_slot_ b + 1) (util_records_ b))
              (<[Z.to_nat (buf_slot_ b) := cur_util_ b]> (util_buf_ b)) (util_records_ b))
        else Stuck OutOfBounds
      else Done tt b
  end.

(* [ns2/queue/queue.cc:137-163] Queue::utilUpdate *)
Definition utilUpdate (int_begin int_end : double) (link_state : Z) : M Queue unit := λ b,
  let link := d_of_Z link_state in
  let decay := exp (dmul (dopp (util_weight_ b)) (dsub int_end int_begin)) in
  let b := MkQueue (blocked_ b) (unblock_on_resume_ b) (true_ave_ b) (total_time_ b) (last_change_ b)
    (dadd link (dmul (dsub (old_util_ b) link) decay)) (util_weight_ b) (util_check_intv_ b)
    (period_begin_ b) (cur_util_ b) (buf_slot_ b) (util_buf_ b) (util_records_ b) in
  if decide (util_records_ b = 0) then Done tt b
  else
    let intv := dsub int_end int_begin in
    let tot_intv := dsub int_begin (period_begin_ b) in
    if negb (deq intv d_zero) || negb (deq tot_intv d_zero) then
      let cur := ddiv (dadd (dmul link intv) (dmul (cur_util_ b) tot_intv)) (dadd intv tot_intv) in
      util_periods (Z.to_nat (util_records_ b)) int_end tot_intv intv link
        (MkQueue (blocked_ b) (unblock_on_resume_ b) (true_ave_ b) (total_time_ b) (last_change_ b)
          (old_util_ b) (util_weight_ b) (util_check_intv_ b) (period_begin_ b) cur
          (buf_slot_ b) (util_buf_ b) (util_records_ b))
    else Done tt b.

Definition set_blocked (v : Z) (b : Queue) : Queue :=
  MkQueue v (unblock_on_resume_ b) (true_ave_ b) (total_time_ b) (last_change_ b)
    (old_util_ b) (util_weight_ b) (util_check_intv_ b) (period_begin_ b) (cur_util_ b)
    (buf_slot_ b) (util_buf_ b) (util_records_ b).
Definition set_last_change (t : double) (b : Queue) : Queue :=
  MkQueue (blocked_ b) (unblock_on_resume_ b) (true_ave_ b) (total_time_ b) t
    (old_util_ b) (util_weight_ b) (util_check_intv_ b) (period_begin_ b) (cur_util_ b)
    (buf_slot_ b) (util_buf_ b) (util_records_ b).

(** [utilUpdate(last_change_, now, blocked_); last_change_ = now]. *)
Definition account (now : double) : M dt unit :=
  b ← gets base;
  _ ← zoom base set_base (utilUpdate (last_change_ b) now (blocked_ b));
  on_base (set_last_change now).

(* [ns2/queue/drop-tail.cc:88-89] DropTail::enque *)
Definition stats (now : double) : M dt unit :=
  d ← get;
  if summarystats d then on_base (updateStats now (if qib_ d then byteLength (q_ d) else length_ (q_ d)))
  else skip.

(* [ns2/queue/drop-tail.cc:85-105] DropTail::enque *)
Definition enque (now : double) (p : addr) : M dt unit :=
  _ ← stats now;
  d ← get;
  v ← deref (λ d, pq_packets (q_ d)) p;
  let qlimBytes := s32 (qlim_ d * mean_pktsize_ d) in
  if (if qib_ d then bool_decide (s32 (byteLength (q_ d) + size_of v) >= qlimBytes)
      else bool_decide (s32 (length_ (q_ d) + 1) >= qlim_ d)) then
    if drop_front_ d then
      _ ← on_q (PacketQueue.enque p);
      pp ← on_q PacketQueue.deque;
      drop pp
    else drop p
  else _ ← on_q (PacketQueue.enque p); skip.

(* [ns2/queue/drop-tail.cc:128-134] DropTail::deque *)
Definition deque (now : double) : M dt addr :=
  _ ← stats now;
  on_q PacketQueue.deque.

(* [ns2/queue/drop-tail.cc:114-125] DropTail::shrink_queue *)
Fixpoint shrink_loop (fuel : nat) (qlimBytes : Z) : M dt unit :=
  match fuel with
  | O => stuck NoFuel
  | S fuel =>
      d ← get;
      if (if qib_ d then bool_decide (byteLength (q_ d) > qlimBytes)
          else bool_decide (length_ (q_ d) > qlim_ d)) then
        _ ← (if drop_front_ d then pp ← on_q PacketQueue.deque; drop pp
             else
               let pp := tail_ (q_ d) in
               _ ← on_q (PacketQueue.remove pp);
               drop pp);
        shrink_loop fuel qlimBytes
      else skip
  end.
(* [ns2/queue/drop-tail.cc:108-126] DropTail::shrink_queue *)
Definition shrink_queue : M dt unit :=
  d ← get;
  shrink_loop (S (S (size (pq_packets (q_ d))))) (s32 (qlim_ d * mean_pktsize_ d)).

(* [ns2/queue/queue.cc:116-135] Queue::recv *)
Definition recv (now : double) (p : addr) : M dt unit :=
  _ ← enque now p;
  b ← gets base;
  if decide (blocked_ b = 0) then
    p ← deque now;
    if decide (p ≠ NULL) then
      _ ← account now;
      _ ← on_base (set_blocked 1);
      target_recv p
    else skip
  else skip.

(* [ns2/queue/queue.cc:210-228] Queue::resume *)
Definition resume (now : double) : M dt unit :=
  p ← deque now;
  if decide (p ≠ NULL) then target_recv p
  else
    _ ← account now;
    b ← gets base;
    on_base (set_blocked (if unblock_on_resume_ b then 0 else 1)).

(* [ns2/queue/queue.cc:230-237] Queue::reset *)
Fixpoint reset_loop (fuel : nat) (now : double) : M dt unit :=
  match fuel with
  | O => stuck NoFuel
  | S fuel =>
      p ← deque now;
      if decide (p = NULL) then skip else _ ← drop p; reset_loop fuel now
  end.
(* [ns2/queue/queue.cc:230-237] Queue::reset *)
Definition reset (now : double) : M dt unit :=
  _ ← on_base (λ b, MkQueue (blocked_ b) (unblock_on_resume_ b) d_zero d_zero (last_change_ b)
    (old_util_ b) (util_weight_ b) (util_check_intv_ b) (period_begin_ b) (cur_util_ b)
    (buf_slot_ b) (util_buf_ b) (util_records_ b));
  d ← get;
  reset_loop (S (size (pq_packets (q_ d)))) now.

(** The bound members are arguments: they come from the configuration.  [true_ave_] and
    [total_time_] are not initialised: [ave] and [t] are what the memory held. *)
(* [ns2/queue/queue.cc:91-114] Queue::Queue *)
Definition Queue_new (weight : double) (blocked : Z) (unblock : bool) (intv : double) (records : Z)
    (ave t : double) : Queue :=
  MkQueue blocked unblock ave t d_zero d_zero weight intv d_zero d_zero 0
    (replicate (Z.to_nat records) d_zero) records.
(* [ns2/queue/drop-tail.h:48-56] DropTail::DropTail *)
Definition DropTail_new (m : gmap N (Packet P)) (lim : Z) (front stats bytes : bool) (mean : Z) (b : Queue) : dt :=
  MkDropTail (PacketQueue_new m) lim front stats bytes mean b [] [].

(* [ns2/queue/queue.cc:165-174] Queue::utilization *)
Definition utilization (now : double) : M dt double :=
  _ ← account now;
  b ← gets base;
  mret (old_util_ b).
(** [util_buf_] has [util_records_] elements. *)
(* [ns2/queue/queue.cc:176-195] Queue::peak_utilization *)
Definition peak_utilization (now : double) : M dt double :=
  b ← gets base;
  if decide (util_records_ b = 0) then utilization now
  else
    _ ← account now;
    b ← gets base;
    if decide ((Z.to_nat (util_records_ b) ≤ length (util_buf_ b))%nat) then
      mret (foldl (λ peak u, if dlt peak u then u else peak) d_zero
              (take (Z.to_nat (util_records_ b)) (util_buf_ b)))
    else stuck OutOfBounds.
End drop_tail.

(** ** The queue and its link as a sequence

    [sheds room front] is what an arrival does to the waiting packets: the packet joins
    them if there is room, else it is lost, or under [drop_front_] joins and the oldest
    one is lost. *)
Record wait := Wait { waiting : list addr; lost : list addr; passed : list addr; busy : bool }.

Definition sheds (room front : bool) (p : addr) (w : wait) : wait :=
  if room then Wait (waiting w ++ [p]) (lost w) (passed w) (busy w)
  else if front then
    Wait (tail (waiting w ++ [p])) (default NULL (head (waiting w ++ [p])) :: lost w) (passed w) (busy w)
  else Wait (waiting w) (p :: lost w) (passed w) (busy w).
(** The link takes the oldest packet, or becomes idle. *)
Definition serve (w : wait) : wait :=
  match waiting w with
  | [] => Wait [] (lost w) (passed w) false
  | p :: xs => Wait xs (lost w) (p :: passed w) true
  end.
Definition arrive (room front : bool) (p : addr) (w : wait) : wait :=
  let w := sheds room front p w in if busy w then w else serve w.

(** What happens to the link: packets arrive, and it reports that it is free. *)
Inductive link_event := Arrival (now : double) (p : addr) | Free (now : double).

Definition arrivals (es : list link_event) : list addr :=
  omap (λ e, match e with Arrival _ p => Some p | Free _ => None end) es.

Section drop_tail_spec.
Context {P : Type} `{MathExp}.
Implicit Types (d : DropTail P) (m : gmap N (Packet P)).

(** The measurement buffer is as the constructor makes it. *)
Definition util_ok (b : Queue) : Prop :=
  util_records_ b ≤ 0 ∨ (0 ≤ buf_slot_ b < util_records_ b ∧ Z.of_nat (length (util_buf_ b)) = util_records_ b).

Definition config d d' : Prop :=
  qlim_ d' = qlim_ d ∧ drop_front_ d' = drop_front_ d ∧ summarystats d' = summarystats d ∧
  qib_ d' = qib_ d ∧ mean_pktsize_ d' = mean_pktsize_ d ∧
  unblock_on_resume_ (base d') = unblock_on_resume_ (base d) ∧
  same_packets (pq_packets (q_ d)) (pq_packets (q_ d')).

#[global] Instance config_equiv : Equivalence config.
Proof.
  split.
  - intros d. by split_and!.
  - intros d d' (? & ? & ? & ? & ? & ? & ?). split_and!; by symmetry.
  - intros d1 d2 d3 (? & ? & ? & ? & ? & ? & ?) (? & ? & ? & ? & ? & ? & ?). split_and!; by etrans.
Qed.

(** The concrete queue [d] is the abstract one [w]. *)
Definition reps d (w : wait) : Prop :=
  holds (q_ d) (waiting w) ∧ dropped d = lost w ∧ sent d = passed w ∧
  blocked_ (base d) = (if busy w then 1 else 0) ∧ util_ok (base d).

Definition packet_size m (p : addr) : Z := default 0 (size_of <$> m !! p).

(** The test of [enque]. *)
Definition room_for d (xs : list addr) (p : addr) : bool :=
  if qib_ d then
    bool_decide (s32 (total (pq_packets (q_ d)) xs + packet_size (pq_packets (q_ d)) p)
                 < s32 (qlim_ d * mean_pktsize_ d))
  else bool_decide (s32 (Z.of_nat (length xs) + 1) < qlim_ d).

Lemma util_periods_ok guard e tot intv l b :
  util_ok b → 0 < util_records_ b ∨ guard = O →
  ∃ b', util_periods guard e tot intv l b = Done tt b' ∧ util_ok b' ∧ blocked_ b' = blocked_ b ∧
    unblock_on_resume_ b' = unblock_on_resume_ b.
Proof.
  revert intv b. induction guard as [|guard IH]; intros intv b Hb Hr; [by exists b|]. cbn [util_periods].
  destruct (dlt _ _); [|by exists b]. destruct Hr as [Hr|]; [|done].
  destruct Hb as [|[Hs Hl]]; [lia|]. rewrite decide_True by lia.
  match goal with |- context [util_periods guard e tot ?i l ?c] => destruct (IH i c) as (b' & -> & ? & ? & ?) end.
  - right. simpl. rewrite length_insert. split; [|done]. apply Z.rem_bound_pos; lia.
  - by left.
  - by exists b'.
Qed.

Lemma utilUpdate_ok t1 t2 l b :
  util_ok b → ∃ b', utilUpdate t1 t2 l b = Done tt b' ∧ util_ok b' ∧ blocked_ b' = blocked_ b ∧
    unblock_on_resume_ b' = unblock_on_resume_ b.
Proof.
  intros Hb. unfold utilUpdate. cbv zeta. cbn [util_records_].
  destruct (decide _); [eexists; split; [done|done]|].
  destruct (_ || _); [|eexists; split; [done|done]].
  match goal with |- context [util_periods ?g ?e ?t ?i ?l ?c] =>
    destruct (util_periods_ok g e t i l c) as (b' & -> & ? & ? & ?) end; [done|simpl; lia|].
  by exists b'.
Qed.

Lemma stats_ok now d w :
  reps d w → ∃ d', stats now d = Done tt d' ∧ reps d' w ∧ config d d' ∧ q_ d' = q_ d.
Proof.
  intros (Hq & Hl & Hs & Hb & Hu). unfold stats. rewrite (bind_done _ _ _ d d) by done.
  destruct (summarystats d); [|by exists d].
  set (n := if qib_ d then _ else _). exists (set_base (updateStats now n (base d)) d). split; [done|].
  assert (util_ok (updateStats now n (base d)) ∧ blocked_ (updateStats now n (base d)) = blocked_ (base d) ∧
    unblock_on_resume_ (updateStats now n (base d)) = unblock_on_resume_ (base d)) as (U & B & R).
  { unfold updateStats. cbv zeta. by destruct (dlt _ _). }
  unfold reps, config. split_and!; simpl; try done; congruence.
Qed.

Lemma account_ok now d w :
  reps d w → ∃ d', account now d = Done tt d' ∧ reps d' w ∧ config d d'.
Proof.
  intros (Hq & Hl & Hs & Hb & Hu). unfold account. rewrite (bind_done _ _ _ (base d) d) by done.
  destruct (utilUpdate_ok (last_change_ (base d)) now (blocked_ (base d)) (base d) Hu) as (b & E & Hub & B & R).
  rewrite (bind_done _ _ _ tt (set_base b d)) by (unfold zoom; by rewrite E).
  eexists. split; [done|]. unfold reps, config. split_and!; simpl; try done; congruence.
Qed.
Lemma packet_size_lookup m p v : m !! p = Some v → packet_size m p = size_of v.
Proof. unfold packet_size. by intros ->. Qed.

Lemma on_q_done {A} (f : M (PacketQueue P) A) d a q' :
  f (q_ d) = Done a q' → on_q f d = Done a (set_q q' d).
Proof. unfold on_q, zoom. by intros ->. Qed.

Lemma deque_ok now d w :
  reps d w →
  ∃ d', deque now d = Done (default NULL (head (waiting w))) d' ∧
    reps d' (Wait (tail (waiting w)) (lost w) (passed w) (busy w)) ∧ config d d'.
Proof.
  intros Hd. destruct (stats_ok now d w Hd) as (d1 & E1 & Hd1 & C1 & Q1). unfold deque.
  rewrite (bind_done _ _ _ _ _ E1). destruct Hd1 as (Hq & Hl & Hs & Hb & Hu).
  destruct (deque_spec _ _ Hq) as (q' & E & Hq' & Em & _). rewrite (on_q_done _ _ _ _ E).
  eexists. split; [done|]. split; [by split_and!|]. etrans; [exact C1|].
  unfold config. split_and!; simpl; try done. by rewrite Em.
Qed.

Lemma dropped_done p d : p ≠ NULL → drop p d = Done tt (MkDropTail (q_ d) (qlim_ d) (drop_front_ d)
  (summarystats d) (qib_ d) (mean_pktsize_ d) (base d) (p :: dropped d) (sent d)).
Proof. intros. unfold drop. by rewrite decide_False. Qed.

(** The packet that arrives exists and is not in the queue. *)
Definition arrives d (w : wait) (p : addr) : Prop :=
  p ≠ NULL ∧ is_Some (pq_packets (q_ d) !! p) ∧ p ∉ waiting w.

Lemma enque_ok now d w p :
  reps d w → arrives d w p →
  ∃ d', enque now p d = Done tt d' ∧
    reps d' (sheds (room_for d (waiting w) p) (drop_front_ d) p w) ∧ config d d'.
Proof.
  intros Hd (Hp & [v Hv] & Hx). destruct (stats_ok now d w Hd) as (d1 & E1 & Hd1 & C1 & Q1). unfold enque.
  rewrite (bind_done _ _ _ _ _ E1), (bind_done _ _ _ d1 d1) by done.
  pose proof C1 as (Ql & Qf & _ & Qi & Qm & _). pose proof Hd1 as (Hq & Hl & Hs & Hb & Hu).
  rewrite (bind_done _ _ _ v d1) by (unfold deref; by rewrite decide_False, Q1, Hv). cbv zeta.
  destruct (enque_spec _ _ p v Hq Hp Hx) as (q1 & Eq & Hq1 & Sq & _); [by rewrite Q1|].
  assert (Er : (if qib_ d1 then bool_decide (s32 (byteLength (q_ d1) + size_of v) >= s32 (qlim_ d1 * mean_pktsize_ d1))
      else bool_decide (s32 (length_ (q_ d1) + 1) >= qlim_ d1)) = negb (room_for d (waiting w) p)).
  { unfold room_for, byteLength, length_. destruct Hq as (_ & _ & -> & ->).
    rewrite Q1, Ql, Qi, Qm, !s32_add, (packet_size_lookup _ _ _ Hv).
    destruct (qib_ d); rewrite <- bool_decide_not; apply bool_decide_ext; lia. }
  rewrite Er. unfold sheds. rewrite <- Qf. destruct (room_for d (waiting w) p); simpl.
  { rewrite (bind_done _ _ _ _ _ (on_q_done _ _ _ _ Eq)). eexists. split; [done|].
    split; [by split_and!|]. etrans; [exact C1|]. by unfold config; split_and!. }
  destruct (drop_front_ d1).
  - rewrite (bind_done _ _ _ _ _ (on_q_done _ _ _ _ Eq)).
    destruct (deque_spec _ _ Hq1) as (q2 & Eq2 & Hq2 & Em & _).
    rewrite (bind_done _ _ _ _ _ (on_q_done _ (set_q q1 d1) _ _ Eq2)).
    rewrite dropped_done.
    2:{ destruct (head (waiting w ++ [p])) as [h|] eqn:Eh; simpl; [|by destruct (waiting w)].
        apply (holds_lookup _ _ h Hq1). destruct (waiting w); injection Eh as <-; set_solver. }
    eexists. split; [done|]. split; [unfold reps; split_and!; simpl; try done; by rewrite Hl|].
    etrans; [exact C1|]. unfold config. split_and!; simpl; try done. by rewrite Em.
  - rewrite (dropped_done _ _ Hp). eexists. split; [done|].
    split; [unfold reps; split_and!; simpl; try done; by rewrite Hl|].
    etrans; [exact C1|]. by unfold config; split_and!.
Qed.

Lemma sheds_busy r f p w : busy (sheds r f p w) = busy w.
Proof. unfold sheds. by destruct r, f. Qed.

(** An idle link takes the first packet, after accounting [pre]. *)
Lemma take_first now (pre : M (DropTail P) unit) d w :
  reps d w →
  (∀ d w, reps d w → ∃ d', pre d = Done tt d' ∧ reps d' w ∧ config d d') →
  ∃ d', (b ← gets base;
         if decide (blocked_ b = 0) then
           p ← deque now;
           if decide (p ≠ NULL) then _ ← pre; _ ← on_base (set_blocked 1); target_recv p else skip
         else skip) d = Done tt d' ∧ reps d' (if busy w then w else serve w) ∧ config d d'.
Proof.
  intros Hd Hpre. rewrite (bind_done _ _ _ (base d) d) by done.
  pose proof Hd as (Hq & _ & _ & Hb & _). rewrite Hb. destruct (busy w) eqn:Eb; [by exists d|].
  rewrite decide_True by done. destruct (deque_ok now d w Hd) as (d2 & E2 & Hd2 & C2).
  rewrite (bind_done _ _ _ _ _ E2). unfold serve. rewrite Eb in Hd2. destruct (waiting w) as [|x xs] eqn:Ew; simpl in *.
  - by exists d2.
  - destruct (holds_lookup _ _ x Hq) as [Hx _]; [set_solver|].
    rewrite decide_True by done. destruct (Hpre d2 _ Hd2) as (d3 & E3 & Hd3 & C3).
    rewrite (bind_done _ _ _ _ _ E3), (bind_done _ _ _ tt (set_base (set_blocked 1 (base d3)) d3)) by done.
    eexists. split; [done|]. split.
    + destruct Hd3 as (? & Hl & Hs & _ & ?). unfold reps. split_and!; simpl; try done. by rewrite Hs.
    + etrans; [exact C2|]. etrans; [exact C3|]. by unfold config; split_and!.
Qed.

Lemma recv_ok now d w p :
  reps d w → arrives d w p →
  ∃ d', recv now p d = Done tt d' ∧
    reps d' (arrive (room_for d (waiting w) p) (drop_front_ d) p w) ∧ config d d'.
Proof.
  intros Hd Hp. destruct (enque_ok now d w p Hd Hp) as (d1 & E1 & Hd1 & C1). unfold recv, arrive.
  rewrite (bind_done _ _ _ _ _ E1).
  destruct (take_first now (account now) d1 _ Hd1) as (d' & E & Hd' & C'); [apply account_ok|].
  exists d'. by split_and!; [..|etrans].
Qed.

Lemma resume_ok now d w :
  reps d w → unblock_on_resume_ (base d) = true → (waiting w ≠ [] → busy w = true) →
  ∃ d', resume now d = Done tt d' ∧ reps d' (serve w) ∧ config d d'.
Proof.
  intros Hd Hun Hbusy. destruct (deque_ok now d w Hd) as (d1 & E1 & Hd1 & C1). unfold resume.
  rewrite (bind_done _ _ _ _ _ E1). unfold serve. destruct (waiting w) as [|x xs] eqn:Ew; simpl in *.
  - destruct (account_ok now d1 _ Hd1) as (d2 & E2 & Hd2 & C2).
    rewrite (bind_done _ _ _ _ _ E2), (bind_done _ _ _ (base d2) d2) by done.
    assert (unblock_on_resume_ (base d2) = true) as -> by (destruct C1 as (?&?&?&?&?&?&?), C2 as (?&?&?&?&?&?&?); congruence).
    eexists. split; [done|]. split.
    + destruct Hd2 as (? & Hl & Hs & _ & ?). by unfold reps; split_and!.
    + etrans; [exact C1|]. etrans; [exact C2|]. by unfold config; split_and!.
  - destruct (holds_lookup _ _ x (proj1 Hd)) as [Hx _]; [rewrite Ew; set_solver|].
    rewrite decide_True by done. eexists. split; [done|]. split.
    + destruct Hd1 as (? & Hl & Hs & Hb & ?). unfold reps. split_and!; simpl; try done; [by rewrite Hs|].
      rewrite Hb. by rewrite Hbusy.
    + etrans; [exact C1|]. by unfold config; split_and!.
Qed.

Definition link_step (e : link_event) : M (DropTail P) unit :=
  match e with Arrival now p => recv now p | Free now => resume now end.
Fixpoint run_link (es : list link_event) : M (DropTail P) unit :=
  match es with [] => skip | e :: es => _ ← link_step e; run_link es end.

(** What the abstract link keeps true, for the packets [as_] that have arrived and the
    queue [d], which fixes the limit and the sizes.  In bytes and under [drop_front_] the
    limit is not kept. *)
Definition within_limit d (xs : list addr) : Prop :=
  if qib_ d then
    drop_front_ d = true ∨ xs = [] ∨ total (pq_packets (q_ d)) xs < s32 (qlim_ d * mean_pktsize_ d)
  else Z.of_nat (length xs) ≤ Z.max 0 (qlim_ d - 1).

Definition accounted (as_ : list addr) (w : wait) : Prop := as_ ≡ₚ passed w ++ lost w ++ waiting w.

Definition conserved d (as_ : list addr) (w : wait) : Prop :=
  accounted as_ w ∧ rev (passed w) ++ waiting w `sublist_of` as_ ∧
  (busy w = false → waiting w = []) ∧ within_limit d (waiting w).

(** The counts do not overflow. *)
Definition countable d (as_ : list addr) : Prop :=
  (∀ p, 0 ≤ packet_size (pq_packets (q_ d)) p) ∧ total (pq_packets (q_ d)) as_ < 2 ^ 31 ∧
  Z.of_nat (length as_) < 2 ^ 31.

Lemma total_nonneg m xs : (∀ p, 0 ≤ packet_size m p) → 0 ≤ total m xs.
Proof. intros Hp. induction xs as [|x xs IH]; simpl; [lia|]. specialize (Hp x). unfold packet_size in Hp. lia. Qed.

#[global] Instance total_perm m : Proper ((≡ₚ) ==> eq) (total m).
Proof. induction 1; simpl; lia. Qed.

Lemma within_limit_tail d xs : (∀ p, 0 ≤ packet_size (pq_packets (q_ d)) p) →
  within_limit d xs → within_limit d (tail xs).
Proof.
  intros Hp. unfold within_limit. destruct xs as [|x xs]; [done|]. cbn [tail].
  destruct (qib_ d); [|simpl; lia]. intros [?|[|Ht]]; [by left|done|]. right. right.
  simpl in Ht. specialize (Hp x). unfold packet_size in Hp. lia.
Qed.

(** The packets waiting, and one more, are countable. *)
Lemma accounted_count as_ w (p : addr) :
  accounted as_ w → Z.of_nat (length (as_ ++ [p])) < 2 ^ 31 → Z.of_nat (length (waiting w)) + 1 < 2 ^ 31.
Proof. intros Hperm. rewrite length_app, Hperm, !length_app. simpl. lia. Qed.

Lemma accounted_total d as_ w p :
  accounted as_ w → countable d (as_ ++ [p]) →
  0 ≤ total (pq_packets (q_ d)) (waiting w ++ [p]) < 2 ^ 31.
Proof.
  intros Hperm (Hs & Ht & _). rewrite Hperm in Ht. rewrite !total_app in *.
  pose proof (total_nonneg _ (passed w) Hs). pose proof (total_nonneg _ (lost w) Hs).
  pose proof (total_nonneg _ (waiting w) Hs). pose proof (total_nonneg _ [p] Hs). lia.
Qed.

Lemma accounted_sheds r f p as_ w : accounted as_ w → accounted (as_ ++ [p]) (sheds r f p w).
Proof.
  unfold accounted, sheds. intros ->. destruct r; [|destruct f]; simpl.
  - by rewrite !(assoc_L app).
  - destruct (waiting w ++ [p]) as [|x xs] eqn:E; [by destruct (waiting w)|]. simpl.
    rewrite <- !(assoc_L app), E. by rewrite Permutation_middle.
  - rewrite <- !(assoc_L app). f_equiv. by rewrite (Permutation_app_comm (waiting w) [p]), Permutation_middle.
Qed.

Lemma accounted_serve as_ w : accounted as_ w → accounted as_ (serve w).
Proof.
  unfold accounted, serve. intros ->. destruct (waiting w); simpl; [done|].
  symmetry. by rewrite (assoc_L app), Permutation_middle, (assoc_L app).
Qed.

(** A queue that counts packets. *)
Lemma packets_sheds d f p w :
  qib_ d = false → Z.of_nat (length (waiting w)) + 1 < 2 ^ 31 →
  Z.of_nat (length (waiting w)) ≤ Z.max 0 (qlim_ d - 1) →
  Z.of_nat (length (waiting (sheds (room_for d (waiting w) p) f p w))) ≤ Z.max 0 (qlim_ d - 1).
Proof.
  intros Hi Hn Hlim. unfold sheds. destruct (room_for _ _ _) eqn:Er; [|destruct f; [|done]].
  - revert Er. unfold room_for, s32. cbn [waiting]. rewrite Hi, bool_decide_eq_true, swrap_small, length_app by lia. simpl. lia.
  - simpl. destruct (waiting w ++ [p]) as [|x xs] eqn:E; [simpl; lia|]. simpl.
    apply (f_equal length) in E. rewrite length_app in E. simpl in E. lia.
Qed.

Lemma conserved_sheds d as_ w p :
  conserved d as_ w → countable d (as_ ++ [p]) →
  let w' := sheds (room_for d (waiting w) p) (drop_front_ d) p w in
  accounted (as_ ++ [p]) w' ∧ rev (passed w') ++ waiting w' `sublist_of` as_ ++ [p] ∧ within_limit d (waiting w').
Proof.
  intros (Hperm & Hsub & _ & Hlim) Hc w'. split; [by apply accounted_sheds|].
  pose proof (accounted_total _ _ _ p Hperm Hc) as Ht.
  pose proof (accounted_count _ _ p Hperm (proj2 (proj2 Hc))) as Hn.
  assert (rev (passed w) ++ waiting w ++ [p] `sublist_of` as_ ++ [p]) as Hsub'.
  { rewrite (assoc_L app). by apply sublist_app. }
  pose proof (packets_sheds d (drop_front_ d) p w) as Hpackets. unfold within_limit in *. fold w' in Hpackets.
  split; [|destruct (qib_ d) eqn:Ei; [|by apply Hpackets]].
  - subst w'. unfold sheds. destruct (room_for _ _ _); [done|]. destruct (drop_front_ d); simpl; [|by apply sublist_inserts_r].
    etrans; [|exact Hsub']. apply sublist_app; [done|]. destruct (waiting w ++ [p]); [done|]. by apply sublist_cons.
  - subst w'. unfold sheds. destruct (room_for _ _ _) eqn:Er; [|by destruct (drop_front_ d); [left|]].
    simpl. right. right. revert Er. unfold room_for. rewrite Ei, bool_decide_eq_true.
    rewrite total_app in *. simpl in *. fold (packet_size (pq_packets (q_ d)) p) in *.
    unfold s32 at 1. rewrite swrap_small by lia. lia.
Qed.

Lemma conserved_serve d as_ w :
  (∀ p, 0 ≤ packet_size (pq_packets (q_ d)) p) →
  accounted as_ w → rev (passed w) ++ waiting w `sublist_of` as_ →
  within_limit d (waiting w) → conserved d as_ (serve w).
Proof.
  intros Hs Hperm Hsub Hlim. split; [by apply accounted_serve|]. unfold serve.
  destruct (waiting w) as [|x xs] eqn:Ew; simpl; [by split_and!|].
  split_and!; [by rewrite <- (assoc_L app)|done|by apply (within_limit_tail d (x :: xs))].
Qed.

Lemma conserved_arrive d as_ w p :
  conserved d as_ w → countable d (as_ ++ [p]) →
  conserved d (as_ ++ [p]) (arrive (room_for d (waiting w) p) (drop_front_ d) p w).
Proof.
  intros Hw Hc. pose proof (conserved_sheds d as_ w p Hw Hc) as (Hperm & Hsub & Hlim). unfold arrive. cbv zeta.
  destruct (busy _) eqn:Eb; [|by apply conserved_serve; [apply Hc|..]]. split_and!; [done..|by rewrite Eb|done].
Qed.

Lemma room_for_config d d' xs p : config d d' → room_for d' xs p = room_for d xs p.
Proof.
  unfold room_for. intros (-> & _ & _ & -> & -> & _ & Hs).
  assert (packet_size (pq_packets (q_ d')) p = packet_size (pq_packets (q_ d)) p) as ->.
  { pose proof (total_proper _ _ Hs [p] [p] eq_refl) as E. simpl in E. unfold packet_size. lia. }
  by rewrite (total_proper _ _ Hs xs xs eq_refl).
Qed.

Lemma run_link_ok es d0 d as_ w :
  reps d w → config d0 d → conserved d0 as_ w → unblock_on_resume_ (base d0) = true →
  NoDup (as_ ++ arrivals es) → countable d0 (as_ ++ arrivals es) →
  (∀ p, p ∈ arrivals es → p ≠ NULL ∧ is_Some (pq_packets (q_ d0) !! p)) →
  ∃ d' w', run_link es d = Done tt d' ∧ reps d' w' ∧ config d0 d' ∧ conserved d0 (as_ ++ arrivals es) w'.
Proof.
  intros Hd C Hw Hun. revert d as_ w Hd C Hw. induction es as [|e es IH]; intros d as_ w Hd C Hw Hnd Hc Hin.
  { exists d, w. unfold arrivals. simpl. by rewrite (app_nil_r as_). }
  cbn [run_link]. destruct e as [now p|now]; cbn [link_step].
  - change (arrivals (Arrival now p :: es)) with (p :: arrivals es) in *.
    destruct (Hin p) as [Hp [v Hv]]; [set_solver|].
    assert (countable d0 (as_ ++ [p])) as Hc1.
    { destruct Hc as (Hs & Ht & Hn). split; [done|]. pose proof (total_nonneg _ (arrivals es) Hs).
      rewrite !total_app, length_app in *. simpl in *. lia. }
    destruct (recv_ok now d w p Hd) as (d1 & E1 & Hd1 & C1).
    { split; [done|]. pose proof C as (_&_&_&_&_&_&S). destruct (same_packets_lookup _ _ _ _ S Hv) as [n Hn].
      split; [by rewrite Hn|]. destruct Hw as (Hperm & _). rewrite NoDup_app in Hnd. intros Hx.
      destruct Hnd as (_ & Hnd & _). apply (Hnd p); [rewrite Hperm, !elem_of_app; by right; right|by left]. }
    rewrite (bind_done _ _ _ _ _ E1). rewrite (cons_middle p as_), (assoc_L app) in Hnd, Hc |- *.
    eapply (IH d1 (as_ ++ [p])); [exact Hd1|by etrans| |done|done|intros x Hx; apply Hin; by right].
    rewrite (room_for_config d0 d) by done. destruct C as (_ & -> & _). by apply conserved_arrive.
  - change (arrivals (Free now :: es)) with (arrivals es) in *.
    pose proof Hw as (Hperm & Hsub & Hidle & Hlim).
    destruct (resume_ok now d w Hd) as (d1 & E1 & Hd1 & C1).
    { destruct C as (_&_&_&_&_&E&_). congruence. }
    { intros Hne. destruct (busy w); [done|]. by destruct Hne, Hidle. }
    rewrite (bind_done _ _ _ _ _ E1). eapply (IH d1 as_); [exact Hd1|by etrans| |done..].
    apply conserved_serve; [apply Hc|done..].
Qed.

Lemma drain_ok ts d w :
  reps d w → unblock_on_resume_ (base d) = true → (busy w = false → waiting w = []) →
  (length (waiting w) < length ts)%nat →
  ∃ d', run_link (Free <$> ts) d = Done tt d' ∧ reps d' (Wait [] (lost w) (rev (waiting w) ++ passed w) false).
Proof.
  revert d w. induction ts as [|t ts IH]; intros d w Hd Hun Hidle Hts; [simpl in Hts; lia|].
  cbn [fmap list_fmap run_link link_step].
  destruct (resume_ok t d w Hd Hun) as (d1 & E1 & Hd1 & C1).
  { intros Hne. destruct (busy w); [done|]. by destruct Hne, Hidle. }
  rewrite (bind_done _ _ _ _ _ E1). assert (unblock_on_resume_ (base d1) = true) as Hun1.
  { destruct C1 as (_&_&_&_&_&E&_). congruence. }
  unfold serve in Hd1. destruct (waiting w) as [|x xs] eqn:Ew.
  - destruct ts as [|t' ts]; [by exists d1|].
    destruct (IH d1 _ Hd1) as (d' & E & Hd'); [done|done|simpl; lia|]. by exists d'.
  - destruct (IH d1 _ Hd1) as (d' & E & Hd'); [done|done|simpl in *; lia|].
    exists d'. split; [done|]. simpl in *. by rewrite <- (assoc_L app).
Qed.

(** C26. Over any history of arrivals and of reports of the link, every packet that arrived
    is sent, dropped or waiting; packets leave in the order of arrival; an idle link has
    no packets waiting; the packets waiting stay below the limit, except those of a queue
    in bytes that drops from the front; and when arrivals cease, the link sends all that
    wait and becomes idle. *)
Theorem link_conserves m lim front stats bytes mean weight intv records ave t es
    (Hin : ∀ p, p ∈ arrivals es → p ≠ NULL ∧ is_Some (m !! p)) (Hnd : NoDup (arrivals es))
    (Hsize : ∀ p, 0 ≤ packet_size m p) (Htotal : total m (arrivals es) < 2 ^ 31)
    (Hlen : Z.of_nat (length (arrivals es)) < 2 ^ 31) :
  let d0 := DropTail_new m lim front stats bytes mean (Queue_new weight 0 true intv records ave t) in
  ∃ d xs, run_link es d0 = Done tt d ∧ holds (q_ d) xs ∧
    arrivals es ≡ₚ sent d ++ dropped d ++ xs ∧ rev (sent d) ++ xs `sublist_of` arrivals es ∧
    (blocked_ (base d) = 0 → xs = []) ∧
    (bytes = false → Z.of_nat (length xs) ≤ Z.max 0 (lim - 1)) ∧
    (bytes = true → front = false → xs = [] ∨ total m xs < s32 (lim * mean)) ∧
    ∀ ts, (length xs < length ts)%nat → ∃ d', run_link (Free <$> ts) d = Done tt d' ∧
      sent d' = rev xs ++ sent d ∧ dropped d' = dropped d ∧ holds (q_ d') [] ∧ blocked_ (base d') = 0.
Proof.
  intros d0. destruct (run_link_ok es d0 d0 [] (Wait [] [] [] false)) as (d & w & E & Hd & C & Hw); try done.
  - unfold reps. split_and!; try done. unfold util_ok. simpl. rewrite length_replicate. lia.
  - unfold conserved, accounted. split_and!; try done. unfold within_limit. simpl. destruct bytes; [by right; left|lia].
  - pose proof Hd as (Hq & Hl & Hs & Hb & _). pose proof Hw as (Hperm & Hsub & Hidle & Hlim).
    exists d, (waiting w). rewrite Hs, Hl. unfold within_limit in Hlim. simpl in Hlim. split_and!; try done.
    + rewrite Hb. destruct (busy w); [done|]. intros _. by apply Hidle.
    + by intros ->.
    + intros -> ->. destruct Hlim as [|[]]; [done|by left|by right].
    + intros ts Hts. destruct (drain_ok ts d w Hd) as (d' & E' & Hd'); [|done|done|].
      { by destruct C as (_&_&_&_&_&->&_). }
      exists d'. split; [done|]. destruct Hd' as (? & ? & ? & ? & _). by split_and!.
Qed.

(** The packets [shrink_queue] keeps, of which it may keep [n], and those it drops, first
    one first. *)
Definition kept (front : bool) (n : nat) (xs : list addr) : list addr :=
  if front then skipn (length xs - n) xs else take n xs.
Definition shed (front : bool) (n : nat) (xs : list addr) : list addr :=
  if front then take (length xs - n) xs else rev (skipn n xs).

Lemma shed_front n x xs : (n ≤ length xs)%nat →
  kept true n (x :: xs) = kept true n xs ∧ shed true n (x :: xs) = x :: shed true n xs.
Proof. intros. unfold kept, shed. simpl. by replace (S (length xs) - n)%nat with (S (length xs - n)) by lia. Qed.

Lemma shed_back n x xs : (n ≤ length xs)%nat →
  kept false n (xs ++ [x]) = kept false n xs ∧ shed false n (xs ++ [x]) = x :: shed false n xs.
Proof.
  intros. unfold kept, shed. rewrite take_app_le, drop_app_le by done. split; [done|].
  by rewrite rev_app_distr.
Qed.

Lemma filter_snoc_ne (x : addr) (xs : list addr) : NoDup (xs ++ [x]) → filter (.≠ x) (xs ++ [x]) = xs.
Proof.
  intros Hnd. rewrite filter_app. rewrite (filter_cons_False _ x) by auto. rewrite filter_nil, (app_nil_r (filter _ xs)).
  apply list_filter_same. intros y Hy. rewrite NoDup_app in Hnd. destruct Hnd as (_ & Hnd & _).
  intros ->. apply (Hnd x Hy). by left.
Qed.

(** One turn of the loop of [shrink_queue]. *)
Definition shrink_one : M (DropTail P) unit :=
  d ← get;
  if drop_front_ d then pp ← on_q PacketQueue.deque; drop pp
  else let pp := tail_ (q_ d) in _ ← on_q (PacketQueue.remove pp); drop pp.

Lemma shrink_one_ok d xs x ys :
  holds (q_ d) xs → xs = (if drop_front_ d then x :: ys else ys ++ [x]) →
  ∃ d', shrink_one d = Done tt d' ∧ holds (q_ d') ys ∧ dropped d' = x :: dropped d ∧ sent d' = sent d ∧
    config d d'.
Proof.
  intros Hq ->. unfold shrink_one. rewrite (bind_done _ _ _ d d) by done. destruct (drop_front_ d) eqn:Ef.
  - destruct (deque_spec _ _ Hq) as (q' & E & Hq' & Em & _). simpl in E, Hq'.
    destruct (holds_lookup _ _ x Hq) as [Hx _]; [by left|].
    rewrite (bind_done _ _ _ _ _ (on_q_done _ _ _ _ E)), (dropped_done _ _ Hx).
    eexists. split_and!; [done..|]. unfold config. simpl. by rewrite Em.
  - pose proof Hq as (_ & Ht & _). rewrite last_snoc in Ht. simpl in Ht. rewrite Ht.
    destruct (holds_lookup _ _ x Hq) as [Hx _]; [apply elem_of_app; right; by left|].
    destruct (remove_spec _ _ x Hq) as (q' & E & Hq' & Hs); [apply elem_of_app; right; by left|].
    rewrite filter_snoc_ne in Hq' by (by eapply holds_NoDup).
    rewrite (bind_done _ _ _ _ _ (on_q_done _ _ _ _ E)), (dropped_done _ _ Hx).
    eexists. by split_and!.
Qed.

Lemma shrink_loop_ok fuel B d xs :
  holds (q_ d) xs → qib_ d = false → 0 ≤ qlim_ d → Z.of_nat (length xs) < 2 ^ 31 →
  (length xs < fuel)%nat →
  ∃ d', shrink_loop fuel B d = Done tt d' ∧ holds (q_ d') (kept (drop_front_ d) (Z.to_nat (qlim_ d)) xs) ∧
    dropped d' = rev (shed (drop_front_ d) (Z.to_nat (qlim_ d)) xs) ++ dropped d ∧ sent d' = sent d.
Proof.
  revert d xs. induction fuel as [|fuel IH]; [lia|]. intros d xs Hq Hi Hl0 Hlt Hf. cbn [shrink_loop].
  rewrite (bind_done _ _ _ d d), Hi by done. pose proof Hq as (_ & _ & Hlen & _).
  unfold length_. rewrite Hlen. unfold s32. rewrite swrap_small by lia.
  case_bool_decide as Hgt.
  2:{ exists d. unfold kept, shed. replace (length xs - Z.to_nat (qlim_ d))%nat with 0%nat by lia.
      rewrite drop_0, take_ge, drop_ge by lia. destruct (drop_front_ d); by split_and!. }
  assert (∃ x ys, xs = (if drop_front_ d then x :: ys else ys ++ [x]) ∧ length xs = S (length ys)) as (x & ys & Exs & El).
  { destruct (drop_front_ d).
    - destruct xs as [|x ys]; [simpl in Hgt; lia|]. by exists x, ys.
    - destruct xs as [|x ys _] using rev_ind; [simpl in Hgt; lia|]. exists x, ys. split; [done|].
      rewrite length_app. simpl. lia. }
  destruct (shrink_one_ok d xs x ys Hq Exs) as (d1 & E1 & Hq1 & Hd1 & Hs1 & C1).
  unfold shrink_one in E1. rewrite (bind_done _ _ _ d d) in E1 by done. rewrite (bind_done _ _ _ _ _ E1).
  pose proof C1 as (Cl & Cf & _ & Ci & _).
  destruct (IH d1 ys Hq1) as (d' & E & Hq' & Hd' & Hs'); [congruence|by rewrite Cl|lia|lia|].
  exists d'. rewrite Cl, Cf in *. split; [done|]. rewrite Hd', Hd1, Hs', Hs1, Exs.
  assert (Z.to_nat (qlim_ d) ≤ length ys)%nat as Hn by lia.
  destruct (drop_front_ d); [destruct (shed_front _ x ys Hn) as [-> ->]|destruct (shed_back _ x ys Hn) as [-> ->]];
    simpl; by rewrite <- (assoc_L app).
Qed.

(** Reducing a queue that counts packets to a limit that is not negative keeps that
    many packets, the oldest ones or, under [drop_front_], the newest ones, in order, and
    drops the others one by one from the other end. *)
Theorem shrink_queue_keeps d xs
    (Hq : holds (q_ d) xs) (Hp : qib_ d = false) (Hl : 0 ≤ qlim_ d)
    (Hn : Z.of_nat (size (pq_packets (q_ d))) < 2 ^ 31) :
  let n := Z.to_nat (qlim_ d) in
  ∃ d', shrink_queue d = Done tt d' ∧ holds (q_ d') (kept (drop_front_ d) n xs) ∧
    dropped d' = rev (shed (drop_front_ d) n xs) ++ dropped d ∧ sent d' = sent d ∧
    length (kept (drop_front_ d) n xs) = Nat.min n (length xs).
Proof.
  intros n. pose proof (holds_size _ _ Hq). unfold shrink_queue. rewrite (bind_done _ _ _ d d) by done.
  destruct (shrink_loop_ok (S (S (size (pq_packets (q_ d))))) (s32 (qlim_ d * mean_pktsize_ d)) d xs)
    as (d' & E & Hq' & Hd' & Hs'); [done..|lia|lia|]. exists d'. split_and!; try done.
  unfold kept. destruct (drop_front_ d); [rewrite length_drop; lia|by rewrite length_take].
Qed.
End drop_tail_spec.

#[local] Instance demo_exp : MathExp := λ _, d_of_Z 1.
Definition demo_link (lim : Z) (front bytes : bool) (mean : Z) : DropTail unit :=
  DropTail_new (pq_packets demo_queue) lim front true bytes mean
    (Queue_new (d_of_Z 1) 0 true (d_of_Z 10) 2 d_zero d_zero).
Definition demo_events : list link_event :=
  [Arrival (d_of_Z 1) 1; Arrival (d_of_Z 2) 2; Arrival (d_of_Z 3) 3; Free (d_of_Z 4)]%N.

Lemma link_conserves_witness :
  ∃ d xs, run_link demo_events (demo_link 2 false false 500) = Done tt d ∧ holds (q_ d) xs ∧
    [1; 2; 3]%N ≡ₚ sent d ++ dropped d ++ xs ∧ (length xs ≤ 1)%nat.
Proof.
  destruct (link_conserves (pq_packets demo_queue) 2 false true false 500 (d_of_Z 1) (d_of_Z 10) 2 d_zero d_zero
    demo_events) as (d & xs & E & Hq & Hperm & _ & _ & Hlen & _).
  - intros p Hp. cut (p = 1 ∨ p = 2 ∨ p = 3)%N; [intros [->|[->| ->]]; by_decision|].
    repeat (apply elem_of_cons in Hp as [->|Hp]; [auto|]). by apply elem_of_nil in Hp.
  - by_decision.
  - intros p. unfold packet_size. change (pq_packets demo_queue) with
      (<[1%N := demo_packet 100]> (<[2%N := demo_packet 200]> (<[3%N := demo_packet 300]> (∅ : gmap N (Packet unit))))).
    rewrite !lookup_insert, lookup_empty. repeat case_decide; vm_compute; discriminate.
  - vm_compute. reflexivity.
  - vm_compute. reflexivity.
  - exists d, xs. split_and!; [exact E|exact Hq|exact Hperm|]. specialize (Hlen eq_refl). simpl in Hlen. lia.
Defined.

(** The packets 1 and 2 (100 and 200 bytes) are waiting. *)
Definition demo_waiting : DropTail unit :=
  match (_ ← on_q (PacketQueue.enque 1%N); _ ← on_q (PacketQueue.enque 2%N); skip) (demo_link 1 true false 500) with
  | Done _ d => d | _ => demo_link 1 true false 500 end.

Lemma demo_waiting_holds : holds (q_ demo_waiting) [1; 2]%N.
Proof.
  split_and!; try by_decision. simpl. split_and!; [by_decision|by_decision|]. exists 2%N. split; [by_decision|].
  split_and!; [done|by_decision|]. exists 0%N. by split; by_decision.
Qed.

Lemma shrink_queue_keeps_witness :
  ∃ d', shrink_queue demo_waiting = Done tt d' ∧ holds (q_ d') [2%N] ∧ dropped d' = [1%N].
Proof.
  destruct (shrink_queue_keeps demo_waiting [1; 2]%N) as (d' & E & Hq & Hd & _).
  - apply demo_waiting_holds.
  - vm_compute. reflexivity.
  - vm_compute. discriminate.
  - vm_compute. reflexivity.
  - exists d'. by split_and!.
Defined.

(** In bytes and dropping from the front, a queue with the limit of 150 bytes keeps the
    packet of 300 bytes that displaces one of 200. *)
Lemma drop_front_exceeds :
  ∃ d, run_link [Arrival (d_of_Z 1) 1; Arrival (d_of_Z 2) 2; Arrival (d_of_Z 3) 3]%N
         (set_base (set_blocked 1 (base demo_waiting)) (demo_link 1 true true 150)) = Done tt d ∧
       byteLength (q_ d) = 300.
Proof. eexists. split; vm_compute; reflexivity. Qed.
