(* ===== verification/PriQueue.v ===== *)
(** * The priority queue of an interface

    The class [PriQueue] of [ns2/queue/priqueue.cc]: a drop-tail queue that, when
    [Prefer_Routing_Protocols] is set, puts the packets of the routing protocols before all
    others.  It is the queue between the link layer and the radio of a mobile node. *)
From S2P Require Import Prelude Double SimChain SimQueues SimPacket PacketQueue.
From S2P Require Import DropTail.
Open Scope Z_scope.

(** The cases of the switch in [recv]. *)
(* [ns2/queue/priqueue.cc:88-98] PriQueue::recv *)
Definition high_priority (t : Z) : bool :=
  bool_decide (t ∈ [PT_DSR; PT_MESSAGE; PT_TORA; PT_AODV; PT_MSVR; PT_AOMDV]).

(* [ns2/queue/priqueue.h:50-82] class PriQueue *)
Record PriQueue (P : Type) := MkPriQueue {
  droptail : DropTail P;
  Prefer_Routing_Protocols : Z;
}.
Arguments MkPriQueue {P}.
Arguments droptail {P}.
Arguments Prefer_Routing_Protocols {P}.

Section pri_queue.
Context {P : Type} `{MathExp}.
Abbreviation dt := (DropTail P).
Abbreviation pq := (PriQueue P).

Definition set_droptail (d : dt) (s : pq) : pq := MkPriQueue d (Prefer_Routing_Protocols s).
Definition on_dt {A} (m : M dt A) : M pq A := zoom droptail set_droptail m.

(* [ns2/queue/priqueue.cc:65-69] PriQueue::PriQueue *)
Definition PriQueue_new (prefer : Z) (d : dt) : pq := MkPriQueue d prefer.

(** The utilisation of the link is not accounted for here. *)
(* [ns2/queue/priqueue.cc:109-134] PriQueue::recvHighPriority *)
Definition recvHighPriority (now : double) (p : addr) : M dt unit :=
  _ ← on_q (PacketQueue.enqueHead p);
  d ← get;
  _ ← (if bool_decide (length_ (q_ d) >= qlim_ d) then
         to_drop ← on_q (lookup_ (s32 (length_ (q_ d) - 1)));
         _ ← on_q (PacketQueue.remove to_drop);
         drop to_drop
       else skip);
  b ← gets base;
  if decide (blocked_ b = 0) then
    p ← DropTail.deque now;
    if decide (p ≠ NULL) then
      _ ← on_base (set_blocked 1);
      target_recv p
    else skip
  else skip.

(* [ns2/queue/priqueue.cc:81-106] PriQueue::recv *)
Definition recv (now : double) (p : addr) : M pq unit :=
  s ← get;
  v ← deref (λ s, pq_packets (q_ (droptail s))) p;
  if decide (Prefer_Routing_Protocols s ≠ 0) then
    if high_priority (ptype_ (cmn v)) then on_dt (recvHighPriority now p)
    else on_dt (DropTail.recv now p)
  else on_dt (DropTail.recv now p).

(** [test] is the function [filter] points to. *)
(* [ns2/queue/priqueue.cc:141-151] PriQueue::filter *)
Fixpoint filter_loop (fuel : nat) (test : addr → M dt Z) (i : Z) : M dt unit :=
  match fuel with
  | O => stuck NoFuel
  | S fuel =>
      d ← get;
      if bool_decide (i < length_ (q_ d)) then
        p ← on_q (lookup_ i);
        r ← test p;
        if decide (r ≠ 0) then _ ← on_q (PacketQueue.remove p); filter_loop fuel test i
        else filter_loop fuel test (s32 (i + 1))
      else skip
  end.
(* [ns2/queue/priqueue.cc:136-152] PriQueue::filter *)
Definition filter_all (test : addr → M dt Z) : M dt unit :=
  d ← get; filter_loop (S (S (size (pq_packets (q_ d))))) test 0.

(** The packet found, or null, and the one before it. *)
(* [ns2/queue/priqueue.cc:161-166] PriQueue::filter *)
Fixpoint next_hop_loop (fuel : nat) (id : Z) (pp p : addr) : M dt (addr * addr) :=
  match fuel with
  | O => stuck NoFuel
  | S fuel =>
      if decide (p = NULL) then mret (p, pp)
      else
        v ← deref (λ d, pq_packets (q_ d)) p;
        if decide (next_hop_ (cmn v) = id) then mret (p, pp)
        else next_hop_loop fuel id p (pk_next v)
  end.
(* [ns2/queue/priqueue.cc:154-178] PriQueue::filter *)
Definition filter_next_hop (id : Z) : M dt addr :=
  d ← get;
  '(p, pp) ← next_hop_loop (S (size (pq_packets (q_ d)))) id NULL (head_ (q_ d));
  _ ← (if decide (p ≠ NULL) then
         if decide (pp = NULL) then on_q (PacketQueue.remove p)
         else on_q (remove_after p pp)
       else skip);
  mret p.

(* [ns2/queue/priqueue.cc:186-191] PriQueue::Terminate *)
Fixpoint terminate_loop (fuel : nat) (now : double) : M dt unit :=
  match fuel with
  | O => stuck NoFuel
  | S fuel =>
      p ← DropTail.deque now;
      if decide (p ≠ NULL) then _ ← drop p; terminate_loop fuel now else skip
  end.
(* [ns2/queue/priqueue.cc:183-192] PriQueue::Terminate *)
Definition Terminate (now : double) : M dt unit :=
  d ← get; terminate_loop (S (size (pq_packets (q_ d)))) now.
End pri_queue.

(** ** The queue as two sequences

    A routing packet goes before all that wait; if the queue is then full the last packet
    is lost. *)
Definition jump (lim : Z) (p : addr) (w : wait) : wait :=
  let xs := p :: waiting w in
  if bool_decide (Z.of_nat (length xs) >= lim) then
    Wait (removelast xs) (default NULL (last xs) :: lost w) (passed w) (busy w)
  else Wait xs (lost w) (passed w) (busy w).

Section pri_queue_spec.
Context {P : Type} `{MathExp}.
Implicit Types (d : DropTail P) (s : PriQueue P) (m : gmap N (Packet P)) (w : wait).

Lemma recvHighPriority_ok now d w p :
  reps d w → arrives d w p → Z.of_nat (length (waiting w)) + 1 < 2 ^ 31 →
  ∃ d', recvHighPriority now p d = Done tt d' ∧
    reps d' (let w' := jump (qlim_ d) p w in if busy w' then w' else serve w') ∧ config d d'.
Proof.
  intros (Hq & Hl & Hs & Hb & Hu) (Hp & [v Hv] & Hx) Hn. unfold recvHighPriority.
  destruct (enqueHead_spec _ _ p v Hq Hp Hx Hv) as (q1 & E1 & Hq1 & S1).
  rewrite (bind_done _ _ _ _ _ (on_q_done _ _ _ _ E1)), (bind_done _ _ _ (set_q q1 d) (set_q q1 d)) by done.
  assert (∃ d1, (if bool_decide (length_ q1 >= qlim_ d) then
         to_drop ← on_q (lookup_ (s32 (length_ q1 - 1)));
         _ ← on_q (PacketQueue.remove to_drop);
         drop to_drop
       else skip) (set_q q1 d) = Done tt d1 ∧ reps d1 (jump (qlim_ d) p w) ∧ config d d1) as (d1 & E2 & Hd1 & C1).
  { pose proof Hq1 as (_ & _ & El & _). unfold length_. rewrite El. unfold s32. rewrite !swrap_small by (simpl; lia).
    unfold jump. case_bool_decide as Hge; rewrite ?El.
    2:{ eexists. split; [done|]. split; [by split_and!|]. by unfold config; split_and!. }
    destruct (exists_last (l := p :: waiting w)) as (ys & x & Exs); [done|]. rewrite Exs in *.
    assert (Z.to_nat (Z.of_nat (length (ys ++ [x])) - 1) = length ys) as En by (rewrite length_app; simpl; lia).
    pose proof (lookup_spec _ _ (Z.of_nat (length (ys ++ [x])) - 1) Hq1) as Elk.
    rewrite En, list_lookup_middle in Elk by done.
    rewrite (bind_done _ _ _ _ _ (on_q_done _ (set_q q1 d) _ _ Elk)). cbn [from_option].
    destruct (remove_spec _ _ x Hq1) as (q2 & E3 & Hq2 & S2); [set_solver|].
    rewrite (bind_done _ _ _ _ _ (on_q_done _ (set_q q1 (set_q q1 d)) _ _ E3)).
    rewrite filter_snoc_ne in Hq2 by (by eapply holds_NoDup).
    destruct (holds_lookup _ _ x Hq1) as [Hx0 _]; [set_solver|]. rewrite dropped_done by done.
    eexists. split; [done|]. rewrite removelast_last, last_snoc. split; [unfold reps; split_and!; simpl; try done; by rewrite Hl|].
    unfold config. split_and!; simpl; try done. by etrans. }
  rewrite (bind_done _ _ _ _ _ E2).
  destruct (take_first now skip d1 _ Hd1) as (d' & E & Hd' & C'); [intros; by eexists|].
  exists d'. by split_and!; [..|etrans].
Qed.

(** ** Routing packets go first *)

Definition is_routing m (p : addr) : bool :=
  from_option (λ v, high_priority (ptype_ (cmn v))) false (m !! p).
Definition routing m (xs : list addr) : list addr := filter (λ p, is_routing m p = true) xs.
Definition others m (xs : list addr) : list addr := filter (λ p, is_routing m p = false) xs.

Lemma is_routing_same m m' p : same_packets m m' → is_routing m' p = is_routing m p.
Proof.
  intros Hs. specialize (Hs p). unfold is_routing.
  destruct (m !! p) as [[]|], (m' !! p) as [[]|]; simpl in *; by simplify_eq.
Qed.

(** The packets that wait are routing packets [rs], the latest first, and then others,
    [ds], the oldest first; the others are sent in the order of arrival. *)
Definition prioritised m (as_ : list addr) w (rs ds : list addr) : Prop :=
  waiting w = rs ++ ds ∧ Forall (λ p, is_routing m p = true) rs ∧ Forall (λ p, is_routing m p = false) ds ∧
  rev rs `sublist_of` routing m as_ ∧ rev (others m (passed w)) ++ ds `sublist_of` others m as_.

Definition pri_ok d (as_ : list addr) w : Prop :=
  accounted as_ w ∧ (∃ rs ds, prioritised (pq_packets (q_ d)) as_ w rs ds) ∧
  (busy w = false → waiting w = []) ∧
  (qib_ d = false → Z.of_nat (length (waiting w)) ≤ Z.max 0 (qlim_ d - 1)).

Lemma routing_app m xs ys : routing m (xs ++ ys) = routing m xs ++ routing m ys.
Proof. apply filter_app. Qed.
Lemma others_app m xs ys : others m (xs ++ ys) = others m xs ++ others m ys.
Proof. apply filter_app. Qed.
Lemma routing_cons m x xs :
  routing m (x :: xs) = if is_routing m x then x :: routing m xs else routing m xs.
Proof. unfold routing. rewrite filter_cons. by destruct (is_routing m x). Qed.
Lemma others_cons m x xs :
  others m (x :: xs) = if is_routing m x then others m xs else x :: others m xs.
Proof. unfold others. rewrite filter_cons. by destruct (is_routing m x). Qed.

(** The first packet is taken away, to be sent or to be dropped. *)
Lemma prioritised_first m as_ w rs ds x xs ls ps b :
  prioritised m as_ w rs ds → waiting w = x :: xs → ps = passed w ∨ ps = x :: passed w →
  ∃ rs ds, prioritised m as_ (Wait xs ls ps b) rs ds.
Proof.
  intros (Ew & Hr & Ho & Hsr & Hso) Ex Hps. rewrite Ew in Ex. destruct rs as [|r rs]; simpl in Ex; subst.
  - apply Forall_cons in Ho as [Hx Ho]. exists [], xs. split_and!; try done. simpl.
    destruct Hps as [->| ->].
    + etrans; [|exact Hso]. apply sublist_app; [done|by apply sublist_cons].
    + rewrite others_cons, Hx. simpl. by rewrite <- (assoc_L app).
  - injection Ex as -> <-. apply Forall_cons in Hr as [Hx Hr]. exists rs, ds. split_and!; try done; simpl.
    + etrans; [|exact Hsr]. simpl. by apply sublist_inserts_r.
    + destruct Hps as [->| ->]; [done|]. by rewrite others_cons, Hx.
Qed.

Lemma prioritised_last m as_ w rs ds ls b :
  prioritised m as_ w rs ds → ∃ rs ds, prioritised m as_ (Wait (removelast (waiting w)) ls (passed w) b) rs ds.
Proof.
  intros (-> & Hr & Ho & Hsr & Hso). destruct ds as [|x ds _] using rev_ind.
  - destruct rs as [|x rs _] using rev_ind; [by exists [], []|].
    apply Forall_app in Hr as [Hr _]. rewrite rev_app_distr in Hsr. exists rs, []. split_and!; try done; simpl.
    + by rewrite !(app_nil_r _), removelast_last.
    + etrans; [|exact Hsr]. by apply sublist_cons.
  - apply Forall_app in Ho as [Ho _]. exists rs, ds. split_and!; try done; simpl.
    + by rewrite (assoc_L app), removelast_last.
    + etrans; [|exact Hso]. apply sublist_app; [done|by apply sublist_inserts_r].
Qed.

Lemma prioritised_more m as_ w rs ds p : prioritised m as_ w rs ds → prioritised m (as_ ++ [p]) w rs ds.
Proof.
  intros (Ew & Hr & Ho & Hsr & Hso). split_and!; [done..| |].
  - rewrite routing_app. by apply sublist_inserts_r.
  - rewrite others_app. by apply sublist_inserts_r.
Qed.

Lemma prioritised_back m as_ w rs ds p ls b :
  prioritised m as_ w rs ds → is_routing m p = false →
  prioritised m (as_ ++ [p]) (Wait (waiting w ++ [p]) ls (passed w) b) rs (ds ++ [p]).
Proof.
  intros (Ew & Hr & Ho & Hsr & Hso) Hp. split_and!; simpl; [by rewrite Ew, (assoc_L app)|done|..].
  - by rewrite Forall_app, Forall_singleton.
  - rewrite routing_app. by apply sublist_inserts_r.
  - rewrite others_app, others_cons, Hp, (assoc_L app). by apply sublist_app.
Qed.

Lemma prioritised_front m as_ w rs ds p ls b :
  prioritised m as_ w rs ds → is_routing m p = true →
  prioritised m (as_ ++ [p]) (Wait (p :: waiting w) ls (passed w) b) (p :: rs) ds.
Proof.
  intros (Ew & Hr & Ho & Hsr & Hso) Hp. split_and!; simpl; [by rewrite Ew|by constructor|done|..].
  - rewrite routing_app, routing_cons, Hp. by apply sublist_app.
  - rewrite others_app. by apply sublist_inserts_r.
Qed.

(** After a change of the queue the link takes the first packet if it is idle. *)
Lemma pri_go d as_ w :
  accounted as_ w → (∃ rs ds, prioritised (pq_packets (q_ d)) as_ w rs ds) →
  (qib_ d = false → Z.of_nat (length (waiting w)) ≤ Z.max 0 (qlim_ d - 1)) →
  pri_ok d as_ (serve w) ∧ pri_ok d as_ (if busy w then w else serve w).
Proof.
  intros Hacc (rs & ds & Hp) Hlim.
  assert (pri_ok d as_ (serve w)) as Hs.
  { split; [by apply accounted_serve|]. unfold serve. destruct (waiting w) as [|x xs] eqn:Ew; simpl in *.
    - split_and!; [|done..]. exists rs, ds. destruct Hp as (E & ?). by split; [rewrite <- E|].
    - split_and!; [|done|intros Hi; specialize (Hlim Hi); lia].
      eapply prioritised_first; [exact Hp|done|by right]. }
  split; [done|]. destruct (busy w) eqn:Eb; [|done].
  split_and!; [done|by exists rs, ds|by rewrite Eb|done].
Qed.

(** The arrival of a packet that is not a routing packet. *)
Lemma pri_arrive d as_ w p :
  pri_ok d as_ w → Z.of_nat (length (as_ ++ [p])) < 2 ^ 31 → is_routing (pq_packets (q_ d)) p = false →
  pri_ok d (as_ ++ [p]) (arrive (room_for d (waiting w) p) (drop_front_ d) p w).
Proof.
  intros (Hacc & (rs & ds & Hp) & _ & Hlim) Hn Hnot. apply pri_go; [by apply accounted_sheds| |].
  - pose proof (λ ls b, prioritised_back _ _ _ _ _ p ls b Hp Hnot) as Hback.
    unfold sheds. destruct (room_for _ _ _); [|destruct (drop_front_ d)].
    + eexists _, _. apply Hback.
    + destruct (waiting w ++ [p]) as [|x xs] eqn:E; [by destruct (waiting w)|].
      eapply prioritised_first; [apply (Hback [] true)|done|by left].
    + eexists _, _. by apply (prioritised_more _ _ _ _ _ p).
  - intros Hi. apply packets_sheds; [done| |by apply Hlim]. by eapply accounted_count.
Qed.

Lemma pri_jump d as_ w p :
  pri_ok d as_ w → is_routing (pq_packets (q_ d)) p = true →
  pri_ok d (as_ ++ [p]) (let w' := jump (qlim_ d) p w in if busy w' then w' else serve w').
Proof.
  intros (Hacc & (rs & ds & Hp) & _ & Hlim) Hr.
  pose proof (λ ls b, prioritised_front _ _ _ _ _ p ls b Hp Hr) as Hfront. cbv zeta. apply pri_go.
  - unfold accounted, jump in *. rewrite Hacc. case_bool_decide; simpl.
    + destruct (exists_last (l := p :: waiting w)) as (ys & x & E); [done|].
      change (match waiting w with [] => [] | _ => p :: removelast (waiting w) end) with (removelast (p :: waiting w)).
      rewrite E, removelast_last, last_snoc. simpl.
      trans (passed w ++ lost w ++ p :: waiting w); [solve_Permutation|]. rewrite E. solve_Permutation.
    + solve_Permutation.
  - unfold jump. case_bool_decide.
    + eapply (prioritised_last _ _ _ _ _ _ _ (Hfront [] true)).
    + eexists _, _. apply Hfront.
  - intros Hi. specialize (Hlim Hi). unfold jump. case_bool_decide as E.
    + cbn [waiting]. destruct (exists_last (l := p :: waiting w)) as (ys & x & Ex); [done|].
      rewrite Ex, removelast_last. apply (f_equal length) in Ex. rewrite length_app in Ex. simpl in *. lia.
    + simpl in *. lia.
Qed.

(** ** Histories *)

Definition pri_step (e : link_event) : M (PriQueue P) unit :=
  match e with Arrival now p => recv now p | Free now => on_dt (resume now) end.
Fixpoint run_pri (es : list link_event) : M (PriQueue P) unit :=
  match es with [] => skip | e :: es => _ ← pri_step e; run_pri es end.

Lemma on_dt_done {A} (f : M (DropTail P) A) d n a d' :
  f d = Done a d' → on_dt f (MkPriQueue d n) = Done a (MkPriQueue d' n).
Proof. unfold on_dt, zoom. simpl. by intros ->. Qed.

Lemma pri_recv_ok now d0 d as_ w p n :
  n ≠ 0 → reps d w → config d0 d → arrives d w p → pri_ok d0 as_ w →
  Z.of_nat (length (as_ ++ [p])) < 2 ^ 31 →
  ∃ d' w', recv now p (MkPriQueue d n) = Done tt (MkPriQueue d' n) ∧ reps d' w' ∧ config d0 d' ∧
    pri_ok d0 (as_ ++ [p]) w'.
Proof.
  intros Hn Hd C Hp Hw Hlen. pose proof Hp as (Hp0 & [v Hv] & _). unfold recv.
  rewrite (bind_done _ _ _ (MkPriQueue d n) (MkPriQueue d n)) by done.
  rewrite (bind_done _ _ _ _ _ (deref_done _ _ _ (MkPriQueue d n) Hp0 Hv)). cbn [Prefer_Routing_Protocols].
  rewrite decide_True by done.
  assert (is_routing (pq_packets (q_ d0)) p = high_priority (ptype_ (cmn v))) as Er.
  { destruct C as (_ & _ & _ & _ & _ & _ & S). rewrite <- (is_routing_same _ _ p S). unfold is_routing. by rewrite Hv. }
  pose proof (accounted_count _ _ p (proj1 Hw) Hlen). destruct (high_priority _).
  - destruct (recvHighPriority_ok now d w p Hd Hp) as (d' & E & Hd' & C'); [done|].
    eexists d', _. split_and!; [by apply on_dt_done|exact Hd'|by etrans|].
    destruct C as (-> & _). by apply pri_jump.
  - destruct (recv_ok now d w p Hd Hp) as (d' & E & Hd' & C').
    eexists d', _. split_and!; [by apply on_dt_done|exact Hd'|by etrans|].
    rewrite (room_for_config d0 d) by done. destruct C as (_ & -> & _). by apply pri_arrive.
Qed.

Lemma run_pri_ok es d0 d as_ w n :
  n ≠ 0 → reps d w → config d0 d → pri_ok d0 as_ w → unblock_on_resume_ (base d0) = true →
  NoDup (as_ ++ arrivals es) → Z.of_nat (length (as_ ++ arrivals es)) < 2 ^ 31 →
  (∀ p, p ∈ arrivals es → p ≠ NULL ∧ is_Some (pq_packets (q_ d0) !! p)) →
  ∃ d' w', run_pri es (MkPriQueue d n) = Done tt (MkPriQueue d' n) ∧ reps d' w' ∧ config d0 d' ∧
    pri_ok d0 (as_ ++ arrivals es) w'.
Proof.
  intros Hn0 Hd C Hw Hun. revert d as_ w Hd C Hw. induction es as [|e es IH]; intros d as_ w Hd C Hw Hnd Hn Hin.
  { exists d, w. unfold arrivals. simpl. by rewrite (app_nil_r as_). }
  cbn [run_pri]. destruct e as [now p|now]; cbn [pri_step].
  - change (arrivals (Arrival now p :: es)) with (p :: arrivals es) in *.
    destruct (Hin p) as [Hp [v Hv]]; [set_solver|].
    destruct (pri_recv_ok now d0 d as_ w p n) as (d1 & w1 & E1 & Hd1 & C1 & Hw1); try done.
    { split; [done|]. pose proof C as (_&_&_&_&_&_&S). destruct (same_packets_lookup _ _ _ _ S Hv) as [k Hk].
      split; [by rewrite Hk|]. destruct Hw as (Hperm & _). rewrite NoDup_app in Hnd. intros Hx.
      destruct Hnd as (_ & Hnd & _). apply (Hnd p); [rewrite Hperm, !elem_of_app; by right; right|by left]. }
    { rewrite !length_app in *. simpl in *. lia. }
    rewrite (bind_done _ _ _ _ _ E1). rewrite (cons_middle p as_), (assoc_L app) in Hnd, Hn |- *.
    by eapply (IH d1 (as_ ++ [p])); [..|intros x Hx; apply Hin; right].
  - change (arrivals (Free now :: es)) with (arrivals es) in *.
    pose proof Hw as (Hperm & Hp & Hidle & Hlim).
    destruct (resume_ok now d w Hd) as (d1 & E1 & Hd1 & C1).
    { destruct C as (_&_&_&_&_&E&_). congruence. }
    { intros Hne. destruct (busy w); [done|]. by destruct Hne, Hidle. }
    rewrite (bind_done _ _ _ _ _ (on_dt_done _ _ n _ _ E1)). eapply (IH d1 as_); [exact Hd1|by etrans| |done..].
    by apply pri_go.
Qed.

Lemma run_pri_free ts d n d' :
  run_link (Free <$> ts) d = Done tt d' →
  run_pri (Free <$> ts) (MkPriQueue d n) = Done tt (MkPriQueue d' n).
Proof.
  revert d. induction ts as [|t ts IH]; intros d; simpl; [by intros [= ->]|].
  intros ([] & d1 & E1 & E)%bind_done_inv. rewrite (bind_done _ _ _ _ _ (on_dt_done _ _ n _ _ E1)). by apply IH.
Qed.

(** C33. Over any history of arrivals and of reports of the link, a queue that prefers
    routing protocols holds routing packets, the latest arrival first, and behind them other
    packets in the order of arrival, so that no other packet is sent while a routing packet
    waits; the other packets are sent in the order of arrival; every packet that arrived is
    sent, dropped or waiting; an idle link has no packets waiting; and when arrivals cease
    the link sends all that wait. *)
Theorem routing_packets_first m lim front stats bytes mean weight intv records ave t prefer es
    (Hpre : prefer ≠ 0) (Hin : ∀ p, p ∈ arrivals es → p ≠ NULL ∧ is_Some (m !! p))
    (Hnd : NoDup (arrivals es)) (Hlen : Z.of_nat (length (arrivals es)) < 2 ^ 31) :
  let d0 := DropTail_new m lim front stats bytes mean (Queue_new weight 0 true intv records ave t) in
  ∃ d rs ds, run_pri es (PriQueue_new prefer d0) = Done tt (PriQueue_new prefer d) ∧
    holds (q_ d) (rs ++ ds) ∧
    Forall (λ p, is_routing m p = true) rs ∧ Forall (λ p, is_routing m p = false) ds ∧
    rev rs `sublist_of` routing m (arrivals es) ∧
    rev (others m (sent d)) ++ ds `sublist_of` others m (arrivals es) ∧
    arrivals es ≡ₚ sent d ++ dropped d ++ rs ++ ds ∧
    (blocked_ (base d) = 0 → rs ++ ds = []) ∧
    (bytes = false → Z.of_nat (length (rs ++ ds)) ≤ Z.max 0 (lim - 1)) ∧
    ∀ ts, (length (rs ++ ds) < length ts)%nat →
      ∃ d', run_pri (Free <$> ts) (PriQueue_new prefer d) = Done tt (PriQueue_new prefer d') ∧
        sent d' = rev (rs ++ ds) ++ sent d ∧ dropped d' = dropped d ∧ holds (q_ d') [].
Proof.
  intros d0. destruct (run_pri_ok es d0 d0 [] (Wait [] [] [] false) prefer)
    as (d & w & E & Hd & C & Hperm & (rs & ds & Ew & Hr & Ho & Hsr & Hso) & Hidle & Hlim); try done.
  - unfold reps. split_and!; try done. unfold util_ok. simpl. rewrite length_replicate. lia.
  - unfold pri_ok, accounted. split_and!; try done; [|simpl; lia]. by exists [], [].
  - pose proof Hd as (Hq & Hl & Hs & Hb & _). exists d, rs, ds. rewrite <- Ew, Hs, Hl. split_and!; try done.
    + rewrite Hb. destruct (busy w); [done|]. intros _. by apply Hidle.
    + intros ts Hts. destruct (drain_ok ts d w Hd) as (d' & E' & Hd'); [|done|done|].
      { by destruct C as (_&_&_&_&_&->&_). }
      exists d'. destruct Hd' as (Hq' & Hl' & Hs' & _). simpl in Hq', Hl', Hs'. split_and!; try done. by apply run_pri_free.
Qed.

(** Without the preference it is a drop-tail queue. *)
Lemma no_preference now p d :
  p ≠ NULL → is_Some (pq_packets (q_ d) !! p) →
  recv now p (PriQueue_new 0 d) = on_dt (DropTail.recv now p) (PriQueue_new 0 d).
Proof.
  intros Hp [v Hv]. unfold recv. rewrite (bind_done _ _ _ (PriQueue_new 0 d) (PriQueue_new 0 d)) by done.
  by rewrite (bind_done _ _ _ _ _ (deref_done _ _ _ (PriQueue_new 0 d) Hp Hv)).
Qed.

(** ** Searching and purging the queue *)

(** [filter] removes the packets its test accepts, and leaves the order of the others. *)
Lemma filter_loop_spec fuel test (sel : addr → Z) d xs ys :
  (∀ p d, test p d = Done (sel p) d) → holds (q_ d) (xs ++ ys) → Z.of_nat (length (xs ++ ys)) < 2 ^ 31 →
  (length ys < fuel)%nat →
  ∃ d', filter_loop fuel test (Z.of_nat (length xs)) d = Done tt d' ∧
    holds (q_ d') (xs ++ filter (λ p, sel p = 0) ys) ∧ config d d' ∧ dropped d' = dropped d ∧ sent d' = sent d.
Proof.
  intros Hsel. revert d xs ys. induction fuel as [|fuel IH]; [lia|]. intros d xs ys Hq Hn Hf. cbn [filter_loop].
  rewrite (bind_done _ _ _ d d) by done. pose proof Hq as (_ & _ & El & _). unfold length_. rewrite El.
  rewrite length_app in Hn |- *. rewrite s32_small by lia.
  destruct ys as [|y ys]; simpl in *.
  { rewrite bool_decide_false by lia. by exists d. }
  rewrite bool_decide_true by lia. pose proof (lookup_spec _ _ (Z.of_nat (length xs)) Hq) as Elk.
  rewrite list_lookup_middle in Elk by lia. rewrite (bind_done _ _ _ _ _ (on_q_done _ _ _ _ Elk)). cbn [from_option].
  rewrite (bind_done _ _ _ (sel y) (set_q (q_ d) d)) by apply Hsel.
  assert (set_q (q_ d) d = d) as -> by by destruct d. rewrite filter_cons.
  case_decide as Hy; [case_decide as Hy'; [done|]|case_decide as Hy'; [|lia]].
  - destruct (remove_spec _ _ y Hq) as (q' & E & Hq' & Hs); [set_solver|].
    rewrite filter_ne_split in Hq' by (by eapply holds_NoDup).
    rewrite (bind_done _ _ _ _ _ (on_q_done _ _ _ _ E)).
    destruct (IH (set_q q' d) xs ys) as (d' & E' & Hq2 & C & Hd & Hs'); [done|rewrite length_app; lia|lia|].
    exists d'. split_and!; try done. etrans; [|exact C]. by unfold config; split_and!.
  - replace (s32 (Z.of_nat (length xs) + 1)) with (Z.of_nat (length (xs ++ [y]))).
    2:{ rewrite s32_small, length_app by lia. simpl. lia. }
    destruct (IH d (xs ++ [y]) ys) as (d' & E' & Hq2 & R); [by rewrite <- (assoc_L app)|rewrite !length_app; simpl; lia|lia|].
    exists d'. rewrite <- (assoc_L app) in Hq2. by destruct R as (?&?&?); split_and!.
Qed.

Lemma filter_all_spec test (sel : addr → Z) d xs :
  (∀ p d, test p d = Done (sel p) d) → holds (q_ d) xs → Z.of_nat (length xs) < 2 ^ 31 →
  ∃ d', filter_all test d = Done tt d' ∧ holds (q_ d') (filter (λ p, sel p = 0) xs) ∧ config d d' ∧
    dropped d' = dropped d ∧ sent d' = sent d.
Proof.
  intros Hsel Hq Hn. unfold filter_all. rewrite (bind_done _ _ _ d d) by done.
  apply (filter_loop_spec _ test sel d [] xs); [done..|]. pose proof (holds_size _ _ Hq). lia.
Qed.

Lemma next_hop_loop_spec fuel id d pre pp ys :
  holds (q_ d) (pre ++ ys) → pp = default NULL (last pre) → (length ys < fuel)%nat →
  let hop p := next_hop_ ∘ cmn <$> pq_packets (q_ d) !! p in
  next_hop_loop fuel id pp (default NULL (head ys)) d =
    Done (match list_find (λ p, hop p = Some id) ys with
          | Some (i, p) => (p, default NULL (last (pre ++ take i ys)))
          | None => (NULL, default NULL (last (pre ++ ys)))
          end) d.
Proof.
  intros Hq -> Hf hop. revert pre fuel Hq Hf. induction ys as [|y ys IH]; intros pre fuel Hq Hf.
  { destruct fuel; [lia|]. simpl. by rewrite (app_nil_r pre). }
  destruct fuel as [|fuel]; [lia|]. cbn [next_hop_loop head default].
  destruct (holds_lookup _ _ y Hq) as [Hy [v Hv]]; [set_solver|]. simpl. rewrite decide_False by done.
  rewrite (bind_done _ _ _ _ _ (deref_done _ _ _ d Hy Hv)).
  assert (hop y = Some (next_hop_ (cmn v))) as Eh by (unfold hop; by rewrite Hv).
  destruct (decide (next_hop_ (cmn v) = id)) as [Ei|Ei].
  { rewrite decide_True by congruence. simpl. by rewrite (app_nil_r pre). }
  rewrite (decide_False (P := hop y = Some id)) by congruence.
  assert (pk_next v = default NULL (head ys)) as ->.
  { destruct Hq as (Hc & _). apply chain_app in Hc as (b & _ & Hc).
    destruct (chain_from _ _ _ _ Hc) as (v' & Hv' & En & _). congruence. }
  specialize (IH (pre ++ [y]) fuel). rewrite last_snoc in IH. change (default NULL (Some y)) with y in IH. rewrite IH.
  - destruct (list_find _ ys) as [[i p]|]; simpl; by rewrite <- (assoc_L app).
  - by rewrite <- (assoc_L app).
  - simpl in Hf. lia.
Qed.

(** [filter] with an address takes out the first packet on its way to it. *)
Lemma filter_next_hop_spec id d xs :
  holds (q_ d) xs →
  let hop p := next_hop_ ∘ cmn <$> pq_packets (q_ d) !! p in
  match list_find (λ p, hop p = Some id) xs with
  | Some (_, p) => ∃ d', filter_next_hop id d = Done p d' ∧ holds (q_ d') (filter (.≠ p) xs) ∧
      config d d' ∧ dropped d' = dropped d ∧ sent d' = sent d ∧
      ∀ a, a ∉ xs → pq_packets (q_ d') !! a = pq_packets (q_ d) !! a
  | None => filter_next_hop id d = Done NULL d
  end.
Proof.
  intros Hq hop. unfold filter_next_hop. rewrite (bind_done _ _ _ d d) by done.
  pose proof Hq as (Hc & _). rewrite (chain_head _ _ _ Hc). pose proof (holds_size _ _ Hq).
  rewrite (bind_done _ _ _ _ _ (next_hop_loop_spec (S (size (pq_packets (q_ d)))) id d [] NULL xs Hq eq_refl ltac:(lia))). fold hop.
  destruct (list_find _ xs) as [[i p]|] eqn:E; [|done].
  apply list_find_Some in E as (Ei & _ & _). pose proof (take_drop_middle _ _ _ Ei) as Exs. simpl.
  destruct (holds_lookup _ _ p Hq) as [Hp _]; [by eapply list_elem_of_lookup_2|]. rewrite decide_True by done.
  assert (Hstep : ∀ q', holds q' (filter (.≠ p) xs) → same_packets (pq_packets (q_ d)) (pq_packets q') →
    (∀ a, a ∉ xs → pq_packets q' !! a = pq_packets (q_ d) !! a) →
    ∃ d', (mret p : M (DropTail P) addr) (set_q q' d) = Done p d' ∧ holds (q_ d') (filter (.≠ p) xs) ∧ config d d' ∧
      dropped d' = dropped d ∧ sent d' = sent d ∧ ∀ a, a ∉ xs → pq_packets (q_ d') !! a = pq_packets (q_ d) !! a).
  { intros q' Hq' Hs Ha. eexists. split; [done|]. by unfold config; split_and!. }
  destruct (take i xs) as [|pp pre _] eqn:Et using rev_ind.
  - simpl. destruct (remove_spec _ _ p Hq) as (q' & E & Hq' & Hs); [by eapply list_elem_of_lookup_2|].
    rewrite (bind_done _ _ _ _ _ (on_q_done _ _ _ _ E)). apply Hstep; [done..|]. intros a _.
    rewrite (remove_first_frame _ _ _ E); [done| |done]. by rewrite (chain_head _ _ _ Hc), <- Exs.
  - rewrite last_snoc. cbn [from_option]. rewrite <- Exs, <- (assoc_L app) in Hq. simpl in Hq.
    destruct (holds_lookup _ _ pp Hq) as [Hpp _]; [set_solver|]. rewrite decide_False by done.
    destruct (remove_after_spec _ _ _ _ _ Hq) as (q' & E & Hq' & Hs).
    rewrite (bind_done _ _ _ _ _ (on_q_done _ _ _ _ E)). apply Hstep; [|done|].
    + rewrite <- Exs, filter_ne_split; [by rewrite <- (assoc_L app)|].
      rewrite <- (assoc_L app). by eapply holds_NoDup.
    + intros a Ha. apply (remove_after_frame _ _ _ _ _ E). intros ->. apply Ha. rewrite <- Exs. set_solver.
Qed.

(** [Terminate] drops all the packets that wait. *)
Lemma terminate_spec now d w :
  reps d w → ∃ d', Terminate now d = Done tt d' ∧
    reps d' (Wait [] (rev (waiting w) ++ lost w) (passed w) (busy w)) ∧ config d d'.
Proof.
  intros Hd. unfold Terminate. rewrite (bind_done _ _ _ d d) by done.
  pose proof (holds_size _ _ (proj1 Hd)) as Hf. revert Hf. generalize (S (size (pq_packets (q_ d)))) as fuel.
  intros fuel. revert d w Hd. induction fuel as [|fuel IH]; [lia|]. intros d w Hd Hf. cbn [terminate_loop].
  destruct (deque_ok now d w Hd) as (d1 & E1 & Hd1 & C1). rewrite (bind_done _ _ _ _ _ E1).
  destruct (waiting w) as [|x xs] eqn:Ew; simpl in *.
  - by exists d1.
  - destruct (holds_lookup _ _ x (proj1 Hd)) as [Hx _]; [rewrite Ew; set_solver|]. rewrite decide_True by done.
    rewrite (bind_done _ _ _ _ _ (dropped_done _ _ Hx)).
    destruct Hd1 as (Hq & Hl & Hs & Hb & Hu).
    edestruct (IH (MkDropTail (q_ d1) (qlim_ d1) (drop_front_ d1) (summarystats d1) (qib_ d1) (mean_pktsize_ d1)
      (base d1) (x :: dropped d1) (sent d1)) (Wait xs (x :: lost w) (passed w) (busy w)))
      as (d' & E & Hd' & C'); [unfold reps; split_and!; simpl; try done; by rewrite Hl|simpl; lia|].
    exists d'. split_and!; [done| |].
    + simpl in Hd'. by rewrite <- (assoc_L app).
    + etrans; [exact C1|]. etrans; [|exact C']. by unfold config; split_and!.
Qed.
End pri_queue_spec.

(** Packets 1 and 4 carry data, packets 2 and 3 are GeoSVR's. *)
Definition pri_packet (t : Z) : Packet unit :=
  Pkt NULL 0 0 true None (Cmn t 100 0 0 d_zero 0 0 0 0 0 false 0 0) zero_ip tt.
Definition pri_memory : gmap N (Packet unit) :=
  <[1%N := pri_packet 2]> (<[2%N := pri_packet PT_MSVR]> (<[3%N := pri_packet PT_MSVR]> (<[4%N := pri_packet 2]> ∅))).
Definition pri_demo (prefer lim : Z) (front : bool) : PriQueue unit :=
  PriQueue_new prefer (DropTail_new pri_memory lim front true false 500
    (Queue_new (d_of_Z 1) 0 true (d_of_Z 100) 2 d_zero d_zero)).
#[local] Instance unit_exp : MathExp := λ _, d_of_Z 1.

Definition pri_events : list link_event :=
  [Arrival (d_of_Z 1) 1; Arrival (d_of_Z 2) 4; Arrival (d_of_Z 3) 2; Arrival (d_of_Z 4) 3]%N.

Lemma routing_packets_first_witness :
  ∃ d rs ds, run_pri pri_events (pri_demo 1 50 false) = Done tt (PriQueue_new 1 d) ∧ holds (q_ d) (rs ++ ds) ∧
    rev rs `sublist_of` [2; 3]%N ∧ [1; 4; 2; 3]%N ≡ₚ sent d ++ dropped d ++ rs ++ ds.
Proof.
  destruct (routing_packets_first pri_memory 50 false true false 500 (d_of_Z 1) (d_of_Z 100) 2 d_zero d_zero 1 pri_events)
    as (d & rs & ds & E & Hq & _ & _ & Hr & _ & Hperm & _).
  - discriminate.
  - intros p Hp. cut (p = 1 ∨ p = 4 ∨ p = 2 ∨ p = 3)%N; [intros [->|[->|[->| ->]]]; by_decision|].
    repeat (apply elem_of_cons in Hp as [->|Hp]; [auto|]). by apply elem_of_nil in Hp.
  - by_decision.
  - vm_compute. reflexivity.
  - exists d, rs, ds. split_and!; [exact E|exact Hq|exact Hr|exact Hperm].
Defined.

(** The routing packets 2 and 3, which waited together, leave in the opposite order. *)
Lemma routing_packets_reversed :
  ∃ s, run_pri (pri_events ++ [Free (d_of_Z 5); Free (d_of_Z 6); Free (d_of_Z 7)]) (pri_demo 1 50 false) = Done tt s ∧
       rev (sent (droptail s)) = [1; 3; 2; 4]%N.
Proof. eexists. split; vm_compute; reflexivity. Qed.

(** With [drop_front_], a data packet that arrives at a full queue displaces a routing
    packet. *)
Lemma data_displaces_routing :
  ∃ s, run_pri [Arrival (d_of_Z 1) 1; Arrival (d_of_Z 2) 2; Arrival (d_of_Z 3) 4]%N (pri_demo 1 2 true) = Done tt s ∧
       dropped (droptail s) = [2%N].
Proof. eexists. split; vm_compute; reflexivity. Qed.

(** The time before a routing packet arrives at an idle link counts as busy: at time 20 the
    link has been used for half of the time, or all of it. *)
Lemma idle_time_counts :
  ∃ s1 s2,
    run_pri [Arrival (d_of_Z 10) 1; Free (d_of_Z 20)]%N (pri_demo 1 50 false) = Done tt s1 ∧
    run_pri [Arrival (d_of_Z 10) 2; Free (d_of_Z 20)]%N (pri_demo 1 50 false) = Done tt s2 ∧
    cur_util_ (base (droptail s1)) = ddiv (d_of_Z 1) (d_of_Z 2) ∧ cur_util_ (base (droptail s2)) = d_of_Z 1.
Proof. eexists _, _. split_and!; vm_compute; reflexivity. Qed.
