(* ===== verification/AllocAddr.v ===== *)
(** * The allocator of address bits

    [ns2/routing/alloc-address.cc]: an address is a word, and its fields (the bit of
    multicast addresses, the levels of a hierarchical address) are allocated from a map of
    its bits, from the highest bit down. *)
From S2P Require Import Prelude.
Open Scope Z_scope.

(** [bitmap_] has [size_] elements, once it is allocated. *)
(* [ns2/routing/alloc-address.cc:45-61] class AllocAddr *)
Record AllocAddr := MkAllocAddr { size_ : Z; bitmap_ : list Z }.

(* [ns2/routing/alloc-address.cc:141-146] AllocAddr::AllocAddr *)
Definition AllocAddr_new : AllocAddr := MkAllocAddr 0 [].

(* [ns2/routing/alloc-address.cc:154-160] AllocAddr::alloc *)
Definition alloc (n : Z) : M AllocAddr unit := put (MkAllocAddr n (replicate (Z.to_nat n) 0)).

(* [ns2/routing/alloc-address.cc:163-184] AllocAddr::check_size *)
Definition check_size (n : Z) : M AllocAddr bool :=
  s ← get;
  if bool_decide (n ≤ size_ s) then mret true
  else
    _ ← assert_ (bool_decide (n > 0));
    if decide (size_ s = 0) then _ ← alloc n; mret true
    else mret (negb (bool_decide (n > size_ s))).

(* [ns2/routing/alloc-address.cc:186-189] AllocAddr::mark *)
Definition mark (i : Z) : M AllocAddr unit :=
  s ← get;
  _ ← within (at_ (bitmap_ s) i);
  put (MkAllocAddr (size_ s) (<[Z.to_nat i := 1]> (bitmap_ s))).
Definition clear (i : Z) : M AllocAddr unit :=
  s ← get;
  _ ← within (at_ (bitmap_ s) i);
  put (MkAllocAddr (size_ s) (<[Z.to_nat i := 0]> (bitmap_ s))).

(** The processor takes the count of a shift modulo 32. *)
(* [ns2/routing/alloc-address.cc:192-196] AllocAddr::get_mask *)
Definition get_mask (fieldsize : Z) : Z := s32 (s32 (Z.shiftl 1 (fieldsize `mod` 32)) - 1).

(* [ns2/routing/alloc-address.cc:199-206] AllocAddr::test *)
Definition test (which : Z) : M AllocAddr bool :=
  s ← get;
  _ ← assert_ (bool_decide (which ≤ size_ s));
  b ← within (at_ (bitmap_ s) which);
  mret (bool_decide (b = 1)).

(** The loop over the bits from [i] down, which stops at one in use; the result is the
    place where it stopped and the number of free bits. *)
(* [ns2/routing/alloc-address.cc:218-224] AllocAddr::find_free *)
Fixpoint free_run (fuel : nat) (k len i count : Z) : M AllocAddr (Z * Z) :=
  match fuel with
  | O => stuck NoFuel
  | S fuel =>
      if bool_decide (k < len ∧ 0 ≤ i) then
        t ← test i;
        if (t : bool) then mret (i, 0) else free_run fuel (k + 1) len (i - 1) (count + 1)
      else mret (i, count)
  end.
(* [ns2/routing/alloc-address.cc:214-230] AllocAddr::find_free *)
Fixpoint find_loop (fuel : nat) (len i count : Z) : M AllocAddr (option Z) :=
  match fuel with
  | O => stuck NoFuel
  | S fuel =>
      if bool_decide (0 ≤ i) then
        t ← test i;
        if (t : bool) then find_loop fuel len (i - 1) count
        else
          s ← get;
          '(j, count) ← free_run (S (length (bitmap_ s))) 0 len i count;
          if decide (count = len) then mret (Some i) else find_loop fuel len (j - 1) count
      else mret None
  end.
(* [ns2/routing/alloc-address.cc:209-231] AllocAddr::find_free *)
Definition find_free (len : Z) : M AllocAddr (option Z) :=
  s ← get; find_loop (S (length (bitmap_ s))) len (size_ s - 1) 0.

(* [ns2/routing/alloc-address.cc:238-240] AllocAddr::set_field *)
Fixpoint mark_down (n : nat) (i : Z) : M AllocAddr unit :=
  match n with O => skip | S n => _ ← mark i; mark_down n (i - 1) end.
(** The mask and the shift. *)
(* [ns2/routing/alloc-address.cc:234-243] AllocAddr::set_field *)
Definition set_field (offset len : Z) : M AllocAddr (Z * Z) :=
  _ ← mark_down (Z.to_nat len) offset;
  mret (get_mask len, offset - (len - 1)).

(* [ns2/routing/alloc-address.cc:250-257] AllocAddr::free_field *)
Fixpoint free_loop (n : nat) (i len count : Z) : M AllocAddr unit :=
  match n with
  | O => skip
  | S n =>
      t ← test i;
      count ← (if (t : bool) then _ ← clear i; mret (count + 1) else mret count);
      if decide (count = len) then skip else free_loop n (i + 1) len count
  end.
(* [ns2/routing/alloc-address.cc:246-258] AllocAddr::free_field *)
Definition free_field (len : Z) : M AllocAddr unit :=
  s ← get; free_loop (Z.to_nat (size_ s)) 0 len 0.

(** The three commands; no result is an error reported to Tcl. *)
(* [ns2/routing/alloc-address.cc:84-91] AllocAddr::command *)
Definition freebit (fieldlen : Z) : M AllocAddr unit :=
  _ ← assert_ (bool_decide (fieldlen > 0)); free_field fieldlen.
(* [ns2/routing/alloc-address.cc:94-111] AllocAddr::command *)
Definition setbit (fieldlen addrsize : Z) : M AllocAddr (option (Z * Z)) :=
  ok ← check_size addrsize;
  if negb ok then mret None
  else
    offset ← find_free fieldlen;
    match offset with
    | None => mret None
    | Some offset => r ← set_field offset fieldlen; mret (Some r)
    end.
(* [ns2/routing/alloc-address.cc:112-136] AllocAddr::command *)
Definition expand_port (fieldlen addrsize oldfldlen : Z) : M AllocAddr (option (Z * Z)) :=
  ok ← check_size addrsize;
  if negb ok then mret None
  else
    offset ← find_free fieldlen;
    match offset with
    | None => mret None
    | Some offset =>
        _ ← mark_down (Z.to_nat fieldlen) offset;
        mret (Some (get_mask (s32 (fieldlen + oldfldlen)), offset - (fieldlen - 1)))
    end.

(** ** What the allocator promises *)

(** Bits are zero or one. *)
Definition alloc_ok (s : AllocAddr) : Prop :=
  Z.of_nat (length (bitmap_ s)) = size_ s ∧ Forall (λ b, b = 0 ∨ b = 1) (bitmap_ s).

(** The [len] bits from [q] down are free. *)
Definition window (bm : list Z) (len q : Z) : Prop :=
  len ≤ q + 1 ∧ ∀ j, q - len < j ≤ q → bm !! Z.to_nat j = Some 0.

Implicit Types (s : AllocAddr).

Lemma bit_cases s i : alloc_ok s → 0 ≤ i < size_ s →
  bitmap_ s !! Z.to_nat i = Some 0 ∧ test i s = Done false s ∨
  bitmap_ s !! Z.to_nat i = Some 1 ∧ test i s = Done true s.
Proof.
  intros [Hl Hb] Hi. destruct (lookup_lt_is_Some_2 (bitmap_ s) (Z.to_nat i)) as [b Eb]; [lia|].
  assert (test i s = Done (bool_decide (b = 1)) s) as E.
  { unfold test. rewrite (bind_done _ _ _ s s), bool_decide_true by (done || lia).
    rewrite (bind_done _ _ _ tt s) by done.
    rewrite (bind_done _ _ _ b s); [done|]. unfold at_. by rewrite decide_True, Eb by lia. }
  destruct (proj1 (Forall_lookup _ _) Hb _ _ Eb) as [-> | ->]; rewrite E; [by left|by right].
Qed.

(** Of the run that starts at [q], [k] bits were found to be free. *)
Lemma free_run_spec fuel s len k q :
  alloc_ok s → 0 ≤ k ≤ len → k ≤ q + 1 → q < size_ s → (Z.to_nat (q + 1 - k) < fuel)%nat →
  (∀ j, q - k < j ≤ q → bitmap_ s !! Z.to_nat j = Some 0) →
  ∃ j n, free_run fuel k len (q - k) k s = Done (j, n) s ∧
    (n = len ∧ window (bitmap_ s) len q ∨
     n = 0 ∧ 0 ≤ j ≤ q ∧ q - len < j ∧ bitmap_ s !! Z.to_nat j = Some 1 ∨
     j = -1 ∧ n = q + 1 ∧ n < len).
Proof.
  intros Hs. revert k. induction fuel as [|fuel IH]; [lia|]. intros k Hk Hkq Hq Hf Hfree. cbn [free_run].
  case_bool_decide as Hgo.
  - destruct (bit_cases s (q - k) Hs) as [[Hb E]|[Hb E]]; [lia| |]; rewrite (bind_done _ _ _ _ _ E).
    + replace (q - k - 1) with (q - (k + 1)) by lia. apply IH; [lia..|].
      intros j Hj. destruct (decide (j = q - k)) as [->|]; [done|]. apply Hfree. lia.
    + eexists _, _. split; [done|]. right. left. by split_and!; [done|lia|lia|lia|].
  - eexists _, _. split; [done|]. destruct (decide (k = len)) as [->|].
    + left. split; [done|]. split; [lia|done].
    + right. right. lia.
Qed.

Lemma find_loop_spec fuel s len i :
  alloc_ok s → 0 < len → -1 ≤ i < size_ s → (Z.to_nat (i + 1) < fuel)%nat →
  ∃ r, find_loop fuel len i 0 s = Done r s ∧
    match r with
    | Some p => 0 ≤ p ≤ i ∧ window (bitmap_ s) len p ∧ ∀ q, p < q ≤ i → ¬ window (bitmap_ s) len q
    | None => ∀ q, q ≤ i → ¬ window (bitmap_ s) len q
    end.
Proof.
  intros Hs Hlen. revert i. induction fuel as [|fuel IH]; [lia|]. intros i Hi Hf. cbn [find_loop].
  (* Once the bits down to [j] are excluded, the search goes on below. *)
  assert (Hon : ∀ j, 0 ≤ j ≤ i → i - len < j → bitmap_ s !! Z.to_nat j = Some 1 →
    ∃ r, find_loop fuel len (j - 1) 0 s = Done r s ∧
    match r with
    | Some p => 0 ≤ p ≤ i ∧ window (bitmap_ s) len p ∧ ∀ q, p < q ≤ i → ¬ window (bitmap_ s) len q
    | None => ∀ q, q ≤ i → ¬ window (bitmap_ s) len q
    end).
  { intros j Hj Hlj Hb.
    assert (Hno : ∀ q, j ≤ q ≤ i → ¬ window (bitmap_ s) len q).
    { intros q Hq [_ Hw]. specialize (Hw j ltac:(lia)). congruence. }
    destruct (IH (j - 1)) as (r & E & Hr); [lia..|]. exists r. split; [done|]. destruct r as [p|].
    - destruct Hr as (Hp & Hw & Hr). split_and!; [lia..|done|]. intros q Hq.
      destruct (decide (q < j)); [apply Hr; lia|apply Hno; lia].
    - intros q Hq. destruct (decide (q < j)); [apply Hr; lia|apply Hno; lia]. }
  case_bool_decide as Hgo.
  2:{ exists None. split; [done|]. intros q Hq [Hw _]. lia. }
  destruct (bit_cases s i Hs) as [[Hb E]|[Hb E]]; [lia| |]; rewrite (bind_done _ _ _ _ _ E).
  2:{ apply Hon; [lia..|done]. }
  rewrite (bind_done _ _ _ s s) by done.
  assert (Z.of_nat (length (bitmap_ s)) = size_ s) as Hl by apply Hs.
  destruct (free_run_spec (S (length (bitmap_ s))) s len 0 i) as (j & n & Er & Hr); [done|lia..|].
  rewrite Z.sub_0_r in Er. rewrite (bind_done _ _ _ _ _ Er).
  destruct Hr as [(-> & Hw)|[(-> & Hj & Hlj & Hb1)|(-> & -> & Hn)]].
  - rewrite decide_True by done. exists (Some i). split_and!; [done|lia..|done|lia].
  - rewrite decide_False by lia. by apply Hon.
  - rewrite decide_False by lia. exists None. destruct fuel as [|fuel]; [lia|]. cbn [find_loop].
    rewrite bool_decide_false by lia. split; [done|]. intros q Hq [Hw _]. lia.
Qed.

(** The map with the [n] bits from [i] down in use. *)
Definition occupied (bm bm' : list Z) (i n : Z) : Prop :=
  length bm' = length bm ∧
  ∀ j, 0 ≤ j → bm' !! Z.to_nat j = if decide (i - n < j ≤ i) then Some 1 else bm !! Z.to_nat j.

Lemma mark_done s i : 0 ≤ i < Z.of_nat (length (bitmap_ s)) →
  mark i s = Done tt (MkAllocAddr (size_ s) (<[Z.to_nat i := 1]> (bitmap_ s))).
Proof.
  intros Hi. unfold mark. rewrite (bind_done _ _ _ s s) by done.
  destruct (lookup_lt_is_Some_2 (bitmap_ s) (Z.to_nat i)) as [b Eb]; [lia|].
  rewrite (bind_done _ _ _ b s); [done|]. unfold at_. by rewrite decide_True, Eb by lia.
Qed.

Lemma mark_down_spec n s i :
  i < Z.of_nat (length (bitmap_ s)) → Z.of_nat n ≤ i + 1 →
  ∃ bm, mark_down n i s = Done tt (MkAllocAddr (size_ s) bm) ∧ occupied (bitmap_ s) bm i (Z.of_nat n).
Proof.
  revert s i. induction n as [|n IH]; intros s i Hi Hn.
  - exists (bitmap_ s). split; [by destruct s|]. split; [done|]. intros j Hj. by rewrite decide_False by lia.
  - cbn [mark_down]. rewrite (bind_done _ _ _ _ _ (mark_done s i ltac:(lia))).
    destruct (IH (MkAllocAddr (size_ s) (<[Z.to_nat i := 1]> (bitmap_ s))) (i - 1)) as (bm & E & Hl & Hb).
    + simpl. rewrite length_insert. lia.
    + lia.
    + exists bm. split; [done|]. simpl in *. rewrite length_insert in Hl. split; [done|].
      intros j Hj. rewrite Hb by done. destruct (decide (j = i)) as [->|].
      * rewrite decide_False, decide_True by lia. by rewrite list_lookup_insert_eq by lia.
      * rewrite list_lookup_insert_ne by lia. by repeat case_decide; try lia.
Qed.

Lemma find_free_spec s len :
  alloc_ok s → 0 < len →
  ∃ r, find_free len s = Done r s ∧
    match r with
    | Some p => 0 ≤ p < size_ s ∧ window (bitmap_ s) len p ∧ ∀ q, p < q < size_ s → ¬ window (bitmap_ s) len q
    | None => ∀ q, q < size_ s → ¬ window (bitmap_ s) len q
    end.
Proof.
  intros Hs Hlen. unfold find_free. rewrite (bind_done _ _ _ s s) by done. pose proof Hs as [Hl _].
  destruct (find_loop_spec (S (length (bitmap_ s))) s len (size_ s - 1)) as (r & E & Hr); [done|lia..|].
  exists r. split; [done|]. destruct r as [p|].
  - destruct Hr as (Hp & Hw & Hr). split_and!; [lia..|done|]. intros q Hq. apply Hr. lia.
  - intros q Hq. apply Hr. lia.
Qed.

Lemma occupied_ok s bm i n :
  alloc_ok s → occupied (bitmap_ s) bm i n → alloc_ok (MkAllocAddr (size_ s) bm).
Proof.
  intros [Hl Hb] [El Eb]. split; simpl; [lia|]. apply Forall_lookup. intros k b Hk.
  rewrite <- (Nat2Z.id k) in Hk. rewrite Eb in Hk by lia. case_decide; [simplify_eq; by right|].
  exact (proj1 (Forall_lookup _ _) Hb _ _ Hk).
Qed.

Lemma setbit_spec s len n :
  alloc_ok s → 0 < len < 32 → 0 < size_ s →
  ∃ r s', setbit len n s = Done r s' ∧ alloc_ok s' ∧
    match r with
    | Some (mask, shift) =>
        n ≤ size_ s ∧ mask = 2 ^ len - 1 ∧ window (bitmap_ s) len (shift + len - 1) ∧
        (∀ q, shift + len ≤ q < size_ s → ¬ window (bitmap_ s) len q) ∧
        occupied (bitmap_ s) (bitmap_ s') (shift + len - 1) len
    | None => s' = s ∧ (size_ s < n ∨ ∀ q, q < size_ s → ¬ window (bitmap_ s) len q)
    end.
Proof.
  intros Hs Hlen Hn. unfold setbit. assert (check_size n s = Done (bool_decide (n ≤ size_ s)) s) as E.
  { unfold check_size. rewrite (bind_done _ _ _ s s) by done. case_bool_decide as E; [done|].
    rewrite (bind_done _ _ _ tt s), decide_False, bool_decide_true by (lia || by rewrite bool_decide_true by lia).
    done. }
  rewrite (bind_done _ _ _ _ _ E). case_bool_decide as Hsz; simpl.
  2:{ exists None, s. split_and!; [done..|left; lia]. }
  destruct (find_free_spec s len Hs ltac:(lia)) as (r & Ef & Hr). rewrite (bind_done _ _ _ _ _ Ef).
  destruct r as [p|]; [|exists None, s; split_and!; [done..|by right]].
  destruct Hr as (Hp & Hw & Hr). pose proof Hs as [Hl _]. unfold set_field.
  destruct (mark_down_spec (Z.to_nat len) s p) as (bm & Em & Ho); [lia|destruct Hw; lia|].
  rewrite (bind_done (mark_down _ _ ≫= _) _ s (get_mask len, p - (len - 1)) (MkAllocAddr (size_ s) bm))
    by by rewrite (bind_done _ _ _ _ _ Em).
  rewrite Z2Nat.id in Ho by lia. eexists _, _. split; [done|]. split; [by eapply occupied_ok|].
  replace (p - (len - 1) + len - 1) with p by lia. split_and!; [done| |done| |done].
  - unfold get_mask. rewrite Z.mod_small, Z.shiftl_mul_pow2, Z.mul_1_l by lia.
    destruct (decide (len = 31)) as [->|]; [done|].
    assert (2 ^ len ≤ 2 ^ 30) by (apply Z.pow_le_mono_r; lia). assert (0 < 2 ^ len) by (apply Z.pow_pos_nonneg; lia).
    rewrite (s32_small (2 ^ len)) by lia. apply s32_small. lia.
  - intros q Hq. apply Hr. lia.
Qed.

(** The map before its first use is the one that the first call allocates. *)
Definition in_use (n : Z) s : AllocAddr :=
  if decide (size_ s = 0) then MkAllocAddr n (replicate (Z.to_nat n) 0) else s.

Lemma setbit_in_use s len n : 0 < n → setbit len n s = setbit len n (in_use n s).
Proof.
  intros Hn. unfold in_use. destruct (decide (size_ s = 0)) as [E|]; [|done].
  assert (check_size n s = Done true (MkAllocAddr n (replicate (Z.to_nat n) 0))) as E1.
  { unfold check_size, mbind, M_bind. simpl. rewrite bool_decide_false, bool_decide_true, decide_True by lia. done. }
  assert (check_size n (MkAllocAddr n (replicate (Z.to_nat n) 0)) = Done true (MkAllocAddr n (replicate (Z.to_nat n) 0))) as E2.
  { unfold check_size, mbind, M_bind. simpl. by rewrite bool_decide_true by lia. }
  unfold setbit. by rewrite (bind_done _ _ _ _ _ E1), (bind_done _ _ _ _ _ E2).
Qed.

(** C35. [setbit] gives a field the highest free bits that are wide enough and together, marks
    them and no others as used, and answers with a mask of that many ones and the place of
    the lowest bit; it fails, and changes nothing, only if no such bits exist or the map
    is too small. The first call makes the map, with all bits free. *)
Theorem setbit_allocates s len n (Hs : alloc_ok s) (Hlen : 0 < len < 32) (Hn : 0 < n) :
  let s0 := in_use n s in
  ∃ r s', setbit len n s = Done r s' ∧ alloc_ok s' ∧
    match r with
    | Some (mask, shift) =>
        n ≤ size_ s0 ∧ mask = 2 ^ len - 1 ∧ window (bitmap_ s0) len (shift + len - 1) ∧
        (∀ q, shift + len ≤ q < size_ s0 → ¬ window (bitmap_ s0) len q) ∧
        occupied (bitmap_ s0) (bitmap_ s') (shift + len - 1) len
    | None => s' = s0 ∧ (size_ s0 < n ∨ ∀ q, q < size_ s0 → ¬ window (bitmap_ s0) len q)
    end.
Proof.
  intros s0. rewrite setbit_in_use by done. apply setbit_spec; [|done|]; unfold s0, in_use; case_decide; try done.
  - split; simpl; [rewrite length_replicate; lia|]. apply Forall_replicate. by left.
  - destruct Hs as [Hs _]. lia.
Qed.

(** ** Fields allocated in turn *)

(** A map of [n] bits of which the lowest [k] are free. *)
Definition packed (n k : nat) : AllocAddr := MkAllocAddr (Z.of_nat n) (replicate k 0 ++ replicate (n - k) 1).

Lemma packed_bit n k j : (k ≤ n)%nat → 0 ≤ j < Z.of_nat n →
  bitmap_ (packed n k) !! Z.to_nat j = Some (if decide (j < Z.of_nat k) then 0 else 1).
Proof.
  intros Hk Hj. simpl. case_decide.
  - rewrite lookup_app_l by (rewrite length_replicate; lia). by apply lookup_replicate_2; lia.
  - rewrite lookup_app_r by (rewrite length_replicate; lia). rewrite length_replicate.
    by apply lookup_replicate_2; lia.
Qed.

Lemma packed_ok n k : (k ≤ n)%nat → alloc_ok (packed n k).
Proof.
  intros Hk. split; simpl; [rewrite length_app, !length_replicate; lia|].
  apply Forall_app. split; apply Forall_replicate; auto.
Qed.

Lemma packed_window n k len q : (k ≤ n)%nat → 0 < len → q < Z.of_nat n →
  window (bitmap_ (packed n k)) len q ↔ len ≤ q + 1 ∧ q < Z.of_nat k.
Proof.
  intros Hk Hlen Hq. split.
  - intros [Hw Hb]. split; [done|]. specialize (Hb q ltac:(lia)). rewrite packed_bit in Hb by lia.
    by case_decide.
  - intros [Hw Hqk]. split; [done|]. intros j Hj. rewrite packed_bit, decide_True by lia. done.
Qed.

Lemma setbit_packed n k len :
  (k ≤ n)%nat → (0 < len ≤ k)%nat → (len < 32)%nat →
  setbit (Z.of_nat len) (Z.of_nat n) (packed n k) =
    Done (Some (2 ^ Z.of_nat len - 1, Z.of_nat (k - len))) (packed n (k - len)).
Proof.
  intros Hk Hlen H32. destruct (setbit_spec (packed n k) (Z.of_nat len) (Z.of_nat n))
    as (r & s' & E & Hok & Hr); [by apply packed_ok|lia|simpl; lia|].
  destruct r as [[mask shift]|].
  2:{ destruct Hr as (_ & [Hr|Hr]); [simpl in Hr; lia|]. exfalso. apply (Hr (Z.of_nat k - 1)); [simpl; lia|].
      apply packed_window; lia. }
  destruct Hr as (_ & -> & Hw & Hno & Hl & Ho).
  assert (shift = Z.of_nat (k - len)) as ->.
  { assert (shift + Z.of_nat len - 1 < Z.of_nat n) as Hlt.
    { destruct Hw as [_ Hb]. specialize (Hb (shift + Z.of_nat len - 1) ltac:(lia)).
      apply lookup_lt_Some in Hb. simpl in Hb. rewrite length_app, !length_replicate in Hb. lia. }
    apply packed_window in Hw; [|lia..]. destruct (decide (Z.of_nat k - 1 ≤ shift + Z.of_nat len - 1)); [lia|].
    exfalso. apply (Hno (Z.of_nat k - 1)); [simpl; lia|]. apply packed_window; lia. }
  rewrite E. f_equal. destruct s' as [sz bm], Hok as [Hsz _]. cbn [bitmap_ size_] in *.
  assert (length bm = n) as Hn by (rewrite Hl; simpl; rewrite length_app, !length_replicate; lia).
  unfold packed. f_equal; [lia|]. apply list_eq_same_length with n; [|done|].
  { rewrite length_app, !length_replicate. lia. }
  intros i x y Hi Hx Hy.
  change (bitmap_ (packed n (k - len)) !! i = Some y) in Hy.
  rewrite <- (Nat2Z.id i) in Hx, Hy. rewrite Ho in Hx by lia. rewrite packed_bit in Hx, Hy by lia.
  repeat case_decide; simplify_eq; lia.
Qed.

(** The fields allocated for the levels of [bs] bits. *)
Fixpoint fields (k : nat) (bs : list nat) : list (Z * Z) :=
  match bs with
  | [] => []
  | b :: bs => (2 ^ Z.of_nat b - 1, Z.of_nat (k - b)) :: fields (k - b) bs
  end.

(** The masks and shifts, if every call succeeds: the procedure [set-idbits] of
    [ns2/tcl/lib/ns-address.tcl] calls [setbit] for each level in turn. *)
Fixpoint setbits (n : Z) (bs : list nat) : M AllocAddr (option (list (Z * Z))) :=
  match bs with
  | [] => mret (Some [])
  | b :: bs =>
      r ← setbit (Z.of_nat b) n;
      match r with
      | None => mret None
      | Some r => rs ← setbits n bs; mret (cons r <$> rs)
      end
  end.

Lemma setbits_packed n k bs :
  (k ≤ n)%nat → Forall (λ b, 0 < b < 32)%nat bs → (sum_list bs ≤ k)%nat →
  setbits (Z.of_nat n) bs (packed n k) = Done (Some (fields k bs)) (packed n (k - sum_list bs)).
Proof.
  revert k. induction bs as [|b bs IH]; intros k Hk Hb Hs; simpl in *; [by rewrite Nat.sub_0_r|].
  apply Forall_cons in Hb as [Hb Hbs]. rewrite (bind_done _ _ _ _ _ (setbit_packed n k b ltac:(lia) ltac:(lia) ltac:(lia))).
  rewrite (bind_done _ _ _ _ _ (IH (k - b)%nat ltac:(lia) Hbs ltac:(lia))). simpl.
  by rewrite Nat.sub_add_distr.
Qed.

(** Eight bits, of which the bits 2 to 4 are in use. *)
Lemma setbit_allocates_witness :
  ∃ r s', setbit 3 8 (MkAllocAddr 8 [0; 0; 1; 1; 1; 0; 0; 0]) = Done r s' ∧ r = Some (7, 5) ∧
    bitmap_ s' = [0; 0; 1; 1; 1; 1; 1; 1] ∧ alloc_ok s'.
Proof.
  destruct (setbit_allocates (MkAllocAddr 8 [0; 0; 1; 1; 1; 0; 0; 0]) 3 8) as (r & s' & E & Hok & _).
  - split; [reflexivity|]. cbn [bitmap_]. rewrite !Forall_cons, Forall_nil. lia.
  - lia.
  - reflexivity.
  - exists r, s'. vm_compute in E. injection E as <- <-. split_and!; [reflexivity..|exact Hok].
Defined.

(** [freebit] gives back the lowest bits in use, whichever field they belong to. *)
Lemma freebit_lowest :
  ∃ s', freebit 2 (MkAllocAddr 8 [0; 0; 1; 1; 1; 0; 0; 1]) = Done tt s' ∧ bitmap_ s' = [0; 0; 0; 0; 1; 0; 0; 1].
Proof. eexists. split; vm_compute; reflexivity. Qed.
