(* ===== verification/Address.v ===== *)
(** * Addresses of nodes

    [ns2/routing/address.cc]: the fields of an address, one for each level of a hierarchy,
    and its decimal notation, in which the fields are separated by dots.  The link layer
    reduces the addresses of packets to those of nodes by printing and reading them. *)
From Stdlib Require Import Ascii.
From S2P Require Import Prelude Scan AllocAddr.
Open Scope Z_scope.

(** Arrays are indexed by the level, from 1 on; [NodeShift_] and [NodeMask_] are null, and
    [bpl_] is not initialised, before they are allocated. *)
Abbreviation array := (list (option Z)) (only parsing).
(* [ns2/routing/address.h:42-74] class Address *)
Record Address := MkAddress {
  bpl_ : option array;
  NodeShift_ : option array;
  NodeMask_ : option array;
  McastShift_ : Z;
  McastMask_ : Z;
  levels_ : Z;
}.

(* [ns2/routing/address.cc:54-58] Address::Address *)
Definition Address_new : Address := MkAddress None None None 0 0 0.

(* [ns2/config.h:114-114] SMALL_LEN *)
Definition SMALL_LEN : Z := 32.
Definition dot : ascii := "."%char.

(** The element [i] of an array; [f] is the fault of reading an array that is not there. *)
Definition elem (f : fault) (arr : Address → option array) (i : Z) : M Address Z :=
  a ← get;
  match arr a with
  | None => stuck f
  | Some l => v ← within (at_ l i); match v with Some v => mret v | None => stuck UninitRead end
  end.
Definition shift_of (i : Z) : M Address Z := elem NullDeref NodeShift_ i.
Definition mask_of (i : Z) : M Address Z := elem NullDeref NodeMask_ i.
Definition bits_of (i : Z) : M Address Z := elem UninitRead bpl_ i.

(** ** Commands

    [args] are the arguments after the name of the command; the result is false for an
    error. *)
(* [ns2/routing/address.cc:79-89] Address::command *)
Definition bpl_are (args : list text) : M Address bool :=
  a ← get;
  if decide (levels_ a ≠ Z.of_nat (length args)) then mret false
  else
    _ ← put (MkAddress (Some (None :: (Some ∘ atoi <$> args))) (NodeShift_ a) (NodeMask_ a)
               (McastShift_ a) (McastMask_ a) (levels_ a));
    mret true.
(* [ns2/routing/address.cc:91-97] Address::command *)
Definition mcastbits_are (shift mask : text) : M Address bool :=
  a ← get;
  _ ← put (MkAddress (bpl_ a) (NodeShift_ a) (NodeMask_ a) (atoi shift) (atoi mask) (levels_ a));
  mret true.

Definition store (arr : option array) (i v : Z) : M Address array :=
  match arr with
  | None => stuck NullDeref
  | Some l => _ ← within (at_ l i); mret (<[Z.to_nat i := Some v]> l)
  end.
(* [ns2/routing/address.cc:98-111] Address::command *)
Definition add_hier (level mask shift : text) : M Address bool :=
  a ← get;
  shifts ← store (NodeShift_ a) (atoi level) (atoi shift);
  masks ← store (NodeMask_ a) (atoi level) (atoi mask);
  _ ← put (MkAddress (bpl_ a) (Some shifts) (Some masks) (McastShift_ a) (McastMask_ a)
             (if decide (levels_ a < atoi level) then atoi level else levels_ a));
  mret true.

(** Every second argument is a value; the others, the numbers of the levels, are not read. *)
Fixpoint values (args : list text) : list Z :=
  match args with
  | _ :: v :: rest => atoi v :: values rest
  | _ => []
  end.
(** The number of levels, if it agrees with the one set before. *)
(* [ns2/routing/address.cc:114-122] Address::command *)
Definition set_levels (args : list text) : M Address bool :=
  a ← get;
  let temp := Z.of_nat (length args `div` 2) in
  if decide (levels_ a ≠ 0) then mret (bool_decide (temp = levels_ a))
  else
    _ ← put (MkAddress (bpl_ a) (NodeShift_ a) (NodeMask_ a) (McastShift_ a) (McastMask_ a) temp);
    mret true.
(* [ns2/routing/address.cc:113-127] Address::command *)
Definition idsbits_are (args : list text) : M Address bool :=
  ok ← set_levels args;
  if negb ok then mret false
  else
    a ← get;
    _ ← put (MkAddress (bpl_ a) (Some (None :: (Some <$> values args))) (NodeMask_ a)
               (McastShift_ a) (McastMask_ a) (levels_ a));
    mret true.
(* [ns2/routing/address.cc:129-144] Address::command *)
Definition idmbits_are (args : list text) : M Address bool :=
  ok ← set_levels args;
  if negb ok then mret false
  else
    a ← get;
    _ ← put (MkAddress (bpl_ a) (NodeShift_ a) (Some (None :: (Some <$> values args)))
               (McastShift_ a) (McastMask_ a) (levels_ a));
    mret true.

(** ** Printing and reading *)

(** The text that [strcat] extends is in a buffer of [SMALL_LEN] characters. *)
Definition strcat (str temp : text) : M Address text :=
  if decide (Z.of_nat (length (str ++ temp)) < SMALL_LEN) then mret (str ++ temp) else stuck OutOfBounds.

(* [ns2/routing/address.cc:156-166] Address::print_nodeaddr *)
Fixpoint print_loop (n : nat) (i address : Z) (str : text) : M Address text :=
  match n with
  | O => mret str
  | S n =>
      a ← get;
      shift ← shift_of i;
      let f := Z.shiftr address shift in
      f ← (if decide (levels_ a > 1) then mask ← mask_of i; mret (Z.land f mask) else mret f);
      str ← strcat str (print_int f ++ [dot]);
      print_loop n (i + 1) address str
  end.
(* [ns2/routing/address.cc:149-175] Address::print_nodeaddr *)
Definition print_nodeaddr (address : Z) : M Address text :=
  a ← get;
  str ← print_loop (Z.to_nat (levels_ a)) 1 address [];
  if decide (str = []) then stuck OutOfBounds else mret (take (length str - 1) str).

(** No result is an error reported by [perror], and the value -1. *)
(* [ns2/routing/address.cc:177-183] Address::hier_addr *)
Definition hier_addr (address level : Z) : M Address Z :=
  a ← get;
  if bool_decide (level ≤ levels_ a) then
    shift ← shift_of level; mask ← mask_of level;
    mret (Z.land (Z.shiftr address shift) mask)
  else mret (-1).

(* [ns2/routing/address.cc:192-201] Address::get_subnetaddr *)
Fixpoint subnet_loop (n : nat) (i address : Z) (str : text) : M Address text :=
  match n with
  | O => mret str
  | S n =>
      a ← get;
      shift ← shift_of i; mask ← mask_of i;
      let f := Z.land (Z.shiftr address shift) mask in
      str ← strcat str (if decide (i < levels_ a - 1) then print_int f ++ [dot] else print_int f);
      subnet_loop n (i + 1) address str
  end.
(* [ns2/routing/address.cc:185-209] Address::get_subnetaddr *)
Definition get_subnetaddr (address : Z) : M Address (option text) :=
  a ← get;
  if decide (levels_ a > 1) then str ← subnet_loop (Z.to_nat (levels_ a - 1)) 1 address []; mret (Some str)
  else mret None.

(** The text before the first dot, or all of it. *)
Fixpoint before_dot (s : text) : text :=
  match s with
  | [] => []
  | c :: s => if decide (c = dot) then [] else c :: before_dot s
  end.
(** Writes the numbers in the text, plus one, to an array of [cap] elements. *)
(* [ns2/routing/route.cc:573-586] RouteLogic::ns_strtok *)
Fixpoint strtok_loop (fuel cap : nat) (next : text) (addrstr : list Z) : M Address (list Z) :=
  match fuel with
  | O => stuck NoFuel
  | S fuel =>
      if decide (next = []) then mret addrstr
      else if decide (length addrstr < cap)%nat then
        let field := before_dot next in
        let addrstr := addrstr ++ [s32 (atoi field + 1)] in
        if decide (length field < length next)%nat then
          strtok_loop fuel cap (drop (S (length field)) next) addrstr
        else mret addrstr
      else stuck OutOfBounds
  end.
(* [ns2/routing/route.cc:564-587] RouteLogic::ns_strtok *)
Definition ns_strtok (addr : text) (cap : nat) : M Address (list Z) :=
  if decide (Z.of_nat (length addr) < SMALL_LEN) then strtok_loop (S (length addr)) cap addr []
  else stuck OutOfBounds.

(** A shift of an [int]; the processor takes the count modulo 32. *)
Definition int_shl (x n : Z) : Z := s32 (Z.shiftl x (n mod 32)).

(* [ns2/routing/address.h:57-59] Address::set_word_field *)
Definition set_word_field (word field shift mask : Z) : Z :=
  Z.lor (int_shl (Z.land field mask) shift) (Z.land (Z.lnot (int_shl mask shift)) word).

(** [exit] ends the process. *)
(* [ns2/routing/address.cc:296-305] Address::str2addr *)
Fixpoint read_levels (n : nat) (i : Z) (istr : list Z) (addr : Z) : M Address Z :=
  match n with
  | O => mret addr
  | S n =>
      x ← match at_ istr i with Some x => mret x | None => stuck UninitRead end;
      _ ← assert_ (bool_decide (s32 (x - 1) >= 0));
      let x := s32 (x - 1) in
      b ← bits_of (i + 1);
      if bool_decide (u64 x > u64 (int_shl 1 b)) then abort
      else
        shift ← shift_of (i + 1); mask ← mask_of (i + 1);
        read_levels n (i + 1) istr (set_word_field addr x shift mask)
  end.
(* [ns2/routing/address.cc:270-310] Address::str2addr *)
Definition str2addr (str : text) : M Address Z :=
  a ← get;
  if decide (levels_ a < 2) then
    let tmp := atoi str in
    if decide (tmp < 0) then mret tmp
    else
      b ← bits_of 1;
      if bool_decide (u32 tmp > u64 (int_shl 1 b)) then abort else mret tmp
  else
    istr ← ns_strtok str (Z.to_nat (levels_ a));
    read_levels (Z.to_nat (levels_ a)) 0 istr 0.

(* [ns2/routing/address.cc:212-221] Address::get_nodeaddr *)
Definition get_nodeaddr (address : Z) : M Address Z :=
  temp ← print_nodeaddr address; str2addr temp.
(* [ns2/routing/address.cc:225-239] Address::create_ipaddr *)
Definition create_ipaddr (nodeid portid : Z) : Z := nodeid.
(* [ns2/routing/address.cc:241-247] Address::get_lastaddr *)
Definition get_lastaddr (address : Z) : M Address Z :=
  a ← get;
  shift ← shift_of (levels_ a); mask ← mask_of (levels_ a);
  mret (Z.land (Z.shiftr address shift) mask).
(* [ns2/routing/address.cc:250-267] Address::print_portaddr *)
Definition print_portaddr (address : Z) : text := print_int address.

(** ** The layout that the allocator makes

    [configured k bs] is the address format whose levels have [bs] bits, of the [k] lowest
    bits of the word. *)
Definition configured (k : nat) (bs : list nat) : Address :=
  MkAddress (Some (None :: (Some ∘ Z.of_nat <$> bs)))
    (Some (None :: (Some ∘ snd <$> fields k bs))) (Some (None :: (Some ∘ fst <$> fields k bs)))
    0 0 (Z.of_nat (length bs)).

Example flat_address : get_nodeaddr 77 (configured 31 [31%nat]) = Done 77 (configured 31 [31%nat]).
Proof. vm_compute. reflexivity. Qed.
Example hier_address : get_nodeaddr (-5) (configured 32 [10; 11; 11]%nat) = Done (-5) (configured 32 [10; 11; 11]%nat).
Proof. vm_compute. reflexivity. Qed.
Example hier_text : (str ← print_nodeaddr 4196355; mret (String.string_of_list_ascii str)) (configured 32 [10; 11; 11]%nat) =
  Done "1.1.3"%string (configured 32 [10; 11; 11]%nat).
Proof. vm_compute. reflexivity. Qed.

#[local] Arguments digits_of : simpl never.

Lemma array_lookup (xs : list Z) (f : fault) (arr : Address → option array) i v a :
  arr a = Some (None :: (Some <$> xs)) → xs !! Z.to_nat (i - 1) = Some v → 1 ≤ i →
  elem f arr i a = Done v a.
Proof.
  intros Ea Hv Hi. unfold elem. rewrite (bind_done _ _ _ a a), Ea by done.
  assert (at_ (None :: (Some <$> xs)) i = Some (Some v)) as ->; [|done].
  unfold at_. rewrite decide_True by lia. replace (Z.to_nat i) with (S (Z.to_nat (i - 1))) by lia.
  simpl. by rewrite list_lookup_fmap, Hv.
Qed.

Section configured.
Context (k : nat) (bs : list nat).
Notation A := (configured k bs).

(** The level [i], from 0 on, has [b] bits and this mask and shift. *)
Lemma fields_length n cs : length (fields n cs) = length cs.
Proof. revert n. induction cs as [|c cs IH]; intros n; simpl; [done|by rewrite IH]. Qed.

Lemma fields_lookup n cs i b : cs !! i = Some b →
  fields n cs !! i = Some (2 ^ Z.of_nat b - 1, Z.of_nat (n - sum_list (take (S i) cs))).
Proof.
  revert n i. induction cs as [|c cs IH]; intros n [|i]; simpl; try done.
  - intros [= ->]. by rewrite Nat.add_0_r.
  - intros Hb. rewrite (IH (n - c)%nat i Hb). by rewrite Nat.sub_add_distr.
Qed.

Lemma shift_done i p : fields k bs !! i = Some p → shift_of (Z.of_nat (S i)) A = Done p.2 A.
Proof.
  intros Hp. apply (array_lookup (snd <$> fields k bs)); [|..|lia].
  - simpl. by rewrite list_fmap_compose.
  - replace (Z.to_nat (Z.of_nat (S i) - 1)) with i by lia. by rewrite list_lookup_fmap, Hp.
Qed.
Lemma mask_done i p : fields k bs !! i = Some p → mask_of (Z.of_nat (S i)) A = Done p.1 A.
Proof.
  intros Hp. apply (array_lookup (fst <$> fields k bs)); [|..|lia].
  - simpl. by rewrite list_fmap_compose.
  - replace (Z.to_nat (Z.of_nat (S i) - 1)) with i by lia. by rewrite list_lookup_fmap, Hp.
Qed.
Lemma bits_done i b : bs !! i = Some b → bits_of (Z.of_nat (S i)) A = Done (Z.of_nat b) A.
Proof.
  intros Hb. apply (array_lookup (Z.of_nat <$> bs)); [|..|lia].
  - simpl. by rewrite list_fmap_compose.
  - replace (Z.to_nat (Z.of_nat (S i) - 1)) with i by lia. by rewrite list_lookup_fmap, Hb.
Qed.

(** The field of an address. *)
Definition field (a : Z) (p : Z * Z) : Z := Z.land (Z.shiftr a p.2) p.1.

Lemma print_loop_spec a pre fs str :
  (1 < length bs)%nat → fields k bs = pre ++ fs →
  let out := str ++ ((field a <$> fs) ≫= λ f, print_int f ++ [dot]) in
  Z.of_nat (length out) < SMALL_LEN →
  print_loop (length fs) (Z.of_nat (S (length pre))) a str A = Done out A.
Proof.
  intros Hlv. revert pre str. induction fs as [|p fs IH]; intros pre str E out Hl; subst out.
  { simpl. by rewrite app_nil_r. }
  cbn [length print_loop]. rewrite (bind_done _ _ _ A A) by done.
  assert (fields k bs !! length pre = Some p) as Hp by (rewrite E; by apply list_lookup_middle).
  rewrite (bind_done _ _ _ _ _ (shift_done _ _ Hp)), decide_True by (simpl; lia).
  rewrite (bind_done (mask_of _ ≫= _) _ A (field a p) A) by by rewrite (bind_done _ _ _ _ _ (mask_done _ _ Hp)).
  rewrite fmap_cons, bind_cons, (app_assoc str) in Hl |- *.
  rewrite (bind_done _ _ _ (str ++ (print_int (field a p) ++ [dot])) A).
  2:{ unfold strcat. rewrite decide_True; [done|]. rewrite length_app in Hl. lia. }
  replace (Z.of_nat (S (length pre)) + 1) with (Z.of_nat (S (length (pre ++ [p])))) by (rewrite length_app; simpl; lia).
  apply IH; [by rewrite <- app_assoc|done].
Qed.
End configured.

Lemma before_dot_app l rest : (∀ c, c ∈ l → c ≠ dot) → before_dot (l ++ dot :: rest) = l ∧ before_dot l = l.
Proof.
  induction l as [|c l IH]; intros Hl; simpl; [done|].
  rewrite !decide_False by (apply Hl; by left). destruct IH as [-> ->]; [|done]. intros x Hx. apply Hl. by right.
Qed.

Lemma print_int_no_dot z c : c ∈ print_int z → c ≠ dot.
Proof. intros [Hd| ->]%print_int_text; [|done]. intros ->. by vm_compute in Hd. Qed.

Lemma atoi_print z : - 2 ^ 31 ≤ z < 2 ^ 31 → atoi (print_int z) = z.
Proof. intros Hz. unfold atoi. by rewrite <- (app_nil_r (print_int z)), scan_print_int. Qed.

(** The numbers that [ns_strtok] stores for the text of some fields. *)
Definition next_up (f : Z) : Z := s32 (f + 1).

Lemma strtok_loop_spec fuel cap f fs acc a :
  Forall (λ f, - 2 ^ 31 ≤ f < 2 ^ 31) (f :: fs) → (length acc + length (f :: fs) ≤ cap)%nat →
  (length (f :: fs) < fuel)%nat →
  strtok_loop fuel cap (separated dot (f :: fs)) acc a = Done (acc ++ (next_up <$> f :: fs)) a.
Proof.
  revert fuel acc f. induction fs as [|g fs IH]; intros fuel acc f Hr Hcap Hf;
    (destruct fuel as [|fuel]; [lia|]); apply Forall_cons in Hr as [Hf0 Hr];
    pose proof (print_int_nonempty f) as Hne; cbn [strtok_loop].
  - change (separated dot [f]) with (print_int f). simpl in Hcap.
    rewrite decide_False, decide_True by (done || lia).
    destruct (before_dot_app (print_int f) []) as [_ ->]; [apply print_int_no_dot|].
    rewrite decide_False by lia. by rewrite atoi_print.
  - rewrite separated_cons. simpl in Hcap. rewrite decide_False, decide_True by (lia || by destruct (print_int f)).
    destruct (before_dot_app (print_int f) (separated dot (g :: fs))) as [-> _]; [apply print_int_no_dot|].
    rewrite length_app, decide_True by (simpl; lia). rewrite atoi_print by done.
    rewrite drop_app_ge by lia. replace (S (length (print_int f)) - length (print_int f))%nat with 1%nat by lia.
    change (drop 1 (dot :: separated dot (g :: fs))) with (separated dot (g :: fs)). rewrite IH; [by rewrite <- app_assoc|done|rewrite length_app; simpl in *; lia|simpl in *; lia].
Qed.

(** ** Assembling a word from its fields *)

Lemma int_shl_bit x n j : 0 ≤ n < 32 → 0 ≤ j < 32 → Z.testbit (int_shl x n) j = Z.testbit x (j - n).
Proof. intros Hn Hj. unfold int_shl. by rewrite testbit_s32, Z.mod_small, Z.shiftl_spec by lia. Qed.

Lemma ones_bit b j : 0 ≤ b → Z.testbit (2 ^ b - 1) j = bool_decide (0 ≤ j < b).
Proof.
  intros Hb. rewrite Z.sub_1_r, <- Z.ones_equiv, Z.testbit_ones by done.
  destruct (Z.leb_spec 0 j), (Z.ltb_spec j b); case_bool_decide; lia.
Qed.

(** Operations on bits keep the range of an [int]. *)
Lemma set_word_field_range w x n m :
  - 2 ^ 31 ≤ w < 2 ^ 31 → - 2 ^ 31 ≤ set_word_field w x n m < 2 ^ 31.
Proof.
  intros Hw. enough (s32 (set_word_field w x n m) = set_word_field w x n m) as <- by (apply (swrap_range 32); lia).
  apply Z.bits_inj_iff'. intros j Hj. rewrite testbit_s32_sign by done. unfold set_word_field, int_shl.
  rewrite <- (s32_small w) by done. rewrite !Z.lor_spec, !Z.land_spec, !Z.lnot_spec by lia.
  rewrite !testbit_s32_sign by lia. by rewrite <- Z.min_assoc, Z.min_id.
Qed.

(** The word [w] has the bits of [a] from [n] to [k]. *)
Definition copied (a w : Z) (n k : nat) : Prop :=
  - 2 ^ 31 ≤ w < 2 ^ 31 ∧
  ∀ j, 0 ≤ j < 32 → Z.testbit w j = bool_decide (Z.of_nat n ≤ j < Z.of_nat k) && Z.testbit a j.

Lemma copied_field a w n k b :
  (b ≤ n ≤ 32)%nat → (0 < b < 32)%nat → (n ≤ k)%nat → copied a w n k →
  copied a (set_word_field w (field a (2 ^ Z.of_nat b - 1, Z.of_nat (n - b))) (Z.of_nat (n - b)) (2 ^ Z.of_nat b - 1))
    (n - b) k.
Proof.
  intros Hn Hb Hk [Hw Hbits]. split; [by apply set_word_field_range|]. intros j Hj. unfold set_word_field.
  rewrite Z.lor_spec, !Z.land_spec, Z.lnot_spec, !int_shl_bit, Z.land_spec, Hbits, ones_bit by lia.
  unfold field. cbn [fst snd]. rewrite Z.land_spec, ones_bit by lia.
  destruct (decide (0 ≤ j - Z.of_nat (n - b))).
  - rewrite Z.shiftr_spec by done. replace (j - Z.of_nat (n - b) + Z.of_nat (n - b)) with j by lia.
    destruct (Z.testbit a j); repeat case_bool_decide; done || lia.
  - destruct (Z.testbit _ (j - _)), (Z.testbit a j); repeat case_bool_decide; done || lia.
Qed.

Lemma field_range a p b : p.1 = 2 ^ Z.of_nat b - 1 → 0 ≤ field a p < 2 ^ Z.of_nat b.
Proof.
  intros E. unfold field. rewrite E, Z.sub_1_r, <- Z.ones_equiv, Z.land_ones by lia.
  apply Z.mod_pos_bound. apply Z.pow_pos_nonneg; lia.
Qed.

Lemma read_levels_spec k bs a pre cs w :
  Forall (λ b, 0 < b < 32)%nat bs → (sum_list bs ≤ k ≤ 32)%nat → bs = pre ++ cs →
  copied a w (k - sum_list pre) k →
  let fs := field a <$> fields k bs in
  ∃ w', read_levels (length cs) (Z.of_nat (length pre)) (next_up <$> fs) w (configured k bs) =
      Done w' (configured k bs) ∧ copied a w' (k - sum_list bs) k.
Proof.
  intros Hb Hk. revert pre w. induction cs as [|b cs IH]; intros pre w E Hw fs.
  { exists w. rewrite app_nil_r in E. by subst. }
  cbn [length read_levels].
  assert (bs !! length pre = Some b) as Eb by (rewrite E; by apply list_lookup_middle).
  assert (0 < b < 32)%nat as Hb0 by exact (proj1 (Forall_lookup _ _) Hb _ _ Eb).
  assert (sum_list bs = sum_list pre + b + sum_list cs)%nat as Es.
  { rewrite E, sum_list_with_app. simpl. unfold id. lia. }
  pose proof (fields_lookup k bs _ _ Eb) as Ep.
  replace (sum_list (take (S (length pre)) bs)) with (sum_list pre + b)%nat in Ep.
  2:{ rewrite E, (cons_middle b pre cs), app_assoc, take_app_length' by (rewrite length_app; simpl; lia).
      rewrite sum_list_with_app. simpl. unfold id. lia. }
  set (p := (2 ^ Z.of_nat b - 1, Z.of_nat (k - (sum_list pre + b)))) in *.
  pose proof (field_range a p b eq_refl) as Hf.
  assert (2 ^ Z.of_nat b ≤ 2 ^ 31) as H31 by (apply Z.pow_le_mono_r; lia).
  rewrite (bind_done _ _ _ (next_up (field a p)) (configured k bs)).
  2:{ unfold at_. rewrite decide_True, Nat2Z.id by lia. unfold fs. by rewrite !list_lookup_fmap, Ep. }
  assert (s32 (next_up (field a p) - 1) = field a p) as ->.
  { unfold next_up. rewrite <- Z.add_opp_r, s32_add. rewrite s32_small by lia. lia. }
  rewrite (bind_done _ _ _ tt (configured k bs)) by by rewrite bool_decide_true by lia.
  replace (Z.of_nat (length pre) + 1) with (Z.of_nat (S (length pre))) by lia.
  rewrite (bind_done _ _ _ _ _ (bits_done k bs _ _ Eb)).
  rewrite bool_decide_false.
  2:{ unfold int_shl, u64. rewrite Z.mod_small, Z.shiftl_mul_pow2, Z.mul_1_l by lia.
      rewrite (wrap_small 64 (field a p)) by lia. destruct (decide (b = 31)%nat) as [->|].
      - change (wrap 64 (s32 (2 ^ Z.of_nat 31))) with (2 ^ 64 - 2 ^ 31). change (2 ^ Z.of_nat 31) with (2 ^ 31) in *. lia.
      - assert (2 ^ Z.of_nat b ≤ 2 ^ 30) by (apply Z.pow_le_mono_r; lia).
        rewrite s32_small, wrap_small by lia. lia. }
  rewrite (bind_done _ _ _ _ _ (shift_done k bs _ _ Ep)), (bind_done _ _ _ _ _ (mask_done k bs _ _ Ep)).
  cbn [fst snd]. subst p.
  replace (S (length pre)) with (length (pre ++ [b])) by (rewrite length_app; simpl; lia).
  apply (IH (pre ++ [b])); [by rewrite <- app_assoc|].
  replace (k - sum_list (pre ++ [b]))%nat with (k - sum_list pre - b)%nat.
  2:{ rewrite sum_list_with_app. simpl. unfold id. lia. }
  replace (k - (sum_list pre + b))%nat with (k - sum_list pre - b)%nat by lia.
  apply copied_field; [lia..|done].
Qed.

(** The printed fields fit in the buffer: three bits need at most one digit. *)
Lemma printed_field a p b : p.1 = 2 ^ Z.of_nat b - 1 → (3 * length (print_int (field a p)) ≤ b + 3)%nat.
Proof.
  intros Hp. pose proof (field_range a p b Hp) as Hf. unfold print_int. rewrite decide_False by lia.
  pose proof (Nat.div_mod_eq b 3) as Hd. pose proof (Nat.mod_upper_bound b 3 ltac:(lia)).
  assert (length (digits_of 20 (field a p) []) ≤ S (b / 3) + 0)%nat; [|lia].
  apply digits_of_length; [|lia]. split; [lia|]. eapply Z.lt_le_trans; [apply Hf|].
  trans (2 ^ (3 * Z.of_nat (S (b / 3)))); [apply Z.pow_le_mono_r; lia|].
  rewrite Z.pow_mul_r by lia. apply Z.pow_le_mono_l. lia.
Qed.

Lemma printed_length a k bs :
  (3 * length ((field a <$> fields k bs) ≫= λ f, print_int f ++ [dot]) ≤ sum_list bs + 6 * length bs)%nat.
Proof.
  revert k. induction bs as [|b bs IH]; intros k; [done|]. specialize (IH (k - b)%nat).
  cbn [fields]. rewrite fmap_cons, bind_cons, !length_app. pose proof (printed_field a (2 ^ Z.of_nat b - 1, Z.of_nat (k - b)) b eq_refl).
  simpl in *. unfold id in *. lia.
Qed.

Lemma each_length (fs : list Z) : (2 * length fs ≤ length (fs ≫= λ f, print_int f ++ [dot]))%nat.
Proof.
  induction fs as [|f fs IH]; [done|]. rewrite bind_cons, !length_app. pose proof (print_int_nonempty f).
  destruct (print_int f); [done|]. simpl in *. lia.
Qed.

(** ** Configuring an address format

    What [set-idbits] of [ns2/tcl/lib/ns-address.tcl] sends for the fields [rs] and the numbers
    of bits [bs]: pairs of a level and a value. *)
Fixpoint level_args (i : Z) (vs : list Z) : list text :=
  match vs with [] => [] | v :: vs => print_int i :: print_int v :: level_args (i + 1) vs end.

Definition configure (rs : list (Z * Z)) (bs : list nat) : M Address bool :=
  _ ← idsbits_are (level_args 1 (snd <$> rs));
  _ ← idmbits_are (level_args 1 (fst <$> rs));
  bpl_are ((λ b, print_int (Z.of_nat b)) <$> bs).

Lemma values_args i vs : Forall (λ v, - 2 ^ 31 ≤ v < 2 ^ 31) vs → values (level_args i vs) = vs.
Proof.
  intros Hv. revert i. induction Hv as [|v vs Hv0 Hv IH]; intros i; [done|].
  simpl. by rewrite atoi_print, IH.
Qed.

Lemma length_args i vs : length (level_args i vs) = (2 * length vs)%nat.
Proof. revert i. induction vs as [|v vs IH]; intros i; simpl; [done|]. rewrite IH. lia. Qed.

Lemma fields_range k bs : (k ≤ 32)%nat → Forall (λ b, 0 < b < 32)%nat bs →
  Forall (λ v, - 2 ^ 31 ≤ v < 2 ^ 31) (fst <$> fields k bs) ∧
  Forall (λ v, - 2 ^ 31 ≤ v < 2 ^ 31) (snd <$> fields k bs).
Proof.
  intros Hk Hb. revert k Hk. induction Hb as [|b bs Hb0 Hb IH]; intros k Hk; [done|].
  destruct (IH (k - b)%nat ltac:(lia)). cbn [fields fmap list_fmap fst snd].
  assert (0 < 2 ^ Z.of_nat b ≤ 2 ^ 31).
  { split; [apply Z.pow_pos_nonneg; lia|apply Z.pow_le_mono_r; lia]. }
  split; (constructor; [lia|done]).
Qed.

Lemma configure_done k bs :
  bs ≠ [] → (k ≤ 32)%nat → Forall (λ b, 0 < b < 32)%nat bs →
  configure (fields k bs) bs Address_new = Done true (configured k bs).
Proof.
  intros Hne Hk Hb. destruct (fields_range k bs Hk Hb) as [H1 H2].
  assert (0 < length bs)%nat as Hpos by (destruct bs; simpl; [done|lia]).
  assert (∀ vs : list Z, Z.of_nat (length (level_args 1 vs) `div` 2) = Z.of_nat (length vs)) as Hlv.
  { intros vs. rewrite length_args, Nat.mul_comm, Nat.div_mul by lia. done. }
  unfold configure, idsbits_are, idmbits_are, set_levels, bpl_are.
  unfold mbind, M_bind, get, put, mret, M_ret, Address_new.
  rewrite Hlv, length_fmap, fields_length. cbn [levels_ negb].
  rewrite decide_False by lia. cbn [levels_ negb bpl_ NodeShift_ NodeMask_ McastShift_ McastMask_].
  rewrite Hlv, length_fmap, fields_length, decide_True by lia. rewrite bool_decide_true by done.
  cbn [levels_ negb bpl_ NodeShift_ NodeMask_ McastShift_ McastMask_]. rewrite length_fmap.
  rewrite decide_False by lia. unfold configured. rewrite !values_args by done.
  rewrite !list_fmap_compose. do 4 f_equal. rewrite <- !list_fmap_compose.
  apply list_fmap_ext. intros i b Hi. simpl. rewrite atoi_print; [done|].
  pose proof (proj1 (Forall_lookup _ _) Hb _ _ Hi). simpl in *. lia.
Qed.

Lemma flat_nodeaddr k a :
  (0 < k < 32)%nat → - 2 ^ 31 ≤ a < 2 ^ Z.of_nat k →
  get_nodeaddr a (configured k [k]) = Done a (configured k [k]).
Proof.
  intros Hk Ha. assert (2 ^ Z.of_nat k ≤ 2 ^ 31) as H31 by (apply Z.pow_le_mono_r; lia).
  assert (length (print_int a) ≤ 11)%nat as Hl.
  { assert (∀ x : Z, 0 ≤ x ≤ 2 ^ 31 → (length (digits_of 20 x []) ≤ 10)%nat) as Hd.
    { intros x Hx. apply (digits_of_length 20 10 x []); [|lia]. change (10 ^ Z.of_nat 10) with 10000000000. lia. }
    unfold print_int. case_decide as D; cbn [length]; [specialize (Hd (- a))|specialize (Hd a)]; lia. }
  assert (print_nodeaddr a (configured k [k]) = Done (print_int a) (configured k [k])) as E.
  { unfold print_nodeaddr. rewrite (bind_done _ _ _ (configured k [k]) (configured k [k])) by done.
    assert (print_loop 1 1 a [] (configured k [k]) = Done (print_int a ++ [dot]) (configured k [k])) as E.
    { cbn [print_loop]. rewrite (bind_done _ _ _ (configured k [k]) (configured k [k])) by done.
      rewrite (bind_done _ _ _ _ _ (shift_done k [k] 0 _ eq_refl)). cbn [snd]. rewrite Nat.sub_diag, Z.shiftr_0_r.
      rewrite decide_False by (simpl; lia). rewrite (bind_done _ _ _ a (configured k [k])) by done.
      rewrite (bind_done _ _ _ (print_int a ++ [dot]) (configured k [k])); [done|].
      unfold strcat. rewrite decide_True; [done|]. simpl. rewrite length_app. unfold SMALL_LEN. simpl. lia. }
    change (Z.to_nat (levels_ (configured k [k]))) with 1%nat. rewrite (bind_done _ _ _ _ _ E).
    rewrite decide_False by (destruct (print_int a); done). rewrite length_app, Nat.add_sub.
    by rewrite take_app_length. }
  unfold get_nodeaddr. rewrite (bind_done _ _ _ _ _ E). unfold str2addr.
  rewrite (bind_done _ _ _ (configured k [k]) (configured k [k])) by done.
  rewrite decide_True by (simpl; lia). rewrite atoi_print by lia. cbv zeta. case_decide; [done|].
  rewrite (bind_done _ _ _ _ _ (bits_done k [k] 0 k eq_refl)).
  rewrite bool_decide_false; [done|]. unfold int_shl, u64, u32.
  rewrite (wrap_small 32), Z.mod_small, Z.shiftl_mul_pow2, Z.mul_1_l by lia.
  destruct (decide (k = 31)%nat) as [->|].
  - change (wrap 64 (s32 (2 ^ Z.of_nat 31))) with (2 ^ 64 - 2 ^ 31). lia.
  - assert (2 ^ Z.of_nat k ≤ 2 ^ 30) by (apply Z.pow_le_mono_r; lia). rewrite s32_small, wrap_small by lia. lia.
Qed.

Lemma hier_nodeaddr k bs a :
  Forall (λ b, 0 < b < 32)%nat bs → (sum_list bs ≤ k ≤ 32)%nat → (2 ≤ length bs ≤ 10)%nat →
  - 2 ^ 31 ≤ a < 2 ^ 31 →
  (∀ j, 0 ≤ j < 32 → ¬ (Z.of_nat (k - sum_list bs) ≤ j < Z.of_nat k) → Z.testbit a j = false) →
  get_nodeaddr a (configured k bs) = Done a (configured k bs).
Proof.
  intros Hb Hk Hlv Ha Hbits. pose proof (printed_length a k bs) as Hl.
  set (A := configured k bs). set (fs := field a <$> fields k bs) in *.
  assert (length fs = length bs) as Hfs by (unfold fs; by rewrite length_fmap, fields_length).
  assert (Forall (λ f, - 2 ^ 31 ≤ f < 2 ^ 31) fs) as Hr.
  { apply Forall_lookup. intros i f Hi. unfold fs in Hi. rewrite list_lookup_fmap in Hi.
    destruct (bs !! i) as [b|] eqn:Eb.
    - pose proof (proj1 (Forall_lookup _ _) Hb _ _ Eb) as Hb0. simpl in Hb0.
      rewrite (fields_lookup k bs i b Eb) in Hi. injection Hi as <-.
      match goal with |- context [field a ?p] => pose proof (field_range a p b eq_refl) end.
      assert (2 ^ Z.of_nat b ≤ 2 ^ 31) by (apply Z.pow_le_mono_r; lia). lia.
    - apply lookup_ge_None in Eb. rewrite (lookup_ge_None_2 (fields k bs)) in Hi by (by rewrite fields_length). done. }
  assert (print_nodeaddr a A = Done (separated dot fs) A) as E.
  { unfold print_nodeaddr. rewrite (bind_done _ _ _ A A) by done.
    pose proof (print_loop_spec k bs a [] (fields k bs) [] ltac:(lia) eq_refl) as Ep.
    rewrite fields_length in Ep. simpl in Ep. fold fs in Ep. unfold SMALL_LEN in Ep. specialize (Ep ltac:(lia)).
    replace (Z.to_nat (levels_ A)) with (length bs) by (simpl; lia).
    rewrite (bind_done _ _ _ _ _ Ep). destruct fs as [|f fs']; [simpl in Hfs; lia|].
    rewrite separated_each, decide_False by (by destruct (separated dot (f :: fs'))).
    rewrite length_app, Nat.add_sub. by rewrite take_app_length. }
  unfold get_nodeaddr. rewrite (bind_done _ _ _ _ _ E). unfold str2addr.
  rewrite (bind_done _ _ _ A A), decide_False by (done || (simpl; lia)).
  replace (Z.to_nat (levels_ A)) with (length bs) by (simpl; lia).
  assert (length (separated dot fs) + 1 = length (fs ≫= λ f, print_int f ++ [dot]))%nat as Es.
  { destruct fs as [|f fs']; [simpl in Hfs; lia|]. by rewrite separated_each, length_app. }
  rewrite (bind_done _ _ _ (next_up <$> fs) A).
  2:{ unfold ns_strtok. rewrite decide_True by (unfold SMALL_LEN; lia).
      destruct fs as [|f fs']; [simpl in Hfs; lia|].
      assert (length (f :: fs') ≤ length (separated dot (f :: fs')))%nat as Hsep.
      { pose proof (each_length (f :: fs')). lia. }
      rewrite (strtok_loop_spec _ _ f fs' []); [done|done|simpl in *; lia|lia]. }
  destruct (read_levels_spec k bs a [] bs 0) as (w & Ew & Hw & Hwb); [done|lia|done| |].
  { split; [lia|]. intros j Hj. rewrite Z.bits_0, Nat.sub_0_r, bool_decide_false by lia. done. }
  change (Z.of_nat (length [])) with 0 in Ew. fold fs A in Ew. rewrite Ew. f_equal. apply s32_bits; [done..|]. intros j Hj. rewrite Hwb by done.
  case_bool_decide; [done|]. by rewrite Hbits.
Qed.

(** C34. The fields that the allocator gives to the levels of an address format, from the
    highest bit down, are such that the decimal notation of every address, read back, is the
    same address: for flat addresses, which have one level of all the bits, and for up to
    ten levels, if the bits outside the fields are zero. *)
Theorem nodeaddr_roundtrip n k bs a
    (Hbs : Forall (λ b, 0 < b < 32)%nat bs) (Hk : (sum_list bs ≤ k ≤ 32)%nat) (Hn : (k ≤ n)%nat)
    (Ha : - 2 ^ 31 ≤ a < 2 ^ 31)
    (Hshape : bs = [k] ∧ a < 2 ^ Z.of_nat k ∨
      (2 ≤ length bs ≤ 10)%nat ∧
      ∀ j, 0 ≤ j < 32 → ¬ (Z.of_nat (k - sum_list bs) ≤ j < Z.of_nat k) → Z.testbit a j = false) :
  ∃ rs A, setbits (Z.of_nat n) bs (packed n k) = Done (Some rs) (packed n (k - sum_list bs)) ∧
    configure rs bs Address_new = Done true A ∧ get_nodeaddr a A = Done a A.
Proof.
  exists (fields k bs), (configured k bs). split_and!.
  - apply setbits_packed; [done|done|lia].
  - apply configure_done; [|lia|done]. destruct Hshape as [[-> _]|[Hl _]]; [done|]. by destruct bs; [simpl in Hl; lia|].
  - destruct Hshape as [[-> Hak]|[Hl Hbits]]; [|by apply hier_nodeaddr].
    apply Forall_cons in Hbs as [Hbs _]. apply flat_nodeaddr; [exact Hbs|lia].
Qed.

(** The default of hierarchical addresses: three levels of 10, 11 and 11 bits. *)
Lemma nodeaddr_roundtrip_witness :
  ∃ rs A, setbits 32 [10; 11; 11]%nat (packed 32 32) = Done (Some rs) (packed 32 0) ∧
    configure rs [10; 11; 11]%nat Address_new = Done true A ∧ get_nodeaddr (-7) A = Done (-7) A.
Proof.
  apply (nodeaddr_roundtrip 32 32 [10; 11; 11]%nat (-7)).
  - rewrite !Forall_cons, Forall_nil. lia.
  - vm_compute. lia.
  - lia.
  - lia.
  - right. split; [simpl; lia|]. intros j Hj Hno. exfalso. apply Hno. exact Hj.
Defined.

(** A field that needs one bit more than its level has is read as zero. *)
Lemma field_out_of_range :
  let A := configured 32 [10; 11; 11]%nat in
  str2addr (String.list_ascii_of_string "1024.0.5") A = Done 5 A ∧
  str2addr (String.list_ascii_of_string "0.0.5") A = Done 5 A.
Proof. split; vm_compute; reflexivity. Qed.

(** The text of sixteen levels of two bits does not fit in its buffer. *)
Lemma sixteen_levels_overflow :
  print_nodeaddr 0 (configured 32 (replicate 16 2%nat)) = Stuck OutOfBounds.
Proof. vm_compute. reflexivity. Qed.
