(* ===== verification/Arp.v ===== *)
(** * Address resolution and the link layer

    [ns2/mac/arp.cc], [ll.cc] and [varp.cc]: the link layer of a node takes packets from the
    routing agent, finds the hardware address of the next hop, with the help of ARP, and
    hands them to the interface queue; packets from the radio go up to the agent.

    The radio, the queue and the agent are outside: what is scheduled for them, dropped, or
    given back to the agent's callback for failures is recorded, with the contents a packet
    has at that time. *)
From S2P Require Import Prelude Double Daemon SimChain SimQueues SimPacket Address.
Open Scope Z_scope.

(** ** Headers *)

(* [ns2/mac/mac.h:106-123] struct hdr_mac *)
Record hdr_mac := HdrMac { macSA_ : Z; macDA_ : Z; hdr_type_ : Z }.
(* [ns2/mac/ll.h:54-77] struct hdr_ll *)
Record hdr_ll := HdrLl { lltype_ : Z; ll_seqno : Z }.
(* [ns2/mac/arp.h:72-91] struct hdr_arp *)
Record hdr_arp := HdrArp {
  arp_hrd : Z;
  arp_pro : Z;
  arp_hln : Z;
  arp_pln : Z;
  arp_op : Z;
  arp_sha : Z;
  arp_spa : Z;
  arp_tha : Z;
  arp_tpa : Z;
}.
Record link_hdrs := LinkHdrs { mac_h : hdr_mac; ll_h : hdr_ll; arp_h : hdr_arp }.
Abbreviation packet := (Packet link_hdrs).

#[global] Instance no_link_hdrs : Headers link_hdrs :=
  LinkHdrs (HdrMac 0 0 0) (HdrLl 0 0) (HdrArp 0 0 0 0 0 0 0 0 0).

Definition LL_DATA : Z := 1.
Definition ETHERTYPE_IP : Z := 2048.
Definition ETHERTYPE_ARP : Z := 2054.
Definition ETHER_ADDR_LEN : Z := 6.
Definition ARPHRD_ETHER : Z := 1.
Definition ARPOP_REQUEST : Z := 1.
Definition ARPOP_REPLY : Z := 2.
Definition ARP_HDR_LEN : Z := 28.
Definition ARP_MAX_REQUEST_COUNT : Z := 3.
Definition EADDRNOTAVAIL : Z := 99.
(** The constant is unsigned, and converted to [int]. *)
Definition MAC_BROADCAST : Z := s32 4294967295.

(* [ns2/mac/mac.h:199-204] Mac::hdr_dst *)
Definition hdr_dst (dst : Z) (h : hdr_mac) : hdr_mac :=
  if bool_decide (dst > -2) then HdrMac (macSA_ h) dst (hdr_type_ h) else h.
(* [ns2/mac/mac.h:205-210] Mac::hdr_src *)
Definition hdr_src (src : Z) (h : hdr_mac) : hdr_mac :=
  if bool_decide (src > -2) then HdrMac src (macDA_ h) (hdr_type_ h) else h.
(* [ns2/mac/mac.h:211-216] Mac::hdr_type *)
Definition hdr_type (type : Z) (h : hdr_mac) : hdr_mac :=
  if decide (type ≠ 0) then HdrMac (macSA_ h) (macDA_ h) type else h.

Definition with_mac (f : hdr_mac → hdr_mac) (v : packet) : packet :=
  with_hdrs (LinkHdrs (f (mac_h (hdrs v))) (ll_h (hdrs v)) (arp_h (hdrs v))) v.
Definition with_ll (h : hdr_ll) (v : packet) : packet :=
  with_hdrs (LinkHdrs (mac_h (hdrs v)) h (arp_h (hdrs v))) v.
Definition with_arp (h : hdr_arp) (v : packet) : packet :=
  with_hdrs (LinkHdrs (mac_h (hdrs v)) (ll_h (hdrs v)) h) v.
Definition cmn_uid (uid : Z) (c : hdr_cmn) : hdr_cmn :=
  Cmn (ptype_ c) (size_ c) uid (error_ c) (ts_ c) (direction_ c) (prev_hop_ c) (next_hop_ c)
    (addr_type_ c) (last_hop_ c) (xmit_failure_ c) (xmit_reason_ c) (num_forwards_ c).
Definition cmn_reason (r : Z) (c : hdr_cmn) : hdr_cmn :=
  Cmn (ptype_ c) (size_ c) (cmn_uid_ c) (error_ c) (ts_ c) (direction_ c) (prev_hop_ c) (next_hop_ c)
    (addr_type_ c) (last_hop_ c) (xmit_failure_ c) r (num_forwards_ c).

(** ** State *)

(** [hold_] is a packet that waits for the address; [arp_link] is the next entry. *)
(* [ns2/mac/arp.h:93-113] class ARPEntry *)
Record ARPEntry := MkARPEntry {
  arp_link : addr;
  up_ : Z;
  ipaddr_ : Z;
  macaddr_ : Z;
  hold_ : addr;
  count_ : Z;
}.

(** What leaves the link layer. *)
Inductive reason := NO_REASON | DROP_IFQ_ARP_FULL | DROP_END_OF_SIMULATION.
Inductive effect :=
  | Down (p : addr) (v : packet) (delay : double)   (** scheduled for [downtarget_] *)
  | Up (p : addr) (v : packet) (delay : double)     (** scheduled for [uptarget_] *)
  | Dropped (p : addr) (r : reason)                 (** given to [drop] *)
  | Failed (p : addr) (v : packet).                 (** given to [xmit_failure_] *)

(** A link layer and its ARP table; the log has the latest effect first. *)
Record link := Link {
  l_pool : pool (P := link_hdrs);
  arp_entries : gmap N ARPEntry;
  lh_first : addr;
  seqno_ : Z;
  l_log : list effect;
}.

Definition set_l_pool x (s : link) : link := Link x (arp_entries s) (lh_first s) (seqno_ s) (l_log s).
Definition set_arp_entries x (s : link) : link := Link (l_pool s) x (lh_first s) (seqno_ s) (l_log s).
Definition set_lh_first x (s : link) : link := Link (l_pool s) (arp_entries s) x (seqno_ s) (l_log s).
Definition set_seqno x (s : link) : link := Link (l_pool s) (arp_entries s) (lh_first s) x (l_log s).
Definition record_ (e : effect) (s : link) : link :=
  Link (l_pool s) (arp_entries s) (lh_first s) (seqno_ s) (e :: l_log s).

Definition on_pool {A} (m : M (pool (P := link_hdrs)) A) : M link A := zoom l_pool set_l_pool m.
Definition the_packet (p : addr) : M link packet := on_pool (deref packets p).
Definition upd (p : addr) (f : packet → packet) : M link unit := on_pool (upd_packet p f).
Definition upd_entry (a : addr) (f : ARPEntry → ARPEntry) : M link unit :=
  e ← deref arp_entries a;
  modify (λ s, set_arp_entries (<[a := f e]> (arp_entries s)) s).

Definition with_hold (p : addr) (n : Z) (e : ARPEntry) : ARPEntry :=
  MkARPEntry (arp_link e) (up_ e) (ipaddr_ e) (macaddr_ e) p n.
Definition with_up (mac : Z) (e : ARPEntry) : ARPEntry :=
  MkARPEntry (arp_link e) 1 (ipaddr_ e) mac (hold_ e) (count_ e).

Definition drop (p : addr) (r : reason) : M link unit := modify (record_ (Dropped p r)).
(** [ch->xmit_failure_(p, ...)]. *)
Definition xmit_failure (p : addr) : M link unit := v ← the_packet p; modify (record_ (Failed p v)).
Definition schedule_down (p : addr) (delay : double) : M link unit :=
  v ← the_packet p; modify (record_ (Down p v delay)).
Definition schedule_up (p : addr) (delay : double) : M link unit :=
  v ← the_packet p; modify (record_ (Up p v delay)).

(** ** Virtual ARP *)

(* [ns2/mac/varp.h:48-60] class VARPTable *)
Record VARPTable := MkVARP { maddr_ : list Z; vsize_ : Z }.

(* [ns2/mac/varp.cc:50-51] VARPTable::VARPTable *)
Definition VARPTable_new : VARPTable := MkVARP [] 0.

(* [ns2/mac/varp.cc:67-68] VARPTable::sizeinit *)
Fixpoint double_size (fuel : nat) (n size : Z) : option Z :=
  match fuel with
  | O => None
  | S fuel => if decide (n < size) then Some size else double_size fuel n (s32 (2 * size))
  end.
(* [ns2/mac/varp.cc:59-75] VARPTable::sizeinit *)
Definition sizeinit (n : Z) : M VARPTable unit :=
  t ← get;
  match double_size 32 n (if decide (vsize_ t = 0) then 10 else vsize_ t) with
  | None => stuck NoFuel
  | Some size =>
      put (MkVARP (take (Z.to_nat (vsize_ t)) (maddr_ t) ++ replicate (Z.to_nat (size - vsize_ t)) (-1)) size)
  end.
(* [ns2/mac/varp.cc:79-87] VARPTable::command *)
Definition set_mac_addr (n mac : Z) : M VARPTable unit :=
  t ← get;
  _ ← (if decide (n < vsize_ t) then skip else sizeinit n);
  t ← get;
  _ ← within (at_ (maddr_ t) n);
  put (MkVARP (<[Z.to_nat n := mac]> (maddr_ t)) (vsize_ t)).
(** The value returned, and the destination for the packet's header. *)
(* [ns2/mac/varp.cc:91-100] VARPTable::arpresolve *)
Definition varp_arpresolve (IPaddr : Z) : M VARPTable (Z * option Z) :=
  t ← get;
  if bool_decide (IPaddr > vsize_ t) then mret (1, None)
  else
    ma ← within (at_ (maddr_ t) IPaddr);
    if bool_decide (ma >= 0) then mret (0, Some ma) else mret (1, None).

(** ** The node

    The members that are set up once: the addresses of the node and of its interface, the
    delays of the link layer and of ARP, and the objects that the link layer is connected to.
    [lan_next_hop] is what the object [lanrouter_] answers, -1 if there is none. *)
(* [ns2/mac/ll.h:79-119] class LL *)
Record node := Node {
  node_address : Z;
  mac_addr : Z;
  delay_ : double;
  arp_delay : double;
  ll_macDA : Z;
  connected : bool;
  arptable_ : bool;
  lan_next_hop : packet → Z;
  varp_ : option VARPTable;
  addressing : Address;
}.

Section arp.
Context `{Allocator} (nd : node).

(** [Address::instance().get_nodeaddr(a)]. *)
Definition nodeaddr (a : Z) : M link Z := λ s,
  match get_nodeaddr a (addressing nd) with
  | Done n _ => Done n s
  | Abort _ => Abort s
  | Stuck f => Stuck f
  end.

(* [ns2/mac/arp.cc:205-210] ARPTable::arplookup *)
Fixpoint lookup_loop (fuel : nat) (dst : Z) (a : addr) : M link addr :=
  match fuel with
  | O => stuck NoFuel
  | S fuel =>
      if decide (a = NULL) then mret NULL
      else
        e ← deref arp_entries a;
        if decide (ipaddr_ e = dst) then mret a else lookup_loop fuel dst (arp_link e)
  end.
(* [ns2/mac/arp.cc:201-211] ARPTable::arplookup *)
Definition arplookup (dst : Z) : M link addr :=
  s ← get; lookup_loop (S (size (arp_entries s))) dst (lh_first s).

(** The new entry is the first of the list. *)
(* [ns2/mac/arp.h:96-101] ARPEntry::ARPEntry *)
Definition ARPEntry_new (dst : Z) : M link addr :=
  s ← get;
  match malloc (dom (arp_entries s)) with
  | None => abort
  | Some a =>
      _ ← put (set_lh_first a (set_arp_entries (<[a := MkARPEntry (lh_first s) 0 dst 0 NULL 0]> (arp_entries s)) s));
      mret a
  end.

(* [ns2/mac/arp.cc:214-250] ARPTable::arprequest *)
Definition arprequest (src dst : Z) : M link unit :=
  p ← on_pool alloc;
  _ ← upd p (with_cmn (λ c, cmn_uid 0 (cmn_type_size PT_ARP ARP_HDR_LEN 0 c)));
  _ ← upd p (with_mac (λ h, hdr_type ETHERTYPE_ARP (hdr_src (mac_addr nd) (hdr_dst MAC_BROADCAST h))));
  _ ← upd p (with_ll (HdrLl LL_DATA 0));
  _ ← upd p (with_cmn (cmn_direction DOWN));
  _ ← upd p (with_arp (HdrArp ARPHRD_ETHER ETHERTYPE_IP ETHER_ADDR_LEN 4 ARPOP_REQUEST (mac_addr nd) src 0 dst));
  schedule_down p (arp_delay nd).

(** A packet that is given up goes to the agent, if it asked for it, or is dropped. *)
(* [ns2/mac/arp.cc:159-179] ARPTable::arpresolve *)
Definition unreachable (p : addr) : M link unit :=
  v ← the_packet p;
  if (xmit_failure_ (cmn v) : bool) then _ ← upd p (with_cmn (cmn_reason 0)); xmit_failure p
  else drop p DROP_IFQ_ARP_FULL.

(** The table is initialised by its constructor. *)
(* [ns2/mac/arp.cc:121-198] ARPTable::arpresolve *)
Definition arpresolve (dst : Z) (p : addr) : M link Z :=
  llinfo ← arplookup dst;
  up ← (if decide (llinfo ≠ NULL) then e ← deref arp_entries llinfo; mret (bool_decide (up_ e ≠ 0)) else mret false);
  if (up : bool) then
    e ← deref arp_entries llinfo;
    _ ← upd p (with_mac (hdr_dst (macaddr_ e)));
    mret 0
  else
    llinfo ← (if decide (llinfo = NULL) then ARPEntry_new dst else mret llinfo);
    e ← deref arp_entries llinfo;
    if bool_decide (count_ e >= ARP_MAX_REQUEST_COUNT) then
      let t := hold_ e in
      _ ← upd_entry llinfo (with_hold NULL 0);
      _ ← (if decide (t ≠ NULL) then unreachable t else skip);
      _ ← unreachable p;
      mret EADDRNOTAVAIL
    else
      _ ← (if decide (hold_ e ≠ NULL) then drop (hold_ e) DROP_IFQ_ARP_FULL else skip);
      _ ← upd_entry llinfo (with_hold p (s32 (count_ e + 1)));
      _ ← arprequest (node_address nd) dst;
      mret EADDRNOTAVAIL.

(** The held packet is sent if it is on its way to the node that answered. *)
(* [ns2/mac/arp.cc:282-313] ARPTable::arpinput *)
Definition send_held (llinfo : addr) (spa sha : Z) : M link unit :=
  e ← deref arp_entries llinfo;
  if decide (hold_ e ≠ NULL) then
    v ← the_packet (hold_ e);
    dst ← nodeaddr (daddr (ip v));
    if decide ((addr_type_ (cmn v) = NS_AF_NONE ∧ dst = spa) ∨
               (addr_type_ (cmn v) = NS_AF_INET ∧ next_hop_ (cmn v) = spa)) then
      _ ← upd (hold_ e) (with_mac (hdr_dst sha));
      _ ← schedule_down (hold_ e) (arp_delay nd);
      upd_entry llinfo (λ e, with_hold NULL (count_ e) e)
    else abort
  else skip.

(** The reply takes the place of the request. *)
(* [ns2/mac/arp.cc:315-343] ARPTable::arpinput *)
Definition reply (v : packet) : packet :=
  let ah := arp_h (hdrs v) in
  with_arp (HdrArp (arp_hrd ah) (arp_pro ah) (arp_hln ah) (arp_pln ah) ARPOP_REPLY
              (mac_addr nd) (arp_tpa ah) (arp_sha ah) (arp_spa ah))
    (with_ll (HdrLl LL_DATA 0)
      (with_mac (λ h, hdr_type ETHERTYPE_ARP (hdr_src (mac_addr nd) (hdr_dst (arp_sha ah) h)))
        (with_cmn (λ c, cmn_direction DOWN (cmn_type_size (ptype_ c) ARP_HDR_LEN 0 c)) v))).

(* [ns2/mac/arp.cc:252-346] ARPTable::arpinput *)
Definition arpinput (p : addr) : M link unit :=
  v ← the_packet p;
  let ah := arp_h (hdrs v) in
  llinfo ← arplookup (arp_spa ah);
  llinfo ← (if decide (llinfo = NULL) then ARPEntry_new (arp_spa ah) else mret llinfo);
  _ ← upd_entry llinfo (with_up (arp_sha ah));
  _ ← send_held llinfo (arp_spa ah) (arp_sha ah);
  if decide (arp_op ah = ARPOP_REQUEST ∧ arp_tpa ah = node_address nd) then
    _ ← upd p reply;
    schedule_down p (arp_delay nd)
  else on_pool (free p).

(* [ns2/mac/arp.cc:90-96] ARPTable::Terminate *)
Fixpoint terminate_loop (fuel : nat) (a : addr) : M link unit :=
  match fuel with
  | O => stuck NoFuel
  | S fuel =>
      if decide (a = NULL) then skip
      else
        e ← deref arp_entries a;
        _ ← (if decide (hold_ e ≠ NULL) then
               _ ← drop (hold_ e) DROP_END_OF_SIMULATION;
               upd_entry a (λ e, with_hold NULL (count_ e) e)
             else skip);
        terminate_loop fuel (arp_link e)
  end.
(* [ns2/mac/arp.cc:87-97] ARPTable::Terminate *)
Definition Terminate : M link unit :=
  s ← get; terminate_loop (S (size (arp_entries s))) (lh_first s).

(** ** The link layer *)

(* [ns2/mac/ll.cc:234-242] LL::sendUp *)
Definition sendUp (p : addr) : M link unit :=
  v ← the_packet p;
  if bool_decide (error_ (cmn v) > 0) then drop p NO_REASON else schedule_up p (delay_ nd).

(** The last case of the switch, for packets without an address family. *)
(* [ns2/mac/ll.cc:213-221] LL::sendDown *)
Definition other_family (p : addr) : M link Z :=
  v ← the_packet p;
  let IPnh := lan_next_hop nd v in
  if bool_decide (IPnh < 0) then _ ← upd p (with_mac (hdr_dst (ll_macDA nd))); mret 0
  else
    match varp_ nd with
    | Some t =>
        match varp_arpresolve IPnh t with
        | Done (tx, ma) _ =>
            _ ← match ma with
                | Some ma => upd p (with_mac (λ h, HdrMac (macSA_ h) ma (hdr_type_ h)))
                | None => skip
                end;
            mret tx
        | Abort _ => abort
        | Stuck f => stuck f
        end
    | None => _ ← upd p (with_mac (hdr_dst IPnh)); mret 0
    end.

(** The cases [NS_AF_INET] and [NS_AF_NONE]. *)
(* [ns2/mac/ll.cc:190-205] LL::sendDown *)
Definition to_address (p : addr) (dst : Z) : M link Z :=
  if decide (u32 dst = IP_BROADCAST) then _ ← upd p (with_mac (hdr_dst MAC_BROADCAST)); mret 0
  else if arptable_ nd then arpresolve dst p
  else other_family p.

(* [ns2/mac/ll.cc:167-230] LL::sendDown *)
Definition sendDown (p : addr) : M link unit :=
  v ← the_packet p;
  dst ← nodeaddr (daddr (ip v));
  _ ← modify (λ s, set_seqno (s32 (seqno_ s + 1)) s);
  n ← gets seqno_;
  _ ← upd p (with_ll (HdrLl LL_DATA n));
  _ ← upd p (with_mac (λ h, hdr_type ETHERTYPE_IP (hdr_src (mac_addr nd) h)));
  let t := addr_type_ (cmn v) in
  tx ← (if decide (t = NS_AF_ILINK) then _ ← upd p (with_mac (hdr_dst (next_hop_ (cmn v)))); mret 0
        else if decide (t = NS_AF_INET) then to_address p (next_hop_ (cmn v))
        else if decide (t = NS_AF_NONE) then to_address p dst
        else other_family p);
  if decide (tx = 0) then schedule_down p (delay_ nd) else skip.

(** After the assertion [uptarget_] is not null. *)
(* [ns2/mac/ll.cc:135-164] LL::recv *)
Definition recv (p : addr) : M link unit :=
  v ← the_packet p;
  _ ← assert_ (connected nd);
  if decide (direction_ (cmn v) = UP) then
    if decide (ptype_ (cmn v) = PT_ARP) then (if arptable_ nd then arpinput p else stuck NullDeref)
    else sendUp p
  else
    _ ← upd p (with_cmn (cmn_direction DOWN));
    sendDown p.
End arp.

(* [ns2/mac/ll.cc:68-73] LL::LL *)
Definition LL_new (m : pool) : link := Link m ∅ NULL 0 [].
