(* ===== verification/LinkLayer.v ===== *)
(** * What the link layer promises

    The ARP table of [Arp.v] is a function from addresses to what is known of them, and the
    link layer answers each packet as the function [react] says. *)
From S2P Require Import Prelude Double Daemon SimChain SimQueues SimPacket Address Arp.
Open Scope Z_scope.

(** ** The table as a function of addresses

    [Asking n h] : [n] requests were sent since the last answer or failure, and the packet
    [h] waits, if it is not null. *)
Inductive resolution := Asking (n : Z) (h : addr) | Known (mac : Z).
Abbreviation table := (gmap Z resolution).

Definition unknown : resolution := Asking 0 NULL.
Definition lookup_total_ (T : table) (d : Z) : resolution := default unknown (T !! d).
Definition holds (r : resolution) : list addr :=
  match r with Asking _ h => if decide (h = NULL) then [] else [h] | Known _ => [] end.

(** What others see of the link layer. *)
Inductive out :=
  | Sent (p : addr) (mac : Z)      (** the packet goes down, to the interface [mac] *)
  | Given_up (p : addr)            (** no address was found for it *)
  | Asked (d : Z)                  (** an ARP request for [d] goes down *)
  | Answered (p : addr) (mac : Z)  (** the packet goes back as an ARP reply *)
  | Raised (p : addr)              (** the packet goes up *)
  | Refused (p : addr).            (** it was damaged *)

Definition resolve (d : Z) (p : addr) (T : table) : table * list out :=
  match lookup_total_ T d with
  | Known mac => (T, [Sent p mac])
  | Asking n h =>
      if decide (ARP_MAX_REQUEST_COUNT ≤ n) then (<[d := unknown]> T, Given_up <$> (holds (Asking n h) ++ [p]))
      else (<[d := Asking (n + 1) p]> T, (Given_up <$> holds (Asking n h)) ++ [Asked d])
  end.
Definition learn (d mac : Z) (T : table) : table * list out :=
  (<[d := Known mac]> T, (λ h, Sent h mac) <$> holds (lookup_total_ T d)).

Section spec.
Context `{Allocator} (nd : node).

(** The reaction to a packet [p] with the contents [v]. *)
Definition send_to (d : Z) (p : addr) (T : table) : table * list out :=
  if decide (u32 d = IP_BROADCAST) then (T, [Sent p (-1)]) else resolve d p T.
Definition react (p : addr) (v : packet) (T : table) : table * list out :=
  let ah := arp_h (hdrs v) in
  if decide (direction_ (cmn v) = UP) then
    if decide (ptype_ (cmn v) = PT_ARP) then
      let '(T', os) := learn (arp_spa ah) (arp_sha ah) T in
      (T', os ++ (if decide (arp_op ah = ARPOP_REQUEST ∧ arp_tpa ah = node_address nd)
                  then [Answered p (arp_sha ah)] else []))
    else (T, [if bool_decide (error_ (cmn v) > 0) then Refused p else Raised p])
  else if decide (addr_type_ (cmn v) = NS_AF_ILINK) then (T, [Sent p (next_hop_ (cmn v))])
  else if decide (addr_type_ (cmn v) = NS_AF_INET) then send_to (next_hop_ (cmn v)) p T
  else match get_nodeaddr (daddr (ip v)) (addressing nd) with
       | Done d _ => send_to d p T
       | _ => (T, [])
       end.

(** An effect is what [o] says. *)
Definition shows (e : effect) (o : out) : Prop :=
  match o, e with
  | Sent p mac, Down q v _ => q = p ∧ macDA_ (mac_h (hdrs v)) = mac ∧ hdr_type_ (mac_h (hdrs v)) = ETHERTYPE_IP
  | Given_up p, Dropped q DROP_IFQ_ARP_FULL | Given_up p, Failed q _ => q = p
  | Asked d, Down q v _ =>
      ptype_ (cmn v) = PT_ARP ∧ macDA_ (mac_h (hdrs v)) = MAC_BROADCAST ∧ hdr_type_ (mac_h (hdrs v)) = ETHERTYPE_ARP ∧
      arp_h (hdrs v) = HdrArp ARPHRD_ETHER ETHERTYPE_IP ETHER_ADDR_LEN 4 ARPOP_REQUEST (mac_addr nd) (node_address nd) 0 d
  | Answered p mac, Down q v _ =>
      q = p ∧ macDA_ (mac_h (hdrs v)) = mac ∧ hdr_type_ (mac_h (hdrs v)) = ETHERTYPE_ARP ∧
      arp_op (arp_h (hdrs v)) = ARPOP_REPLY ∧ arp_sha (arp_h (hdrs v)) = mac_addr nd ∧
      arp_spa (arp_h (hdrs v)) = node_address nd
  | Raised p, Up q _ _ => q = p
  | Refused p, Dropped q NO_REASON => q = p
  | _, _ => False
  end.

(** ** The table in memory *)

Implicit Types (s : link) (T : table) (m : pool (P := link_hdrs)).

Definition arp_next (m : gmap N ARPEntry) (a : addr) : option addr := arp_link <$> m !! a.
Definition status (e : ARPEntry) : resolution :=
  if decide (up_ e = 0) then Asking (count_ e) (hold_ e) else Known (macaddr_ e).

(** Each address has one entry, and no packet is held for one that is known. *)
Definition arp_rep s T : Prop :=
  ∃ es, chain (arp_next (arp_entries s)) (lh_first s) es NULL ∧
    (∀ a, a ∈ es ↔ is_Some (arp_entries s !! a)) ∧
    (∀ a b e e', arp_entries s !! a = Some e → arp_entries s !! b = Some e' → ipaddr_ e = ipaddr_ e' → a = b) ∧
    (∀ a e, arp_entries s !! a = Some e → T !! ipaddr_ e = Some (status e) ∧ (up_ e ≠ 0 → hold_ e = NULL)) ∧
    (∀ d r, T !! d = Some r → ∃ a e, arp_entries s !! a = Some e ∧ ipaddr_ e = d).

Lemma arp_lookup_loop_spec fuel d a es s :
  chain (arp_next (arp_entries s)) a es NULL → (length es < fuel)%nat →
  (∀ b e, b ∈ es → arp_entries s !! b = Some e → ipaddr_ e ≠ d) ∧ lookup_loop fuel d a s = Done NULL s ∨
  ∃ b e, b ∈ es ∧ arp_entries s !! b = Some e ∧ ipaddr_ e = d ∧ lookup_loop fuel d a s = Done b s.
Proof.
  revert a es. induction fuel as [|fuel IH]; intros a es Hc Hf; [lia|]. cbn [lookup_loop].
  destruct es as [|x es].
  - simpl in Hc. subst. left. split; [set_solver|done].
  - destruct Hc as (-> & Hx & n & En & Hc). rewrite decide_False by done. unfold arp_next in En.
    destruct (arp_entries s !! x) as [e|] eqn:E; [|done]. injection En as En.
    rewrite (bind_done _ _ _ _ _ (deref_done _ _ _ s Hx E)).
    destruct (decide (ipaddr_ e = d)) as [Ei|Ei].
    + right. exists x, e. by split_and!; [left|..].
    + rewrite En. destruct (IH n es Hc) as [[Hno El]|(b & e' & Hb & Ee & Ed & El)]; [simpl in Hf; lia|left|right].
      * split; [|done]. intros b e' [->|Hb]%elem_of_cons He; [by simplify_eq|by eapply Hno].
      * exists b, e'. by split_and!; [right|..].
Qed.

Lemma arplookup_spec s T d :
  arp_rep s T →
  match T !! d with
  | Some r => ∃ a e, arplookup d s = Done a s ∧ a ≠ NULL ∧ arp_entries s !! a = Some e ∧ ipaddr_ e = d ∧
      status e = r ∧ (up_ e ≠ 0 → hold_ e = NULL)
  | None => arplookup d s = Done NULL s
  end.
Proof.
  intros (es & Hc & Hdom & Huniq & Hent & Hinv). unfold arplookup. rewrite (bind_done _ _ _ s s) by done.
  destruct (arp_lookup_loop_spec (S (size (arp_entries s))) d (lh_first s) es s Hc) as [[Hno El]|(b & e & Hb & Ee & Ed & El)].
  { enough (length es ≤ size (arp_entries s))%nat by lia. apply NoDup_dom_length; [by eapply chain_NoDup|].
    intros x Hx. by apply Hdom. }
  - destruct (T !! d) as [r|] eqn:ET; [|done]. destruct (Hinv _ _ ET) as (a & e & Ea & Ei).
    exfalso. eapply Hno; [apply Hdom; by exists e|done|done].
  - destruct (Hent _ _ Ee) as [Hs Hh]. rewrite Ed in Hs. rewrite Hs. exists b, e. split_and!; try done.
    by eapply chain_dom in Hc as [? _].
Qed.

Lemma arp_rep_same s s' T :
  arp_entries s' = arp_entries s → lh_first s' = lh_first s → arp_rep s T → arp_rep s' T.
Proof. intros E1 E2. unfold arp_rep. by rewrite E1, E2. Qed.

Lemma upd_entry_spec s T a e f :
  arp_rep s T → arp_entries s !! a = Some e → ipaddr_ (f e) = ipaddr_ e → arp_link (f e) = arp_link e →
  (up_ (f e) ≠ 0 → hold_ (f e) = NULL) →
  upd_entry a f s = Done tt (set_arp_entries (<[a := f e]> (arp_entries s)) s) ∧
  arp_rep (set_arp_entries (<[a := f e]> (arp_entries s)) s) (<[ipaddr_ e := status (f e)]> T).
Proof.
  intros (es & Hc & Hdom & Huniq & Hent & Hinv) Ea Hi Hl Hh. split.
  - unfold upd_entry. rewrite (bind_done _ _ _ e s); [done|]. apply deref_done; [|done].
    eapply (chain_dom _ _ _ _ a Hc), Hdom. by exists e.
  - exists es. simpl. split_and!.
    + eapply chain_ext; [|exact Hc]. intros x _. unfold arp_next.
      destruct (decide (x = a)) as [->|]; [|by rewrite lookup_insert_ne].
      by rewrite lookup_insert_eq, Ea; simpl; rewrite Hl.
    + intros b. rewrite Hdom. destruct (decide (b = a)) as [->|]; [|by rewrite lookup_insert_ne].
      rewrite lookup_insert_eq, Ea. by split.
    + intros b c eb ec. destruct (decide (b = a)) as [->|], (decide (c = a)) as [->|]; try done;
        rewrite ?lookup_insert_eq, ?lookup_insert_ne by done; intros Eb Ec Eip; simplify_eq;
        [eapply Huniq; eauto; congruence|eapply Huniq; eauto; congruence|by eapply Huniq].
    + intros b eb. destruct (decide (b = a)) as [->|].
      * rewrite lookup_insert_eq. intros [= <-]. rewrite Hi, lookup_insert_eq. done.
      * rewrite lookup_insert_ne by done. intros Eb. destruct (Hent _ _ Eb) as [Hs ?]. split; [|done].
        rewrite lookup_insert_ne; [done|]. intros Eip. by destruct (Huniq _ _ _ _ Ea Eb Eip).
    + intros d r. destruct (decide (d = ipaddr_ e)) as [->|].
      * intros _. exists a, (f e). by rewrite lookup_insert_eq.
      * rewrite lookup_insert_ne by done. intros (b & eb & Eb & <-)%Hinv.
        exists b, eb. rewrite lookup_insert_ne; [done|]. intros ->. by simplify_eq.
Qed.

Lemma ARPEntry_new_spec s T d :
  (∀ D, is_Some (malloc D)) → arp_rep s T → T !! d = None →
  ∃ a e s', ARPEntry_new d s = Done a s' ∧ a ≠ NULL ∧ arp_entries s' !! a = Some e ∧ ipaddr_ e = d ∧
    up_ e = 0 ∧ hold_ e = NULL ∧ count_ e = 0 ∧ arp_rep s' (<[d := unknown]> T) ∧
    l_pool s' = l_pool s ∧ l_log s' = l_log s.
Proof.
  intros Hmem (es & Hc & Hdom & Huniq & Hent & Hinv) HT. unfold ARPEntry_new. rewrite (bind_done _ _ _ s s) by done.
  destruct (Hmem (dom (arp_entries s))) as [a Ea]. rewrite Ea. destruct (malloc_fresh _ _ Ea) as [Ha Ha0].
  apply not_elem_of_dom in Ha. set (e := MkARPEntry (lh_first s) 0 d 0 NULL 0).
  exists a, e. eexists. split; [done|]. simpl. rewrite lookup_insert_eq. split_and!; try done. exists (a :: es). simpl.
  assert (∀ b eb, arp_entries s !! b = Some eb → ipaddr_ eb ≠ d) as Hne.
  { intros b eb Eb <-. destruct (Hent _ _ Eb) as [Hs _]. congruence. }
  split_and!.
  - done.
  - done.
  - exists (lh_first s). unfold arp_next. rewrite lookup_insert_eq. split; [done|].
    eapply chain_ext; [|exact Hc]. intros x Hx. unfold arp_next. rewrite lookup_insert_ne; [done|].
    intros ->. apply Hdom in Hx as [? ?]. congruence.
  - intros b. rewrite elem_of_cons, Hdom. destruct (decide (b = a)) as [->|]; [rewrite lookup_insert_eq; naive_solver|].
    rewrite lookup_insert_ne by done. naive_solver.
  - intros b c eb ec. destruct (decide (b = a)) as [->|], (decide (c = a)) as [->|]; try done;
      rewrite ?lookup_insert_eq, ?lookup_insert_ne by done; intros Eb Ec Eip; simplify_eq; simpl in *.
    + by destruct (Hne _ _ Ec).
    + by destruct (Hne _ _ Eb).
    + by eapply Huniq.
  - intros b eb. destruct (decide (b = a)) as [->|].
    + rewrite lookup_insert_eq. intros [= <-]. simpl. by rewrite lookup_insert_eq.
    + rewrite lookup_insert_ne by done. intros Eb. pose proof (Hne _ _ Eb). rewrite lookup_insert_ne by congruence. exact (Hent _ _ Eb).
  - intros d' r. destruct (decide (d' = d)) as [->|].
    + intros _. exists a, e. by rewrite lookup_insert_eq.
    + rewrite lookup_insert_ne by done. intros (b & eb & Eb & <-)%Hinv.
      exists b, eb. rewrite lookup_insert_ne; [done|]. intros ->. congruence.
Qed.

(** ** Headers *)

Lemma macDA_src x h : macDA_ (hdr_src x h) = macDA_ h.
Proof. unfold hdr_src. by case_bool_decide. Qed.
Lemma macDA_type x h : macDA_ (hdr_type x h) = macDA_ h.
Proof. unfold hdr_type. by case_decide. Qed.
Lemma macDA_dst x h : -2 < x → macDA_ (hdr_dst x h) = x.
Proof. intros. unfold hdr_dst. by rewrite bool_decide_true by lia. Qed.
Lemma type_src x h : hdr_type_ (hdr_src x h) = hdr_type_ h.
Proof. unfold hdr_src. by case_bool_decide. Qed.
Lemma type_dst x h : hdr_type_ (hdr_dst x h) = hdr_type_ h.
Proof. unfold hdr_dst. by case_bool_decide. Qed.

(** ** Packets in memory *)

Definition with_packet (p : addr) (v : packet) s : link :=
  set_l_pool (set_packets (<[p := v]> (packets (l_pool s))) (l_pool s)) s.

(** [v] is on its way to the address [d]. *)
Definition bound (d : Z) (v : packet) : Prop :=
  addr_type_ (cmn v) = NS_AF_INET ∧ next_hop_ (cmn v) = d ∨
  addr_type_ (cmn v) = NS_AF_NONE ∧ get_nodeaddr (daddr (ip v)) (addressing nd) = Done d (addressing nd).

(** A packet that the link layer has made an IP frame. *)
Definition waits_for (d : Z) (v : packet) : Prop :=
  bound d v ∧ hdr_type_ (mac_h (hdrs v)) = ETHERTYPE_IP ∧
  ∃ n, get_nodeaddr (daddr (ip v)) (addressing nd) = Done n (addressing nd).

Definition held T (p : addr) : Prop := ∃ d n, T !! d = Some (Asking n p).

(** At most three requests were sent, and the packets that are held are in use and wait for
    that address; hardware addresses are not the values below -1, which stand for none. *)
Definition entry_ok (mem : gmap N packet) (d : Z) (r : resolution) : Prop :=
  match r with
  | Asking n h => 0 ≤ n ≤ 3 ∧ (h ≠ NULL → ∃ v, mem !! h = Some v ∧ fflag_ v = true ∧ waits_for d v)
  | Known mac => -2 < mac
  end.
Definition pool_inv (m : pool (P := link_hdrs)) T : Prop :=
  (∃ fs, pool_ok m fs) ∧ ∀ d r, T !! d = Some r → entry_ok (packets m) d r.
Definition link_inv s T : Prop := arp_rep s T ∧ pool_inv (l_pool s) T.

Lemma l_packet_done s p v : p ≠ NULL → packets (l_pool s) !! p = Some v → the_packet p s = Done v s.
Proof.
  intros Hp Hv. unfold the_packet, on_pool, zoom. rewrite (deref_done packets p v (l_pool s) Hp Hv).
  by destruct s.
Qed.
Lemma l_upd_done s p f v : p ≠ NULL → packets (l_pool s) !! p = Some v → upd p f s = Done tt (with_packet p (f v) s).
Proof. intros Hp Hv. unfold upd, on_pool, zoom. by rewrite (upd_packet_done p f (l_pool s) v Hp Hv). Qed.

Lemma with_packet_lookup s p v : packets (l_pool (with_packet p v s)) !! p = Some v.
Proof. apply lookup_insert_eq. Qed.
Lemma with_packet_twice s p v w : with_packet p w (with_packet p v s) = with_packet p w s.
Proof. unfold with_packet, set_l_pool, set_packets. simpl. by rewrite insert_insert_eq. Qed.
Lemma with_packet_same s p v : packets (l_pool s) !! p = Some v → with_packet p v s = s.
Proof.
  intros Hv. unfold with_packet, set_l_pool, set_packets. rewrite insert_id by done. by destruct s as [[]].
Qed.

Lemma pool_null m T p v : pool_inv m T → packets m !! p = Some v → p ≠ NULL.
Proof. intros [[fs (_ & Hn & _)] _] Hv ->. congruence. Qed.

Lemma bound_unique d d' v : bound d v → bound d' v → d = d'.
Proof. intros [[? ?]|[? ?]] [[? ?]|[? ?]]; unfold NS_AF_INET, NS_AF_NONE in *; congruence. Qed.

(** A packet is held for one address only. *)
Lemma held_once m T d d' n n' p :
  pool_inv m T → T !! d = Some (Asking n p) → T !! d' = Some (Asking n' p) → p ≠ NULL → d = d'.
Proof.
  intros [_ Hh] H1 H2 Hp. destruct (Hh _ _ H1) as [_ (v & Ev & _ & B & _)]; [done|].
  destruct (Hh _ _ H2) as [_ (v' & Ev' & _ & B' & _)]; [done|]. rewrite Ev in Ev'. injection Ev' as <-.
  by eapply bound_unique.
Qed.

Lemma entry_ok_packet (mem : gmap N packet) T p v d r :
  ¬ held T p → T !! d = Some r → entry_ok mem d r → entry_ok (<[p := v]> mem) d r.
Proof.
  intros Hp HT. destruct r as [n h|]; [|done]. intros [Hn Hh]. split; [done|]. intros Hne.
  rewrite lookup_insert_ne; [by apply Hh|]. intros ->. apply Hp. by exists d, n.
Qed.

Lemma pool_inv_packet m T p v w :
  pool_inv m T → packets m !! p = Some w → fflag_ w = true → fflag_ v = true → ¬ held T p →
  pool_inv (set_packets (<[p := v]> (packets m)) m) T.
Proof.
  intros [[fs Hok] Hh] Hw Hfw Hfv Hp. split.
  - exists fs. eapply pool_ok_insert; [done|exact Hw| |done]. destruct Hok as (_ & _ & Hf & _).
    intros Hin. apply Hf in Hw. rewrite <- Hw in Hin. congruence.
  - intros d r HT. eapply entry_ok_packet; [done..|]. by apply Hh.
Qed.

Lemma pool_inv_table m T d r :
  pool_inv m T → entry_ok (packets m) d r → pool_inv m (<[d := r]> T).
Proof.
  intros [Hok Hh] Hr. split; [done|]. intros d' r'. destruct (decide (d' = d)) as [->|].
  - rewrite lookup_insert_eq. by intros [= <-].
  - rewrite lookup_insert_ne by done. apply Hh.
Qed.

Lemma link_inv_packet s T p v w :
  link_inv s T → packets (l_pool s) !! p = Some w → fflag_ w = true → fflag_ v = true → ¬ held T p →
  link_inv (with_packet p v s) T.
Proof. intros [Hr Hp] Hw Hfw Hfv Hn. split; [by eapply arp_rep_same; [..|exact Hr]|by eapply pool_inv_packet]. Qed.

Lemma link_inv_record s T e : link_inv s T → link_inv (record_ e s) T.
Proof. intros [Hr Hp]. split; [by eapply arp_rep_same; [..|exact Hr]|done]. Qed.

Lemma not_held_insert T d r p : ¬ held T p → (∀ n, r ≠ Asking n p) → ¬ held (<[d := r]> T) p.
Proof.
  intros Hp Hr (d' & n & E). destruct (decide (d' = d)) as [->|].
  - rewrite lookup_insert_eq in E. injection E as ->. by apply (Hr n).
  - rewrite lookup_insert_ne in E by done. apply Hp. by exists d', n.
Qed.

(** ** Requests and failures *)

Lemma unreachable_spec s T p v :
  link_inv s T → packets (l_pool s) !! p = Some v → fflag_ v = true → ¬ held T p →
  ∃ e w, unreachable p s = Done tt (record_ e (with_packet p w s)) ∧ shows e (Given_up p) ∧ fflag_ w = true ∧
    link_inv (record_ e (with_packet p w s)) T.
Proof.
  intros Hs Hv Hf Hn. pose proof (pool_null _ _ _ _ (proj2 Hs) Hv) as Hp. unfold unreachable.
  rewrite (bind_done _ _ _ _ _ (l_packet_done s p v Hp Hv)).
  destruct (xmit_failure_ (cmn v)).
  - rewrite (bind_done _ _ _ _ _ (l_upd_done s p _ v Hp Hv)).
    set (w := with_cmn (cmn_reason 0) v). unfold xmit_failure.
    rewrite (bind_done _ _ _ _ _ (l_packet_done (with_packet p w s) p w Hp (with_packet_lookup _ _ _))).
    exists (Failed p w), w. split_and!; try done. apply link_inv_record. by eapply link_inv_packet.
  - exists (Dropped p DROP_IFQ_ARP_FULL), v. rewrite with_packet_same by done. split_and!; try done.
Qed.

Lemma arprequest_spec s T d :
  (∀ D, is_Some (malloc D)) → link_inv s T →
  ∃ e s', arprequest nd (node_address nd) d s = Done tt s' ∧ l_log s' = e :: l_log s ∧ shows e (Asked d) ∧
    link_inv s' T.
Proof.
  intros Hmem [Hr [[fs Hok] Hh]]. destruct (alloc_spec (l_pool s) fs Hok) as (q & m' & v & E & Hok' & Hq & Hqfs & Hv & Hfresh & Hkeep).
  { intros _. apply Hmem. }
  unfold arprequest. rewrite (bind_done _ _ _ q (set_l_pool m' s)) by (unfold on_pool, zoom; by rewrite E).
  rewrite (bind_done _ _ _ _ _ (l_upd_done (set_l_pool m' s) q _ v Hq Hv)).
  do 4 (rewrite (bind_done _ _ _ _ _ (l_upd_done _ q _ _ Hq (with_packet_lookup _ _ _))), with_packet_twice).
  unfold schedule_down. rewrite (bind_done _ _ _ _ _ (l_packet_done _ q _ Hq (with_packet_lookup _ _ _))).
  eexists _, _. split; [done|]. destruct Hfresh as (_ & _ & _ & Hf & _).
  split; [done|]. split; [cbn [shows]; split_and!; try done; simpl; by rewrite macDA_src|]. split.
  - eapply arp_rep_same; [..|exact Hr]; done.
  - split; simpl.
    + exists (tail fs). by eapply pool_ok_insert.
    + intros d' r HT. specialize (Hh _ _ HT). destruct r as [n h|]; [|done]. destruct Hh as [Hn Hh].
      split; [done|]. intros Hne. destruct (Hh Hne) as (u & Eu & Hfu & B). destruct (Hkeep _ _ Eu Hfu) as [Hb Eu'].
      exists u. by rewrite lookup_insert_ne.
Qed.

(** ** Resolving *)

(** What an entry is changed to, when its packet is replaced. *)
Lemma hold_spec s T a e q n :
  link_inv s T → arp_entries s !! a = Some e → up_ e = 0 →
  entry_ok (packets (l_pool s)) (ipaddr_ e) (Asking n q) →
  ∃ s', upd_entry a (with_hold q n) s = Done tt s' ∧ link_inv s' (<[ipaddr_ e := Asking n q]> T) ∧
    l_pool s' = l_pool s ∧ l_log s' = l_log s.
Proof.
  intros [Hr Hp] Ea Hu Hok. destruct (upd_entry_spec s T a e (with_hold q n) Hr Ea) as [E Hr']; [done..|simpl; congruence|].
  eexists. split; [exact E|]. split; [|done]. unfold status in Hr'. simpl in Hr'. rewrite decide_True in Hr' by done.
  split; [exact Hr'|]. by apply pool_inv_table.
Qed.

Lemma arpresolve_known s T d p v mac :
  link_inv s T → lookup_total_ T d = Known mac → p ≠ NULL → packets (l_pool s) !! p = Some v →
  arpresolve nd d p s = Done 0 (with_packet p (with_mac (hdr_dst mac) v) s).
Proof.
  intros [Hr Hp] HT Hp0 Hv. pose proof (arplookup_spec s T d Hr) as Hlk. unfold lookup_total_ in HT.
  destruct (T !! d) as [r|]; [|done]. simpl in HT. subst r.
  destruct Hlk as (a & e & E & Ha & Ea & Ei & Hst & _). unfold status in Hst. case_decide as Hu; [done|]. injection Hst as <-.
  unfold arpresolve. rewrite (bind_done _ _ _ _ _ E), (decide_True (P := a ≠ NULL)) by done.
  rewrite (bind_done (deref _ _ ≫= _) _ s true s).
  2:{ rewrite (bind_done _ _ _ _ _ (deref_done _ _ _ s Ha Ea)). by rewrite bool_decide_true. }
  rewrite (bind_done _ _ _ _ _ (deref_done _ _ _ s Ha Ea)).
  by rewrite (bind_done _ _ _ _ _ (l_upd_done s p _ v Hp0 Hv)).
Qed.

(** The entry that [arpresolve] works on. *)
Lemma arpresolve_asking s T d p n h :
  (∀ D, is_Some (malloc D)) → link_inv s T → lookup_total_ T d = Asking n h →
  ∃ a e s1, arp_entries s1 !! a = Some e ∧ ipaddr_ e = d ∧ up_ e = 0 ∧ count_ e = n ∧ hold_ e = h ∧ a ≠ NULL ∧
    link_inv s1 (<[d := Asking n h]> T) ∧ l_pool s1 = l_pool s ∧ l_log s1 = l_log s ∧
    arpresolve nd d p s =
      (if bool_decide (count_ e >= ARP_MAX_REQUEST_COUNT) then
        _ ← upd_entry a (with_hold NULL 0);
        _ ← (if decide (hold_ e ≠ NULL) then unreachable (hold_ e) else skip);
        _ ← unreachable p;
        mret EADDRNOTAVAIL
      else
        _ ← (if decide (hold_ e ≠ NULL) then drop (hold_ e) DROP_IFQ_ARP_FULL else skip);
        _ ← upd_entry a (with_hold p (s32 (count_ e + 1)));
        _ ← arprequest nd (node_address nd) d;
        mret EADDRNOTAVAIL) s1.
Proof.
  intros Hmem [Hr Hp] HT. pose proof (arplookup_spec s T d Hr) as Hlk. unfold lookup_total_ in HT.
  unfold arpresolve. destruct (T !! d) as [r|] eqn:ET; simpl in HT.
  - subst r. destruct Hlk as (a & e & E & Ha & Ea & Ei & Hst & _). unfold status in Hst.
    case_decide as Hu; [|done]. injection Hst as <- <-. exists a, e, s. rewrite insert_id by done. split_and!; try done.
    rewrite (bind_done _ _ _ _ _ E), (decide_True (P := a ≠ NULL)) by done.
    rewrite (bind_done (deref _ _ ≫= _) _ s false s).
    2:{ rewrite (bind_done _ _ _ _ _ (deref_done _ _ _ s Ha Ea)). by rewrite bool_decide_false by lia. }
    rewrite decide_False, (bind_done _ _ _ a s) by done.
    by rewrite (bind_done _ _ _ _ _ (deref_done _ _ _ s Ha Ea)).
  - injection HT as <- <-. destruct (ARPEntry_new_spec s T d Hmem Hr ET)
      as (a & e & s1 & E & Ha & Ea & Ei & Hu & Hh & Hc & Hr1 & Hp1 & Hl1).
    exists a, e, s1. split_and!; try done.
    + split; [done|]. rewrite Hp1. apply pool_inv_table; [done|]. split; [lia|done].
    + rewrite (bind_done _ _ _ _ _ Hlk), (decide_False (P := NULL ≠ NULL)) by (by intros []).
      rewrite (bind_done _ _ _ false s) by done. rewrite decide_True, (bind_done _ _ _ _ _ E) by done.
      by rewrite (bind_done _ _ _ _ _ (deref_done _ _ _ s1 Ha Ea)).
Qed.

(** Giving up the packets of a list, which nobody waits for any more. *)
Lemma arpresolve_fails s T d p v n h a e :
  link_inv s (<[d := Asking n h]> T) → p ≠ NULL → packets (l_pool s) !! p = Some v → fflag_ v = true → ¬ held T p →
  arp_entries s !! a = Some e → ipaddr_ e = d → up_ e = 0 → hold_ e = h → h ≠ p →
  (∀ d' n', T !! d' = Some (Asking n' h) → h ≠ NULL → d' = d) →
  ∃ s' es, (_ ← upd_entry a (with_hold NULL 0);
        _ ← (if decide (hold_ e ≠ NULL) then unreachable (hold_ e) else skip);
        _ ← unreachable p;
        mret EADDRNOTAVAIL) s = Done EADDRNOTAVAIL s' ∧ link_inv s' (<[d := unknown]> T) ∧
    l_log s' = rev es ++ l_log s ∧ Forall2 shows es (Given_up <$> (holds (Asking n h) ++ [p])).
Proof.
  intros Hs Hp0 Hv Hf Hn Ea Ei Hu Hh Hhp Hother.
  destruct (hold_spec s _ a e NULL 0 Hs Ea Hu) as (s1 & E1 & Hs1 & P1 & L1); [done|].
  rewrite Ei, insert_insert_eq in Hs1. rewrite (bind_done _ _ _ _ _ E1). rewrite <- P1 in Hv.
  assert (¬ held (<[d := unknown]> T) p) as Hn1 by (apply not_held_insert; [done|intros ? [=]; congruence]).
  assert (∃ s2 es, (if decide (hold_ e ≠ NULL) then unreachable (hold_ e) else skip) s1 = Done tt s2 ∧
    link_inv s2 (<[d := unknown]> T) ∧ l_log s2 = rev es ++ l_log s ∧
    Forall2 shows es (Given_up <$> holds (Asking n h)) ∧ packets (l_pool s2) !! p = Some v)
    as (s2 & es & E2 & Hs2 & L2 & Hes & Hv2).
  { rewrite Hh. cbn [holds]. destruct (decide (h = NULL)) as [->|Hh0].
    - rewrite decide_False by (by intros []). exists s1, []. by split_and!.
    - rewrite decide_True by done. destruct Hs as [_ [_ Hok]]. specialize (Hok d (Asking n h)).
      rewrite lookup_insert_eq in Hok. destruct Hok as [_ (u & Eu & Hfu & _)]; [done..|].
      rewrite <- P1 in Eu. destruct (unreachable_spec s1 _ h u Hs1 Eu Hfu) as (ef & w & E & Hsh & Hfw & Hs2).
      { intros (d' & n' & E). destruct (decide (d' = d)) as [->|].
        - rewrite lookup_insert_eq in E. unfold unknown in E. congruence.
        - rewrite lookup_insert_ne in E by done. by destruct (Hother _ _ E Hh0). }
      exists (record_ ef (with_packet h w s1)), [ef]. split_and!; try done.
      + simpl. by rewrite L1.
      + by repeat constructor.
      + simpl. by rewrite lookup_insert_ne. }
  rewrite (bind_done _ _ _ _ _ E2). destruct (unreachable_spec s2 _ p v Hs2 Hv2 Hf Hn1) as (ef & w & E & Hsh & _ & Hs3).
  rewrite (bind_done _ _ _ _ _ E). exists (record_ ef (with_packet p w s2)), (es ++ [ef]). split_and!; try done.
  - simpl. by rewrite L2, rev_app_distr.
  - rewrite fmap_app. apply Forall2_app; [done|by repeat constructor].
Qed.

Lemma arpresolve_waits s T d p v n h a e :
  (∀ D, is_Some (malloc D)) → link_inv s (<[d := Asking n h]> T) → packets (l_pool s) !! p = Some v →
  fflag_ v = true → waits_for d v → arp_entries s !! a = Some e → ipaddr_ e = d → up_ e = 0 → hold_ e = h → n < 3 →
  ∃ s' es, (_ ← (if decide (hold_ e ≠ NULL) then drop (hold_ e) DROP_IFQ_ARP_FULL else skip);
        _ ← upd_entry a (with_hold p (s32 (n + 1)));
        _ ← arprequest nd (node_address nd) d;
        mret EADDRNOTAVAIL) s = Done EADDRNOTAVAIL s' ∧ link_inv s' (<[d := Asking (n + 1) p]> T) ∧
    l_log s' = rev es ++ l_log s ∧ Forall2 shows es ((Given_up <$> holds (Asking n h)) ++ [Asked d]).
Proof.
  intros Hmem Hs Hv Hf Hb Ea Ei Hu Hh Hn. pose proof (proj2 (proj2 Hs) d _ (lookup_insert_eq _ _ _)) as [Hn0 _].
  assert (∃ s1 es, (if decide (hold_ e ≠ NULL) then drop (hold_ e) DROP_IFQ_ARP_FULL else skip) s = Done tt s1 ∧
    link_inv s1 (<[d := Asking n h]> T) ∧ l_log s1 = rev es ++ l_log s ∧ l_pool s1 = l_pool s ∧
    arp_entries s1 = arp_entries s ∧ Forall2 shows es (Given_up <$> holds (Asking n h)))
    as (s1 & es & E1 & Hs1 & L1 & P1 & A1 & Hes).
  { rewrite Hh. cbn [holds]. destruct (decide (h = NULL)) as [->|Hh0].
    - rewrite decide_False by (by intros []). exists s, []. by split_and!.
    - rewrite decide_True by done. exists (record_ (Dropped h DROP_IFQ_ARP_FULL) s), [Dropped h DROP_IFQ_ARP_FULL].
      split_and!; try done; by repeat constructor. }
  rewrite (bind_done _ _ _ _ _ E1). rewrite <- A1 in Ea. rewrite s32_small by lia.
  destruct (hold_spec s1 _ a e p (n + 1) Hs1 Ea Hu) as (s2 & E2 & Hs2 & P2 & L2).
  { split; [lia|]. intros _. exists v. by rewrite P1, Ei. }
  rewrite Ei, insert_insert_eq in Hs2. rewrite (bind_done _ _ _ _ _ E2).
  destruct (arprequest_spec s2 _ d Hmem Hs2) as (ef & s3 & E3 & L3 & Hsh & Hs3).
  rewrite (bind_done _ _ _ _ _ E3). exists s3, (es ++ [ef]). split_and!; try done.
  - by rewrite L3, L2, L1, rev_app_distr.
  - apply Forall2_app; [done|by repeat constructor].
Qed.

Lemma arpresolve_spec s T d p v :
  (∀ D, is_Some (malloc D)) → link_inv s T → packets (l_pool s) !! p = Some v → fflag_ v = true → waits_for d v →
  ¬ held T p →
  match lookup_total_ T d with
  | Known mac => arpresolve nd d p s = Done 0 (with_packet p (with_mac (hdr_dst mac) v) s)
  | Asking _ _ => ∃ s' es, arpresolve nd d p s = Done EADDRNOTAVAIL s' ∧ link_inv s' (resolve d p T).1 ∧
      l_log s' = rev es ++ l_log s ∧ Forall2 shows es (resolve d p T).2
  end.
Proof.
  intros Hmem Hs Hv Hf Hb Hn. pose proof (pool_null _ _ _ _ (proj2 Hs) Hv) as Hp. unfold resolve.
  destruct (lookup_total_ T d) as [n h|mac] eqn:HT; [|by eapply arpresolve_known].
  destruct (arpresolve_asking s T d p n h Hmem Hs HT) as (a & e & s1 & Ea & Ei & Hu & Hc & Hh & Ha & Hs1 & P1 & L1 & ->).
  rewrite Hc, <- L1. rewrite <- P1 in Hv.
  destruct (decide (ARP_MAX_REQUEST_COUNT ≤ n)) as [Hge|Hlt]; unfold ARP_MAX_REQUEST_COUNT in *.
  - rewrite bool_decide_true by lia. eapply arpresolve_fails; try done.
    + intros ->. unfold lookup_total_ in HT. destruct (T !! d) as [r|] eqn:E; simpl in HT; [rewrite HT in E; destruct Hn; by exists d, n|].
      unfold unknown in HT. congruence.
    + intros d' n' E Hh0. apply (held_once (l_pool s) T d' d n' n h); [apply Hs|done| |done].
      unfold lookup_total_, unknown in HT. destruct (T !! d); simpl in HT; congruence.
  - rewrite bool_decide_false by lia. eapply arpresolve_waits; try done. lia.
Qed.

(** ** Answers and requests from others *)

(** What is known of a node replaces what was; the packet that waits is sent. *)
Lemma learn_spec s T a e mac :
  link_inv s T → -2 < mac → a ≠ NULL → arp_entries s !! a = Some e →
  ∃ s' es, (_ ← upd_entry a (with_up mac); send_held nd a (ipaddr_ e) mac) s = Done tt s' ∧
    link_inv s' (<[ipaddr_ e := Known mac]> T) ∧ l_log s' = rev es ++ l_log s ∧
    Forall2 shows es ((λ h, Sent h mac) <$> holds (status e)) ∧
    ∀ p, ¬ held T p → packets (l_pool s') !! p = packets (l_pool s) !! p.
Proof.
  intros Hs Hmac Ha Ea. pose proof Hs as [Hr Hp].
  set (f := λ e : ARPEntry, with_hold NULL (count_ e) (with_up mac e)).
  destruct (upd_entry_spec s T a e f Hr Ea) as [_ Hr']; [done..|].
  assert (status (f e) = Known mac) as Est by done. rewrite Est in Hr'.
  pose proof Hr as (_ & _ & _ & _ & Hent & _). destruct (Hent _ _ Ea) as [HT Hup].
  assert (pool_inv (l_pool s) (<[ipaddr_ e := Known mac]> T)) as Hp' by by apply pool_inv_table.
  rewrite (bind_done _ _ _ tt (set_arp_entries (<[a := with_up mac e]> (arp_entries s)) s)).
  2:{ unfold upd_entry. by rewrite (bind_done _ _ _ _ _ (deref_done _ _ _ s Ha Ea)). }
  set (s1 := set_arp_entries _ s). unfold send_held.
  rewrite (bind_done _ _ _ _ _ (deref_done arp_entries a (with_up mac e) s1 Ha (lookup_insert_eq _ _ _))).
  cbn [hold_ with_up]. destruct (decide (hold_ e = NULL)) as [Eh|Hh0].
  { rewrite decide_False by (by intros []). exists s1, []. split; [done|].
    assert (with_up mac e = f e) as Ef by (unfold f, with_hold, with_up; simpl; by rewrite Eh).
    split_and!; try done.
    - split; [|done]. subst s1. by rewrite Ef.
    - unfold status. case_decide; [|done]. cbn [holds]. by rewrite decide_True. }
  assert (up_ e = 0) as Hu by (destruct (decide (up_ e = 0)); [done|by destruct Hh0, Hup]).
  unfold status in HT |- *. rewrite decide_True in HT by done. rewrite (decide_True (P := up_ e = 0)) by done.
  destruct (proj2 Hp _ _ HT) as [_ (v & Ev & Hfv & Hb & Hty & n & En)]; [done|].
  rewrite decide_True by done.
  rewrite (bind_done _ _ _ _ _ (l_packet_done s1 (hold_ e) v Hh0 Ev)).
  rewrite (bind_done _ _ _ n s1) by by unfold nodeaddr; rewrite En.
  rewrite decide_True.
  2:{ destruct Hb as [[Hi Hd]|[Hi Hd]]; [by right|left]. split; [done|congruence]. }
  rewrite (bind_done _ _ _ _ _ (l_upd_done s1 (hold_ e) _ v Hh0 Ev)).
  set (w := with_mac (hdr_dst mac) v). set (s2 := with_packet (hold_ e) w s1).
  rewrite (bind_done _ _ _ tt (record_ (Down (hold_ e) w (arp_delay nd)) s2)).
  2:{ unfold schedule_down. by rewrite (bind_done _ _ _ _ _ (l_packet_done s2 _ w Hh0 (with_packet_lookup _ _ _))). }
  unfold upd_entry. rewrite (bind_done _ _ _ (with_up mac e) (record_ (Down (hold_ e) w (arp_delay nd)) s2)).
  2:{ apply deref_done; [done|]. simpl. by rewrite lookup_insert_eq. }
  eexists _, [Down (hold_ e) w (arp_delay nd)]. split; [done|].
  assert (¬ held (<[ipaddr_ e := Known mac]> T) (hold_ e)) as Hnot.
  { intros (d' & k & E). destruct (decide (d' = ipaddr_ e)) as [->|Hd']; [by rewrite lookup_insert_eq in E|].
    rewrite lookup_insert_ne in E by done. by destruct (held_once _ _ _ _ _ _ _ Hp E HT Hh0). }
  split; [|split; [done|split]].
  - split.
    + eapply arp_rep_same; [| |exact Hr']; [|done]. simpl. by rewrite insert_insert_eq.
    + by eapply (pool_inv_packet (l_pool s)).
  - cbn [holds]. rewrite decide_False by done. constructor; [|constructor]. cbn [shows].
    split_and!; [done|by apply macDA_dst|by rewrite <- Hty; apply type_dst].
  - intros p Hp0. simpl. rewrite lookup_insert_ne; [done|]. intros <-. apply Hp0. by eexists _, _.
Qed.

(** The entry for an address, made if there is none. *)
Lemma find_entry s T d :
  (∀ D, is_Some (malloc D)) → link_inv s T →
  ∃ a e s', (a ← arplookup d; if decide (a = NULL) then ARPEntry_new d else mret a) s = Done a s' ∧
    a ≠ NULL ∧ arp_entries s' !! a = Some e ∧ ipaddr_ e = d ∧ status e = lookup_total_ T d ∧
    link_inv s' (<[d := lookup_total_ T d]> T) ∧ l_pool s' = l_pool s ∧ l_log s' = l_log s.
Proof.
  intros Hmem [Hr Hp]. pose proof (arplookup_spec s T d Hr) as Hlk. unfold lookup_total_.
  destruct (T !! d) as [r|] eqn:ET; simpl.
  - destruct Hlk as (a & e & E & Ha & Ea & Ei & Hst & _). exists a, e, s. rewrite (bind_done _ _ _ _ _ E).
    rewrite decide_False, insert_id by done. by split_and!.
  - destruct (ARPEntry_new_spec s T d Hmem Hr ET) as (a & e & s1 & E & Ha & Ea & Ei & Hu & Hh & Hc & Hr1 & Hp1 & Hl1).
    exists a, e, s1. rewrite (bind_done _ _ _ _ _ Hlk), decide_True by done. split_and!; try done.
    + unfold status. by rewrite decide_True, Hh, Hc.
    + split; [done|]. rewrite Hp1. apply pool_inv_table; [done|]. split; [lia|done].
Qed.

Lemma pool_inv_free m T p v :
  pool_inv m T → packets m !! p = Some v → fflag_ v = true → ref_count_ v = 0 → pk_uid v ≤ 0 → ¬ held T p →
  ∃ m', free p m = Done tt m' ∧ pool_inv m' T.
Proof.
  intros [[fs Hok] Hh] Hv Hf Hr Hu Hp. destruct (free_spec m fs p v Hok Hv Hf Hr Hu) as (m' & E & Hok' & Hsame).
  exists m'. split; [done|]. split; [by eexists|]. intros d r HT. specialize (Hh _ _ HT).
  destruct r as [n h|]; [|done]. destruct Hh as [Hn Hh]. split; [done|]. intros Hne. rewrite Hsame; [by apply Hh|].
  intros ->. apply Hp. by exists d, n.
Qed.

Lemma arpinput_spec s T p v :
  (∀ D, is_Some (malloc D)) → link_inv s T → packets (l_pool s) !! p = Some v → fflag_ v = true → ¬ held T p →
  ref_count_ v = 0 → pk_uid v ≤ 0 → -2 < arp_sha (arp_h (hdrs v)) →
  let d := arp_spa (arp_h (hdrs v)) in let mac := arp_sha (arp_h (hdrs v)) in
  ∃ s' es, arpinput nd p s = Done tt s' ∧ link_inv s' (<[d := Known mac]> T) ∧ l_log s' = rev es ++ l_log s ∧
    Forall2 shows es ((learn d mac T).2 ++
      (if decide (arp_op (arp_h (hdrs v)) = ARPOP_REQUEST ∧ arp_tpa (arp_h (hdrs v)) = node_address nd)
       then [Answered p mac] else [])).
Proof.
  intros Hmem Hs Hv Hf Hn Hr Hu Hmac d mac. pose proof (pool_null _ _ _ _ (proj2 Hs) Hv) as Hp. unfold arpinput.
  rewrite (bind_done _ _ _ _ _ (l_packet_done s p v Hp Hv)). fold d mac.
  destruct (find_entry s T d Hmem Hs) as (a & e & s1 & E & Ha & Ea & Ei & Hst & Hs1 & P1 & L1).
  rewrite <- bind_assoc_at, (bind_done _ _ _ _ _ E).
  destruct (learn_spec s1 _ a e mac Hs1 Hmac Ha Ea) as (s2 & es & E2 & Hs2 & L2 & Hes & Hkeep).
  rewrite Ei in *. rewrite insert_insert_eq in Hs2. rewrite <- bind_assoc_at, (bind_done _ _ _ _ _ E2).
  assert (packets (l_pool s2) !! p = Some v) as Hv2.
  { rewrite Hkeep, P1; [done|]. intros (d' & k & Ed). destruct (decide (d' = d)) as [->|Hd'].
    - rewrite lookup_insert_eq in Ed. unfold lookup_total_ in Ed. destruct (T !! d) as [r|] eqn:ET; simpl in Ed.
      + apply Hn. exists d, k. congruence.
      + unfold unknown in Ed. congruence.
    - rewrite lookup_insert_ne in Ed by done. apply Hn. by exists d', k. }
  assert (¬ held (<[d := Known mac]> T) p) as Hn2 by (by apply not_held_insert).
  rewrite Hst, L1 in *. destruct (decide (arp_op _ = _ ∧ _)) as [Hreq|Hreq].
  - rewrite (bind_done _ _ _ _ _ (l_upd_done s2 p _ v Hp Hv2)). unfold schedule_down.
    rewrite (bind_done _ _ _ _ _ (l_packet_done _ p _ Hp (with_packet_lookup _ _ _))).
    eexists _, (es ++ [Down p (reply nd v) (arp_delay nd)]). split; [done|]. split; [|split].
    + apply link_inv_record. by eapply link_inv_packet.
    + simpl. by rewrite L2, rev_app_distr.
    + apply Forall2_app; [done|]. constructor; [|constructor]. cbn [shows]. split_and!; try done; [|apply Hreq].
      simpl. rewrite macDA_src. by apply macDA_dst.
  - destruct (pool_inv_free (l_pool s2) _ p v (proj2 Hs2) Hv2 Hf Hr Hu Hn2) as (m' & Ef & Hp').
    exists (set_l_pool m' s2), es. unfold on_pool, zoom. rewrite Ef, app_nil_r. split_and!; try done.
    split; [|done]. eapply arp_rep_same; [..|apply Hs2]; done.
Qed.

(** ** Packets from the agent *)

(** The end of [sendDown]. *)
Lemma schedule_sent s T p v mac t :
  link_inv s T → p ≠ NULL → packets (l_pool s) !! p = Some v →
  macDA_ (mac_h (hdrs v)) = mac → hdr_type_ (mac_h (hdrs v)) = ETHERTYPE_IP →
  ∃ s' es, schedule_down p t s = Done tt s' ∧ link_inv s' T ∧ l_log s' = rev es ++ l_log s ∧
    Forall2 shows es [Sent p mac].
Proof.
  intros Hs Hp Hv Hmac Hty. unfold schedule_down. rewrite (bind_done _ _ _ _ _ (l_packet_done s p v Hp Hv)).
  exists (record_ (Down p v t) s), [Down p v t]. split; [done|]. split; [by apply link_inv_record|].
  split; [done|]. by repeat constructor.
Qed.

(** A frame [v], whose destination is looked up or not. *)
Lemma to_address_spec s T d p v :
  (∀ D, is_Some (malloc D)) → arptable_ nd = true → link_inv s T → packets (l_pool s) !! p = Some v →
  fflag_ v = true → waits_for d v → ¬ held T p →
  ∃ s' es, (tx ← to_address nd p d; if decide (tx = 0) then schedule_down p (delay_ nd) else skip) s = Done tt s' ∧
    link_inv s' (send_to d p T).1 ∧ l_log s' = rev es ++ l_log s ∧ Forall2 shows es (send_to d p T).2.
Proof.
  intros Hmem Harp Hs Hv Hf Hw Hn. pose proof (pool_null _ _ _ _ (proj2 Hs) Hv) as Hp.
  destruct Hw as (Hb & Hty & Hna).
  (* The packet gets the destination [mac], and goes down. *)
  assert (Hsend : ∀ mac, -2 < mac → ∃ s' es, schedule_down p (delay_ nd) (with_packet p (with_mac (hdr_dst mac) v) s) = Done tt s' ∧
      link_inv s' T ∧ l_log s' = rev es ++ l_log s ∧ Forall2 shows es [Sent p mac]).
  { intros mac Hmac. apply (schedule_sent (with_packet p (with_mac (hdr_dst mac) v) s) T p (with_mac (hdr_dst mac) v) mac);
      [by eapply link_inv_packet|done|apply with_packet_lookup|by apply macDA_dst|simpl; by rewrite type_dst]. }
  unfold to_address, send_to. destruct (decide (u32 d = IP_BROADCAST)).
  { rewrite (bind_done (upd _ _ ≫= _) _ s 0 (with_packet p (with_mac (hdr_dst MAC_BROADCAST) v) s))
      by by rewrite (bind_done _ _ _ _ _ (l_upd_done s p _ v Hp Hv)).
    by apply (Hsend (-1)). }
  rewrite Harp. pose proof (arpresolve_spec s T d p v Hmem Hs Hv Hf (conj Hb (conj Hty Hna)) Hn) as Hres.
  unfold resolve in *. destruct (lookup_total_ T d) as [k h|mac] eqn:HT.
  - destruct Hres as (s' & es & E & Hs' & L & Hes). rewrite (bind_done _ _ _ _ _ E).
    by exists s', es.
  - rewrite (bind_done _ _ _ _ _ Hres). apply Hsend. unfold lookup_total_, unknown in HT.
    destruct (T !! d) as [r|] eqn:ET; [|done]. simpl in HT. subst r. apply (proj2 (proj2 Hs) _ _ ET).
Qed.

(** Packets the link layer is prepared for: from the agent, with an address family and an
    address that can be read; ARP packets with a hardware address. *)
Definition acceptable (v : packet) : Prop :=
  fflag_ v = true ∧
  if decide (direction_ (cmn v) = UP) then
    ptype_ (cmn v) = PT_ARP → ref_count_ v = 0 ∧ pk_uid v ≤ 0 ∧ -2 < arp_sha (arp_h (hdrs v))
  else
    (∃ n, get_nodeaddr (daddr (ip v)) (addressing nd) = Done n (addressing nd)) ∧
    (addr_type_ (cmn v) = NS_AF_ILINK ∧ -2 < next_hop_ (cmn v) ∨
     addr_type_ (cmn v) = NS_AF_INET ∨ addr_type_ (cmn v) = NS_AF_NONE).

Lemma link_inv_same s s' T :
  arp_entries s' = arp_entries s → lh_first s' = lh_first s → l_pool s' = l_pool s → link_inv s T → link_inv s' T.
Proof. intros E1 E2 E3 [Hr Hp]. split; [by eapply arp_rep_same|by rewrite E3]. Qed.

Lemma sendDown_spec s T p v :
  (∀ D, is_Some (malloc D)) → arptable_ nd = true → link_inv s T → packets (l_pool s) !! p = Some v →
  acceptable v → direction_ (cmn v) ≠ UP → ¬ held T p →
  ∃ s' es, sendDown nd p s = Done tt s' ∧ link_inv s' (react p v T).1 ∧ l_log s' = rev es ++ l_log s ∧
    Forall2 shows es (react p v T).2.
Proof.
  intros Hmem Harp Hs Hv (Hf & Hok) Hdir Hn. pose proof (pool_null _ _ _ _ (proj2 Hs) Hv) as Hp.
  rewrite decide_False in Hok by done. destruct Hok as [[n En] Hfam]. unfold sendDown.
  rewrite (bind_done _ _ _ _ _ (l_packet_done s p v Hp Hv)).
  rewrite (bind_done _ _ _ n s) by by unfold nodeaddr; rewrite En.
  set (s1 := set_seqno (s32 (seqno_ s + 1)) s). rewrite (bind_done _ _ _ tt s1), (bind_done _ _ _ (seqno_ s1) s1) by done.
  rewrite (bind_done _ _ _ _ _ (l_upd_done s1 p _ v Hp Hv)).
  rewrite (bind_done _ _ _ _ _ (l_upd_done _ p _ _ Hp (with_packet_lookup _ _ _))), with_packet_twice.
  set (w := with_mac _ _). set (s2 := with_packet p w s1).
  assert (hdr_type_ (mac_h (hdrs w)) = ETHERTYPE_IP) as Hty by done.
  assert (link_inv s2 T) as Hs2.
  { eapply link_inv_packet; [|exact Hv|done..]. by eapply link_inv_same; [..|exact Hs]. }
  assert (Hv2 : packets (l_pool s2) !! p = Some w) by apply with_packet_lookup.
  assert (l_log s2 = l_log s) as L2 by done. rewrite <- L2.
  unfold react. cbv zeta. rewrite !(decide_False (P := direction_ (cmn v) = UP)) by done. destruct Hfam as [[Ht Hnh]|[Ht|Ht]]; rewrite Ht.
  - rewrite !(decide_True (P := NS_AF_ILINK = NS_AF_ILINK)) by done.
    rewrite (bind_done _ _ _ 0 (with_packet p (with_mac (hdr_dst (next_hop_ (cmn v))) w) s2)).
    2:{ by rewrite (bind_done _ _ _ _ _ (l_upd_done s2 p _ w Hp Hv2)). }
    apply (schedule_sent (with_packet p (with_mac (hdr_dst (next_hop_ (cmn v))) w) s2) T p
      (with_mac (hdr_dst (next_hop_ (cmn v))) w) (next_hop_ (cmn v)));
      [by eapply link_inv_packet|done|apply with_packet_lookup|by apply macDA_dst|simpl; by rewrite type_dst].
  - rewrite !(decide_False (P := NS_AF_INET = NS_AF_ILINK)), !(decide_True (P := NS_AF_INET = NS_AF_INET)) by done.
    apply (to_address_spec s2 T _ p w); try done. split; [by left|]. split; [done|by exists n].
  - rewrite !(decide_False (P := NS_AF_NONE = NS_AF_ILINK)), !(decide_False (P := NS_AF_NONE = NS_AF_INET)),
      !(decide_True (P := NS_AF_NONE = NS_AF_NONE)), En by done.
    apply (to_address_spec s2 T _ p w); try done. split; [by right|]. split; [done|by exists n].
Qed.

(** ** Histories

    A packet [p] with the contents [v] is handed to the link layer, or the agent allocates a
    packet. *)
Inductive link_event := Allocate | Handed (p : addr) (v : packet).

Definition link_step (e : link_event) : M link unit :=
  match e with
  | Allocate => _ ← on_pool alloc; skip
  | Handed p v => _ ← upd p (λ _, v); recv nd p
  end.
(** The packet is one that is in use, and not one that the link layer holds. *)
Definition legal s T (e : link_event) : Prop :=
  match e with
  | Allocate => True
  | Handed p v => (∃ w, packets (l_pool s) !! p = Some w ∧ fflag_ w = true) ∧ ¬ held T p ∧ acceptable v
  end.
Definition react_to (e : link_event) T : table * list out :=
  match e with Allocate => (T, []) | Handed p v => react p v T end.

Lemma recv_spec s T p v :
  (∀ D, is_Some (malloc D)) → arptable_ nd = true → connected nd = true → link_inv s T →
  packets (l_pool s) !! p = Some v → acceptable v → ¬ held T p →
  ∃ s' es, recv nd p s = Done tt s' ∧ link_inv s' (react p v T).1 ∧ l_log s' = rev es ++ l_log s ∧
    Forall2 shows es (react p v T).2.
Proof.
  intros Hmem Harp Hcon Hs Hv Hok Hn. pose proof (pool_null _ _ _ _ (proj2 Hs) Hv) as Hp. unfold recv.
  rewrite (bind_done _ _ _ _ _ (l_packet_done s p v Hp Hv)), (bind_done _ _ _ tt s) by by rewrite Hcon.
  pose proof Hok as (Hf & Hup). destruct (decide (direction_ (cmn v) = UP)) as [Hdir|Hdir].
  - unfold react. cbv zeta. rewrite !(decide_True (P := direction_ (cmn v) = UP)) by done.
    destruct (decide (ptype_ (cmn v) = PT_ARP)) as [Harpp|Hdata].
    + rewrite Harp. destruct (Hup Harpp) as (Hr & Hu & Hmac).
      destruct (arpinput_spec s T p v Hmem Hs Hv Hf Hn Hr Hu Hmac) as (s' & es & E & Hs' & L & Hes).
      exists s', es. by split_and!.
    + unfold sendUp. rewrite (bind_done _ _ _ _ _ (l_packet_done s p v Hp Hv)). case_bool_decide.
      * exists (record_ (Dropped p NO_REASON) s), [Dropped p NO_REASON].
        split; [done|]. split; [by apply link_inv_record|]. split; [done|]. by repeat constructor.
      * unfold schedule_up. rewrite (bind_done _ _ _ _ _ (l_packet_done s p v Hp Hv)).
        exists (record_ (Up p v (delay_ nd)) s), [Up p v (delay_ nd)].
        split; [done|]. split; [by apply link_inv_record|]. split; [done|]. by repeat constructor.
  - rewrite (bind_done _ _ _ _ _ (l_upd_done s p _ v Hp Hv)). set (w := with_cmn (cmn_direction DOWN) v).
    assert (react p v T = react p w T) as ->.
    { unfold react. cbv zeta. rewrite !(decide_False (P := direction_ (cmn v) = UP)) by done. done. }
    apply (sendDown_spec (with_packet p w s) T p w Hmem Harp);
      [by eapply link_inv_packet|apply with_packet_lookup| |done..].
    split; [done|]. by rewrite decide_False.
Qed.

Lemma link_step_spec s T e :
  (∀ D, is_Some (malloc D)) → arptable_ nd = true → connected nd = true → link_inv s T → legal s T e →
  ∃ s' es, link_step e s = Done tt s' ∧ link_inv s' (react_to e T).1 ∧ l_log s' = rev es ++ l_log s ∧
    Forall2 shows es (react_to e T).2.
Proof.
  intros Hmem Harp Hcon Hs. destruct e as [|p v]; cbn [link_step react_to legal].
  - intros _. destruct Hs as [Hr [[fs Hok] Hh]].
    destruct (alloc_spec (l_pool s) fs Hok) as (q & m' & v & E & Hok' & Hq & Hqfs & Hv & Hfresh & Hkeep); [intros _; apply Hmem|].
    exists (set_l_pool m' s), []. split; [unfold on_pool, zoom, mbind, M_bind; by rewrite E|].
    split; [|by split]. split; [by eapply arp_rep_same; [..|exact Hr]|]. split; [by eexists|].
    intros d r HT. specialize (Hh _ _ HT). destruct r as [n h|]; [|done]. destruct Hh as [Hn Hh].
    split; [done|]. intros Hne. destruct (Hh Hne) as (u & Eu & Hfu & B). destruct (Hkeep _ _ Eu Hfu). by exists u.
  - intros ((w & Hw & Hfw) & Hn & Hok). pose proof (pool_null _ _ _ _ (proj2 Hs) Hw) as Hp.
    rewrite (bind_done _ _ _ _ _ (l_upd_done s p _ w Hp Hw)).
    apply (recv_spec (with_packet p v s) T p v); try done; [|apply with_packet_lookup].
    eapply link_inv_packet; [done|exact Hw|done| |done]. apply Hok.
Qed.

(** The link layer as its constructor makes it, and after legal events: [T] is what is known
    of the addresses, and [os] what it has done. *)
Inductive reached (m : pool (P := link_hdrs)) : list link_event → link → table → list out → Prop :=
  | reached_new : reached m [] (LL_new m) ∅ []
  | reached_step es s T os e s' :
      reached m es s T os → legal s T e → link_step e s = Done tt s' →
      reached m (es ++ [e]) s' (react_to e T).1 (os ++ (react_to e T).2).

Lemma reached_inv m es s T os :
  (∀ D, is_Some (malloc D)) → arptable_ nd = true → connected nd = true → (∃ fs, pool_ok m fs) →
  reached m es s T os → link_inv s T ∧ Forall2 shows (rev (l_log s)) os.
Proof.
  intros Hmem Harp Hcon Hm. induction 1 as [|es s T os e s' Hre [Hs Hos] Hl E].
  - split; [|by constructor]. split; [|split; [done|by intros d r; rewrite lookup_empty]].
    exists []. split_and!; [done| |done|done|by intros d r; rewrite lookup_empty].
    intros a. simpl. rewrite lookup_empty, elem_of_nil. by split; [|intros []].
  - destruct (link_step_spec s T e Hmem Harp Hcon Hs Hl) as (s2 & efs & E2 & Hs2 & L & Hes).
    rewrite E in E2. injection E2 as <-. split; [done|]. rewrite L, rev_app_distr, rev_involutive.
    by apply Forall2_app.
Qed.

(** C31. In every state that the link layer reaches, every packet it may be handed is dealt with
    without a fault and without the fatal error of ARP, and all it has done is what the
    table of addresses prescribes: frames carry the hardware address that is known for the
    next hop; otherwise the packet waits, in place of the one that waited before, and a
    request is sent, and after three requests both are given up; the answer of the next hop
    makes its address known and sends the packet that waits; and requests for the node are
    answered with its address. *)
Theorem link_layer_refines m es s T os
    (Hmem : ∀ D, is_Some (malloc D)) (Harp : arptable_ nd = true) (Hcon : connected nd = true)
    (Hm : ∃ fs, pool_ok m fs) (Hs : reached m es s T os) :
  Forall2 shows (rev (l_log s)) os ∧
  (∀ d n h, T !! d = Some (Asking n h) → 0 ≤ n ≤ 3) ∧
  ∀ e, legal s T e → ∃ s', link_step e s = Done tt s' ∧
    reached m (es ++ [e]) s' (react_to e T).1 (os ++ (react_to e T).2).
Proof.
  destruct (reached_inv m es s T os Hmem Harp Hcon Hm Hs) as [Hinv Hos]. split; [done|]. split.
  - intros d n h HT. apply (proj2 (proj2 Hinv) _ _ HT).
  - intros e Hl. destruct (link_step_spec s T e Hmem Harp Hcon Hinv Hl) as (s' & _ & E & _). exists s'.
    split; [done|]. by econstructor.
Qed.

(** ** No packet is lost *)

(** The packets the agent handed down, those that left the link layer, and those it holds. *)
Definition given (es : list link_event) : list addr :=
  es ≫= λ e, match e with
             | Handed p v => if decide (direction_ (cmn v) = UP) then [] else [p]
             | Allocate => []
             end.
Definition leaving (os : list out) : list addr :=
  os ≫= λ o, match o with Sent p _ | Given_up p => [p] | _ => [] end.
Definition waiting_in T : list addr := map_to_list T ≫= λ x, holds x.2.

(** The hardware address that a node announced last. *)
Definition announced (es : list link_event) (d : Z) : option Z :=
  foldl (λ o e, match e with
                | Handed p v =>
                    if decide (direction_ (cmn v) = UP ∧ ptype_ (cmn v) = PT_ARP ∧ arp_spa (arp_h (hdrs v)) = d)
                    then Some (arp_sha (arp_h (hdrs v))) else o
                | Allocate => o
                end) None es.

Lemma waiting_insert T d r :
  holds (lookup_total_ T d) ++ waiting_in (<[d := r]> T) ≡ₚ holds r ++ waiting_in T.
Proof.
  unfold waiting_in, lookup_total_. destruct (T !! d) as [r0|] eqn:E; simpl.
  - rewrite <- (insert_delete_id T d r0 E) at 2. rewrite <- insert_delete_eq.
    rewrite !map_to_list_insert by apply lookup_delete_eq. simpl. by rewrite !(assoc_L app), (Permutation_app_comm (holds r0)).
  - by rewrite map_to_list_insert.
Qed.

Lemma waiting_nodup s T : link_inv s T → NoDup (waiting_in T).
Proof.
  intros [_ Hp]. unfold waiting_in. apply NoDup_bind.
  - intros [d r] [d' r'] p H1 H2 Hh Hh'. apply elem_of_map_to_list in H1, H2. simpl in *.
    destruct r as [n h|], r' as [n' h'|]; simpl in *; try by apply elem_of_nil in Hh || apply elem_of_nil in Hh'.
    do 2 case_decide; try by apply elem_of_nil in Hh || apply elem_of_nil in Hh'.
    apply list_elem_of_singleton in Hh, Hh'. subst. assert (d = d') as <- by by eapply held_once. congruence.
  - intros [d r] _. destruct r; simpl; [case_decide|]; [constructor|apply NoDup_singleton|constructor].
  - apply NoDup_map_to_list.
Qed.

Lemma leaving_given_up xs : leaving (Given_up <$> xs) = xs.
Proof. induction xs as [|x xs IH]; [done|]. change (x :: leaving (Given_up <$> xs) = x :: xs). by rewrite IH. Qed.
Lemma leaving_sent mac xs : leaving ((λ h, Sent h mac) <$> xs) = xs.
Proof.
  induction xs as [|x xs IH]; [done|]. change (x :: leaving ((λ h, Sent h mac) <$> xs) = x :: xs). by rewrite IH.
Qed.
Lemma leaving_app os os' : leaving (os ++ os') = leaving os ++ leaving os'.
Proof. apply bind_app. Qed.

Lemma resolve_conserves T d p : p ≠ NULL →
  p :: waiting_in T ≡ₚ leaving (resolve d p T).2 ++ waiting_in (resolve d p T).1.
Proof.
  intros Hp. unfold resolve. destruct (lookup_total_ T d) as [n h|mac] eqn:E; [|done]. case_decide; simpl.
  - pose proof (waiting_insert T d unknown) as Hw. rewrite E in Hw. simpl in Hw.
    rewrite leaving_given_up. rewrite <- Hw. solve_Permutation.
  - pose proof (waiting_insert T d (Asking (n + 1) p)) as Hw. rewrite E in Hw. simpl in Hw.
    rewrite (decide_False (P := p = NULL)) in Hw by done. rewrite leaving_app, leaving_given_up.
    change (leaving [Asked d]) with (@nil addr). by rewrite app_nil_r, Hw.
Qed.

Lemma send_to_conserves T d p : p ≠ NULL →
  p :: waiting_in T ≡ₚ leaving (send_to d p T).2 ++ waiting_in (send_to d p T).1.
Proof. intros Hp. unfold send_to. case_decide; [done|by apply resolve_conserves]. Qed.

Lemma react_conserves T e s : link_inv s T → legal s T e →
  given [e] ++ waiting_in T ≡ₚ leaving (react_to e T).2 ++ waiting_in (react_to e T).1.
Proof.
  intros Hs. destruct e as [|p v]; [done|]. intros ((w & Hw & _) & _ & Hf & Hok).
  pose proof (pool_null _ _ _ _ (proj2 Hs) Hw) as Hp. unfold given. simpl. unfold react.
  destruct (decide (direction_ (cmn v) = UP)); simpl.
  - case_decide; simpl; [|by case_bool_decide].
    pose proof (waiting_insert T (arp_spa (arp_h (hdrs v))) (Known (arp_sha (arp_h (hdrs v))))) as Hl. simpl in Hl.
    rewrite leaving_app, leaving_sent. rewrite <- Hl.
    case_decide; simpl; by rewrite app_nil_r.
  - case_decide; [done|]. destruct Hok as [[k Ek] [[? _]|[Ht|Ht]]]; [done|..].
    + rewrite decide_True by done. by apply send_to_conserves.
    + case_decide; [by apply send_to_conserves|]. rewrite Ek. by apply send_to_conserves.
Qed.

Lemma react_known T e d es :
  (∀ mac, T !! d = Some (Known mac) ↔ announced es d = Some mac) →
  ∀ mac, (react_to e T).1 !! d = Some (Known mac) ↔ announced (es ++ [e]) d = Some mac.
Proof.
  intros HT mac. unfold announced in *. rewrite foldl_snoc. destruct e as [|p v]; [apply HT|]. simpl.
  assert (Hres : ∀ d', (resolve d' p T).1 !! d = Some (Known mac) ↔ T !! d = Some (Known mac)).
  { intros d'. unfold resolve. destruct (lookup_total_ T d') as [n h|] eqn:E; [|done].
    destruct (decide (d = d')) as [->|Hd]; [|by case_decide; simpl; rewrite lookup_insert_ne].
    assert (T !! d' ≠ Some (Known mac)) by (intros E'; unfold lookup_total_ in E; by rewrite E' in E).
    unfold unknown. case_decide; simpl; rewrite lookup_insert_eq; naive_solver. }
  assert (Hsend : ∀ d', (send_to d' p T).1 !! d = Some (Known mac) ↔ T !! d = Some (Known mac)).
  { intros d'. unfold send_to. by case_decide. }
  set (tells := direction_ (cmn v) = UP ∧ ptype_ (cmn v) = PT_ARP ∧ arp_spa (arp_h (hdrs v)) = d).
  unfold react. destruct (decide (direction_ (cmn v) = UP)) as [Hup|Hup].
  - destruct (decide (ptype_ (cmn v) = PT_ARP)) as [Ha|Ha]; simpl.
    + destruct (decide (arp_spa (arp_h (hdrs v)) = d)) as [Hd|Hd].
      * rewrite (decide_True (P := tells)) by done. rewrite Hd, lookup_insert_eq. clear. naive_solver.
      * rewrite (decide_False (P := tells)) by (by intros (?&?&?)). rewrite lookup_insert_ne by done. apply HT.
    + rewrite (decide_False (P := tells)) by (by intros (?&?&?)). apply HT.
  - rewrite (decide_False (P := tells)) by (by intros (?&?&?)). rewrite <- HT. case_decide; [done|].
    case_decide; [apply Hsend|]. destruct (get_nodeaddr _ _); [apply Hsend|done..].
Qed.

(** C32. Every packet that the agent handed to the link layer has left it once, to the queue of
    the interface or given up, or waits in it; at most one packet waits for each address;
    and the addresses known are those that the nodes announced last. *)
Theorem link_layer_conserves m es s T os
    (Hmem : ∀ D, is_Some (malloc D)) (Harp : arptable_ nd = true) (Hcon : connected nd = true)
    (Hm : ∃ fs, pool_ok m fs) (Hs : reached m es s T os) :
  given es ≡ₚ leaving os ++ waiting_in T ∧
  NoDup (waiting_in T) ∧
  ∀ d mac, T !! d = Some (Known mac) ↔ announced es d = Some mac.
Proof.
  induction Hs as [|es s T os e s' Hre IH Hl E].
  { split_and!; [done|constructor|by intros d mac; rewrite lookup_empty]. }
  destruct IH as (Hperm & _ & Hknown).
  destruct (reached_inv m es s T os Hmem Harp Hcon Hm Hre) as [Hinv _]. split_and!.
  - unfold given in *. rewrite bind_app, Hperm, leaving_app.
    rewrite <- !(assoc_L app). f_equiv. rewrite <- (react_conserves T e s Hinv Hl). unfold given.
    apply Permutation_app_comm.
  - assert (Hinv' : link_inv s' (react_to e T).1).
    { destruct (link_step_spec s T e Hmem Harp Hcon Hinv Hl) as (s2 & _ & E2 & H2 & _). congruence. }
    by apply (waiting_nodup s').
  - intros d mac. by apply react_known.
Qed.

End spec.

(** ** Witnesses

    A node with the address 1 and the interface 5: its agent allocates two packets and hands
    down the first, for the node 2; the second comes back as the answer to the request. *)
#[local] Instance demo_alloc : Allocator := bump_allocator false.
Definition demo_node : node :=
  Node 1 5 d_zero d_zero (-1) true true (λ _, -1) None (configured 31 [31%nat]).
Definition demo_data : packet :=
  Pkt NULL 0 0 true None (Cmn 0 512 0 0 d_zero DOWN (-2) 2 NS_AF_INET (-2) false 0 0) (Ip 1 0 2 0 32)
    (LinkHdrs (HdrMac 0 0 0) (HdrLl 0 0) (HdrArp 0 0 0 0 0 0 0 0 0)).
Definition demo_answer : packet :=
  Pkt NULL 0 0 true None (Cmn PT_ARP 28 0 0 d_zero UP (-2) (-2) NS_AF_NONE (-2) false 0 0) (Ip 0 0 0 0 0)
    (LinkHdrs (HdrMac 7 5 ETHERTYPE_ARP) (HdrLl LL_DATA 0) (HdrArp 1 2048 6 4 ARPOP_REPLY 7 2 5 1)).
Definition demo_history : list link_event := [Allocate; Allocate; Handed 1 demo_data; Handed 2 demo_answer].
Definition demo_link : link := LL_new (Pool ∅ NULL).

Lemma demo_pool_empty : ∃ fs, pool_ok (l_pool demo_link) fs.
Proof. by exists []. Qed.

Definition demo_at (n : nat) : link :=
  foldl (λ s e, match link_step demo_node e s with Done _ s' => s' | _ => s end) demo_link (take n demo_history).
Definition demo_table : table := {[2 := Asking 1 1%N]}.

Lemma demo_legal :
  legal demo_node (demo_at 2) ∅ (Handed 1 demo_data) ∧ legal demo_node (demo_at 3) demo_table (Handed 2 demo_answer).
Proof.
  split; (split; [by eexists; split; [vm_compute|]|split]).
  - intros (d & n & E). by rewrite lookup_empty in E.
  - split; [done|]. split; [exists 2; vm_compute; reflexivity|]. right. by left.
  - intros (d & n & E). unfold demo_table in E. apply lookup_singleton_Some in E as [_ E]. done.
  - split; [done|]. by vm_compute.
Qed.

Lemma demo_asks : react_to demo_node (Handed 1 demo_data) ∅ = (demo_table, [Asked 2]).
Proof. by vm_compute. Qed.
Lemma demo_link_reached :
  reached demo_node (l_pool demo_link) [Allocate; Allocate; Handed 1 demo_data] (demo_at 3) demo_table [Asked 2].
Proof.
  change [Asked 2] with ([] ++ snd (demo_table, [Asked 2])). change demo_table with (fst (demo_table, [Asked 2])) at 1.
  rewrite <- demo_asks.
  apply (reached_step demo_node (l_pool demo_link) [Allocate; Allocate] (demo_at 2) ∅ [] (Handed 1 demo_data));
    [|apply demo_legal|by vm_compute].
  apply (reached_step demo_node (l_pool demo_link) [Allocate] (demo_at 1) ∅ [] Allocate); [|done|by vm_compute].
  apply (reached_step demo_node (l_pool demo_link) [] demo_link ∅ [] Allocate); [constructor|done|by vm_compute].
Qed.

(** The answer is handled, and the packet that waits is sent. *)
Example link_layer_refines_witness :
  ∃ s', link_step demo_node (Handed 2 demo_answer) (demo_at 3) = Done tt s' ∧
    reached demo_node (l_pool demo_link) demo_history s' (<[2 := Known 7]> demo_table) [Asked 2; Sent 1 7].
Proof.
  destruct (link_layer_refines demo_node (l_pool demo_link) _ (demo_at 3) demo_table [Asked 2]
    (λ D, ltac:(by eexists)) eq_refl eq_refl demo_pool_empty demo_link_reached) as (_ & _ & H).
  destruct (H (Handed 2 demo_answer) (proj2 demo_legal)) as (s' & E & Hr). exists s'. by split.
Defined.

(** The packet waits, and its address is not known. *)
Example link_layer_conserves_witness :
  [1%N] ≡ₚ waiting_in demo_table ∧ ∀ mac, demo_table !! 2 ≠ Some (Known mac).
Proof.
  destruct (link_layer_conserves demo_node (l_pool demo_link) _ (demo_at 3) demo_table [Asked 2]
    (λ D, ltac:(by eexists)) eq_refl eq_refl demo_pool_empty demo_link_reached) as (Hp & _ & Hk).
  split; [exact Hp|]. intros mac E. apply Hk in E. vm_compute in E. discriminate.
Defined.

(** ** Virtual ARP

    The address just past the table is read from memory past it. *)
Lemma varp_reads_past :
  (_ ← set_mac_addr 9 7; varp_arpresolve 9) VARPTable_new =
    Done (0, Some 7) (MkVARP (replicate 9 (-1) ++ [7]) 10) ∧
  (_ ← set_mac_addr 9 7; varp_arpresolve 10) VARPTable_new = Stuck OutOfBounds.
Proof. split; vm_compute; reflexivity. Qed.

(** A packet for an address without an entry is neither sent, nor dropped, nor freed. *)
Lemma unresolved_packet_leaks :
  ∃ s v, recv (Node 1 5 d_zero d_zero (-1) true false (λ _, 2) (Some (MkVARP (replicate 10 (-1)) 10))
               (configured 31 [31%nat])) 1
           (set_l_pool (Pool {[1%N := demo_data]} NULL) demo_link) = Done tt s ∧
    l_log s = [] ∧ packets (l_pool s) = {[1%N := v]} ∧ fflag_ v = true ∧ free_ (l_pool s) = NULL.
Proof. eexists _, _. split; [vm_compute; reflexivity|]. by vm_compute. Qed.
