(* ===== verification/AodvQueue.v ===== *)
(** * AODV: the packets that wait for a route

    [ns2/aodv/aodv_rqueue.cc]: the queue in which the routing agent AODV keeps packets until
    a route to their destination is found, for thirty seconds at most.  The queue frees the
    packets it drops, so the pool of packets is a part of its state. *)
From S2P Require Import Prelude Double Daemon SimChain SimPacket PacketQueue.
Open Scope Z_scope.

(** The reasons for which AODV drops packets. *)
Inductive rtr_reason :=
  | DROP_RTR_QFULL | DROP_RTR_QTIMEOUT | DROP_RTR_MAC_CALLBACK | DROP_RTR_NO_ROUTE
  | DROP_RTR_TTL | DROP_RTR_ROUTE_LOOP.

(* [ns2/aodv/aodv_rqueue.h:42-42] AODV_RTQ_MAX_LEN *)
Definition AODV_RTQ_MAX_LEN : Z := 64.
(* [ns2/aodv/aodv_rqueue.h:48-48] AODV_RTQ_TIMEOUT *)
Definition AODV_RTQ_TIMEOUT : double := d_of_Z 30.

Section rqueue.
Context {P : Type} `{Headers P}.
Abbreviation packet := (Packet P).

(** [rq_drops] are the packets handed to [drop], latest first. *)
(* [ns2/aodv/aodv_rqueue.h:50-90] class aodv_rqueue *)
Record aodv_rqueue := Rqueue {
  rq_pool : pool (P := P);
  rq_head : addr;
  rq_tail : addr;
  rq_len : Z;
  limit_ : Z;
  timeout_ : double;
  rq_drops : list (addr * rtr_reason);
}.

Definition set_rq_pool x (q : aodv_rqueue) : aodv_rqueue :=
  Rqueue x (rq_head q) (rq_tail q) (rq_len q) (limit_ q) (timeout_ q) (rq_drops q).
Definition set_rq_head x (q : aodv_rqueue) : aodv_rqueue :=
  Rqueue (rq_pool q) x (rq_tail q) (rq_len q) (limit_ q) (timeout_ q) (rq_drops q).
Definition set_rq_tail x (q : aodv_rqueue) : aodv_rqueue :=
  Rqueue (rq_pool q) (rq_head q) x (rq_len q) (limit_ q) (timeout_ q) (rq_drops q).
Definition add_len (n : Z) (q : aodv_rqueue) : aodv_rqueue :=
  Rqueue (rq_pool q) (rq_head q) (rq_tail q) (s32 (rq_len q + n)) (limit_ q) (timeout_ q) (rq_drops q).
Definition add_drop (d : addr * rtr_reason) (q : aodv_rqueue) : aodv_rqueue :=
  Rqueue (rq_pool q) (rq_head q) (rq_tail q) (rq_len q) (limit_ q) (timeout_ q) (d :: rq_drops q).

Definition rq_packets (q : aodv_rqueue) : gmap N packet := packets (rq_pool q).
Definition on_rq_pool {A} (m : M (pool (P := P)) A) : M aodv_rqueue A := zoom rq_pool set_rq_pool m.
Definition the_rq_packet (p : addr) : M aodv_rqueue packet := on_rq_pool (deref packets p).
Definition upd_rq_packet (p : addr) (f : packet → packet) : M aodv_rqueue unit := on_rq_pool (upd_packet p f).

(** Without a drop target a dropped packet is freed; with one it is freed at the end of the
    trace. *)
(* [ns2/common/connector.cc:114-120] Connector::drop *)
Definition drop (p : addr) (r : rtr_reason) : M aodv_rqueue unit :=
  if decide (p = NULL) then stuck NullDeref
  else _ ← modify (add_drop (p, r)); on_rq_pool (free p).

(* [ns2/aodv/aodv_rqueue.cc:43-48] aodv_rqueue::aodv_rqueue *)
Definition aodv_rqueue_new (m : pool) : aodv_rqueue :=
  Rqueue m NULL NULL 0 AODV_RTQ_MAX_LEN AODV_RTQ_TIMEOUT [].

(* [ns2/aodv/aodv_rqueue.cc:159-174] aodv_rqueue::remove_head *)
Definition remove_head : M aodv_rqueue addr :=
  p ← gets rq_head;
  t ← gets rq_tail;
  _ ← (if decide (p = t) then modify (λ q, set_rq_head NULL (set_rq_tail NULL q))
       else v ← the_rq_packet p; modify (set_rq_head (pk_next v)));
  _ ← (if decide (p ≠ NULL) then modify (add_len (-1)) else skip);
  mret p.

(** The first packet that [test] accepts, or null, and the one before it. *)
(* [ns2/aodv/aodv_rqueue.cc:176-187] aodv_rqueue::findPacketWithDst *)
Fixpoint find_loop (fuel : nat) (test : packet → bool) (p prev : addr) : M aodv_rqueue (addr * addr) :=
  match fuel with
  | O => stuck NoFuel
  | S fuel =>
      if decide (p = NULL) then mret (NULL, prev)
      else
        v ← the_rq_packet p;
        if test v then mret (p, prev) else find_loop fuel test (pk_next v) p
  end.
Definition find_from (test : packet → bool) : M aodv_rqueue (addr * addr) :=
  q ← get; find_loop (S (size (rq_packets q))) test (rq_head q) NULL.
(* [ns2/aodv/aodv_rqueue.cc:176-187] aodv_rqueue::findPacketWithDst *)
Definition findPacketWithDst (dst : Z) : M aodv_rqueue (addr * addr) :=
  find_from (λ v, bool_decide (daddr (ip v) = dst)).
(* [ns2/aodv/aodv_rqueue.cc:219-230] aodv_rqueue::findAgedPacket *)
Definition findAgedPacket (now : double) : M aodv_rqueue (addr * addr) :=
  find_from (λ v, dlt (ts_ (cmn v)) now).

(* [ns2/aodv/aodv_rqueue.cc:195-200] aodv_rqueue::verifyQueue *)
Fixpoint verify_loop (fuel : nat) (p prev : addr) (cnt : Z) : M aodv_rqueue unit :=
  match fuel with
  | O => stuck NoFuel
  | S fuel =>
      if decide (p = NULL) then
        q ← get;
        _ ← assert_ (bool_decide (cnt = rq_len q));
        assert_ (bool_decide (prev = rq_tail q))
      else v ← the_rq_packet p; verify_loop fuel (pk_next v) p (s32 (cnt + 1))
  end.
(* [ns2/aodv/aodv_rqueue.cc:190-202] aodv_rqueue::verifyQueue *)
Definition verifyQueue : M aodv_rqueue unit :=
  q ← get; verify_loop (S (size (rq_packets q))) (rq_head q) NULL 0.

(** What [deque] and [purge] do with the packet they found. *)
(* [ns2/aodv/aodv_rqueue.cc:120-131] aodv_rqueue::deque *)
Definition unlink (p prev : addr) : M aodv_rqueue unit :=
  q ← get;
  if decide (p = rq_head q) then _ ← remove_head; skip
  else if decide (p = rq_tail q) then
    _ ← upd_rq_packet prev (with_pk_next NULL);
    _ ← modify (set_rq_tail prev);
    modify (add_len (-1))
  else
    v ← the_rq_packet p;
    _ ← upd_rq_packet prev (with_pk_next (pk_next v));
    modify (add_len (-1)).
(* [ns2/aodv/aodv_rqueue.cc:116-116] aodv_rqueue::deque *)
Definition assert_found (p prev : addr) : M aodv_rqueue unit :=
  q ← get;
  if decide (p = NULL ∨ p = rq_head q ∧ prev = NULL) then skip
  else v ← the_rq_packet prev; assert_ (bool_decide (pk_next v = p)).

(** The packets that timed out are only unlinked. *)
(* [ns2/aodv/aodv_rqueue.cc:236-258] aodv_rqueue::purge *)
Fixpoint purge_loop (fuel : nat) (now : double) : M aodv_rqueue unit :=
  match fuel with
  | O => stuck NoFuel
  | S fuel =>
      '(p, prev) ← findAgedPacket now;
      if decide (p = NULL) then skip
      else
        _ ← assert_found p prev;
        _ ← unlink p prev;
        _ ← verifyQueue;
        purge_loop fuel now
  end.
(* [ns2/aodv/aodv_rqueue.cc:232-260] aodv_rqueue::purge *)
Definition purge (now : double) : M aodv_rqueue unit :=
  q ← get; purge_loop (S (size (rq_packets q))) now.

(** A full queue drops its first packet. *)
(* [ns2/aodv/aodv_rqueue.cc:62-72] aodv_rqueue::enque *)
Definition make_room (now : double) : M aodv_rqueue unit :=
  q ← get;
  if decide (rq_len q = limit_ q) then
    p0 ← remove_head;
    _ ← assert_ (bool_decide (p0 ≠ NULL));
    v ← the_rq_packet p0;
    if dlt now (ts_ (cmn v)) then drop p0 DROP_RTR_QFULL else drop p0 DROP_RTR_QTIMEOUT
  else skip.
(* [ns2/aodv/aodv_rqueue.cc:74-81] aodv_rqueue::enque *)
Definition append (p : addr) : M aodv_rqueue unit :=
  q ← get;
  _ ← (if decide (rq_head q = NULL) then modify (λ q, set_rq_head p (set_rq_tail p q))
       else _ ← upd_rq_packet (rq_tail q) (with_pk_next p); modify (set_rq_tail p));
  modify (add_len 1).
(* [ns2/aodv/aodv_rqueue.cc:50-85] aodv_rqueue::enque *)
Definition enque (now : double) (p : addr) : M aodv_rqueue unit :=
  _ ← purge now;
  t ← gets timeout_;
  _ ← upd_rq_packet p (λ v, with_cmn (cmn_ts (dadd now t)) (with_pk_next NULL v));
  _ ← make_room now;
  _ ← append p;
  verifyQueue.

(* [ns2/aodv/aodv_rqueue.cc:88-103] aodv_rqueue::deque *)
Definition deque (now : double) : M aodv_rqueue addr :=
  _ ← purge now;
  p ← remove_head;
  _ ← verifyQueue;
  mret p.

(* [ns2/aodv/aodv_rqueue.cc:106-138] aodv_rqueue::deque *)
Definition deque_for (now : double) (dst : Z) : M aodv_rqueue addr :=
  _ ← purge now;
  '(p, prev) ← findPacketWithDst dst;
  _ ← assert_found p prev;
  if decide (p = NULL) then mret NULL
  else
    _ ← unlink p prev;
    _ ← verifyQueue;
    mret p.

(* [ns2/aodv/aodv_rqueue.cc:140-150] aodv_rqueue::find *)
Definition find (dst : Z) : M aodv_rqueue bool :=
  '(p, prev) ← findPacketWithDst dst; mret (bool_decide (p ≠ NULL)).

(** ** The sequence of waiting packets

    A packet that waits, its type and destination, and the time until which it may wait. *)
Record waiting := Waiting { w_packet : addr; w_type : Z; w_dst : Z; w_until : double }.

Implicit Types (q : aodv_rqueue) (m : gmap N packet) (e : waiting) (es : list waiting) (own : list addr).

(** In use, and nobody else refers to it. *)
Definition in_use (v : packet) : Prop := fflag_ v = true ∧ ref_count_ v = 0 ∧ pk_uid v ≤ 0.
Definition usable m (p : addr) : Prop := ∃ v, m !! p = Some v ∧ in_use v.
Definition waits m e : Prop :=
  ∃ v, m !! w_packet e = Some v ∧ in_use v ∧ daddr (ip v) = w_dst e ∧ ts_ (cmn v) = w_until e ∧
    ptype_ (cmn v) = w_type e.

Definition linked q es : Prop :=
  chain (pnx (rq_packets q)) (rq_head q) (w_packet <$> es) NULL ∧
  rq_tail q = default NULL (last (w_packet <$> es)) ∧
  rq_len q = Z.of_nat (length es).

(** The queue holds [es], and [own] are packets in use outside of it. *)
Definition rep q es own : Prop :=
  linked q es ∧ Z.of_nat (length es) ≤ AODV_RTQ_MAX_LEN ∧
  limit_ q = AODV_RTQ_MAX_LEN ∧ timeout_ q = AODV_RTQ_TIMEOUT ∧
  (∃ fs, pool_ok (rq_pool q) fs) ∧ NoDup ((w_packet <$> es) ++ own) ∧
  (∀ e, e ∈ es → waits (rq_packets q) e) ∧ (∀ p, p ∈ own → usable (rq_packets q) p).

(** The packets [own] are unchanged. *)
Definition kept own m m' : Prop := ∀ p, p ∈ own → m' !! p = m !! p.

Lemma kept_trans own m1 m2 m3 : kept own m1 m2 → kept own m2 m3 → kept own m1 m3.
Proof. intros H1 H2 p Hp. by rewrite H2, H1. Qed.

Lemma waits_same m m' e : same_packets m m' → waits m e → waits m' e.
Proof.
  intros Hs (v & Hv & Hu & Hd & Ht & Hty). destruct (same_packets_lookup _ _ _ _ Hs Hv) as [n Hn].
  exists (with_pk_next n v). by split_and!.
Qed.
Lemma usable_same m m' p : same_packets m m' → usable m p → usable m' p.
Proof.
  intros Hs (v & Hv & Hu). destruct (same_packets_lookup _ _ _ _ Hs Hv) as [n Hn]. by exists (with_pk_next n v).
Qed.

Lemma the_rq_packet_done q p v :
  p ≠ NULL → rq_packets q !! p = Some v → the_rq_packet p q = Done v q.
Proof.
  intros Hp Hv. unfold the_rq_packet, on_rq_pool, zoom. rewrite (deref_done packets p v (rq_pool q) Hp Hv). by destruct q.
Qed.
Definition rq_put (p : addr) (v : packet) q : aodv_rqueue :=
  set_rq_pool (set_packets (<[p := v]> (packets (rq_pool q))) (rq_pool q)) q.
Lemma upd_rq_packet_done q p f v :
  p ≠ NULL → rq_packets q !! p = Some v → upd_rq_packet p f q = Done tt (rq_put p (f v) q).
Proof. intros Hp Hv. unfold upd_rq_packet, on_rq_pool, zoom. by rewrite (upd_packet_done p f (rq_pool q) v Hp Hv). Qed.

Lemma waits_null m e s fs : pool_ok s fs → m = packets s → waits m e → w_packet e ≠ NULL.
Proof. intros (_ & Hn & _) -> (v & Hv & _) E. rewrite E in Hv. congruence. Qed.

Lemma rep_lookup q es own e : rep q es own → e ∈ es → w_packet e ≠ NULL ∧ waits (rq_packets q) e.
Proof.
  intros (_ & _ & _ & _ & [fs Hok] & _ & He & _) Hin. split; [|by apply He].
  eapply waits_null; [exact Hok|done|by apply He].
Qed.

Lemma rep_length q es own : rep q es own → (length es ≤ size (rq_packets q))%nat.
Proof.
  intros Hq. pose proof Hq as ((Hc & _) & _ & _ & _ & _ & Hnd & He & _).
  rewrite <- (length_fmap w_packet es). apply NoDup_dom_length; [by apply NoDup_app in Hnd as [? _]|].
  intros x (e & -> & Hin)%list_elem_of_fmap. destruct (He e Hin) as (v & Hv & _). by exists v.
Qed.

Lemma rep_apart q es own p e : rep q es own → p ∈ own → e ∈ es → w_packet e ≠ p.
Proof.
  intros (_ & _ & _ & _ & _ & Hnd & _) Hp He <-. apply NoDup_app in Hnd as (_ & Hnd & _).
  by apply (Hnd (w_packet e)); [apply list_elem_of_fmap_2|].
Qed.

(** Writing the link of a waiting packet. *)
Lemma rq_link_pool q fs p v n :
  pool_ok (rq_pool q) fs → rq_packets q !! p = Some v → fflag_ v = true →
  pool_ok (rq_pool (rq_put p (with_pk_next n v) q)) fs.
Proof.
  intros Hok Hv Hf. eapply pool_ok_insert; [done|exact Hv| |done].
  destruct Hok as (_ & _ & Hff & _). rewrite <- (Hff p v Hv). congruence.
Qed.

(** ** The steps of the queue *)

(** Nothing changes but links of packets in the queue. *)
Definition relinked own q q' : Prop :=
  limit_ q' = limit_ q ∧ timeout_ q' = timeout_ q ∧ rq_drops q' = rq_drops q ∧
  same_packets (rq_packets q) (rq_packets q') ∧
  (∀ fs, pool_ok (rq_pool q) fs → pool_ok (rq_pool q') fs) ∧ kept own (rq_packets q) (rq_packets q').

Lemma relinked_refl own q : relinked own q q.
Proof. by split_and!. Qed.
Lemma relinked_trans own q1 q2 q3 : relinked own q1 q2 → relinked own q2 q3 → relinked own q1 q3.
Proof.
  intros (A1 & A2 & A3 & A4 & A5 & A6) (B1 & B2 & B3 & B4 & B5 & B6). split_and!; [congruence..| |by auto|].
  - by etrans.
  - by eapply kept_trans.
Qed.
(** The same packets in memory. *)
Lemma relinked_pool own q q' : rq_pool q' = rq_pool q → limit_ q' = limit_ q → timeout_ q' = timeout_ q →
  rq_drops q' = rq_drops q → relinked own q q'.
Proof. intros Hp L1 L2 L3. unfold relinked, rq_packets, kept. rewrite Hp. by split_and!. Qed.

Lemma rep_relinked q q' es es' own :
  rep q es own → relinked own q q' → linked q' es' → es' `sublist_of` es → rep q' es' own.
Proof.
  intros (_ & Hn & Hl & Ht & [fs Hok] & Hnd & He & Ho) (R1 & R2 & _ & R4 & R5 & _) Hq Hsub. split; [done|].
  split_and!; [|congruence|congruence|by exists fs; apply R5| |..].
  - apply sublist_length in Hsub. lia.
  - eapply sublist_NoDup; [exact Hnd|]. apply sublist_app; [|done].
    clear -Hsub. induction Hsub; simpl; by constructor.
  - intros e Hin. eapply waits_same; [exact R4|]. apply He. by eapply elem_of_sublist.
  - intros p Hp. eapply usable_same; [exact R4|by apply Ho].
Qed.

Lemma last_not_head (x y : addr) ys : x ∉ y :: ys → x ≠ default NULL (last (x :: y :: ys)).
Proof.
  intros Hx E. change (last (x :: y :: ys)) with (last (y :: ys)) in E.
  destruct (last (y :: ys)) as [z|] eqn:Ez; [|by apply last_None in Ez].
  simpl in E. subst z. apply last_Some in Ez as [l Ez]. rewrite Ez in Hx. set_solver.
Qed.

Lemma rq_remove_head_spec q es :
  linked q es → (∀ e, e ∈ es → w_packet e ≠ NULL) → NoDup (w_packet <$> es) → Z.of_nat (length es) < 2 ^ 31 →
  ∃ q', remove_head q = Done (default NULL (w_packet <$> head es)) q' ∧ linked q' (tail es) ∧
    rq_pool q' = rq_pool q ∧ limit_ q' = limit_ q ∧ timeout_ q' = timeout_ q ∧ rq_drops q' = rq_drops q.
Proof.
  intros (Hc & Ht & Hl) Hne Hnd Hn. unfold remove_head.
  rewrite (bind_done _ _ _ (rq_head q) q), (bind_done _ _ _ (rq_tail q) q) by done.
  destruct es as [|e es]; simpl in *.
  - rewrite (decide_True (P := rq_head q = rq_tail q)), Hc by (rewrite Hc, Ht; done). eexists.
    split; [done|]. by split_and!.
  - pose proof (Hne e ltac:(by left)) as He.
    destruct (chain_from _ _ _ _ Hc) as (v & Hv & En & Hc'). destruct Hc as (Eh & _). rewrite Eh.
    assert (s32 (rq_len q + -1) = Z.of_nat (length es)) as Elen by (rewrite s32_small; lia).
    destruct es as [|e' es].
    + rewrite (decide_True (P := w_packet e = rq_tail q)) by done.
      rewrite (bind_done _ _ _ tt (set_rq_head NULL (set_rq_tail NULL q))) by done.
      rewrite (decide_True (P := w_packet e ≠ NULL)) by done. eexists. split; [done|]. by split_and!.
    + rewrite (decide_False (P := w_packet e = rq_tail q)).
      2:{ rewrite Ht. by apply last_not_head, NoDup_cons. }
      rewrite (bind_done _ _ _ tt (set_rq_head (pk_next v) q)).
      2:{ by rewrite (bind_done _ _ _ _ _ (the_rq_packet_done q _ v He Hv)). }
      rewrite (decide_True (P := w_packet e ≠ NULL)) by done. eexists. split; [done|]. by split_and!.
Qed.

(** The search: the first waiting packet that [test] accepts. *)
Definition accepts (test : packet → bool) m e : bool :=
  match m !! w_packet e with Some v => test v | None => false end.

Lemma last_waiting es e : default NULL (last (w_packet <$> es ++ [e])) = w_packet e.
Proof. rewrite fmap_app. change (w_packet <$> [e]) with [w_packet e]. by rewrite last_snoc. Qed.

Lemma rq_find_loop_spec fuel test q pre es p own :
  rep q (pre ++ es) own → chain (pnx (rq_packets q)) p (w_packet <$> es) NULL → (length es < fuel)%nat →
  (∀ e, e ∈ es → accepts test (rq_packets q) e = false) ∧
    find_loop fuel test p (default NULL (last (w_packet <$> pre))) q =
      Done (NULL, default NULL (last (w_packet <$> pre ++ es))) q ∨
  ∃ es1 e es2, es = es1 ++ e :: es2 ∧ (∀ x, x ∈ es1 → accepts test (rq_packets q) x = false) ∧
    accepts test (rq_packets q) e = true ∧
    find_loop fuel test p (default NULL (last (w_packet <$> pre))) q =
      Done (w_packet e, default NULL (last (w_packet <$> pre ++ es1))) q.
Proof.
  revert pre es p. induction fuel as [|fuel IH]; intros pre es p Hq Hc Hf; [lia|]. cbn [find_loop].
  destruct es as [|e es].
  - simpl in Hc. subst. left. split; [set_solver|]. by rewrite (app_nil_r pre).
  - destruct (rep_lookup _ _ _ e Hq) as [He (v & Hv & _)]; [set_solver|].
    destruct (chain_from _ _ _ _ Hc) as (v' & Hv' & _ & Hc'). rewrite Hv in Hv'. injection Hv' as <-.
    destruct Hc as (-> & _). rewrite decide_False by done.
    rewrite (bind_done _ _ _ _ _ (the_rq_packet_done q _ v He Hv)).
    assert (accepts test (rq_packets q) e = test v) as Ea by (unfold accepts; by rewrite Hv).
    destruct (test v).
    + right. exists [], e, es. split_and!; [done|set_solver|done|]. by rewrite (app_nil_r pre).
    + rewrite (cons_middle e pre), (assoc_L app) in Hq.
      specialize (IH (pre ++ [e]) es (pk_next v) Hq Hc'). rewrite !last_waiting in IH. simpl in Hf.
      destruct IH as [[Hno E]|(es1 & x & es2 & -> & Hno & Hx & E)]; [lia|left|right].
      * split; [intros y [->|Hy]%elem_of_cons; [done|by apply Hno]|].
        rewrite E. by rewrite (cons_middle e pre es), (assoc_L app).
      * exists (e :: es1), x, es2. split_and!; [done| |done|].
        { intros y [->|Hy]%elem_of_cons; [done|by apply Hno]. }
        rewrite E. by rewrite (cons_middle e pre es1), (assoc_L app).
Qed.

Lemma rq_find_from_spec test q es own :
  rep q es own →
  (∀ e, e ∈ es → accepts test (rq_packets q) e = false) ∧
    find_from test q = Done (NULL, default NULL (last (w_packet <$> es))) q ∨
  ∃ es1 e es2, es = es1 ++ e :: es2 ∧ (∀ x, x ∈ es1 → accepts test (rq_packets q) x = false) ∧
    accepts test (rq_packets q) e = true ∧
    find_from test q = Done (w_packet e, default NULL (last (w_packet <$> es1))) q.
Proof.
  intros Hq. unfold find_from. rewrite (bind_done _ _ _ q q) by done.
  apply (rq_find_loop_spec (S (size (rq_packets q))) test q [] es (rq_head q) own Hq); [apply Hq|].
  pose proof (rep_length _ _ _ Hq). lia.
Qed.

Lemma verifyQueue_spec q es own : rep q es own → verifyQueue q = Done tt q.
Proof.
  intros Hq. unfold verifyQueue. rewrite (bind_done _ _ _ q q) by done.
  assert (∀ fuel pre post p, es = pre ++ post → chain (pnx (rq_packets q)) p (w_packet <$> post) NULL →
    (length post < fuel)%nat →
    verify_loop fuel p (default NULL (last (w_packet <$> pre))) (Z.of_nat (length pre)) q = Done tt q) as Hloop.
  { intros fuel. induction fuel as [|fuel IH]; intros pre post p E Hc Hf; [lia|]. cbn [verify_loop].
    destruct post as [|e post].
    - simpl in Hc. subst. rewrite (app_nil_r pre) in Hq. destruct Hq as ((_ & Ht & Hl) & _).
      rewrite decide_True by done. rewrite (bind_done _ _ _ q q) by done.
      rewrite Hl, Ht, !bool_decide_true by done. done.
    - subst es. destruct (rep_lookup _ _ _ e Hq) as [He (v & Hv & _)]; [set_solver|].
      destruct (chain_from _ _ _ _ Hc) as (v' & Hv' & _ & Hc'). rewrite Hv in Hv'. injection Hv' as <-.
      destruct Hc as (-> & _). rewrite decide_False by done.
      rewrite (bind_done _ _ _ _ _ (the_rq_packet_done q _ v He Hv)).
      assert (s32 (Z.of_nat (length pre) + 1) = Z.of_nat (length (pre ++ [e]))) as ->.
      { destruct Hq as (_ & Hn & _). rewrite length_app in *. unfold AODV_RTQ_MAX_LEN in Hn. simpl in *.
        rewrite s32_small; lia. }
      rewrite <- (last_waiting pre e).
      apply (IH (pre ++ [e]) post); [by rewrite <- (assoc_L app)|done|simpl in Hf; lia]. }
  apply (Hloop _ [] es); [done|apply Hq|]. pose proof (rep_length _ _ _ Hq). lia.
Qed.

(** Taking a packet out of the sequence. *)
Lemma rq_relink q es own e n :
  rep q es own → e ∈ es → ∃ v, rq_packets q !! w_packet e = Some v ∧
    upd_rq_packet (w_packet e) (with_pk_next n) q = Done tt (rq_put (w_packet e) (with_pk_next n v) q) ∧
    relinked own q (rq_put (w_packet e) (with_pk_next n v) q).
Proof.
  intros Hq He. destruct (rep_lookup _ _ _ e Hq He) as [Hn (v & Hv & (Hf & _) & _)]. exists v.
  split; [done|]. split; [by apply upd_rq_packet_done|]. split_and!; [done..| | |].
  - by apply same_packets_insert.
  - intros fs Hok. by apply rq_link_pool.
  - intros p Hp. unfold rq_packets. simpl. rewrite lookup_insert_ne; [done|].
    by eapply rep_apart.
Qed.

Lemma chain_drop q pre b e post n v :
  chain (pnx (rq_packets q)) (rq_head q) (w_packet <$> pre ++ b :: e :: post) NULL →
  rq_packets q !! w_packet e = Some v → n = pk_next v →
  ∀ w, chain (pnx (<[w_packet b := with_pk_next n w]> (rq_packets q))) (rq_head q) (w_packet <$> pre ++ b :: post) NULL.
Proof.
  intros Hc Hv -> w. pose proof (chain_NoDup _ _ _ Hc) as Hnd.
  rewrite !fmap_app, !fmap_cons in *.
  rewrite (cons_middle (w_packet b) (w_packet <$> pre)), (assoc_L app) in Hc, Hnd |- *.
  apply chain_app in Hc as (c & Hc1 & Hc2). apply chain_app. exists (pk_next v).
  apply NoDup_app in Hnd as (Hnd1 & Hnd2 & _). apply NoDup_app in Hnd1 as (_ & Hnd1 & _). split.
  - eapply chain_redirect; [|by rewrite pnx_insert_eq|exact Hc1].
    intros x Hx. rewrite pnx_insert_ne; [done|]. intros <-. apply (Hnd1 _ Hx). by left.
  - destruct (chain_from _ _ _ _ Hc2) as (v' & Hv' & _ & Hc3). rewrite Hv in Hv'. injection Hv' as <-.
    eapply chain_ext; [|exact Hc3]. intros x Hx. rewrite pnx_insert_ne; [done|].
    intros <-. apply (Hnd2 (w_packet b)); [apply elem_of_app; right; by left|by right].
Qed.

Lemma rq_unlink_spec q pre e post own :
  rep q (pre ++ e :: post) own →
  ∃ q', unlink (w_packet e) (default NULL (last (w_packet <$> pre))) q = Done tt q' ∧
    rep q' (pre ++ post) own ∧ relinked own q q'.
Proof.
  intros Hq. pose proof Hq as ((Hc & Ht & Hl) & Hn & _ & _ & _ & Hnd & _). unfold unlink.
  apply NoDup_app in Hnd as [Hnd _].
  assert (pre ++ post `sublist_of` pre ++ e :: post) as Hsub by by apply sublist_app, sublist_cons.
  assert (Z.of_nat (length (pre ++ e :: post)) < 2 ^ 31) as Hbig by (unfold AODV_RTQ_MAX_LEN in Hn; lia).
  rewrite (bind_done _ _ _ q q) by done. destruct pre as [|b pre _] using rev_ind.
  - pose proof (chain_head _ _ _ Hc) as Eh. rewrite decide_True by by rewrite Eh.
    destruct (rq_remove_head_spec q (e :: post)) as (q' & E & Hq' & Hp & L1 & L2 & L3); [done| |done|done|].
    { intros x Hx. by destruct (rep_lookup _ _ _ x Hq Hx). }
    rewrite (bind_done _ _ _ _ _ E). exists q'.
    assert (relinked own q q') as Hr by by apply relinked_pool.
    split; [done|]. split; [by eapply rep_relinked|done].
  - rewrite last_waiting. rewrite <- !(assoc_L app) in *. cbn [app] in *.
    destruct (rq_relink q _ own b (default NULL (w_packet <$> head post)) Hq) as (w & Hw & Ew & Hr); [set_solver|].
    destruct (rep_lookup _ _ _ e Hq) as [He (v & Hv & _)]; [set_solver|].
    assert (pk_next v = default NULL (w_packet <$> head post)) as En.
    { pose proof Hc as Hc2. rewrite fmap_app, !fmap_cons in Hc2.
      apply chain_app in Hc2 as (c & _ & (_ & _ & n & _ & Hc2)).
      destruct (chain_from _ _ _ _ Hc2) as (v' & Hv' & En & _). rewrite Hv in Hv'. injection Hv' as <-.
      rewrite En. by destruct post. }
    pose proof (chain_drop q pre b e post _ v Hc Hv eq_refl w) as Hc'. rewrite En in Hc'.
    set (q1 := rq_put (w_packet b) (with_pk_next (default NULL (w_packet <$> head post)) w) q) in *.
    assert (s32 (rq_len q - 1) = Z.of_nat (length (pre ++ b :: post))) as Elen.
    { rewrite Hl, !length_app in *. simpl in *. rewrite s32_small; lia. }
    rewrite (decide_False (P := w_packet e = rq_head q)).
    2:{ rewrite (chain_head _ _ _ Hc). clear -Hnd. destruct pre as [|c pre]; simpl in *;
          apply NoDup_cons in Hnd as [Hnd _]; set_solver. }
    assert (chain (pnx (rq_packets q1)) (rq_head q1) (w_packet <$> pre ++ b :: post) NULL ∧
      Z.of_nat (length (pre ++ b :: post)) = s32 (rq_len q1 + -1)) as [Hc1 El1] by done.
    case_decide as Htail.
    + assert (post = []) as ->.
      { destruct post as [|y post]; [done|]. exfalso. revert Htail. rewrite Ht, fmap_app, !fmap_cons.
        rewrite (cons_middle (w_packet b)), (assoc_L app), last_app_cons. apply last_not_head.
        rewrite fmap_app, !fmap_cons in Hnd. apply NoDup_app in Hnd as (_ & _ & Hnd).
        by apply NoDup_cons in Hnd as [_ [Hnd _]%NoDup_cons]. }
      rewrite (bind_done _ _ _ _ _ Ew). eexists. split; [done|]. fold q1. split.
      * eapply rep_relinked; [exact Hq|exact Hr| |done]. split_and!; [done| |done].
        by rewrite last_waiting.
      * done.
    + rewrite (bind_done _ _ _ _ _ (the_rq_packet_done q _ v He Hv)), En, (bind_done _ _ _ _ _ Ew).
      eexists. split; [done|]. fold q1. split; [|done].
      eapply rep_relinked; [exact Hq|exact Hr| |done]. split_and!; [done| |done].
      change (rq_tail q = default NULL (last (w_packet <$> pre ++ b :: post))). rewrite Ht.
      destruct post as [|y post].
      { exfalso. apply Htail. rewrite Ht, (cons_middle b), (assoc_L app). by rewrite last_waiting. }
      rewrite !fmap_app, !fmap_cons. by rewrite !last_app_cons.
Qed.

(** ** The operations *)

(** The packets that may still wait at the time [now]. *)
Definition fresh_at (now : double) es : list waiting := filter (λ e, dlt (w_until e) now = false) es.
Definition for_dst (dst : Z) e : bool := bool_decide (w_dst e = dst).

Lemma accepts_aged q es own now e : rep q es own → e ∈ es →
  accepts (λ v, dlt (ts_ (cmn v)) now) (rq_packets q) e = dlt (w_until e) now.
Proof. intros Hq He. destruct (rep_lookup _ _ _ e Hq He) as [_ (v & Hv & _ & _ & <- & _)]. unfold accepts. by rewrite Hv. Qed.
Lemma accepts_dst q es own dst e : rep q es own → e ∈ es →
  accepts (λ v, bool_decide (daddr (ip v) = dst)) (rq_packets q) e = for_dst dst e.
Proof.
  intros Hq He. destruct (rep_lookup _ _ _ e Hq He) as [_ (v & Hv & _ & Ed & _)].
  unfold accepts, for_dst. by rewrite Hv, Ed.
Qed.

Lemma assert_found_spec q pre e post own :
  rep q (pre ++ e :: post) own →
  assert_found (w_packet e) (default NULL (last (w_packet <$> pre))) q = Done tt q.
Proof.
  intros Hq. unfold assert_found. rewrite (bind_done _ _ _ q q) by done.
  pose proof Hq as ((Hc & _) & _). destruct pre as [|b pre _] using rev_ind.
  - rewrite decide_True by (right; split; [by rewrite (chain_head _ _ _ Hc)|done]). done.
  - destruct (rep_lookup _ _ _ e Hq) as [He _]; [set_solver|].
    destruct (rep_lookup _ _ _ b Hq) as [Hb (v & Hv & _)]; [set_solver|].
    rewrite last_waiting, decide_False by tauto.
    rewrite (bind_done _ _ _ _ _ (the_rq_packet_done q _ v Hb Hv)).
    rewrite <- (assoc_L app) in Hc. cbn [app] in Hc. rewrite fmap_app, !fmap_cons in Hc.
    apply chain_app in Hc as (c & _ & Hc).
    destruct (chain_from _ _ _ _ Hc) as (v' & Hv' & En & _). rewrite Hv in Hv'. injection Hv' as <-.
    by rewrite En, bool_decide_true.
Qed.

Lemma purge_loop_spec fuel now q es own :
  rep q es own → (length es < fuel)%nat →
  ∃ q', purge_loop fuel now q = Done tt q' ∧ rep q' (fresh_at now es) own ∧ relinked own q q'.
Proof.
  revert q es. induction fuel as [|fuel IH]; intros q es Hq Hf; [lia|]. cbn [purge_loop].
  destruct (rq_find_from_spec (λ v, dlt (ts_ (cmn v)) now) q es own Hq)
    as [[Hno E]|(pre & e & post & -> & Hno & He & E)]; unfold findAgedPacket; rewrite (bind_done _ _ _ _ _ E).
  - rewrite decide_True by done. exists q. split; [done|].
    unfold fresh_at. rewrite list_filter_same; [by split; [|apply relinked_refl]|].
    intros x Hx. rewrite <- (accepts_aged q es own now x); auto.
  - destruct (rep_lookup _ _ _ e Hq) as [Hn _]; [set_solver|]. rewrite decide_False by done.
    rewrite (bind_done _ _ _ _ _ (assert_found_spec _ _ _ _ _ Hq)).
    destruct (rq_unlink_spec _ _ _ _ _ Hq) as (q1 & E1 & Hq1 & R1).
    rewrite (bind_done _ _ _ _ _ E1), (bind_done _ _ _ _ _ (verifyQueue_spec _ _ _ Hq1)).
    destruct (IH q1 (pre ++ post) Hq1) as (q2 & E2 & Hq2 & R2).
    { rewrite length_app in *. simpl in Hf. lia. }
    exists q2. split; [done|]. split; [|by eapply relinked_trans].
    rewrite (accepts_aged q (pre ++ e :: post) own) in He by set_solver.
    unfold fresh_at in *. rewrite !filter_app, filter_cons_False in * by congruence. done.
Qed.

Lemma rq_purge_spec now q es own :
  rep q es own → ∃ q', purge now q = Done tt q' ∧ rep q' (fresh_at now es) own ∧ relinked own q q'.
Proof.
  intros Hq. unfold purge. rewrite (bind_done _ _ _ q q) by done. apply purge_loop_spec; [done|].
  pose proof (rep_length _ _ _ Hq). lia.
Qed.

(** The first packet for [dst], and the others. *)
Fixpoint take_for (dst : Z) es : option waiting * list waiting :=
  match es with
  | [] => (None, [])
  | e :: es => if for_dst dst e then (Some e, es) else let '(r, es) := take_for dst es in (r, e :: es)
  end.
Definition packet_of (o : option waiting) : addr := from_option w_packet NULL o.

Lemma take_for_split dst pre e post :
  (∀ x, x ∈ pre → for_dst dst x = false) → for_dst dst e = true →
  take_for dst (pre ++ e :: post) = (Some e, pre ++ post).
Proof.
  intros Hpre He. induction pre as [|x pre IH]; simpl; [by rewrite He|].
  rewrite (Hpre x) by by left. rewrite IH by (intros y Hy; apply Hpre; by right). done.
Qed.
Lemma take_for_none dst es : (∀ x, x ∈ es → for_dst dst x = false) → take_for dst es = (None, es).
Proof.
  intros Hes. induction es as [|x es IH]; simpl; [done|]. rewrite (Hes x) by by left.
  by rewrite IH by (intros y Hy; apply Hes; by right).
Qed.

(** A change of packets outside of the queue. *)
Lemma rep_frame q q' es own own' :
  rep q es own → rq_head q' = rq_head q → rq_tail q' = rq_tail q → rq_len q' = rq_len q →
  limit_ q' = limit_ q → timeout_ q' = timeout_ q → (∃ fs, pool_ok (rq_pool q') fs) →
  (∀ e, e ∈ es → rq_packets q' !! w_packet e = rq_packets q !! w_packet e) →
  NoDup ((w_packet <$> es) ++ own') → (∀ p, p ∈ own' → usable (rq_packets q') p) → rep q' es own'.
Proof.
  intros ((Hc & Ht & Hl) & Hn & Hm & Hto & _ & _ & He & _) E1 E2 E3 E4 E5 Hfs Hsame Hnd Hown.
  split_and!; try congruence; try done.
  - split; [|by rewrite E2, E3]. rewrite E1. eapply chain_ext; [|exact Hc]. intros x (e & -> & Hin)%list_elem_of_fmap.
    unfold pnx. by rewrite Hsame.
  - intros e Hin. destruct (He e Hin) as (v & Hv & Hrest). exists v. by rewrite Hsame.
Qed.

Lemma rep_null q es own : rep q es own → NULL ∉ own.
Proof.
  intros (_ & _ & _ & _ & [fs (_ & Hn & _)] & _ & _ & Ho) Hin. destruct (Ho NULL Hin) as (v & Hv & _).
  unfold rq_packets in Hv. congruence.
Qed.

(** Changing a packet outside of the queue. *)
Lemma rep_upd q es own p f v :
  rep q es own → p ∈ own → rq_packets q !! p = Some v → in_use (f v) →
  upd_rq_packet p f q = Done tt (rq_put p (f v) q) ∧ rep (rq_put p (f v) q) es own.
Proof.
  intros Hq Hp Hv Hw. split.
  { apply upd_rq_packet_done; [|done]. intros ->. by eapply rep_null. }
  pose proof Hq as (_ & _ & _ & _ & [fs Hok] & Hnd & _ & Ho).
  eapply rep_frame; [exact Hq|done..| | |done|].
  - exists fs. eapply pool_ok_insert; [done|exact Hv| |by destruct Hw].
    destruct (Ho p Hp) as (v' & Hv' & Hf & _). destruct Hok as (_ & _ & Hff & _).
    rewrite Hv in Hv'. injection Hv' as <-. rewrite <- (Hff p v Hv). congruence.
  - intros e He. unfold rq_packets. simpl. rewrite lookup_insert_ne; [done|].
    intros E. by eapply (rep_apart q es own p e).
  - intros x Hx. unfold usable, rq_packets. simpl. destruct (decide (x = p)) as [->|].
    + exists (f v). by rewrite lookup_insert_eq.
    + rewrite lookup_insert_ne by done. by apply Ho.
Qed.

(** Freeing one. *)
Lemma rq_free_spec q es own p :
  rep q es (p :: own) →
  ∃ q', on_rq_pool (free p) q = Done tt q' ∧ rep q' es own ∧ rq_drops q' = rq_drops q ∧
    ∀ x, x ≠ p → rq_packets q' !! x = rq_packets q !! x.
Proof.
  intros Hq. pose proof Hq as (_ & _ & _ & _ & [fs Hok] & Hnd & _ & Ho).
  destruct (Ho p ltac:(by left)) as (v & Hv & Hf & Hr & Hu).
  destruct (free_spec _ _ _ _ Hok Hv Hf Hr Hu) as (s' & E & Hok' & Hsame).
  unfold on_rq_pool, zoom. rewrite E. eexists. split; [done|].
  apply NoDup_app in Hnd as (Hnd1 & Hnd2 & [Hnd3 Hnd4]%NoDup_cons).
  split; [|by split]. eapply rep_frame; [exact Hq|done..|by eexists| | |].
  - intros e He. apply Hsame. eapply (rep_apart _ _ _ _ _ Hq); [by left|done].
  - apply NoDup_app. split_and!; [done| |done]. intros x Hx Hin. apply (Hnd2 x Hx). by right.
  - intros x Hx. destruct (Ho x ltac:(by right)) as (w & Hw & Hin). exists w.
    split; [|done]. unfold rq_packets. simpl. rewrite Hsame; [done|]. by intros ->.
Qed.

Lemma rq_drop_spec q es own p r :
  rep q es (p :: own) →
  ∃ q', drop p r q = Done tt q' ∧ rep q' es own ∧ rq_drops q' = (p, r) :: rq_drops q ∧
    ∀ x, x ≠ p → rq_packets q' !! x = rq_packets q !! x.
Proof.
  intros Hq. unfold drop. rewrite decide_False by (intros ->; eapply rep_null; [exact Hq|by left]).
  rewrite (bind_done _ _ _ tt (add_drop (p, r) q)) by done. by apply (rq_free_spec (add_drop (p, r) q)).
Qed.

(** A new packet. *)
Lemma rq_alloc_spec `{Allocator} q es own :
  (∀ X, is_Some (malloc X)) → rep q es own →
  ∃ p v q', on_rq_pool alloc q = Done p q' ∧ rep q' es (p :: own) ∧ rq_packets q' !! p = Some v ∧
    fresh_packet v ∧ rq_drops q' = rq_drops q ∧ kept own (rq_packets q) (rq_packets q').
Proof.
  intros Hm Hq. pose proof Hq as (_ & _ & _ & _ & [fs Hok] & Hnd & He & Ho).
  destruct (alloc_spec _ fs Hok (λ _, Hm _)) as (p & s' & v & E & Hok' & Hp & Hpf & Hv & Hfresh & Hsame).
  assert (∀ x, x ∈ (w_packet <$> es) ++ own → x ≠ p ∧ packets s' !! x = rq_packets q !! x) as Hx.
  { intros x Hx. assert (usable (rq_packets q) x) as (w & Hw & Hf & _).
    { apply elem_of_app in Hx as [(e & -> & Hin)%list_elem_of_fmap|Hx]; [|by apply Ho].
      destruct (He e Hin) as (w & Hw & Hu & _). by exists w. }
    destruct (Hsame x w Hw Hf). split; [done|]. congruence. }
  exists p, v, (set_rq_pool s' q). unfold on_rq_pool, zoom. rewrite E. split_and!; try done.
  - eapply rep_frame; [exact Hq|done..|by eexists| | |].
    + intros e Hin. apply Hx. apply elem_of_app. left. by apply list_elem_of_fmap_2.
    + apply NoDup_app in Hnd as (Hnd1 & Hnd2 & Hnd3). apply NoDup_app. split_and!; [done| |].
      * intros x Hin [->|Hin']%elem_of_cons; [|by apply (Hnd2 x)].
        by destruct (Hx p ltac:(apply elem_of_app; by left)).
      * apply NoDup_cons. split; [|done]. intros Hin. by destruct (Hx p ltac:(apply elem_of_app; by right)).
    + intros x [->|Hin]%elem_of_cons.
      * exists v. destruct Hfresh as (_ & Eu & Er & Ef & _). unfold in_use. rewrite Eu, Er. by split_and!.
      * destruct (Ho x Hin) as (w & Hw & Hu). exists w. split; [|done].
        unfold rq_packets. simpl. rewrite <- Hw. apply Hx. apply elem_of_app. by right.
  - intros x Hin. apply Hx. apply elem_of_app. by right.
Qed.

(** The order of the other packets does not matter, nor does it that they are all known. *)
Lemma rep_own q es own own' : own' ⊆+ own → rep q es own → rep q es own'.
Proof.
  intros Hsub (Hl & Hn & Hlim & Ht & Hfs & Hnd & He & Ho). split_and!; try done.
  - apply NoDup_app in Hnd as (H1 & H2 & H3). apply NoDup_app. split_and!; [done| |].
    + intros x Hx Hin. apply (H2 x Hx). by eapply elem_of_submseteq.
    + apply submseteq_Permutation in Hsub as [k Hk]. rewrite Hk in H3. by apply NoDup_app in H3 as [? _].
  - intros p Hp. apply Ho. by eapply elem_of_submseteq.
Qed.

(** A packet that leaves the queue. *)
Lemma rep_taken q q' pre e post own :
  rep q (pre ++ e :: post) own → rep q' (pre ++ post) own → same_packets (rq_packets q) (rq_packets q') →
  rep q' (pre ++ post) (w_packet e :: own).
Proof.
  intros Hq Hq' Hs. pose proof Hq' as (_ & _ & _ & _ & Hfs & Hnd' & _ & Ho).
  eapply rep_frame; [exact Hq'|done..| |].
  - pose proof Hq as (_ & _ & _ & _ & _ & Hnd & _).
    assert (w_packet <$> pre ++ e :: post ≡ₚ w_packet e :: (w_packet <$> pre ++ post)) as Hp.
    { rewrite !fmap_app, fmap_cons. by rewrite Permutation_middle. }
    rewrite Hp in Hnd. simpl in Hnd. by rewrite <- Permutation_middle.
  - intros x [->|Hx]%elem_of_cons; [|by apply Ho]. eapply usable_same; [exact Hs|].
    destruct (rep_lookup _ _ _ e Hq) as [_ (v & Hv & Hu & _)]; [set_solver|]. by exists v.
Qed.

Lemma rq_find_spec q es own dst :
  rep q es own → find dst q = Done (existsb (for_dst dst) es) q.
Proof.
  intros Hq. unfold find, findPacketWithDst.
  destruct (rq_find_from_spec (λ v, bool_decide (daddr (ip v) = dst)) q es own Hq)
    as [[Hno E]|(pre & e & post & -> & Hno & He & E)]; rewrite (bind_done _ _ _ _ _ E).
  - rewrite bool_decide_false by tauto.
    assert (existsb (for_dst dst) es = false) as ->; [|done].
    apply not_true_iff_false. intros (x & Hx & Hd)%existsb_exists.
    apply list_elem_of_In in Hx. rewrite <- (accepts_dst q es own) in Hd by done. rewrite Hno in Hd; done.
  - destruct (rep_lookup _ _ _ e Hq) as [Hn _]; [set_solver|]. rewrite bool_decide_true by done.
    rewrite (accepts_dst q (pre ++ e :: post) own) in He by set_solver.
    by rewrite existsb_app, (proj2 (orb_true_iff _ _)) by (right; simpl; by rewrite He).
Qed.

Lemma rq_deque_for_spec now dst q es own :
  rep q es own →
  let '(r, es') := take_for dst (fresh_at now es) in
  ∃ q', deque_for now dst q = Done (packet_of r) q' ∧
    rep q' es' (option_list (w_packet <$> r) ++ own) ∧ relinked own q q'.
Proof.
  intros Hq. unfold deque_for. destruct (rq_purge_spec now q es own Hq) as (q1 & E1 & Hq1 & R1).
  rewrite (bind_done _ _ _ _ _ E1). unfold findPacketWithDst.
  destruct (rq_find_from_spec (λ v, bool_decide (daddr (ip v) = dst)) q1 _ own Hq1)
    as [[Hno E]|(pre & e & post & Ees & Hno & He & E)]; rewrite (bind_done _ _ _ _ _ E).
  - rewrite take_for_none by (intros x Hx; rewrite <- (accepts_dst q1 (fresh_at now es) own); auto).
    assert (assert_found NULL (default NULL (last (w_packet <$> fresh_at now es))) q1 = Done tt q1) as Ea.
    { unfold assert_found. rewrite (bind_done _ _ _ q1 q1) by done. by rewrite decide_True by by left. }
    rewrite (bind_done _ _ _ _ _ Ea), decide_True by done. by exists q1.
  - rewrite Ees in *. destruct (rep_lookup _ _ _ e Hq1) as [Hn _]; [set_solver|].
    rewrite take_for_split.
    2:{ intros x Hx. rewrite <- (accepts_dst q1 (pre ++ e :: post) own); [by apply Hno|done|set_solver]. }
    2:{ rewrite <- (accepts_dst q1 (pre ++ e :: post) own); [done|done|set_solver]. }
    rewrite (bind_done _ _ _ _ _ (assert_found_spec _ _ _ _ _ Hq1)), decide_False by done.
    destruct (rq_unlink_spec _ _ _ _ _ Hq1) as (q2 & E2 & Hq2 & R2).
    rewrite (bind_done _ _ _ _ _ E2), (bind_done _ _ _ _ _ (verifyQueue_spec _ _ _ Hq2)).
    exists q2. split; [done|]. split; [|by eapply relinked_trans].
    apply (rep_taken q1); [done|done|apply R2].
Qed.

(** A full queue gives up the packet that waits longest. *)
Definition room (now : double) es : list waiting * list (addr * rtr_reason) :=
  match es with
  | e :: es' =>
      if decide (Z.of_nat (length es) = AODV_RTQ_MAX_LEN)
      then (es', [(w_packet e, if dlt now (w_until e) then DROP_RTR_QFULL else DROP_RTR_QTIMEOUT)])
      else (es, [])
  | [] => ([], [])
  end.

Lemma remove_head_rep q e es own :
  rep q (e :: es) own →
  ∃ q', remove_head q = Done (w_packet e) q' ∧ rep q' es (w_packet e :: own) ∧ rq_pool q' = rq_pool q ∧
    limit_ q' = limit_ q ∧ timeout_ q' = timeout_ q ∧ rq_drops q' = rq_drops q.
Proof.
  intros Hq. pose proof Hq as (Hl & Hn & _ & _ & _ & Hnd & _).
  destruct (rq_remove_head_spec q (e :: es)) as (q' & E & Hl' & Hp & L1 & L2 & L3).
  - done.
  - intros x Hx. by destruct (rep_lookup _ _ _ x Hq Hx).
  - by apply NoDup_app in Hnd as [? _].
  - unfold AODV_RTQ_MAX_LEN in Hn. lia.
  - exists q'. split_and!; try done. simpl in Hl'.
    assert (relinked own q q') as Hr by by apply relinked_pool.
    apply (rep_taken q q' [] e es own); [done| |apply Hr].
    eapply rep_relinked; [exact Hq|done|done|by apply sublist_cons].
Qed.

Lemma make_room_spec now q es own :
  rep q es own →
  ∃ q', make_room now q = Done tt q' ∧ rep q' (room now es).1 own ∧
    rq_drops q' = (room now es).2 ++ rq_drops q ∧
    (∀ p, p ∈ own → rq_packets q' !! p = rq_packets q !! p).
Proof.
  intros Hq. pose proof Hq as ((_ & _ & Hlen) & _ & Hlim & _). unfold make_room.
  rewrite (bind_done _ _ _ q q), Hlen, Hlim by done. destruct es as [|e es].
  { rewrite decide_False by done. by exists q. }
  unfold room. case_decide; [|by exists q].
  destruct (remove_head_rep q e es own Hq) as (q1 & E1 & Hq1 & Hp & L1 & L2 & L3).
  destruct (rep_lookup _ _ _ e Hq) as [He (v & Hv & Hu & Hd & Ht & _)]; [by left|].
  rewrite (bind_done _ _ _ _ _ E1), (bind_done _ _ _ tt q1) by by rewrite bool_decide_true.
  assert (rq_packets q1 !! w_packet e = Some v) as Hv1 by (unfold rq_packets; by rewrite Hp).
  rewrite (bind_done _ _ _ _ _ (the_rq_packet_done q1 _ v He Hv1)), Ht.
  set (r := if dlt now (w_until e) then DROP_RTR_QFULL else DROP_RTR_QTIMEOUT).
  destruct (rq_drop_spec q1 es own (w_packet e) r Hq1) as (q2 & E2 & Hq2 & L4 & Hsame).
  exists q2. split; [by destruct (dlt now (w_until e))|]. split; [done|]. split; [by rewrite L4, L3|].
  intros p Hp'. rewrite Hsame by (intros ->; by eapply (rep_apart _ _ _ _ e Hq); [|left|]).
  unfold rq_packets. by rewrite Hp.
Qed.

Lemma room_length now es : Z.of_nat (length es) ≤ AODV_RTQ_MAX_LEN →
  Z.of_nat (length (room now es).1) < AODV_RTQ_MAX_LEN ∧ (room now es).1 `suffix_of` es.
Proof.
  intros Hn. destruct es as [|e es]; [by split|]. unfold room. case_decide; simpl in *.
  - split; [lia|by exists [e]].
  - split; [lia|by exists []].
Qed.

Lemma append_spec q es e v own :
  rep q es (w_packet e :: own) → rq_packets q !! w_packet e = Some v → pk_next v = NULL →
  daddr (ip v) = w_dst e → ts_ (cmn v) = w_until e → ptype_ (cmn v) = w_type e → Z.of_nat (length es) < AODV_RTQ_MAX_LEN →
  ∃ q', append (w_packet e) q = Done tt q' ∧ rep q' (es ++ [e]) own ∧ relinked own q q'.
Proof.
  intros Hq Hv Hnext Hd Ht Hty Hn. pose proof Hq as ((Hc & Htail & Hlen) & _ & Hlim & Hto & [fs Hok] & Hnd & He & Ho).
  assert (w_packet e ≠ NULL) as Hp by (intros E; eapply rep_null; [exact Hq|rewrite <- E; by left]).
  assert (Hpes : w_packet e ∉ w_packet <$> es) by (apply NoDup_app in Hnd as (_ & Hnd & _); intros Hx; apply (Hnd _ Hx); by left).
  destruct (Ho (w_packet e)) as (v' & Hv' & Hu); [by left|]. rewrite Hv in Hv'. injection Hv' as <-.
  unfold append. rewrite (bind_done _ _ _ q q) by done.
  assert (∃ q1, (if decide (rq_head q = NULL) then modify (λ q, set_rq_head (w_packet e) (set_rq_tail (w_packet e) q))
       else _ ← upd_rq_packet (rq_tail q) (with_pk_next (w_packet e)); modify (set_rq_tail (w_packet e))) q = Done tt q1 ∧
    chain (pnx (rq_packets q1)) (rq_head q1) (w_packet <$> es) (w_packet e) ∧
    rq_packets q1 !! w_packet e = Some v ∧ rq_tail q1 = w_packet e ∧ rq_len q1 = rq_len q ∧ relinked (w_packet e :: own) q q1)
    as (q1 & E1 & C1 & V1 & T1 & L1 & R1).
  { destruct es as [|b es _] using rev_ind.
    - simpl in Hc. rewrite decide_True by done. eexists. by split_and!.
    - assert (rq_head q ≠ NULL) as Hh.
      { rewrite (chain_head _ _ _ Hc). destruct es as [|c es]; simpl.
        - apply (rep_lookup q _ _ b Hq). set_solver.
        - apply (rep_lookup q _ _ c Hq). set_solver. }
      rewrite decide_False by done. rewrite Htail, last_waiting.
      destruct (rq_relink q _ _ b (w_packet e) Hq) as (w & Hw & Ew & Hr); [set_solver|].
      rewrite (bind_done _ _ _ _ _ Ew). eexists. split; [done|].
      assert (w_packet b ≠ w_packet e) as Hbe by (intros E; apply Hpes; rewrite <- E; apply list_elem_of_fmap_2; set_solver).
      split_and!; try done; [|by unfold rq_packets; simpl; rewrite lookup_insert_ne].
      rewrite fmap_app in Hc |- *. change (w_packet <$> [b]) with [w_packet b] in *.
      eapply chain_redirect; [|unfold rq_packets; simpl; by rewrite pnx_insert_eq|exact Hc].
      intros x Hx. unfold rq_packets. simpl. rewrite pnx_insert_ne; [done|]. intros <-.
      apply NoDup_app in Hnd as [Hnd _]. rewrite fmap_app in Hnd. apply NoDup_app in Hnd as (_ & Hnd & _).
      apply (Hnd _ Hx). by left. }
  rewrite (bind_done _ _ _ _ _ E1). eexists. split; [done|].
  assert (relinked own q (add_len 1 q1)) as R2.
  { destruct R1 as (A1 & A2 & A3 & A4 & A5 & A6). split_and!; try done. intros x Hx. apply A6. by right. }
  split; [|done]. pose proof R2 as (A1 & A2 & _ & A4 & A5 & _). split_and!; try congruence.
  - split_and!.
    + change (chain (pnx (rq_packets q1)) (rq_head q1) (w_packet <$> es ++ [e]) NULL).
      rewrite fmap_app. apply chain_app. exists (w_packet e). split; [done|]. split_and!; [done..|].
      exists NULL. unfold pnx. by rewrite V1, <- Hnext.
    + by rewrite last_waiting.
    + simpl. unfold AODV_RTQ_MAX_LEN in Hn. rewrite L1, Hlen, s32_small, length_app by lia. simpl. lia.
  - rewrite length_app. simpl. lia.
  - exists fs. by apply A5.
  - rewrite fmap_app, <- (assoc_L app). exact Hnd.
  - intros x [Hx| ->%list_elem_of_singleton]%elem_of_app; [eapply waits_same; [exact A4|by apply He]|].
    by exists v.
  - intros x Hx. eapply usable_same; [exact A4|]. apply Ho. by right.
Qed.

Lemma rq_enque_spec now q es own p v :
  rep q es (p :: own) → rq_packets q !! p = Some v →
  ∃ q', enque now p q = Done tt q' ∧
    rep q' ((room now (fresh_at now es)).1 ++ [Waiting p (ptype_ (cmn v)) (daddr (ip v)) (dadd now AODV_RTQ_TIMEOUT)]) own ∧
    rq_drops q' = (room now (fresh_at now es)).2 ++ rq_drops q ∧
    kept own (rq_packets q) (rq_packets q').
Proof.
  intros Hq Hv. unfold enque. destruct (rq_purge_spec now q es _ Hq) as (q1 & E1 & Hq1 & R1).
  rewrite (bind_done _ _ _ _ _ E1), (bind_done _ _ _ (timeout_ q1) q1) by done.
  destruct R1 as (_ & _ & D1 & S1 & _ & K1). destruct (same_packets_lookup _ _ _ _ S1 Hv) as [n Hv1].
  set (f := λ v : packet, with_cmn (cmn_ts (dadd now (timeout_ q1))) (with_pk_next NULL v)).
  pose proof Hq as (_ & _ & _ & _ & _ & _ & _ & Ho).
  destruct (Ho p) as (v' & Hv' & Hu); [by left|]. rewrite Hv in Hv'. injection Hv' as <-.
  destruct (rep_upd q1 _ (p :: own) p f (with_pk_next n v) Hq1) as [E2 Hq2]; [by left|done|done|].
  rewrite (bind_done _ _ _ _ _ E2). set (q2 := rq_put p _ q1) in *.
  destruct (make_room_spec now q2 _ _ Hq2) as (q3 & E3 & Hq3 & D3 & K3). rewrite (bind_done _ _ _ _ _ E3).
  set (e := Waiting p (ptype_ (cmn v)) (daddr (ip v)) (dadd now AODV_RTQ_TIMEOUT)).
  assert (rq_packets q3 !! p = Some (f (with_pk_next n v))) as Hv3.
  { rewrite K3 by by left. unfold q2, rq_packets. simpl. by rewrite lookup_insert_eq. }
  destruct (append_spec q3 (room now (fresh_at now es)).1 e _ own Hq3 Hv3) as (q4 & E4 & Hq4 & R4);
    [done|done| |done|by apply room_length, Hq2|].
  { pose proof Hq1 as (_ & _ & _ & Hto & _). simpl. by rewrite Hto. }
  exists q4. split_and!; [|done| |].
  - rewrite (bind_done _ _ _ _ _ E4). by eapply verifyQueue_spec.
  - destruct R4 as (_ & _ & -> & _). rewrite D3. f_equal. exact D1.
  - apply kept_trans with (rq_packets q1); [intros x Hx; apply K1; by right|].
    apply kept_trans with (rq_packets q3); [|by apply R4].
    intros x Hx. rewrite K3 by by right. unfold q2, rq_packets. simpl. rewrite lookup_insert_ne; [done|].
    intros <-. pose proof Hq as (_ & _ & _ & _ & _ & Hnd & _). apply NoDup_app in Hnd as (_ & _ & Hnd).
    by apply NoDup_cons in Hnd as [Hnd _].
Qed.

Lemma rep_new pl own :
  (∃ fs, pool_ok pl fs) → NoDup own → (∀ p, p ∈ own → usable (packets pl) p) → rep (aodv_rqueue_new pl) [] own.
Proof. intros Hm Hnd Ho. split_and!; try done; set_solver. Qed.

(** ** The queue refines the sequence *)

Inductive rq_call := Enque (now : double) (p : addr) | Deque (now : double) | DequeFor (now : double) (dst : Z) | Find (dst : Z).

Definition run_call (c : rq_call) : M aodv_rqueue (addr + bool) :=
  match c with
  | Enque now p => _ ← enque now p; mret (inl NULL)
  | Deque now => p ← deque now; mret (inl p)
  | DequeFor now dst => p ← deque_for now dst; mret (inl p)
  | Find dst => b ← find dst; mret (inr b)
  end.

(** What a call does to the packets [es] that wait and the packets [own] of the caller; the
    last arguments are the answer and the packets dropped.  [m] gives the destination of a
    packet that is handed to the queue. *)
Inductive rq_step (m : gmap N packet) :
    rq_call → list waiting → list addr → list waiting → list addr → addr + bool → list (addr * rtr_reason) → Prop :=
  | step_enque now p v es own :
      m !! p = Some v →
      rq_step m (Enque now p) es (p :: own)
        ((room now (fresh_at now es)).1 ++ [Waiting p (ptype_ (cmn v)) (daddr (ip v)) (dadd now AODV_RTQ_TIMEOUT)]) own
        (inl NULL) (room now (fresh_at now es)).2
  | step_deque now es own :
      rq_step m (Deque now) es own (tail (fresh_at now es))
        (option_list (w_packet <$> head (fresh_at now es)) ++ own) (inl (packet_of (head (fresh_at now es)))) []
  | step_deque_for now dst es own :
      rq_step m (DequeFor now dst) es own (take_for dst (fresh_at now es)).2
        (option_list (w_packet <$> (take_for dst (fresh_at now es)).1) ++ own)
        (inl (packet_of (take_for dst (fresh_at now es)).1)) []
  | step_find dst es own :
      rq_step m (Find dst) es own es own (inr (existsb (for_dst dst) es)) [].

Lemma rq_deque_spec now q es own :
  rep q es own →
  ∃ q', deque now q = Done (packet_of (head (fresh_at now es))) q' ∧
    rep q' (tail (fresh_at now es)) (option_list (w_packet <$> head (fresh_at now es)) ++ own) ∧
    rq_drops q' = rq_drops q.
Proof.
  intros Hq. unfold deque. destruct (rq_purge_spec now q es own Hq) as (q1 & E1 & Hq1 & R1).
  rewrite (bind_done _ _ _ _ _ E1). destruct R1 as (_ & _ & D1 & _). destruct (fresh_at now es) as [|e fs].
  - destruct (rq_remove_head_spec q1 []) as (q2 & E2 & Hl2 & Hp & L1 & L2 & L3);
      [apply Hq1|set_solver|constructor|done|].
    assert (relinked own q1 q2) as Hr by by apply relinked_pool.
    assert (rep q2 [] own) as Hq2 by by eapply rep_relinked.
    rewrite (bind_done _ _ _ _ _ E2), (bind_done _ _ _ _ _ (verifyQueue_spec _ _ _ Hq2)).
    exists q2. split_and!; [done|done|congruence].
  - destruct (remove_head_rep q1 e fs own Hq1) as (q2 & E2 & Hq2 & _ & _ & _ & L3).
    rewrite (bind_done _ _ _ _ _ E2), (bind_done _ _ _ _ _ (verifyQueue_spec _ _ _ Hq2)).
    exists q2. split_and!; [done|done|congruence].
Qed.

(** C30. The queue of the packets that wait for a route acts on their sequence: a packet is
    put behind the others and may wait for thirty seconds, those that waited longer are
    taken out, at most sixty-four wait, of which the one that came first is given up for a
    new one, and packets for a destination are taken out in the order they came; no call
    runs into a fault or fails an assertion. *)
Theorem rqueue_refines_sequence :
  (∀ pl own, (∃ fs, pool_ok pl fs) → NoDup own → (∀ p, p ∈ own → usable (packets pl) p) →
     rep (aodv_rqueue_new pl) [] own) ∧
  ∀ q c es own es' own' r ds,
    rep q es own → rq_step (rq_packets q) c es own es' own' r ds →
    ∃ q', run_call c q = Done r q' ∧ rep q' es' own' ∧ rq_drops q' = ds ++ rq_drops q ∧
      Z.of_nat (length es') ≤ 64.
Proof.
  split; [intros; by apply rep_new|].
  intros q c es own es' own' r ds Hq Hstep.
  assert (∃ q', run_call c q = Done r q' ∧ rep q' es' own' ∧ rq_drops q' = ds ++ rq_drops q)
    as (q' & E & Hq' & D); [|by exists q'; split_and!; [..|apply Hq']].
  destruct Hstep as [now p v es own Hv|now es own|now dst es own|dst es own]; cbn [run_call].
  - destruct (rq_enque_spec now q es own p v Hq Hv) as (q' & E & Hq' & D & _). exists q'. by rewrite (bind_done _ _ _ _ _ E).
  - destruct (rq_deque_spec now q es own Hq) as (q' & E & Hq' & D). exists q'. by rewrite (bind_done _ _ _ _ _ E).
  - pose proof (rq_deque_for_spec now dst q es own Hq) as Hd. destruct (take_for dst (fresh_at now es)) as [o fs].
    destruct Hd as (q' & E & Hq' & _ & _ & D & _). exists q'. by rewrite (bind_done _ _ _ _ _ E).
  - exists q. by rewrite (bind_done _ _ _ _ _ (rq_find_spec q es own dst Hq)).
Qed.
End rqueue.

(** ** Witnesses *)

#[local] Instance no_payload : Headers unit := tt.
Definition queue_packet (dst : Z) : Packet unit :=
  Pkt NULL 0 0 true None (Cmn 2 512 0 0 d_zero DOWN (-2) (-2) NS_AF_NONE (-2) false 0 0) (Ip 1 0 dst 0 32) tt.
Definition queue_pool : pool := Pool (<[1%N := queue_packet 7]> {[2%N := queue_packet 8]}) NULL.

Lemma queue_pool_ok : pool_ok queue_pool [].
Proof.
  split_and!; [done|done| |]; intros a v Hv.
  - split; [|by intros ?%not_elem_of_nil]. unfold queue_pool in Hv. simpl in Hv.
    apply lookup_insert_Some in Hv as [[_ <-]|[_ [_ <-]%lookup_singleton_Some]]; done.
  - by intros ?%not_elem_of_nil.
Qed.

(** The first packet is put into the empty queue. *)
Lemma rqueue_refines_sequence_witness :
  ∃ q', run_call (Enque d_zero 1) (aodv_rqueue_new queue_pool) = Done (inl NULL) q' ∧
    rep q' [Waiting 1 2 7 (d_of_Z 30)] [2%N].
Proof.
  destruct (rqueue_refines_sequence (P := unit)) as [Hnew Hstep].
  destruct (Hstep (aodv_rqueue_new queue_pool) (Enque d_zero 1) [] [1; 2]%N [Waiting 1 2 7 (d_of_Z 30)] [2%N] (inl NULL) [])
    as (q' & E & Hq' & _).
  - apply Hnew; [exists []; apply queue_pool_ok|by apply (bool_decide_unpack _); vm_compute|].
    intros p Hp. apply elem_of_cons in Hp as [->| ->%list_elem_of_singleton]; eexists; by split.
  - apply (step_enque (packets queue_pool) d_zero 1 (queue_packet 7) [] [2%N]). done.
  - by exists q'.
Defined.

(** A packet that waits for more than thirty seconds is neither handed out, nor dropped, nor
    freed. *)
Lemma aged_packet_leaks :
  ∃ q, (_ ← enque d_zero 1%N; deque_for (d_of_Z 31) 7) (aodv_rqueue_new queue_pool) = Done NULL q ∧
    rq_drops q = [] ∧ free_ (rq_pool q) = NULL ∧ rq_len q = 0 ∧
    fflag_ <$> rq_packets q !! 1%N = Some true.
Proof. eexists. split; [vm_compute; reflexivity|]. by vm_compute. Qed.
