(* ===== verification/AodvTable.v ===== *)
(** * AODV: the routing table

    [ns2/aodv/aodv_rtable.cc], [aodv_rtable.h] and the packet formats of
    [ns2/aodv/aodv_packet.h].  The lists of the BSD macros are sequences, the first element
    first; an entry of the table is known by its destination, which never changes and which
    no two entries share. *)
From S2P Require Import Prelude Double SimPacket.
Open Scope Z_scope.

(** ** Packet formats *)

Definition AODVTYPE_HELLO : Z := 1.
Definition AODVTYPE_RREQ : Z := 2.
Definition AODVTYPE_RREP : Z := 4.
Definition AODVTYPE_RERR : Z := 8.
Definition AODV_MAX_ERRORS : nat := 100.

(* [ns2/aodv/aodv_packet.h:74-86] struct hdr_aodv_request *)
Record hdr_aodv_request := Request {
  rq_hop_count : Z;
  rq_bcast_id : Z;
  rq_dst : Z;
  rq_dst_seqno : Z;
  rq_src : Z;
  rq_src_seqno : Z;
  rq_timestamp : double;
}.
(** Also the format of hello messages. *)
(* [ns2/aodv/aodv_packet.h:111-121] struct hdr_aodv_reply *)
Record hdr_aodv_reply := Reply {
  rp_type : Z;
  rp_hop_count : Z;
  rp_dst : Z;
  rp_dst_seqno : Z;
  rp_src : Z;
  rp_lifetime : double;
  rp_timestamp : double;
}.
(** The destinations and their sequence numbers; [DestCount] is the length. *)
(* [ns2/aodv/aodv_packet.h:142-148] struct hdr_aodv_error *)
Record hdr_aodv_error := Error { re_type : Z; unreachable : list (Z * Z) }.

(** The area of a packet's headers, zero in a new packet. *)
(* [ns2/aodv/aodv_packet.h:171-177] union hdr_all_aodv *)
Inductive hdr_all_aodv :=
  | NoAodv
  | RequestHdr (h : hdr_aodv_request)
  | ReplyHdr (h : hdr_aodv_reply)
  | ErrorHdr (h : hdr_aodv_error).
#[global] Instance aodv_headers : Headers hdr_all_aodv := NoAodv.

(* [ns2/aodv/aodv_packet.h:92-108] size *)
Definition request_size : Z := 7 * 4.
(* [ns2/aodv/aodv_packet.h:123-139] size *)
Definition reply_size : Z := 6 * 4.
(* [ns2/aodv/aodv_packet.h:150-161] size *)
Definition error_size (h : hdr_aodv_error) : Z := (Z.of_nat (length (unreachable h)) * 2 + 1) * 4.

(** ** Entries *)

(* [ns2/aodv/aodv_rtable.h:41-41] INFINITY2 *)
Definition INFINITY2 : Z := 255.
(* [ns2/aodv/aodv_rtable.h:115-117] RTF_DOWN *)
Definition RTF_DOWN : Z := 0.
Definition RTF_UP : Z := 1.
Definition RTF_IN_REPAIR : Z := 2.
(* [ns2/aodv/aodv_rtable.h:128-128] MAX_HISTORY *)
Definition MAX_HISTORY : Z := 3.

(* [ns2/aodv/aodv_rtable.h:46-56] class AODV_Neighbor *)
Record AODV_Neighbor := Neighbor { nb_addr : Z; nb_expire : double }.

(** [rt_pclist] are the addresses of the precursors. *)
(* [ns2/aodv/aodv_rtable.h:81-140] class aodv_rt_entry *)
Record aodv_rt_entry := RtEntry {
  rt_req_timeout : double;
  rt_req_cnt : Z;
  rt_dst : Z;
  rt_seqno : Z;
  rt_hops : Z;
  rt_last_hop_count : Z;
  rt_nexthop : Z;
  rt_pclist : list Z;
  rt_expire : double;
  rt_flags : Z;
  rt_disc_latency : list double;
  hist_indx : Z;
  rt_req_last_ttl : Z;
  rt_nblist : list AODV_Neighbor;
}.

(** Setting members. *)
Definition with_request (timeout : double) (cnt ttl : Z) (e : aodv_rt_entry) : aodv_rt_entry :=
  RtEntry timeout cnt (rt_dst e) (rt_seqno e) (rt_hops e) (rt_last_hop_count e) (rt_nexthop e) (rt_pclist e)
    (rt_expire e) (rt_flags e) (rt_disc_latency e) (hist_indx e) ttl (rt_nblist e).
Definition with_seqno (n : Z) (e : aodv_rt_entry) : aodv_rt_entry :=
  RtEntry (rt_req_timeout e) (rt_req_cnt e) (rt_dst e) n (rt_hops e) (rt_last_hop_count e) (rt_nexthop e)
    (rt_pclist e) (rt_expire e) (rt_flags e) (rt_disc_latency e) (hist_indx e) (rt_req_last_ttl e) (rt_nblist e).
Definition with_way (hops last next flags : Z) (expire : double) (e : aodv_rt_entry) : aodv_rt_entry :=
  RtEntry (rt_req_timeout e) (rt_req_cnt e) (rt_dst e) (rt_seqno e) hops last next (rt_pclist e)
    expire flags (rt_disc_latency e) (hist_indx e) (rt_req_last_ttl e) (rt_nblist e).
Definition with_expire (t : double) (e : aodv_rt_entry) : aodv_rt_entry :=
  with_way (rt_hops e) (rt_last_hop_count e) (rt_nexthop e) (rt_flags e) t e.
Definition with_flags (f : Z) (e : aodv_rt_entry) : aodv_rt_entry :=
  with_way (rt_hops e) (rt_last_hop_count e) (rt_nexthop e) f (rt_expire e) e.
Definition with_pclist (l : list Z) (e : aodv_rt_entry) : aodv_rt_entry :=
  RtEntry (rt_req_timeout e) (rt_req_cnt e) (rt_dst e) (rt_seqno e) (rt_hops e) (rt_last_hop_count e)
    (rt_nexthop e) l (rt_expire e) (rt_flags e) (rt_disc_latency e) (hist_indx e) (rt_req_last_ttl e) (rt_nblist e).
Definition with_latency (l : list double) (i : Z) (e : aodv_rt_entry) : aodv_rt_entry :=
  RtEntry (rt_req_timeout e) (rt_req_cnt e) (rt_dst e) (rt_seqno e) (rt_hops e) (rt_last_hop_count e)
    (rt_nexthop e) (rt_pclist e) (rt_expire e) (rt_flags e) l i (rt_req_last_ttl e) (rt_nblist e).
Definition with_nblist (l : list AODV_Neighbor) (e : aodv_rt_entry) : aodv_rt_entry :=
  RtEntry (rt_req_timeout e) (rt_req_cnt e) (rt_dst e) (rt_seqno e) (rt_hops e) (rt_last_hop_count e)
    (rt_nexthop e) (rt_pclist e) (rt_expire e) (rt_flags e) (rt_disc_latency e) (hist_indx e) (rt_req_last_ttl e) l.

(** The entry of a new destination. *)
(* [ns2/aodv/aodv_rtable.cc:38-67] aodv_rt_entry::aodv_rt_entry *)
Definition aodv_rt_entry_new (dst : Z) : aodv_rt_entry :=
  RtEntry d_zero 0 dst 0 INFINITY2 INFINITY2 0 [] d_zero RTF_DOWN (replicate 3 d_zero) 0 0 [].

(* [ns2/aodv/aodv_rtable.cc:89-98] aodv_rt_entry::nb_insert *)
Definition rt_nb_insert (id : Z) (e : aodv_rt_entry) : aodv_rt_entry :=
  with_nblist (Neighbor id d_zero :: rt_nblist e) e.
(* [ns2/aodv/aodv_rtable.cc:101-112] aodv_rt_entry::nb_lookup *)
Definition rt_nb_lookup (id : Z) (e : aodv_rt_entry) : option AODV_Neighbor :=
  snd <$> list_find (λ nb, nb_addr nb = id) (rt_nblist e).

(* [ns2/aodv/aodv_rtable.cc:127-138] aodv_rt_entry::pc_lookup *)
Definition pc_lookup (id : Z) (e : aodv_rt_entry) : bool := bool_decide (id ∈ rt_pclist e).
(* [ns2/aodv/aodv_rtable.cc:115-124] aodv_rt_entry::pc_insert *)
Definition pc_insert (id : Z) (e : aodv_rt_entry) : aodv_rt_entry :=
  if pc_lookup id e then e else with_pclist (id :: rt_pclist e) e.
(** The list without the first [id]. *)
Fixpoint remove_first (id : Z) (l : list Z) : list Z :=
  match l with
  | [] => []
  | x :: l => if decide (x = id) then l else x :: remove_first id l
  end.
(* [ns2/aodv/aodv_rtable.cc:140-152] aodv_rt_entry::pc_delete *)
Definition pc_delete (id : Z) (e : aodv_rt_entry) : aodv_rt_entry := with_pclist (remove_first id (rt_pclist e)) e.
(* [ns2/aodv/aodv_rtable.cc:154-162] aodv_rt_entry::pc_delete *)
Definition pc_delete_all (e : aodv_rt_entry) : aodv_rt_entry := with_pclist [] e.
(* [ns2/aodv/aodv_rtable.cc:164-170] aodv_rt_entry::pc_empty *)
Definition pc_empty (e : aodv_rt_entry) : bool := bool_decide (rt_pclist e = []).

(** ** The table *)

Abbreviation rt_table := (list aodv_rt_entry).

(* [ns2/aodv/aodv_rtable.cc:176-187] aodv_rtable::rt_lookup *)
Definition rt_lookup (id : Z) (t : rt_table) : option aodv_rt_entry := snd <$> list_find (λ e, rt_dst e = id) t.
(** The table without the entry. *)
(* [ns2/aodv/aodv_rtable.cc:189-199] aodv_rtable::rt_delete *)
Fixpoint rt_delete (id : Z) (t : rt_table) : rt_table :=
  match t with
  | [] => []
  | e :: t => if decide (rt_dst e = id) then t else e :: rt_delete id t
  end.
(** [None] is a failed assertion. *)
(* [ns2/aodv/aodv_rtable.cc:201-212] aodv_rtable::rt_add *)
Definition rt_add (id : Z) (t : rt_table) : option rt_table :=
  match rt_lookup id t with Some _ => None | None => Some (aodv_rt_entry_new id :: t) end.
(** Writing to the entry of a destination. *)
Definition rt_write (id : Z) (f : aodv_rt_entry → aodv_rt_entry) (t : rt_table) : rt_table :=
  (λ e, if decide (rt_dst e = id) then f e else e) <$> t.

(** ** Lemmas on the table *)

Implicit Types (e : aodv_rt_entry) (t : rt_table).

Lemma rt_lookup_cons d e t :
  rt_lookup d (e :: t) = if decide (rt_dst e = d) then Some e else rt_lookup d t.
Proof. unfold rt_lookup. simpl. case_decide; [done|]. by destruct (list_find _ t) as [[]|]. Qed.

Lemma rt_lookup_Some d t e : rt_lookup d t = Some e → e ∈ t ∧ rt_dst e = d.
Proof.
  induction t as [|x t IH]; [done|]. rewrite rt_lookup_cons. case_decide as Hd.
  - intros [= <-]. by split; [left|].
  - intros [? ?]%IH. by split; [right|].
Qed.
Lemma rt_lookup_is_Some d t : is_Some (rt_lookup d t) ↔ d ∈ rt_dst <$> t.
Proof.
  induction t as [|x t IH]; [split; [by intros [? ?]|by intros ?%elem_of_nil]|].
  rewrite rt_lookup_cons, fmap_cons, elem_of_cons, <- IH. case_decide; naive_solver.
Qed.
Lemma rt_lookup_elem t e : NoDup (rt_dst <$> t) → e ∈ t → rt_lookup (rt_dst e) t = Some e.
Proof.
  induction t as [|x t IH]; [by intros _ ?%elem_of_nil|]. rewrite fmap_cons, rt_lookup_cons.
  intros [Hx Hnd]%NoDup_cons [->|He]%elem_of_cons; [by rewrite decide_True|].
  rewrite decide_False; [by apply IH|]. intros E. apply Hx. rewrite E. by apply list_elem_of_fmap_2.
Qed.

(** The members that are written are not the destination. *)
Definition keeps_dst (f : aodv_rt_entry → aodv_rt_entry) : Prop := ∀ e, rt_dst (f e) = rt_dst e.

Lemma rt_write_dst d f t : keeps_dst f → rt_dst <$> rt_write d f t = rt_dst <$> t.
Proof.
  intros Hf. unfold rt_write. rewrite <- list_fmap_compose. apply list_fmap_ext. intros i x _. simpl. by case_decide.
Qed.
Lemma rt_lookup_write d d' f t : keeps_dst f →
  rt_lookup d' (rt_write d f t) = if decide (d' = d) then f <$> rt_lookup d t else rt_lookup d' t.
Proof.
  intros Hf. induction t as [|x t IH]; [by case_decide|]. unfold rt_write in *. rewrite fmap_cons, !rt_lookup_cons, IH.
  repeat case_decide; rewrite ?Hf in *; simplify_eq/=; congruence.
Qed.
Lemma rt_lookup_write_eq d f t : keeps_dst f → rt_lookup d (rt_write d f t) = f <$> rt_lookup d t.
Proof. intros. by rewrite rt_lookup_write, decide_True. Qed.
Lemma rt_write_write d f g t : keeps_dst f → rt_write d g (rt_write d f t) = rt_write d (g ∘ f) t.
Proof.
  intros Hf. unfold rt_write. rewrite <- list_fmap_compose. apply list_fmap_ext. intros i e _. simpl.
  destruct (decide (rt_dst e = d)) as [E|E].
  - by rewrite decide_True by by rewrite Hf.
  - by rewrite decide_False.
Qed.
Lemma rt_write_elem d f t e : e ∈ rt_write d f t → ∃ x, x ∈ t ∧ (e = x ∧ rt_dst x ≠ d ∨ e = f x ∧ rt_dst x = d).
Proof. intros (x & -> & Hin)%list_elem_of_fmap. exists x. case_decide; naive_solver. Qed.

(** ** Routes

    The table as an abstract routing table: the sequence number, the distance and the next
    hop of the route to a destination, or that it is down. *)
Record route := Route { r_dst : Z; r_seqno : Z; r_hops : Z; r_next : Z; r_up : bool }.
Definition route_of e : route :=
  Route (rt_dst e) (rt_seqno e) (rt_hops e) (rt_nexthop e) (bool_decide (rt_flags e = RTF_UP)).
Definition routes t : list route := route_of <$> t.
Definition no_route_to (d : Z) : route := Route d 0 INFINITY2 0 false.
Definition lost (n : Z) (r : route) : route := Route (r_dst r) n INFINITY2 0 false.

Definition known (d : Z) (rs : list route) : list route :=
  if decide (d ∈ r_dst <$> rs) then rs else no_route_to d :: rs.
(** A route to [d] that is heard of is taken if its sequence number is greater, or the same
    and it is shorter. *)
Definition better (n h : Z) (r : route) : Prop := n > r_seqno r ∨ n = r_seqno r ∧ h < r_hops r.
#[global] Instance better_dec n h r : Decision (better n h r).
Proof. unfold better. apply _. Defined.
Definition learn (d n h next : Z) (rs : list route) : list route :=
  (λ r, if decide (r_dst r = d ∧ better n h r) then Route d n h next true else r) <$> known d rs.
(** The routes through [id] are down, with the next sequence number. *)
Definition break (id : Z) (rs : list route) : list route :=
  (λ r, if decide (r_hops r ≠ INFINITY2 ∧ r_next r = id) then lost (r_seqno r + 1) r else r) <$> rs.
(** The routes through [from] to [d] that are not newer. *)
Definition lose (from : Z) (rs : list route) (dn : Z * Z) : list route :=
  (λ r, if decide (r_dst r = dn.1 ∧ r_hops r ≠ INFINITY2 ∧ r_next r = from ∧ r_seqno r ≤ dn.2)
        then lost dn.2 r else r) <$> rs.

Lemma routes_dst t : r_dst <$> routes t = rt_dst <$> t.
Proof. unfold routes. by rewrite <- list_fmap_compose. Qed.
(** Writing members that are no part of the route. *)
Lemma routes_write_same d f t : (∀ e, route_of (f e) = route_of e) → routes (rt_write d f t) = routes t.
Proof.
  intros Hf. unfold routes, rt_write. rewrite <- list_fmap_compose. apply list_fmap_ext. intros i x _. simpl. by case_decide.
Qed.
(** Writing the route of one entry. *)
Lemma routes_write d f t e (g : route → route) :
  NoDup (rt_dst <$> t) → rt_lookup d t = Some e → route_of (f e) = g (route_of e) →
  (∀ r, r ∈ routes t → r_dst r ≠ d → g r = r) → routes (rt_write d f t) = g <$> routes t.
Proof.
  intros Hnd He Hf Hg. unfold routes, rt_write. rewrite <- !list_fmap_compose. apply list_fmap_ext.
  intros i x Hx%list_elem_of_lookup_2. simpl. case_decide as Hd.
  - rewrite <- Hd in He. rewrite (rt_lookup_elem t x Hnd Hx) in He. by injection He as ->.
  - symmetry. apply Hg; [by apply list_elem_of_fmap_2|done].
Qed.
