(* ===== verification/Aodv.v ===== *)
(** * AODV: the routing agent

    [ns2/aodv/aodv.cc], [aodv.h]: the routing agent that GeoSVR is compared with in
    simulations.  It floods requests for a route, learns routes from requests and replies,
    reports broken links in error messages, and keeps packets until their route is found.

    The queue of waiting packets, the interface queue and the agent share the packets in
    memory.  What leaves the agent is recorded: packets scheduled for the link layer,
    packets for the agents of this node, timers. *)
From S2P Require Import Prelude Double Daemon SimPacket PacketQueue DropTail PriQueue.
From S2P Require Import AodvQueue AodvTable.
Open Scope Z_scope.

(* [ns2/aodv/aodv.h:76-79] MY_ROUTE_TIMEOUT to BCAST_ID_SAVE *)
Definition MY_ROUTE_TIMEOUT : Z := 10.
Definition ACTIVE_ROUTE_TIMEOUT : double := d_of_Z 10.
Definition REV_ROUTE_LIFE : double := d_of_Z 6.
Definition BCAST_ID_SAVE : double := d_of_Z 6.
(* [ns2/aodv/aodv.h:84-98] RREQ_RETRIES to NETWORK_DIAMETER *)
Definition RREQ_RETRIES : Z := 3.
Definition MAX_RREQ_TIMEOUT : double := d_of_Z 10.
Definition TTL_START : Z := 5.
Definition TTL_THRESHOLD : Z := 7.
Definition TTL_INCREMENT : Z := 2.
Definition NODE_TRAVERSAL_TIME : double := d_lit 3 2.
Definition NETWORK_DIAMETER : Z := 30.
(* [ns2/aodv/aodv.h:112-123] DELAY to MinHelloInterval *)
Definition DELAY : double := d_of_Z 1.
Definition NO_DELAY : double := d_of_Z (-1).
Definition ARP_DELAY : double := d_lit 1 2.
Definition HELLO_INTERVAL : double := d_of_Z 1.
Definition ALLOWED_HELLO_LOSS : Z := 3.
Definition MaxHelloInterval : double := d_lit 125 2.
Definition MinHelloInterval : double := d_lit 75 2.
(** [1.5 * ALLOWED_HELLO_LOSS * HELLO_INTERVAL]. *)
Definition HELLO_LIFE : double := d_lit 45 1.
(** The period of the route cache timer. *)
(* [ns2/aodv/aodv.cc:184-184] FREQUENCY *)
Definition FREQUENCY : double := d_lit 5 1.

(** The macro [max]. *)
(* [ns2/aodv/aodv.cc:39-39] max *)
Definition dmax (a b : double) : double := if dlt b a then a else b.

(* [ns2/aodv/aodv.h:177-186] class BroadcastID *)
Record BroadcastID := MkBroadcastID { bi_src : Z; bi_id : Z; bi_expire : double }.

(** [Between lo hi] is [lo + (hi - lo) * Random::uniform()]. *)
Inductive delay := Fixed (d : double) | Between (lo hi : double).
(* [ns2/aodv/aodv.h:128-171] class BroadcastTimer *)
Inductive timer := BroadcastTimer | HelloTimer | NeighborTimer | RouteCacheTimer.
Inductive effect :=
  | Scheduled (p : addr) (v : Packet hdr_all_aodv) (d : delay)  (** scheduled for [target_] *)
  | Delivered (p : addr) (v : Packet hdr_all_aodv)              (** handed to [dmux_] *)
  | RepairTimer (p : addr) (d : double)                         (** scheduled for [lrtimer] *)
  | TimerSet (t : timer) (d : delay).

(** The packets in memory are those of [rqueue]. *)
(* [ns2/aodv/aodv.h:194-327] class AODV *)
Record aodv := Aodv {
  index : Z;
  seqno : Z;
  bid : Z;
  nbhead : list AODV_Neighbor;
  bihead : list BroadcastID;
  rtable : rt_table;
  rqueue : aodv_rqueue (P := hdr_all_aodv);
  ifqueue : DropTail hdr_all_aodv;
  a_log : list effect;
}.

Definition set_seqno x (s : aodv) : aodv :=
  Aodv (index s) x (bid s) (nbhead s) (bihead s) (rtable s) (rqueue s) (ifqueue s) (a_log s).
Definition set_bid x (s : aodv) : aodv :=
  Aodv (index s) (seqno s) x (nbhead s) (bihead s) (rtable s) (rqueue s) (ifqueue s) (a_log s).
Definition set_nbhead x (s : aodv) : aodv :=
  Aodv (index s) (seqno s) (bid s) x (bihead s) (rtable s) (rqueue s) (ifqueue s) (a_log s).
Definition set_bihead x (s : aodv) : aodv :=
  Aodv (index s) (seqno s) (bid s) (nbhead s) x (rtable s) (rqueue s) (ifqueue s) (a_log s).
Definition set_rtable x (s : aodv) : aodv :=
  Aodv (index s) (seqno s) (bid s) (nbhead s) (bihead s) x (rqueue s) (ifqueue s) (a_log s).
Definition set_rqueue x (s : aodv) : aodv :=
  Aodv (index s) (seqno s) (bid s) (nbhead s) (bihead s) (rtable s) x (ifqueue s) (a_log s).
Definition set_ifqueue x (s : aodv) : aodv :=
  Aodv (index s) (seqno s) (bid s) (nbhead s) (bihead s) (rtable s) (rqueue s) x (a_log s).
Definition record_ (e : effect) (s : aodv) : aodv :=
  Aodv (index s) (seqno s) (bid s) (nbhead s) (bihead s) (rtable s) (rqueue s) (ifqueue s) (e :: a_log s).

Abbreviation packet := (Packet hdr_all_aodv).

Definition on_rqueue {A} (m : M (aodv_rqueue (P := hdr_all_aodv)) A) : M aodv A := zoom rqueue set_rqueue m.
Definition on_pool {A} (m : M (pool (P := hdr_all_aodv)) A) : M aodv A := on_rqueue (on_rq_pool m).
(** The interface queue sees the same packets. *)
Definition ifq_view (s : aodv) : DropTail hdr_all_aodv :=
  DropTail.set_q (set_pq_packets (rq_packets (rqueue s)) (q_ (ifqueue s))) (ifqueue s).
Definition ifq_back (d : DropTail hdr_all_aodv) (s : aodv) : aodv :=
  set_ifqueue d (set_rqueue (set_rq_pool (set_packets (pq_packets (q_ d)) (rq_pool (rqueue s))) (rqueue s)) s).
Definition on_ifq {A} (m : M (DropTail hdr_all_aodv) A) : M aodv A := zoom ifq_view ifq_back m.

Definition the_packet (p : addr) : M aodv packet := on_pool (deref packets p).
Definition upd (p : addr) (f : packet → packet) : M aodv unit := on_pool (upd_packet p f).
(** The drops of the agent are recorded with those of its queue. *)
Definition drop (p : addr) (r : rtr_reason) : M aodv unit := on_rqueue (AodvQueue.drop p r).
Definition schedule (p : addr) (d : delay) : M aodv unit := v ← the_packet p; modify (record_ (Scheduled p v d)).

(** The entry a pointer into the table points to, and writing to it. *)
Definition rt_find (d : Z) : M aodv (option aodv_rt_entry) := gets (λ s, rt_lookup d (rtable s)).
Definition the_rt (d : Z) : M aodv aodv_rt_entry :=
  e ← rt_find d; match e with Some e => mret e | None => stuck NullDeref end.
Definition upd_rt (d : Z) (f : aodv_rt_entry → aodv_rt_entry) : M aodv unit :=
  _ ← the_rt d; modify (λ s, set_rtable (rt_write d f (rtable s)) s).
Definition add_rt (d : Z) : M aodv unit :=
  s ← get; match rt_add d (rtable s) with Some t => put (set_rtable t s) | None => abort end.
(** [if (rt == 0) rt = rtable.rt_add(d)]. *)
Definition ensure_rt (d : Z) : M aodv unit :=
  e ← rt_find d; match e with Some _ => skip | None => add_rt d end.

Section agent.
(** [now] is the clock, and [here_addr] the member [here_.addr_] of [Agent]. *)
Context `{Allocator} (now : double) (here_addr : Z).

(** ** Broadcast identifiers *)

(* [ns2/aodv/aodv.cc:222-229] AODV::id_insert *)
Definition id_insert (id bid : Z) : M aodv unit :=
  modify (λ s, set_bihead (MkBroadcastID id bid (dadd now BCAST_ID_SAVE) :: bihead s) s).
(* [ns2/aodv/aodv.cc:232-242] AODV::id_lookup *)
Definition id_lookup (id bid : Z) : M aodv bool :=
  gets (λ s, existsb (λ b, bool_decide (bi_src b = id ∧ bi_id b = bid)) (bihead s)).
(* [ns2/aodv/aodv.cc:244-257] AODV::id_purge *)
Definition id_purge : M aodv unit :=
  modify (λ s, set_bihead (filter (λ b, dle (bi_expire b) now = false) (bihead s)) s).

(** ** Helpers *)

(* [ns2/aodv/aodv.cc:271-276] AODV::PerHopTime *)
Definition latency_step (acc : Z * double) (l : double) : Z * double :=
  if dlt d_zero l then (acc.1 + 1, dadd acc.2 l) else acc.
(* [ns2/aodv/aodv.cc:263-282] AODV::PerHopTime *)
Definition PerHopTime (rt : option aodv_rt_entry) : double :=
  match rt with
  | None => NODE_TRAVERSAL_TIME
  | Some e =>
      let '(num_non_zero, total_latency) := foldl latency_step (0, d_zero) (rt_disc_latency e) in
      if bool_decide (num_non_zero > 0) then ddiv total_latency (d_of_Z num_non_zero) else NODE_TRAVERSAL_TIME
  end.

(* [ns2/aodv/aodv.cc:404-413] AODV::rt_update *)
Definition rt_update (rt seqnum metric nexthop : Z) (expire_time : double) : M aodv unit :=
  upd_rt rt (λ e, with_way (u16 metric) (rt_last_hop_count e) nexthop RTF_UP expire_time (with_seqno (u32 seqnum) e)).
(* [ns2/aodv/aodv.cc:415-432] AODV::rt_down *)
Definition rt_down (rt : Z) : M aodv unit :=
  e ← the_rt rt;
  if decide (rt_flags e = RTF_DOWN) then skip
  else upd_rt rt (λ e, with_way INFINITY2 (rt_hops e) 0 RTF_DOWN d_zero e).

(** [while ((p = rqueue.deque(dst))) body]; the body may change a delay. *)
Fixpoint drain_loop (fuel : nat) (dst : Z) (body : double → addr → M aodv double) (d : double) : M aodv double :=
  match fuel with
  | O => stuck NoFuel
  | S fuel =>
      p ← on_rqueue (deque_for now dst);
      if decide (p = NULL) then mret d
      else d ← body d p; drain_loop fuel dst body d
  end.
Definition drain (dst : Z) (body : double → addr → M aodv double) (d : double) : M aodv double :=
  s ← get; drain_loop (S (size (rq_packets (rqueue s)))) dst body d.
Definition drain_drop (dst : Z) : M aodv unit :=
  _ ← drain dst (λ d p, _ ← drop p DROP_RTR_NO_ROUTE; mret d) d_zero; skip.

(** [while ((p = ifqueue->filter(id))) drop(p, DROP_RTR_MAC_CALLBACK)]. *)
(* [ns2/aodv/aodv.cc:340-342] AODV::rt_ll_failed *)
Fixpoint purge_ifq (fuel : nat) (id : Z) : M aodv unit :=
  match fuel with
  | O => stuck NoFuel
  | S fuel =>
      p ← on_ifq (filter_next_hop id);
      if decide (p = NULL) then skip
      else _ ← drop p DROP_RTR_MAC_CALLBACK; purge_ifq fuel id
  end.
Definition drop_ifq (id : Z) : M aodv unit :=
  s ← get; purge_ifq (S (size (rq_packets (rqueue s)))) id.

(** ** Sending *)

(** [rt] is the destination of the entry, or none for a broadcast. *)
(* [ns2/aodv/aodv.cc:1002-1061] AODV::forward *)
Definition forward (rt : option Z) (p : addr) (d : double) : M aodv unit :=
  v ← the_packet p;
  if decide (ttl_ (ip v) = 0) then drop p DROP_RTR_TTL
  else if bool_decide (ptype_ (cmn v) ≠ PT_AODV ∧ direction_ (cmn v) = UP ∧ u32 (daddr (ip v)) = IP_BROADCAST ∨
                       daddr (ip v) = here_addr)
  then modify (record_ (Delivered p v))
  else
    _ ← match rt with
        | Some rt =>
            e ← the_rt rt;
            _ ← assert_ (bool_decide (rt_flags e = RTF_UP));
            _ ← upd_rt rt (with_expire (dadd now ACTIVE_ROUTE_TIMEOUT));
            upd p (with_cmn (λ c, cmn_direction DOWN (cmn_addr_type NS_AF_INET (cmn_hops (rt_nexthop e) (last_hop_ c) c))))
        | None =>
            _ ← assert_ (bool_decide (daddr (ip v) = s32 IP_BROADCAST));
            upd p (with_cmn (λ c, cmn_direction DOWN (cmn_addr_type NS_AF_NONE c)))
        end;
    if decide (daddr (ip v) = s32 IP_BROADCAST) then
      _ ← assert_ (bool_decide (rt = None));
      if decide (ptype_ (cmn v) = PT_AODV) then schedule p (Between d_zero (d_lit 1 2))
      else schedule p (Fixed d_zero)
    else schedule p (Fixed (if dlt d_zero d then d else d_zero)).

(** The fields of a new packet that all messages share. *)
Definition message (me size ttl daddr_ : Z) (h : hdr_all_aodv) (v : packet) : packet :=
  with_hdrs h (with_ip (λ _, Ip me RT_PORT daddr_ RT_PORT ttl)
    (with_cmn (λ c, cmn_prev_hop me (cmn_type_size PT_AODV (IP_HDR_LEN + size) 0 c)) v)).

(** The time to live of the next request, how often the network was searched, and the time
    to wait for an answer. *)
(* [ns2/aodv/aodv.cc:1114-1146] AODV::sendRequest *)
Definition request_ttl (e : aodv_rt_entry) : Z * Z :=
  let last := Z.max (rt_req_last_ttl e) (rt_last_hop_count e) in
  if decide (0 = last) then (TTL_START, rt_req_cnt e)
  else if bool_decide (last < TTL_THRESHOLD) then (s32 (last + TTL_INCREMENT), rt_req_cnt e)
  else (NETWORK_DIAMETER, u8 (rt_req_cnt e + 1)).
(* [ns2/aodv/aodv.cc:1139-1146] AODV::sendRequest *)
Definition request_timeout (e : aodv_rt_entry) (ttl cnt : Z) : double :=
  let t := dmul (dmul (d_of_Z 2) (d_of_Z ttl)) (PerHopTime (Some e)) in
  let t := if bool_decide (cnt > 0) then dmul t (d_of_Z cnt) else t in
  let t := dadd t now in
  if dlt (dadd now MAX_RREQ_TIMEOUT) t then dadd now MAX_RREQ_TIMEOUT else t.
(* [ns2/aodv/aodv.cc:1064-1185] AODV::sendRequest *)
Definition sendRequest (dst : Z) : M aodv unit :=
  p ← on_pool alloc;
  e ← rt_find dst;
  match e with
  | None => abort
  | Some e =>
      if decide (rt_flags e = RTF_UP) then
        _ ← assert_ (bool_decide (rt_hops e ≠ INFINITY2)); on_pool (free p)
      else if dlt now (rt_req_timeout e) then on_pool (free p)
      else if bool_decide (rt_req_cnt e > RREQ_RETRIES) then
        _ ← upd_rt dst (with_request (dadd now MAX_RREQ_TIMEOUT) 0 (rt_req_last_ttl e));
        _ ← drain_drop dst;
        on_pool (free p)
      else
        let '(ttl, cnt) := request_ttl e in
        _ ← upd_rt dst (λ e, with_expire d_zero (with_request (request_timeout e ttl cnt) cnt ttl e));
        me ← gets index;
        b ← gets bid;
        _ ← modify (set_bid (s32 (b + 1)));
        n ← gets seqno;
        _ ← modify (set_seqno (u32 (n + 2)));
        n ← gets seqno;
        _ ← assert_ (bool_decide (n `mod` 2 = 0));
        _ ← upd p (λ v, with_cmn (cmn_addr_type NS_AF_NONE)
              (message me request_size ttl (s32 IP_BROADCAST)
                (RequestHdr (Request 1 (u32 b) dst (rt_seqno e) me n now)) v));
        schedule p (Fixed d_zero)
  end.

(* [ns2/aodv/aodv.cc:1187-1228] AODV::sendReply *)
Definition sendReply (ipdst hop_count rpdst rpseq lifetime : Z) (timestamp : double) : M aodv unit :=
  p ← on_pool alloc;
  e ← rt_find ipdst;
  match e with
  | None => abort
  | Some e =>
      me ← gets index;
      _ ← upd p (λ v, with_cmn (λ c, cmn_direction DOWN (cmn_addr_type NS_AF_INET (cmn_hops (rt_nexthop e) (last_hop_ c) c)))
            (message me reply_size NETWORK_DIAMETER ipdst
              (ReplyHdr (Reply AODVTYPE_RREP (u8 hop_count) rpdst rpseq me (d_of_Z lifetime) timestamp)) v));
      schedule p (Fixed d_zero)
  end.

(** The destinations are already in the packet. *)
(* [ns2/aodv/aodv.cc:1230-1266] AODV::sendError *)
Definition sendError (p : addr) (jitter : bool) : M aodv unit :=
  v ← the_packet p;
  let h := Error AODVTYPE_RERR (match hdrs v with ErrorHdr h => unreachable h | _ => [] end) in
  me ← gets index;
  _ ← upd p (λ v, with_cmn (λ c, cmn_direction DOWN (cmn_addr_type NS_AF_NONE (cmn_hops 0 (last_hop_ c) c)))
        (message me (error_size h) 1 (s32 IP_BROADCAST) (ErrorHdr h) v));
  schedule p (if jitter then Between d_zero (d_lit 1 2) else Fixed d_zero).

(** [DestCount = 0]. *)
Definition no_destinations (p : addr) : M aodv unit := upd p (with_hdrs (ErrorHdr (Error 0 []))).
Definition dest_count (p : addr) : M aodv Z :=
  v ← the_packet p;
  mret (match hdrs v with ErrorHdr h => Z.of_nat (length (unreachable h)) | _ => 0 end).
(** The destination goes behind the others, if the array has room. *)
(* [ns2/aodv/aodv.cc:362-369] AODV::handle_link_failure *)
Definition add_destination (p : addr) (rt : Z) : M aodv unit :=
  e ← the_rt rt;
  v ← the_packet p;
  match hdrs v with
  | ErrorHdr h =>
      if decide (length (unreachable h) < AODV_MAX_ERRORS)%nat then
        upd p (with_hdrs (ErrorHdr (Error (re_type h) (unreachable h ++ [(rt_dst e, rt_seqno e)]))))
      else stuck OutOfBounds
  | _ => stuck UninitRead
  end.

(* [ns2/aodv/aodv.cc:1273-1306] AODV::sendHello *)
Definition sendHello : M aodv unit :=
  p ← on_pool alloc;
  s ← get;
  _ ← upd p (λ v, with_cmn (cmn_addr_type NS_AF_NONE)
        (message (index s) reply_size 1 (s32 IP_BROADCAST)
          (ReplyHdr (Reply AODVTYPE_HELLO 1 (index s) (seqno s) 0 (d_of_Z (1 + ALLOWED_HELLO_LOSS)) d_zero)) v));
  schedule p (Fixed d_zero).

(** ** Link failures *)

(** The routes through [id], one entry of the table after the other. *)
(* [ns2/aodv/aodv.cc:356-374] AODV::handle_link_failure *)
Fixpoint fail_routes (id : Z) (rerr : addr) (dsts : list Z) : M aodv unit :=
  match dsts with
  | [] => skip
  | rt :: dsts =>
      e ← the_rt rt;
      _ ← (if decide (rt_hops e ≠ INFINITY2 ∧ rt_nexthop e = id) then
             _ ← assert_ (bool_decide (rt_flags e = RTF_UP));
             _ ← assert_ (bool_decide (rt_seqno e `mod` 2 = 0));
             _ ← upd_rt rt (λ e, with_seqno (u32 (rt_seqno e + 1)) e);
             _ ← add_destination rerr rt;
             rt_down rt
           else skip);
      _ ← upd_rt rt (pc_delete id);
      fail_routes id rerr dsts
  end.
(* [ns2/aodv/aodv.cc:349-385] AODV::handle_link_failure *)
Definition handle_link_failure (id : Z) : M aodv unit :=
  rerr ← on_pool alloc;
  _ ← no_destinations rerr;
  s ← get;
  _ ← fail_routes id rerr (rt_dst <$> rtable s);
  n ← dest_count rerr;
  if bool_decide (n > 0) then sendError rerr false else on_pool (free rerr).

(** The list without the first neighbour with the address. *)
Fixpoint nb_remove (id : Z) (l : list AODV_Neighbor) : list AODV_Neighbor :=
  match l with
  | [] => []
  | nb :: l => if decide (nb_addr nb = id) then l else nb :: nb_remove id l
  end.
(* [ns2/aodv/aodv.cc:1355-1373] AODV::nb_delete *)
Definition nb_delete (id : Z) : M aodv unit :=
  n ← gets seqno;
  _ ← modify (set_seqno (u32 (n + 2)));
  _ ← assert_ (bool_decide (u32 (n + 2) `mod` 2 = 0));
  _ ← modify (λ s, set_nbhead (nb_remove id (nbhead s)) s);
  handle_link_failure id.

(* [ns2/aodv/aodv.cc:387-402] AODV::local_rt_repair *)
Definition local_rt_repair (rt : Z) (p : addr) : M aodv unit :=
  _ ← on_rqueue (enque now p);
  _ ← upd_rt rt (with_flags RTF_IN_REPAIR);
  _ ← sendRequest rt;
  q ← on_pool (copy p);
  e ← the_rt rt;
  modify (record_ (RepairTimer q (rt_req_timeout e))).

(** The loggers it calls do nothing, since [verbose] is zero. *)
(* [ns2/aodv/aodv.cc:296-347] AODV::rt_ll_failed *)
Definition rt_ll_failed (p : addr) : M aodv unit :=
  v ← the_packet p;
  let broken_nbr := next_hop_ (cmn v) in
  if bool_decide (DATA_PACKET (ptype_ (cmn v)) = false ∨ u32 (daddr (ip v)) = IP_BROADCAST) then
    drop p DROP_RTR_MAC_CALLBACK
  else
    e ← rt_find (daddr (ip v));
    match e with
    | None => drop p DROP_RTR_MAC_CALLBACK
    | Some e =>
        if bool_decide (num_forwards_ (cmn v) > rt_hops e) then local_rt_repair (daddr (ip v)) p
        else
          _ ← drop p DROP_RTR_MAC_CALLBACK;
          _ ← drop_ifq broken_nbr;
          nb_delete broken_nbr
    end.

(** ** Routes for packets *)

(** A packet of another node without a route: an error message is broadcast. *)
(* [ns2/aodv/aodv.cc:481-501] AODV::rt_resolve *)
Definition no_route (rt : Z) (p : addr) : M aodv unit :=
  rerr ← on_pool alloc;
  e ← the_rt rt;
  _ ← assert_ (bool_decide (rt_flags e = RTF_DOWN));
  _ ← no_destinations rerr;
  _ ← add_destination rerr rt;
  _ ← sendError rerr false;
  drop p DROP_RTR_NO_ROUTE.
(* [ns2/aodv/aodv.cc:438-503] AODV::rt_resolve *)
Definition rt_resolve (p : addr) : M aodv unit :=
  _ ← upd p (with_cmn cmn_set_failure);
  v ← the_packet p;
  let rt := daddr (ip v) in
  _ ← ensure_rt rt;
  e ← the_rt rt;
  me ← gets index;
  if decide (rt_flags e = RTF_UP) then
    _ ← assert_ (bool_decide (rt_hops e ≠ INFINITY2));
    forward (Some rt) p NO_DELAY
  else if decide (saddr (ip v) = me) then
    _ ← on_rqueue (enque now p);
    sendRequest rt
  else if decide (rt_flags e = RTF_IN_REPAIR) then on_rqueue (enque now p)
  else no_route rt p.

(** One entry of the table; the delay grows with each packet that is sent. *)
(* [ns2/aodv/aodv.cc:513-550] AODV::rt_purge *)
Definition purge_route (rt : Z) (d : double) : M aodv double :=
  e ← the_rt rt;
  if bool_decide (rt_flags e = RTF_UP) && dlt (rt_expire e) now then
    _ ← assert_ (bool_decide (rt_hops e ≠ INFINITY2));
    _ ← drain_drop rt;
    _ ← upd_rt rt (λ e, with_seqno (u32 (rt_seqno e + 1)) e);
    e ← the_rt rt;
    _ ← assert_ (bool_decide (rt_seqno e `mod` 2 ≠ 0));
    _ ← rt_down rt;
    mret d
  else if decide (rt_flags e = RTF_UP) then
    _ ← assert_ (bool_decide (rt_hops e ≠ INFINITY2));
    drain rt (λ d p, _ ← forward (Some rt) p d; mret (dadd d ARP_DELAY)) d
  else
    found ← on_rqueue (find rt);
    _ ← (if (found : bool) then sendRequest rt else skip);
    mret d.
(* [ns2/aodv/aodv.cc:512-550] AODV::rt_purge *)
Fixpoint purge_routes (dsts : list Z) (d : double) : M aodv unit :=
  match dsts with
  | [] => skip
  | rt :: dsts => d ← purge_route rt d; purge_routes dsts d
  end.
(* [ns2/aodv/aodv.cc:505-552] AODV::rt_purge *)
Definition rt_purge : M aodv unit :=
  s ← get; purge_routes (rt_dst <$> rtable s) d_zero.

(** ** Receiving *)

(** The request tells a way back to its source. *)
(* [ns2/aodv/aodv.cc:697-737] AODV::recvRequest *)
Definition reverse_route (p : addr) (rq : hdr_aodv_request) : M aodv unit :=
  let rt0 := rq_src rq in
  let life := dadd now REV_ROUTE_LIFE in
  _ ← ensure_rt rt0;
  _ ← upd_rt rt0 (λ e, with_expire (dmax (rt_expire e) life) e);
  e ← the_rt rt0;
  if bool_decide (rq_src_seqno rq > rt_seqno e ∨ rq_src_seqno rq = rt_seqno e ∧ rq_hop_count rq < rt_hops e) then
    v ← the_packet p;
    _ ← rt_update rt0 (rq_src_seqno rq) (rq_hop_count rq) (saddr (ip v)) (dmax (rt_expire e) life);
    _ ← (if dlt d_zero (rt_req_timeout e) then
           upd_rt rt0 (λ e, with_expire (dadd now ACTIVE_ROUTE_TIMEOUT) (with_request d_zero 0 (rq_hop_count rq) e))
         else skip);
    e ← the_rt rt0;
    _ ← assert_ (bool_decide (rt_flags e = RTF_UP));
    _ ← drain rt0 (λ d b,
          e ← the_rt rt0;
          if decide (rt_flags e = RTF_UP) then
            _ ← assert_ (bool_decide (rt_hops e ≠ INFINITY2));
            _ ← forward (Some rt0) b NO_DELAY;
            mret d
          else mret d) d_zero;
    skip
  else skip.

(** The conversion of the remaining lifetime to an unsigned integer. *)
Definition remaining (e : aodv_rt_entry) : option Z :=
  z ← dtrunc (dsub (rt_expire e) now); if decide (0 ≤ z < 2 ^ 32) then Some z else None.
(* [ns2/aodv/aodv.cc:746-820] AODV::recvRequest *)
Definition answer_request (p : addr) (rq : hdr_aodv_request) : M aodv unit :=
  me ← gets index;
  rt ← rt_find (rq_dst rq);
  let fresh := match rt with
               | Some e => bool_decide (rt_hops e ≠ INFINITY2 ∧ rt_seqno e >= rq_dst_seqno rq)
               | None => false
               end in
  if decide (rq_dst rq = me) then
    n ← gets seqno;
    let n := u32 (Z.max n (rq_dst_seqno rq) + 1) in
    let n := if decide (n `mod` 2 = 0) then n else u32 (n + 1) in
    _ ← modify (set_seqno n);
    _ ← sendReply (rq_src rq) 1 me n MY_ROUTE_TIMEOUT (rq_timestamp rq);
    on_pool (free p)
  else if (fresh : bool) then
    e ← the_rt (rq_dst rq);
    life ← within (remaining e);
    _ ← sendReply (rq_src rq) (rt_hops e + 1) (rq_dst rq) (rt_seqno e) life (rq_timestamp rq);
    e0 ← the_rt (rq_src rq);
    _ ← upd_rt (rq_dst rq) (pc_insert (rt_nexthop e0));
    e ← the_rt (rq_dst rq);
    _ ← upd_rt (rq_src rq) (pc_insert (rt_nexthop e));
    on_pool (free p)
  else
    let n := match rt with Some e => Z.max (rt_seqno e) (rq_dst_seqno rq) | None => rq_dst_seqno rq end in
    _ ← upd p (λ v, with_hdrs (RequestHdr (Request (u8 (rq_hop_count rq + 1)) (rq_bcast_id rq) (rq_dst rq) n
                                  (rq_src rq) (rq_src_seqno rq) (rq_timestamp rq)))
          (with_ip (λ i, Ip me (sport i) (s32 IP_BROADCAST) (dport i) (ttl_ i)) v));
    forward None p DELAY.
(* [ns2/aodv/aodv.cc:655-822] AODV::recvRequest *)
Definition recvRequest (p : addr) (rq : hdr_aodv_request) : M aodv unit :=
  me ← gets index;
  if decide (rq_src rq = me) then on_pool (free p)
  else
    known ← id_lookup (rq_src rq) (rq_bcast_id rq);
    if (known : bool) then on_pool (free p)
    else
      _ ← id_insert (rq_src rq) (rq_bcast_id rq);
      _ ← reverse_route p rq;
      answer_request p rq.

(** The reply tells the way to its destination; the result is whether it is new. *)
(* [ns2/aodv/aodv.cc:848-903] AODV::recvReply *)
Definition forward_route (p : addr) (rp : hdr_aodv_reply) : M aodv bool :=
  let rt := rp_dst rp in
  _ ← ensure_rt rt;
  e ← the_rt rt;
  v ← the_packet p;
  me ← gets index;
  if bool_decide (rt_seqno e < rp_dst_seqno rp ∨ rt_seqno e = rp_dst_seqno rp ∧ rt_hops e > rp_hop_count rp) then
    _ ← rt_update rt (rp_dst_seqno rp) (rp_hop_count rp) (rp_src rp) (dadd now (rp_lifetime rp));
    _ ← upd_rt rt (with_request d_zero 0 (rp_hop_count rp));
    _ ← (if decide (daddr (ip v) = me) then
           e ← the_rt rt;
           _ ← within (at_ (rt_disc_latency e) (u8 (hist_indx e)));
           let l := ddiv (dsub now (rp_timestamp rp)) (d_of_Z (rp_hop_count rp)) in
           upd_rt rt (λ e, with_latency (<[Z.to_nat (u8 (hist_indx e)) := l]> (rt_disc_latency e))
                             (s8 (Z.rem (hist_indx e + 1) MAX_HISTORY)) e)
         else skip);
    _ ← drain rt (λ d b,
          e ← the_rt rt;
          if decide (rt_hops e ≠ INFINITY2) then
            _ ← assert_ (bool_decide (rt_flags e = RTF_UP));
            _ ← forward (Some rt) b d;
            mret (dadd d ARP_DELAY)
          else mret d) d_zero;
    mret true
  else mret false.
(* [ns2/aodv/aodv.cc:825-937] AODV::recvReply *)
Definition recvReply (p : addr) (rp : hdr_aodv_reply) : M aodv unit :=
  new ← forward_route p rp;
  v ← the_packet p;
  me ← gets index;
  if bool_decide (daddr (ip v) = me) || negb new then on_pool (free p)
  else
    rt0 ← rt_find (daddr (ip v));
    match rt0 with
    | Some e0 =>
        if decide (rt_hops e0 ≠ INFINITY2) then
          _ ← assert_ (bool_decide (rt_flags e0 = RTF_UP));
          _ ← upd p (with_hdrs (ReplyHdr (Reply (rp_type rp) (u8 (rp_hop_count rp + 1)) (rp_dst rp)
                       (rp_dst_seqno rp) me (rp_lifetime rp) (rp_timestamp rp))));
          _ ← forward (Some (daddr (ip v))) p NO_DELAY;
          e0 ← the_rt (daddr (ip v));
          upd_rt (rp_dst rp) (pc_insert (rt_nexthop e0))
        else drop p DROP_RTR_NO_ROUTE
    | None => drop p DROP_RTR_NO_ROUTE
    end.

(** One unreachable destination of an error message from the node [from]. *)
(* [ns2/aodv/aodv.cc:952-981] AODV::recvError *)
Definition lose_route (from : Z) (rerr : addr) (rt n : Z) : M aodv unit :=
  e ← rt_find rt;
  match e with
  | Some e =>
      if bool_decide (rt_hops e ≠ INFINITY2 ∧ rt_nexthop e = from ∧ rt_seqno e ≤ n) then
        _ ← assert_ (bool_decide (rt_flags e = RTF_UP));
        _ ← assert_ (bool_decide (rt_seqno e `mod` 2 = 0));
        _ ← upd_rt rt (with_seqno n);
        _ ← rt_down rt;
        _ ← drop_ifq from;
        e ← the_rt rt;
        if pc_empty e then skip
        else
          _ ← add_destination rerr rt;
          upd_rt rt pc_delete_all
      else skip
  | None => skip
  end.
(* [ns2/aodv/aodv.cc:950-982] AODV::recvError *)
Fixpoint lose_routes (from : Z) (rerr : addr) (dsts : list (Z * Z)) : M aodv unit :=
  match dsts with
  | [] => skip
  | (rt, n) :: dsts => _ ← lose_route from rerr rt n; lose_routes from rerr dsts
  end.
(* [ns2/aodv/aodv.cc:940-995] AODV::recvError *)
Definition recvError (p : addr) (re : hdr_aodv_error) : M aodv unit :=
  v ← the_packet p;
  rerr ← on_pool alloc;
  _ ← no_destinations rerr;
  _ ← lose_routes (saddr (ip v)) rerr (unreachable re);
  n ← dest_count rerr;
  _ ← (if bool_decide (n > 0) then sendError rerr true else on_pool (free rerr));
  on_pool (free p).

(* [ns2/aodv/aodv.cc:1340-1348] AODV::nb_lookup *)
Definition nb_lookup (id : Z) : M aodv (option AODV_Neighbor) :=
  gets (λ s, snd <$> list_find (λ nb, nb_addr nb = id) (nbhead s)).
(* [ns2/aodv/aodv.cc:1327-1337] AODV::nb_insert *)
Definition nb_insert (id : Z) : M aodv unit :=
  n ← gets seqno;
  _ ← modify (λ s, set_seqno (u32 (n + 2)) (set_nbhead (Neighbor id (dadd now HELLO_LIFE) :: nbhead s) s));
  assert_ (bool_decide (u32 (n + 2) `mod` 2 = 0)).
(* [ns2/aodv/aodv.cc:1319-1322] AODV::recvHello *)
Fixpoint nb_renew (id : Z) (l : list AODV_Neighbor) : list AODV_Neighbor :=
  match l with
  | [] => []
  | nb :: l => if decide (nb_addr nb = id) then Neighbor id (dadd now HELLO_LIFE) :: l else nb :: nb_renew id l
  end.
(* [ns2/aodv/aodv.cc:1309-1325] AODV::recvHello *)
Definition recvHello (p : addr) (rp : hdr_aodv_reply) : M aodv unit :=
  nb ← nb_lookup (rp_dst rp);
  _ ← match nb with
      | None => nb_insert (rp_dst rp)
      | Some _ => modify (λ s, set_nbhead (nb_renew (rp_dst rp) (nbhead s)) s)
      end;
  on_pool (free p).
(** The addresses of the neighbours that expired are collected before any is deleted. *)
(* [ns2/aodv/aodv.cc:1386-1391] AODV::nb_purge *)
Fixpoint nb_purge_loop (l : list AODV_Neighbor) : M aodv unit :=
  match l with
  | [] => skip
  | nb :: l => _ ← (if dle (nb_expire nb) now then nb_delete (nb_addr nb) else skip); nb_purge_loop l
  end.
(* [ns2/aodv/aodv.cc:1380-1393] AODV::nb_purge *)
Definition nb_purge : M aodv unit := s ← get; nb_purge_loop (nbhead s).

(** Other types end the process. *)
(* [ns2/aodv/aodv.cc:619-652] AODV::recvAODV *)
Definition recvAODV (p : addr) : M aodv unit :=
  v ← the_packet p;
  _ ← assert_ (bool_decide (sport (ip v) = RT_PORT));
  _ ← assert_ (bool_decide (dport (ip v) = RT_PORT));
  match hdrs v with
  | RequestHdr rq => recvRequest p rq
  | ReplyHdr rp =>
      if decide (rp_type rp = AODVTYPE_RREP) then recvReply p rp
      else if decide (rp_type rp = AODVTYPE_HELLO) then recvHello p rp
      else abort
  | ErrorHdr re => if decide (re_type re = AODVTYPE_RERR) then recvError p re else abort
  | NoAodv => abort
  end.

Definition add_ttl (n : Z) (i : hdr_ip) : hdr_ip := Ip (saddr i) (sport i) (daddr i) (dport i) (s32 (ttl_ i + n)).
Definition set_ttl (n : Z) (i : hdr_ip) : hdr_ip := Ip (saddr i) (sport i) (daddr i) (dport i) n.

(** [target_] is set: the assertion [initialized()] holds. *)
(* [ns2/aodv/aodv.cc:558-616] AODV::recv *)
Definition recv (p : addr) : M aodv unit :=
  v ← the_packet p;
  me ← gets index;
  let broadcast := bool_decide (u32 (daddr (ip v)) = IP_BROADCAST) in
  let pass := if broadcast then forward None p NO_DELAY else rt_resolve p in
  if decide (ptype_ (cmn v) = PT_AODV) then
    _ ← upd p (with_ip (add_ttl (-1)));
    recvAODV p
  else if decide (saddr (ip v) = me ∧ num_forwards_ (cmn v) = 0) then
    _ ← (if decide (ptype_ (cmn v) ≠ PT_TCP ∧ ptype_ (cmn v) ≠ PT_ACK)
         then upd p (with_cmn (λ c, cmn_size (s32 (size_ c + IP_HDR_LEN)) c)) else skip);
    _ ← (if broadcast then skip else upd p (with_ip (set_ttl NETWORK_DIAMETER)));
    pass
  else if decide (saddr (ip v) = me) then drop p DROP_RTR_ROUTE_LOOP
  else
    _ ← upd p (with_ip (add_ttl (-1)));
    v ← the_packet p;
    if decide (ttl_ (ip v) = 0) then drop p DROP_RTR_TTL
    else pass.

(** ** Timers *)

Definition set_timer (t : timer) (d : delay) : M aodv unit := modify (record_ (TimerSet t d)).
(* [ns2/aodv/aodv.cc:160-164] BroadcastTimer::handle *)
Definition BroadcastTimer_handle : M aodv unit := _ ← id_purge; set_timer BroadcastTimer (Fixed BCAST_ID_SAVE).
(* [ns2/aodv/aodv.cc:166-173] HelloTimer::handle *)
Definition HelloTimer_handle : M aodv unit :=
  _ ← sendHello; set_timer HelloTimer (Between MinHelloInterval MaxHelloInterval).
(* [ns2/aodv/aodv.cc:175-179] NeighborTimer::handle *)
Definition NeighborTimer_handle : M aodv unit := _ ← nb_purge; set_timer NeighborTimer (Fixed HELLO_INTERVAL).
(* [ns2/aodv/aodv.cc:181-186] RouteCacheTimer::handle *)
Definition RouteCacheTimer_handle : M aodv unit := _ ← rt_purge; set_timer RouteCacheTimer (Fixed FREQUENCY).
(** [p] is the copy of the packet for which the repair was started. *)
(* [ns2/aodv/aodv.cc:188-214] LocalRepairTimer::handle *)
Definition LocalRepairTimer_handle (p : addr) : M aodv unit :=
  v ← the_packet p;
  e ← rt_find (daddr (ip v));
  _ ← match e with
      | Some e => if decide (rt_flags e ≠ RTF_UP) then rt_down (daddr (ip v)) else skip
      | None => skip
      end;
  on_pool (free p).

(** With link layer detection, only these two timers are started. *)
(* [ns2/aodv/aodv.cc:87-97] AODV::command *)
Definition start : M aodv unit := _ ← BroadcastTimer_handle; RouteCacheTimer_handle.
End agent.

(* [ns2/aodv/aodv.cc:140-154] AODV::AODV *)
Definition AODV_new (id : Z) (m : pool) (ifq : DropTail hdr_all_aodv) : aodv :=
  Aodv id 2 1 [] [] [] (aodv_rqueue_new m) ifq [].
