(* ===== verification/AodvMemory.v ===== *)
(** * AODV: the packets of the agent

    The packets that the handlers of [Aodv.v] work on: those they own, with their contents,
    those that wait for a route, and those in the interface queue, all in one pool.  The
    operations on packets are shown to act on these, and to leave the rest of the agent's
    state as it is. *)
From S2P Require Import Prelude Double Daemon SimChain SimPacket PacketQueue DropTail.
From S2P Require Import PriQueue.
From S2P Require Import AodvQueue AodvTable Aodv.
Open Scope Z_scope.

Implicit Types (s : aodv) (es : list waiting) (ys : list addr) (own : list (addr * packet)).

Lemma zoom_done {S T A} (g : S → T) (p : T → S → S) (m : M T A) (s : S) a t :
  m (g s) = Done a t → zoom g p m s = Done a (p t s).
Proof. unfold zoom. by intros ->. Qed.

(** The members that no operation on packets changes. *)
Definition rest s := (index s, seqno s, bid s, nbhead s, bihead s, rtable s, a_log s).

Lemma rest_rtable s s' : rest s' = rest s → rtable s' = rtable s.
Proof. by intros [=]. Qed.
Lemma rest_set_table s s' t : rest s' = rest s → rest (set_rtable t s') = rest (set_rtable t s).
Proof. unfold rest. simpl. by intros [= -> -> -> -> -> _ ->]. Qed.

Definition contents s : gmap N packet := rq_packets (rqueue s).

(** The agent owns the packets [own], [es] wait and [ys] are in the interface queue. *)
Definition memq es ys own s : Prop :=
  rep (rqueue s) es (own.*1 ++ ys) ∧ (∀ e, e ∈ es → w_type e ≠ PT_AODV) ∧
  (∀ x, x ∈ own → contents s !! x.1 = Some x.2) ∧ holds (q_ (ifq_view s)) ys.

Lemma holds_kept (q : PacketQueue hdr_all_aodv) m m' ys :
  holds (set_pq_packets m q) ys → kept ys m m' → holds (set_pq_packets m' q) ys.
Proof.
  intros (Hc & Ht & Hl & Hb) Hk. split_and!; try done.
  - simpl in *. eapply chain_ext; [|exact Hc]. intros x Hx. unfold pnx. by rewrite (Hk x Hx).
  - simpl in *. rewrite Hb. f_equal. clear -Hk. induction ys as [|y ys IH]; [done|]. simpl.
    rewrite (Hk y) by by left. rewrite IH; [done|]. intros x Hx. apply Hk. by right.
Qed.

(** A change of the waiting queue and of the packets owned. *)
Lemma memq_set es ys own es' own' s q' :
  memq es ys own s → rep q' es' (own'.*1 ++ ys) → (∀ e, e ∈ es' → w_type e ≠ PT_AODV) →
  (∀ x, x ∈ own' → rq_packets q' !! x.1 = Some x.2) → kept ys (contents s) (rq_packets q') →
  memq es' ys own' (set_rqueue q' s) ∧ rest (set_rqueue q' s) = rest s.
Proof.
  intros (_ & _ & _ & Hy) Hq' Hd Ho Hk. split; [|done]. split_and!; try done.
  by eapply (holds_kept (q_ (ifqueue s)) (contents s)).
Qed.

Lemma kept_own es ys own s q' x :
  memq es ys own s → kept (own.*1 ++ ys) (contents s) (rq_packets q') → x ∈ own → rq_packets q' !! x.1 = Some x.2.
Proof.
  intros (_ & _ & Ho & _) Hk Hx. rewrite Hk; [by apply Ho|]. apply elem_of_app. left.
  by apply list_elem_of_fmap_2.
Qed.

Lemma memq_head es ys p v own s : memq es ys ((p, v) :: own) s →
  p ≠ NULL ∧ contents s !! p = Some v ∧ in_use v ∧ p ∉ own.*1 ∧ p ∉ ys.
Proof.
  intros (Hq & _ & Ho & _). pose proof (Ho (p, v) ltac:(by left)) as Hv. simpl in Hv.
  pose proof Hq as (_ & _ & _ & _ & _ & Hnd & _ & Hu). split.
  { intros ->. eapply rep_null; [exact Hq|]. by left. }
  destruct (Hu p ltac:(by left)) as (w & Hw & Hin). unfold contents in *. rewrite Hv in Hw. injection Hw as <-.
  apply NoDup_app in Hnd as (_ & _ & Hnd). simpl in Hnd. apply NoDup_cons in Hnd as [Hnd _].
  rewrite not_elem_of_app in Hnd. tauto.
Qed.

Lemma own_packet_done es ys p v own s : memq es ys ((p, v) :: own) s → the_packet p s = Done v s.
Proof.
  intros Hm. destruct (memq_head _ _ _ _ _ _ Hm) as (Hp & Hv & _). unfold the_packet, on_pool, on_rqueue.
  rewrite (zoom_done _ _ _ _ _ _ (the_rq_packet_done (rqueue s) p v Hp Hv)). by destruct s.
Qed.

Lemma memq_upd es ys p v own s f :
  memq es ys ((p, v) :: own) s → in_use (f v) →
  ∃ s', upd p f s = Done tt s' ∧ memq es ys ((p, f v) :: own) s' ∧ rest s' = rest s.
Proof.
  intros Hm Hf. destruct (memq_head _ _ _ _ _ _ Hm) as (Hp & Hv & _ & Hpo & Hpy). pose proof Hm as (Hq & Hd & Ho & _).
  destruct (rep_upd _ _ _ p f v Hq) as [E Hq']; [by left|done|done|].
  eexists. split; [by apply (zoom_done rqueue)|]. eapply memq_set; [exact Hm|exact Hq'|exact Hd|..].
  - intros x [->|Hx]%elem_of_cons; unfold rq_packets; simpl; [by rewrite lookup_insert_eq|].
    rewrite lookup_insert_ne; [apply Ho; by right|]. intros ->. apply Hpo. by apply list_elem_of_fmap_2.
  - intros x Hx. unfold rq_packets. simpl. rewrite lookup_insert_ne; [done|]. by intros ->.
Qed.

(** What is left of the packets owned after the first is freed or dropped. *)
Lemma memq_gone es ys p v own s q' :
  memq es ys ((p, v) :: own) s → rep q' es (own.*1 ++ ys) →
  (∀ x, x ≠ p → rq_packets q' !! x = contents s !! x) →
  memq es ys own (set_rqueue q' s) ∧ rest (set_rqueue q' s) = rest s.
Proof.
  intros Hm Hq' Hk. destruct (memq_head _ _ _ _ _ _ Hm) as (Hp & Hv & _ & Hpo & Hpy). pose proof Hm as (_ & Hd & Ho & _).
  eapply memq_set; [exact Hm|exact Hq'|exact Hd|..].
  - intros x Hx. rewrite Hk; [apply Ho; by right|]. intros <-. apply Hpo. by apply list_elem_of_fmap_2.
  - intros x Hx. apply Hk. by intros ->.
Qed.
Lemma memq_free es ys p v own s :
  memq es ys ((p, v) :: own) s →
  ∃ s', on_pool (free p) s = Done tt s' ∧ memq es ys own s' ∧ rest s' = rest s.
Proof.
  intros Hm. pose proof Hm as (Hq & _). destruct (rq_free_spec _ _ _ _ Hq) as (q' & E & Hq' & _ & Hk).
  eexists. split; [by apply (zoom_done rqueue)|]. by eapply memq_gone.
Qed.
Lemma memq_drop es ys p v own s r :
  memq es ys ((p, v) :: own) s →
  ∃ s', drop p r s = Done tt s' ∧ memq es ys own s' ∧ rest s' = rest s.
Proof.
  intros Hm. pose proof Hm as (Hq & _). destruct (rq_drop_spec _ _ _ _ r Hq) as (q' & E & Hq' & _ & Hk).
  eexists. split; [by apply (zoom_done rqueue)|]. by eapply memq_gone.
Qed.

(** A packet that leaves the agent. *)
Lemma memq_leave es ys x own s : memq es ys (x :: own) s → memq es ys own s.
Proof.
  intros (Hq & Hd & Ho & Hy). split_and!; [|done| |done].
  - eapply rep_own; [|exact Hq]. simpl. by apply submseteq_cons.
  - intros y Hin. apply Ho. by right.
Qed.

Lemma memq_alloc `{Allocator} es ys own s :
  (∀ X, is_Some (malloc X)) → memq es ys own s →
  ∃ p v s', on_pool alloc s = Done p s' ∧ fresh_packet v ∧ memq es ys ((p, v) :: own) s' ∧ rest s' = rest s.
Proof.
  intros Ha Hm. pose proof Hm as (Hq & Hd & _).
  destruct (rq_alloc_spec _ _ _ Ha Hq) as (p & v & q' & E & Hq' & Hv & Hfresh & _ & Hk).
  exists p, v. eexists. split; [by apply (zoom_done rqueue)|]. split; [done|].
  eapply memq_set; [exact Hm|exact Hq'|exact Hd|..].
  - intros x [->|Hx]%elem_of_cons; [done|]. by eapply kept_own.
  - intros x Hx. apply Hk. apply elem_of_app. by right.
Qed.

(** ** The waiting packets *)

Lemma memq_find es ys own s d : memq es ys own s → on_rqueue (find d) s = Done (existsb (for_dst d) es) s.
Proof.
  intros (Hq & _). unfold on_rqueue. rewrite (zoom_done _ _ _ _ _ _ (rq_find_spec _ _ _ d Hq)). by destruct s.
Qed.

Lemma memq_enque es ys p v own s now :
  memq es ys ((p, v) :: own) s → ptype_ (cmn v) ≠ PT_AODV →
  ∃ es' s', on_rqueue (enque now p) s = Done tt s' ∧ memq es' ys own s' ∧ rest s' = rest s.
Proof.
  intros Hm Hty. destruct (memq_head _ _ _ _ _ _ Hm) as (_ & Hv & _). pose proof Hm as (Hq & Hd & Ho & _).
  destruct (rq_enque_spec now _ _ _ _ _ Hq Hv) as (q' & E & Hq' & _ & Hk).
  eexists _, _. split; [by apply (zoom_done rqueue)|]. eapply memq_set; [exact Hm|exact Hq'|..].
  - intros e [He|He%list_elem_of_singleton]%elem_of_app; [|by rewrite He].
    apply Hd. assert ((room now (fresh_at now es)).1 `suffix_of` fresh_at now es) as [l El].
    { apply room_length. destruct Hq as (_ & Hn & _). etrans; [|exact Hn].
      unfold fresh_at. apply inj_le, length_filter. }
    assert (e ∈ fresh_at now es) as [_ Hin]%list_elem_of_filter by (rewrite El; apply elem_of_app; by right). done.
  - intros x Hx. rewrite Hk; [apply Ho; by right|]. apply elem_of_app. left. by apply list_elem_of_fmap_2.
  - intros x Hx. apply Hk. apply elem_of_app. by right.
Qed.

Lemma take_for_elem d es : 
  match take_for d es with
  | (Some e, es') => e ∈ es ∧ w_dst e = d ∧ length es = S (length es') ∧ (∀ x, x ∈ es' → x ∈ es)
  | (None, es') => es' = es
  end.
Proof.
  induction es as [|x es IH]; simpl; [done|]. destruct (for_dst d x) eqn:Ex.
  - apply bool_decide_eq_true in Ex. split_and!; [by left|done|done|by right].
  - destruct (take_for d es) as [[e|] es']; [|by subst]. destruct IH as (He & Hd & Hl & Hin).
    split_and!; [by right|done|simpl; lia|]. intros y [->|Hy]%elem_of_cons; [by left|right; by apply Hin].
Qed.

Lemma memq_deque es ys own s now d :
  memq es ys own s →
  (∃ es' s', on_rqueue (deque_for now d) s = Done NULL s' ∧ memq es' ys own s' ∧ rest s' = rest s ∧
     (length es' ≤ length es)%nat) ∨
  ∃ p v es' s', on_rqueue (deque_for now d) s = Done p s' ∧ p ≠ NULL ∧ memq es' ys ((p, v) :: own) s' ∧
    rest s' = rest s ∧ (length es' < length es)%nat ∧ daddr (ip v) = d ∧ ptype_ (cmn v) ≠ PT_AODV.
Proof.
  intros Hm. pose proof Hm as (Hq & Hd & Ho & _). pose proof (rq_deque_for_spec now d _ _ _ Hq) as Hspec.
  pose proof (take_for_elem d (fresh_at now es)) as Htake.
  assert (length (fresh_at now es) ≤ length es)%nat as Hlen by apply length_filter.
  assert (∀ e, e ∈ fresh_at now es → e ∈ es) as Hsub by (by intros e [_ He]%list_elem_of_filter).
  destruct (take_for d (fresh_at now es)) as [[e|] es']; destruct Hspec as (q' & E & Hq' & R).
  - destruct Htake as (He & Hdst & Hl & Hin). right. pose proof R as (_ & _ & _ & Hs & _ & Hk).
    pose proof (Hsub _ He) as Hes. destruct (rep_lookup _ _ _ _ Hq Hes) as [_ (v & Hv & _ & Hda & _ & Hty)].
    destruct (same_packets_lookup _ _ _ _ Hs Hv) as [n Hn].
    exists (w_packet e), (with_pk_next n v), es'. eexists. split; [by apply (zoom_done rqueue)|].
    destruct (memq_set es ys own es' ((w_packet e, with_pk_next n v) :: own) s q' Hm) as [Hm' Er].
    { exact Hq'. }
    { intros x Hx. by apply Hd, Hsub, Hin. }
    { intros x [->|Hx]%elem_of_cons; [done|]. by eapply kept_own. }
    { intros x Hx. apply Hk. apply elem_of_app. by right. }
    split; [by destruct (memq_head _ _ _ _ _ _ Hm')|]. split_and!; try done; [lia|simpl; congruence|].
    simpl. rewrite Hty. by apply Hd.
  - subst es'. left. pose proof R as (_ & _ & _ & _ & _ & Hk).
    eexists (fresh_at now es), _. split; [by apply (zoom_done rqueue)|].
    destruct (memq_set es ys own (fresh_at now es) own s q' Hm) as [Hm' Er]; [exact Hq'| | | |].
    { intros x Hx. by apply Hd, Hsub. }
    { intros x Hx. by eapply kept_own. }
    { intros x Hx. apply Hk. apply elem_of_app. by right. }
    done.
Qed.

(** ** The interface queue *)

(** Links of packets in use may change. *)
Lemma pool_ok_relink (pl : pool (P := hdr_all_aodv)) fs m' ys :
  pool_ok pl fs → same_packets (packets pl) m' → (∀ a, a ∉ ys → m' !! a = packets pl !! a) →
  (∀ a, a ∈ ys → ∃ v, packets pl !! a = Some v ∧ fflag_ v = true) → pool_ok (set_packets m' pl) fs.
Proof.
  intros (Hc & Hn & Hf & Hd) Hs Hout Hys.
  assert (∀ a, a ∈ fs → a ∉ ys) as Hfs.
  { intros a Ha Hy. destruct (Hys a Hy) as (v & Hv & Hfv). apply (Hf a v Hv) in Ha. congruence. }
  assert (∀ a w, m' !! a = Some w → ∃ v, packets pl !! a = Some v ∧ fflag_ w = fflag_ v ∧ data_ w = data_ v ∧
    ref_count_ w = ref_count_ v) as Hback.
  { intros a w Hw. symmetry in Hs. destruct (same_packets_lookup _ _ _ _ Hs Hw) as [n Hn']. by eexists. }
  split_and!; simpl.
  - eapply chain_ext; [|exact Hc]. intros x Hx. unfold pnx. by rewrite Hout by by apply Hfs.
  - specialize (Hs NULL). rewrite Hn in Hs. by destruct (m' !! NULL).
  - intros a w Hw. destruct (Hback a w Hw) as (v & Hv & -> & _). by apply Hf.
  - intros a w Hw Ha. destruct (Hback a w Hw) as (v & Hv & _ & -> & ->). by apply (Hd a v Hv).
Qed.

Lemma filter_ne_length (p : addr) ys : p ∈ ys → (length (filter (.≠ p) ys) < length ys)%nat.
Proof.
  induction ys as [|y ys IH]; [by intros ?%elem_of_nil|]. intros Hp. rewrite filter_cons. case_decide as Hy; simpl.
  - apply elem_of_cons in Hp as [->|Hp]; [done|]. specialize (IH Hp). lia.
  - pose proof (length_filter (.≠ p) ys). lia.
Qed.

Lemma memq_filter es ys own s id :
  memq es ys own s →
  (∃ s', on_ifq (filter_next_hop id) s = Done NULL s' ∧ memq es ys own s' ∧ rest s' = rest s) ∨
  ∃ p v ys' s', on_ifq (filter_next_hop id) s = Done p s' ∧ p ≠ NULL ∧ memq es ys' ((p, v) :: own) s' ∧
    rest s' = rest s ∧ (length ys' < length ys)%nat.
Proof.
  intros (Hq & Hd & Ho & Hy). pose proof (filter_next_hop_spec id (ifq_view s) ys Hy) as Hspec. cbv zeta in Hspec.
  destruct (list_find _ ys) as [[i p]|] eqn:Ef.
  2:{ left. eexists. split; [by apply (zoom_done ifq_view)|]. split; [|done].
      assert (set_rqueue (set_rq_pool (set_packets (pq_packets (q_ (ifq_view s))) (rq_pool (rqueue s))) (rqueue s)) s = s) as Es.
      { destruct s as [? ? ? ? ? ? [[] ? ? ? ? ? ?] ? ?]. done. }
      unfold ifq_back. rewrite Es. by split_and!. }
  right. destruct Hspec as (d' & E & Hq' & (_ & _ & _ & _ & _ & _ & Hs) & _ & _ & Hout).
  apply list_find_Some in Ef as (Ei & _ & _). apply list_elem_of_lookup_2 in Ei.
  destruct (holds_lookup _ _ _ Hy Ei) as [Hp [v0 Hv0]].
  destruct (same_packets_lookup _ _ _ _ Hs Hv0) as [n Hv].
  pose proof Hq as (_ & _ & _ & _ & [fs Hok] & Hnd & He & Hu).
  change (pq_packets (q_ (ifq_view s))) with (contents s) in *.
  assert (Hout' : ∀ a, a ∉ ys → pq_packets (q_ d') !! a = contents s !! a) by exact Hout.
  exists p, (with_pk_next n v0), (filter (.≠ p) ys). eexists. split; [by apply (zoom_done ifq_view)|].
  split; [done|]. split; [|split; [done|by apply filter_ne_length]].
  apply NoDup_app in Hnd as (Hnd1 & Hnd2 & Hnd3). apply NoDup_app in Hnd3 as (Hnd3 & Hnd4 & Hnd5).
  split_and!.
  - eapply (rep_frame (rqueue s) _ es (own.*1 ++ ys)); [exact Hq|done..| | | |].
    + exists fs. eapply pool_ok_relink; [exact Hok|exact Hs|exact Hout'|].
      intros a Ha. destruct (Hu a) as (v & Hv' & Hf & _); [apply elem_of_app; by right|]. by exists v.
    + intros e Hin. apply Hout'. intros Hx. apply (Hnd2 (w_packet e)); [by apply list_elem_of_fmap_2|].
      apply elem_of_app. by right.
    + apply NoDup_app. split_and!; [done| |].
      * intros x Hx [->|Hin]%elem_of_cons; [apply (Hnd2 p Hx), elem_of_app; by right|].
        apply (Hnd2 x Hx). apply elem_of_app in Hin as [?|[_ ?]%list_elem_of_filter]; apply elem_of_app; tauto.
      * simpl. apply NoDup_cons. split.
        { intros [Hin|[? _]%list_elem_of_filter]%elem_of_app; [by apply (Hnd4 p)|done]. }
        apply NoDup_app. split_and!; [done| |by apply NoDup_filter].
        intros x Hx [_ Hin]%list_elem_of_filter. by apply (Hnd4 x).
    + intros x Hx. assert (x ∈ own.*1 ++ ys) as Hin.
      { apply elem_of_cons in Hx as [->|[Hx|[_ Hx]%list_elem_of_filter]%elem_of_app]; apply elem_of_app; tauto. }
      eapply usable_same; [exact Hs|]. by apply Hu.
  - done.
  - intros x [->|Hx]%elem_of_cons; [done|]. rewrite <- (Ho x Hx). apply Hout'. apply Hnd4.
    by apply list_elem_of_fmap_2.
  - change (holds (set_pq_packets (pq_packets (q_ d')) (q_ d')) (filter (.≠ p) ys)). by destruct (q_ d').
Qed.

Lemma purge_ifq_spec fuel es ys own s id :
  memq es ys own s → (length ys < fuel)%nat →
  ∃ ys' s', purge_ifq fuel id s = Done tt s' ∧ memq es ys' own s' ∧ rest s' = rest s.
Proof.
  revert ys s. induction fuel as [|fuel IH]; intros ys s Hm Hf; [lia|]. cbn [purge_ifq].
  destruct (memq_filter _ _ _ _ id Hm) as [(s1 & E1 & Hm1 & R1)|(p & v & ys' & s1 & E1 & Hp & Hm1 & R1 & Hl)];
    rewrite (bind_done _ _ _ _ _ E1).
  - rewrite decide_True by done. by exists ys, s1.
  - rewrite decide_False by done.
    destruct (memq_drop _ _ _ _ _ _ DROP_RTR_MAC_CALLBACK Hm1) as (s2 & E2 & Hm2 & R2).
    rewrite (bind_done _ _ _ _ _ E2). destruct (IH ys' s2 Hm2) as (ys2 & s3 & E3 & Hm3 & R3); [lia|].
    exists ys2, s3. split_and!; [done|done|congruence].
Qed.

Lemma memq_drop_ifq es ys own s id :
  memq es ys own s → ∃ ys' s', drop_ifq id s = Done tt s' ∧ memq es ys' own s' ∧ rest s' = rest s.
Proof.
  intros Hm. unfold drop_ifq. rewrite (bind_done _ _ _ s s) by done. apply (purge_ifq_spec _ es ys); [done|].
  destruct Hm as (_ & _ & _ & Hy). pose proof (holds_size _ _ Hy) as Hs.
  change (pq_packets (q_ (ifq_view s))) with (rq_packets (rqueue s)) in Hs. lia.
Qed.
