(* ===== verification/AodvSpec.v ===== *)
(** * AODV: what the handlers keep

    The routing table is consistent, the messages sent are well formed, and every handler of
    [Aodv.v] returns: no assertion fails and no memory is accessed that must not be. *)
From S2P Require Import Prelude Double Daemon SimChain SimPacket PacketQueue DropTail.
From S2P Require Import PriQueue.
From S2P Require Import AodvQueue AodvTable Aodv AodvMemory.
Open Scope Z_scope.

Implicit Types (s : aodv) (e : aodv_rt_entry) (t : rt_table) (own : list (addr * packet)) (v : packet).

(** Sequence numbers of nodes are even; that of a route that broke is odd. *)
Definition seqno_ok (n : Z) : Prop := 0 ≤ n < 2 ^ 32.
Definition even_seqno (n : Z) : Prop := seqno_ok n ∧ n `mod` 2 = 0.

Lemma even_next n : even_seqno n → seqno_ok (n + 1) ∧ u32 (n + 1) = n + 1 ∧ (n + 1) `mod` 2 ≠ 0.
Proof.
  intros [Hn He]. assert (n + 1 < 2 ^ 32) as Hlt.
  { destruct (decide (n = 2 ^ 32 - 1)) as [->|]; [done|]. unfold seqno_ok in Hn. lia. }
  unfold seqno_ok in *. split; [lia|]. split; [apply wrap_small; lia|].
  rewrite Zplus_mod, He. done.
Qed.
Lemma even_u32 n : n `mod` 2 = 0 → even_seqno (u32 n).
Proof.
  intros He. split; [by apply wrap_range|]. unfold u32, wrap.
  rewrite Z.mod_mod_divide; [done|]. by exists (2 ^ 31).
Qed.
Lemma even_plus_2 n : even_seqno n → even_seqno (u32 (n + 2)).
Proof. intros [_ He]. apply even_u32. by rewrite Zplus_mod, He. Qed.

Lemma list_fmap_same {A} (g : A → A) (l : list A) : (∀ x, x ∈ l → g x = x) → l = g <$> l.
Proof.
  intros Hg. rewrite <- (list_fmap_id l) at 1. apply list_fmap_ext. intros i x Hx%list_elem_of_lookup_2.
  symmetry. by apply Hg.
Qed.

Section spec.
Context `{Allocator} (Hmalloc : ∀ X, is_Some (malloc X)).
(** [B] bounds the hop counts of the messages received and of the routes. *)
Context (now : double) (here_addr : Z) (B : Z) (HB : 30 ≤ B < 254).

(** ** The table *)

Definition entry_ok e : Prop :=
  seqno_ok (rt_seqno e) ∧ rt_dst e ≠ s32 IP_BROADCAST ∧
  (rt_flags e = RTF_UP ∧ rt_seqno e `mod` 2 = 0 ∧ 0 ≤ rt_hops e ≤ B ∨
   rt_flags e = RTF_DOWN ∧ rt_hops e = INFINITY2) ∧
  0 ≤ rt_last_hop_count e ∧ 0 ≤ rt_req_last_ttl e ∧ length (rt_disc_latency e) = 3%nat ∧ 0 ≤ hist_indx e < 3.

Definition table_ok t : Prop := NoDup (rt_dst <$> t) ∧ ∀ e, e ∈ t → entry_ok e.

(** No destination is forgotten, and no sequence number decreases. *)
Definition newer t t' : Prop :=
  ∀ d e, rt_lookup d t = Some e → ∃ e', rt_lookup d t' = Some e' ∧ rt_seqno e ≤ rt_seqno e'.

#[export] Instance newer_preorder : PreOrder newer.
Proof.
  split; [by intros t d e He; exists e|]. intros t1 t2 t3 H1 H2 d e He.
  destruct (H1 d e He) as (e' & He' & ?), (H2 d e' He') as (e'' & ? & ?). exists e''. split; [done|lia].
Qed.

Lemma up_hops e : entry_ok e → rt_flags e = RTF_UP → rt_hops e ≠ INFINITY2 ∧ even_seqno (rt_seqno e).
Proof.
  intros (Hs & _ & [(_ & He & Hh)|[Hf _]] & _); [|by rewrite Hf].
  intros _. unfold INFINITY2. split; [lia|by split].
Qed.
Lemma hops_up e : entry_ok e → rt_hops e ≠ INFINITY2 → rt_flags e = RTF_UP.
Proof. by intros (_ & _ & [(? & _)|[_ ?]] & _). Qed.
Lemma hops_range e : entry_ok e → rt_hops e ≠ INFINITY2 → 0 ≤ rt_hops e ≤ B.
Proof. by intros (_ & _ & [(_ & _ & ?)|[_ ?]] & _). Qed.

Lemma table_lookup t d e : table_ok t → rt_lookup d t = Some e → entry_ok e ∧ rt_dst e = d.
Proof. intros [_ Ht] [He Hd]%rt_lookup_Some. by split; [apply Ht|]. Qed.

Lemma table_write t d f e :
  table_ok t → rt_lookup d t = Some e → keeps_dst f → entry_ok (f e) → table_ok (rt_write d f t).
Proof.
  intros [Hnd Ht] He Hf Hok. split; [by rewrite rt_write_dst|].
  intros x (y & Hy & [[-> _]|[-> Hd]])%rt_write_elem; [by apply Ht|].
  rewrite <- Hd, (rt_lookup_elem t y Hnd Hy) in He. by injection He as ->.
Qed.
Lemma newer_write t d f e :
  rt_lookup d t = Some e → keeps_dst f → rt_seqno e ≤ rt_seqno (f e) → newer t (rt_write d f t).
Proof.
  intros He Hf Hle d' x Hx. rewrite rt_lookup_write by done. case_decide as E; [subst|by exists x].
  rewrite He in Hx. injection Hx as <-. exists (f e). by rewrite He.
Qed.

Lemma rt_add_ok t d :
  table_ok t → d ≠ s32 IP_BROADCAST → d ∉ rt_dst <$> t →
  rt_add d t = Some (aodv_rt_entry_new d :: t) ∧ table_ok (aodv_rt_entry_new d :: t) ∧
  newer t (aodv_rt_entry_new d :: t).
Proof.
  intros [Hnd Ht] Hb Hd. unfold rt_add. rewrite <- rt_lookup_is_Some in Hd. split_and!.
  - destruct (rt_lookup d t) eqn:E; [|done]. destruct Hd. by eexists.
  - split; [simpl; apply NoDup_cons; by rewrite <- rt_lookup_is_Some|].
    intros e [->|He]%elem_of_cons; [|by apply Ht]. unfold entry_ok, seqno_ok. simpl. split_and!; try done. by right.
  - intros d' e He. exists e. split; [|done]. rewrite rt_lookup_cons, decide_False; [done|].
    simpl. intros ->. apply Hd. by eexists.
Qed.

(** The same routes: the same destinations with the same way. *)
Lemma routes_lookup t t' d e :
  routes t' = routes t → rt_lookup d t = Some e →
  ∃ e', rt_lookup d t' = Some e' ∧ route_of e' = route_of e.
Proof.
  revert t'. induction t as [|x t IH]; [done|]. intros [|x' t']; [done|]. unfold routes. simpl.
  intros [= H1 H2 H3 H4 H5 Ht]. rewrite !rt_lookup_cons, H1. destruct (decide (rt_dst x = d)).
  - intros E. injection E as ->. exists x'. split; [done|]. unfold route_of. by rewrite H1, H2, H3, H4, H5.
  - by apply IH.
Qed.
Lemma route_up e e' : route_of e' = route_of e →
  (rt_flags e = RTF_UP ↔ rt_flags e' = RTF_UP) ∧ rt_hops e' = rt_hops e ∧ rt_nexthop e' = rt_nexthop e ∧
  rt_seqno e' = rt_seqno e ∧ rt_dst e' = rt_dst e.
Proof. unfold route_of. intros [= -> -> -> -> Hb]. split_and!; try done. by repeat case_bool_decide. Qed.

(** ** Messages *)

(** The hop count of a request and its time to live add up to at most 31. *)
Definition legal_header (b ttl : Z) (h : hdr_all_aodv) : Prop :=
  match h with
  | RequestHdr rq =>
      0 ≤ rq_hop_count rq ∧ rq_hop_count rq + ttl ≤ 1 + NETWORK_DIAMETER ∧ 1 ≤ ttl ∧
      rq_src rq ≠ s32 IP_BROADCAST ∧ even_seqno (rq_src_seqno rq) ∧ seqno_ok (rq_dst_seqno rq)
  | ReplyHdr rp =>
      rp_type rp = AODVTYPE_RREP ∧ 0 ≤ rp_hop_count rp ≤ b ∧ rp_dst rp ≠ s32 IP_BROADCAST ∧
        even_seqno (rp_dst_seqno rp) ∨
      rp_type rp = AODVTYPE_HELLO
  | ErrorHdr re =>
      re_type re = AODVTYPE_RERR ∧ (length (unreachable re) ≤ AODV_MAX_ERRORS)%nat ∧
      ∀ x, x ∈ unreachable re → seqno_ok x.2
  | NoAodv => False
  end.
Definition legal (b : Z) v : Prop :=
  sport (ip v) = RT_PORT ∧ dport (ip v) = RT_PORT ∧ legal_header b (ttl_ (ip v)) (hdrs v).

(** What the agent sends is legal, with hop counts that may be greater by one. *)
Definition sendable v : Prop := ptype_ (cmn v) = PT_AODV → ttl_ (ip v) ≠ 0 → legal (B + 1) v.
Definition effect_ok (f : effect) : Prop :=
  match f with Scheduled _ v _ => ptype_ (cmn v) = PT_AODV → legal (B + 1) v | _ => True end.

(** ** The invariant *)

Definition good s : Prop :=
  index s ≠ s32 IP_BROADCAST ∧ even_seqno (seqno s) ∧ table_ok (rtable s) ∧ ∀ f, f ∈ a_log s → effect_ok f.
(** At most [n] packets wait. *)
Definition mem (n : nat) own s : Prop := ∃ es ys, memq es ys own s ∧ (length es ≤ n)%nat.
(** Since the state [s0] the table got newer, and the known requests are the same. *)
Definition inv s0 (n : nat) own s : Prop :=
  mem n own s ∧ good s ∧ newer (rtable s0) (rtable s) ∧ index s = index s0 ∧ bihead s = bihead s0.

Lemma mem_rest n own s s' es ys : memq es ys own s' → (length es ≤ n)%nat → rest s' = rest s →
  good s → mem n own s' ∧ good s' ∧ rtable s' = rtable s ∧ index s' = index s ∧ bihead s' = bihead s.
Proof.
  intros Hm Hn [= E1 E2 E3 E4 E5 E6 E7]. unfold good. rewrite E1, E2, E6, E7. intros Hg.
  split; [by exists es, ys|]. by split.
Qed.

Lemma inv_rest s0 n n' own own' s s' es ys :
  inv s0 n own s → memq es ys own' s' → (length es ≤ n')%nat → rest s' = rest s →
  inv s0 n' own' s' ∧ rtable s' = rtable s.
Proof.
  intros (_ & Hg & Hnew & Ei & Eb) Hm Hn Er.
  destruct (mem_rest _ _ _ _ _ _ Hm Hn Er Hg) as (? & ? & Et & Ei' & Eb').
  split; [|done]. split_and!; [done|done|by rewrite Et|congruence|congruence].
Qed.

Lemma inv_mono s0 n n' own s : inv s0 n own s → (n ≤ n')%nat → inv s0 n' own s.
Proof. intros ((es & ys & Hm & Hn) & Hr) Hle. split; [|done]. exists es, ys. split; [done|lia]. Qed.

Lemma inv_table s0 n own s : inv s0 n own s → table_ok (rtable s).
Proof. intros (_ & (_ & _ & Ht & _) & _). done. Qed.
Lemma inv_lookup s0 n own s d e :
  inv s0 n own s → rt_lookup d (rtable s) = Some e → entry_ok e ∧ rt_dst e = d.
Proof. intros Hi. apply table_lookup. by eapply inv_table. Qed.
Lemma inv_head s0 n p v own s : inv s0 n ((p, v) :: own) s → p ≠ NULL ∧ in_use v.
Proof. intros ((es & ys & Hm & _) & _). by destruct (memq_head _ _ _ _ _ _ Hm) as (? & _ & ? & _). Qed.
Lemma inv_tail s0 n x own s : inv s0 n (x :: own) s → inv s0 n own s.
Proof. intros ((es & ys & Hm & Hn) & Hr). split; [|done]. exists es, ys. split; [by eapply memq_leave|done]. Qed.

(** Members of which nothing is said, and the table. *)
Lemma inv_set_table s0 n own s t :
  inv s0 n own s → table_ok t → newer (rtable s) t → inv s0 n own (set_rtable t s).
Proof.
  intros (Hm & (G1 & G2 & _ & G4) & Hnew & Ei & Eb) Ht Hn. split_and!; try done. by etrans.
Qed.
Lemma inv_set_seqno s0 n own s x : inv s0 n own s → even_seqno x → inv s0 n own (set_seqno x s).
Proof. intros (Hm & (G1 & _ & G3 & G4) & Hn & Ei & Eb) Hx. by split_and!. Qed.
Lemma inv_record s0 n own s f : inv s0 n own s → effect_ok f → inv s0 n own (record_ f s).
Proof.
  intros (Hm & (G1 & G2 & G3 & G4) & Hr) Hf. split; [done|]. split; [|done].
  split; [done|]. split; [done|]. split; [done|]. intros x [->|Hx]%elem_of_cons; [done|by apply G4].
Qed.

(** *** Operations on packets *)

Lemma wp_packet s0 n p v own s Q : inv s0 n ((p, v) :: own) s → Q v s → twp (the_packet p) s Q.
Proof. intros ((es & ys & Hm & _) & _) HQ. eapply wp_done; [by eapply own_packet_done|done]. Qed.

Lemma wp_upd s0 n p v own s f Q :
  inv s0 n ((p, v) :: own) s → (in_use v → in_use (f v)) →
  (∀ s', inv s0 n ((p, f v) :: own) s' → rtable s' = rtable s → rest s' = rest s → Q tt s') → twp (upd p f) s Q.
Proof.
  intros Hi Hf HQ. pose proof Hi as ((es & ys & Hm & Hn) & _).
  destruct (memq_upd _ _ _ _ _ _ f Hm) as (s' & E & Hm' & R); [by apply Hf, (inv_head _ _ _ _ _ _ Hi)|].
  eapply wp_done; [done|]. destruct (inv_rest _ _ _ _ _ _ _ _ _ Hi Hm' Hn R). by apply HQ.
Qed.

Lemma wp_free s0 n p v own s Q :
  inv s0 n ((p, v) :: own) s → (∀ s', inv s0 n own s' → rtable s' = rtable s → rest s' = rest s → Q tt s') →
  twp (on_pool (free p)) s Q.
Proof.
  intros Hi HQ. pose proof Hi as ((es & ys & Hm & Hn) & _).
  destruct (memq_free _ _ _ _ _ _ Hm) as (s' & E & Hm' & R).
  eapply wp_done; [done|]. destruct (inv_rest _ _ _ _ _ _ _ _ _ Hi Hm' Hn R). by apply HQ.
Qed.

Lemma wp_drop s0 n p v own s r Q :
  inv s0 n ((p, v) :: own) s → (∀ s', inv s0 n own s' → rtable s' = rtable s → Q tt s') → twp (drop p r) s Q.
Proof.
  intros Hi HQ. pose proof Hi as ((es & ys & Hm & Hn) & _).
  destruct (memq_drop _ _ _ _ _ _ r Hm) as (s' & E & Hm' & R).
  eapply wp_done; [done|]. destruct (inv_rest _ _ _ _ _ _ _ _ _ Hi Hm' Hn R). by apply HQ.
Qed.

Lemma wp_alloc s0 n own s (Q : addr → aodv → Prop) :
  inv s0 n own s →
  (∀ p v s', fresh_packet v → inv s0 n ((p, v) :: own) s' → rtable s' = rtable s → Q p s') →
  twp (on_pool alloc) s Q.
Proof.
  intros Hi HQ. pose proof Hi as ((es & ys & Hm & Hn) & _).
  destruct (memq_alloc _ _ _ _ Hmalloc Hm) as (p & v & s' & E & Hfresh & Hm' & R).
  eapply wp_done; [done|]. destruct (inv_rest _ _ _ _ _ _ _ _ _ Hi Hm' Hn R). by eapply HQ.
Qed.

(** The packet leaves the agent. *)
Lemma wp_schedule s0 n p v own s d Q :
  inv s0 n ((p, v) :: own) s → effect_ok (Scheduled p v d) →
  (∀ s', inv s0 n own s' → rtable s' = rtable s → Q tt s') → twp (schedule p d) s Q.
Proof.
  intros Hi Hv HQ. unfold schedule. wp_step. eapply wp_packet; [done|]. wp_step. apply HQ; [|done].
  apply inv_record; [by eapply inv_tail|done].
Qed.

Lemma wp_enque s0 n p v own s Q :
  inv s0 n ((p, v) :: own) s → ptype_ (cmn v) ≠ PT_AODV →
  (∀ s', inv s0 64 own s' → rtable s' = rtable s → Q tt s') → twp (on_rqueue (enque now p)) s Q.
Proof.
  intros Hi Hty HQ. pose proof Hi as ((es & ys & Hm & Hn) & _).
  destruct (memq_enque _ _ _ _ _ _ now Hm Hty) as (es' & s' & E & Hm' & R). eapply wp_done; [done|].
  assert (length es' ≤ 64)%nat as Hn' by (destruct Hm' as ((_ & Hl & _) & _); unfold AODV_RTQ_MAX_LEN in Hl; lia).
  destruct (inv_rest _ _ _ _ _ _ _ _ _ Hi Hm' Hn' R). by apply HQ.
Qed.

Lemma wp_find s0 n own s d Q : inv s0 n own s → (∀ b, Q b s) → twp (on_rqueue (find d)) s Q.
Proof. intros ((es & ys & Hm & _) & _) HQ. eapply wp_done; [by eapply memq_find|done]. Qed.

Lemma wp_drop_ifq s0 n own s id Q :
  inv s0 n own s → (∀ s', inv s0 n own s' → rtable s' = rtable s → Q tt s') → twp (drop_ifq id) s Q.
Proof.
  intros Hi HQ. pose proof Hi as ((es & ys & Hm & Hn) & _).
  destruct (memq_drop_ifq _ _ _ _ id Hm) as (ys' & s' & E & Hm' & R).
  eapply wp_done; [done|]. destruct (inv_rest _ _ _ _ _ _ _ _ _ Hi Hm' Hn R). by apply HQ.
Qed.

(** *** Operations on the table *)

Lemma wp_the_rt s d e (Q : aodv_rt_entry → aodv → Prop) :
  rt_lookup d (rtable s) = Some e → Q e s → twp (the_rt d) s Q.
Proof. intros He HQ. unfold the_rt, rt_find. wp_step. wp_step. rewrite He. by apply wp_ret. Qed.

Lemma wp_upd_rt s d e f (Q : unit → aodv → Prop) :
  rt_lookup d (rtable s) = Some e → Q tt (set_rtable (rt_write d f (rtable s)) s) → twp (upd_rt d f) s Q.
Proof. intros He HQ. unfold upd_rt. wp_step. eapply wp_the_rt; [done|]. by wp_step. Qed.

Lemma inv_write s0 n own s d e f :
  inv s0 n own s → rt_lookup d (rtable s) = Some e → keeps_dst f → entry_ok (f e) → rt_seqno e ≤ rt_seqno (f e) →
  inv s0 n own (set_rtable (rt_write d f (rtable s)) s).
Proof.
  intros Hi He Hf Hok Hle. apply inv_set_table; [done|eapply table_write; [by eapply inv_table|done..]|by eapply newer_write].
Qed.

Lemma wp_ensure s0 n own s d Q :
  inv s0 n own s → d ≠ s32 IP_BROADCAST →
  (∀ s' e, inv s0 n own s' → routes (rtable s') = known d (routes (rtable s)) →
     rt_lookup d (rtable s') = Some e → (∀ d', d' ≠ d → rt_lookup d' (rtable s') = rt_lookup d' (rtable s)) →
     bihead s' = bihead s → Q tt s') →
  twp (ensure_rt d) s Q.
Proof.
  intros Hi Hd HQ. unfold ensure_rt, rt_find. wp_step. wp_step. unfold known in HQ. rewrite routes_dst in HQ.
  destruct (rt_lookup d (rtable s)) as [e|] eqn:E.
  - apply wp_ret. rewrite decide_True in HQ by (apply rt_lookup_is_Some; by eexists). by apply (HQ s e).
  - assert (d ∉ rt_dst <$> rtable s) as Hno.
    { rewrite <- rt_lookup_is_Some, E. by intros [? ?]. }
    rewrite decide_False in HQ by done. destruct (rt_add_ok _ _ (inv_table _ _ _ _ Hi) Hd Hno) as (Ea & Ht & Hn).
    unfold add_rt. wp_step. change (twp get s ?P) with (P s s). cbv beta. rewrite Ea.
    apply (HQ _ (aodv_rt_entry_new d)); [by apply inv_set_table|done| | |done].
    + simpl. rewrite rt_lookup_cons. by rewrite decide_True.
    + intros d' Hd'. simpl. rewrite rt_lookup_cons. rewrite decide_False; [done|]. simpl. congruence.
Qed.

(** ** Sending *)

Lemma wp_deliver s0 n p v own s Q :
  inv s0 n ((p, v) :: own) s → (∀ s', inv s0 n own s' → rtable s' = rtable s → Q tt s') →
  twp (modify (record_ (Delivered p v))) s Q.
Proof. intros Hi HQ. wp_step. apply HQ; [|done]. apply inv_record; [by eapply inv_tail|done]. Qed.

Lemma wp_assert (b : bool) s (Q : unit → aodv → Prop) : b = true → Q tt s → twp (assert_ b) s Q.
Proof. intros ->. by apply wp_ret. Qed.

(** A broadcast. *)
Lemma wp_forward_none s0 n p v own s d Q :
  inv s0 n ((p, v) :: own) s → daddr (ip v) = s32 IP_BROADCAST → sendable v →
  (∀ s', inv s0 n own s' → rtable s' = rtable s → Q tt s') → twp (forward now here_addr None p d) s Q.
Proof.
  intros Hi Hd Hv HQ. unfold forward. wp_step. eapply wp_packet; [done|].
  case_decide as Httl; [by eapply wp_drop|]. case_match; [by eapply wp_deliver|].
  wp_step. wp_step. apply wp_assert; [by apply bool_decide_eq_true|].
  eapply wp_upd; [done|done|]. intros s1 Hi1 R1 _. rewrite decide_True by done. wp_step.
  apply wp_assert; [done|].
  assert (∀ d, effect_ok (Scheduled p (with_cmn (λ c, cmn_direction DOWN (cmn_addr_type NS_AF_NONE c)) v) d)) as Hs.
  { intros d' Hty. by apply Hv. }
  case_decide; (eapply wp_schedule; [exact Hi1|apply Hs|]); intros s2 Hi2 R2; apply HQ; congruence.
Qed.

(** To the next hop of a route, which lives longer. *)
Lemma wp_forward_some s0 n p v own s d rt e Q :
  inv s0 n ((p, v) :: own) s → rt_lookup rt (rtable s) = Some e → rt_flags e = RTF_UP →
  daddr (ip v) ≠ s32 IP_BROADCAST → sendable v →
  (∀ s', inv s0 n own s' → routes (rtable s') = routes (rtable s) →
     (∀ d', d' ≠ rt → rt_lookup d' (rtable s') = rt_lookup d' (rtable s)) → Q tt s') →
  twp (forward now here_addr (Some rt) p d) s Q.
Proof.
  intros Hi He Hup Hd Hv HQ. unfold forward. wp_step. eapply wp_packet; [done|].
  case_decide as Httl.
  { eapply wp_drop; [done|]. intros s1 Hi1 R1. apply HQ; [done|congruence|by intros; rewrite R1]. }
  case_match.
  { eapply wp_deliver; [done|]. intros s1 Hi1 R1. apply HQ; [done|congruence|by intros; rewrite R1]. }
  wp_step. wp_step. eapply wp_the_rt; [done|]. wp_step. apply wp_assert; [by apply bool_decide_eq_true|].
  wp_step. eapply wp_upd_rt; [done|]. destruct (inv_lookup _ _ _ _ _ _ Hi He) as [Hok _].
  assert (keeps_dst (with_expire (dadd now ACTIVE_ROUTE_TIMEOUT))) as Hk by done.
  pose proof (inv_write _ _ _ _ _ _ _ Hi He Hk Hok ltac:(done)) as Hi1.
  set (s1 := set_rtable _ s) in *. eapply wp_upd; [done|done|]. intros s2 Hi2 R2 _.
  rewrite decide_False by done.
  eapply wp_schedule; [exact Hi2|intros Hty; by apply Hv|].
  intros s3 Hi3 R3. apply HQ; [done|rewrite R3, R2..].
  - by apply routes_write_same.
  - intros d' Hd'. simpl. by rewrite rt_lookup_write, decide_False.
Qed.

(** ** Waiting packets that are handed out *)

Lemma drain_loop_spec s0 own dst body (I : rt_table → Prop) fuel n d s :
  (∀ n d b v s, inv s0 n ((b, v) :: own) s → I (rtable s) → daddr (ip v) = dst → ptype_ (cmn v) ≠ PT_AODV →
     twp (body d b) s (λ _ s', inv s0 n own s' ∧ I (rtable s'))) →
  inv s0 n own s → I (rtable s) → (n < fuel)%nat →
  twp (drain_loop now fuel dst body d) s (λ _ s', inv s0 n own s' ∧ I (rtable s')).
Proof.
  intros Hbody. revert n d s. induction fuel as [|fuel IH]; intros n d s Hi HI Hf; [lia|]. cbn [drain_loop].
  pose proof Hi as ((es & ys & Hm & Hn) & _).
  destruct (memq_deque _ _ _ _ now dst Hm)
    as [(es' & s1 & E & Hm1 & R1 & Hl)|(p & v & es' & s1 & E & Hp & Hm1 & R1 & Hl & Hd & Hty)]; wp_step;
    (eapply wp_done; [exact E|]).
  - rewrite decide_True by done. apply wp_ret. destruct (inv_rest _ _ n _ _ _ _ _ _ Hi Hm1 ltac:(lia) R1) as [? ->].
    done.
  - rewrite decide_False by done.
    destruct (inv_rest _ _ (length es') _ _ _ _ _ _ Hi Hm1 ltac:(lia) R1) as [Hi1 Et].
    wp_step. eapply wp_mono; [eapply Hbody; [exact Hi1|by rewrite Et|done|done]|]. intros d' s2 [Hi2 HI2]. simpl.
    eapply wp_mono; [apply (IH (length es')); [done|done|lia]|]. intros d'' s3 [Hi3 HI3].
    split; [eapply inv_mono; [done|lia]|done].
Qed.

Lemma mem_size own s es ys : memq es ys own s → (length es ≤ size (contents s))%nat.
Proof. intros (Hq & _). by eapply rep_length. Qed.

Lemma wp_drain s0 own dst body (I : rt_table → Prop) n d s Q :
  (∀ n d b v s, inv s0 n ((b, v) :: own) s → I (rtable s) → daddr (ip v) = dst → ptype_ (cmn v) ≠ PT_AODV →
     twp (body d b) s (λ _ s', inv s0 n own s' ∧ I (rtable s'))) →
  inv s0 n own s → I (rtable s) → (∀ d' s', inv s0 n own s' → I (rtable s') → Q d' s') →
  twp (drain now dst body d) s Q.
Proof.
  intros Hbody Hi HI HQ. unfold drain. wp_step. change (twp get s ?P) with (P s s). cbv beta.
  pose proof Hi as ((es & ys & Hm & Hn) & Hr). pose proof (mem_size _ _ _ _ Hm) as Hs.
  eapply wp_mono.
  - apply (drain_loop_spec s0 own dst body I _ (length es)); [done| |done|].
    + split; [by exists es, ys|done].
    + unfold contents in Hs. lia.
  - intros d' s' [Hi' HI']. apply HQ; [eapply inv_mono; [done|lia]|done].
Qed.

Lemma wp_drain_drop s0 own dst n s Q :
  inv s0 n own s → (∀ s', inv s0 n own s' → rtable s' = rtable s → Q tt s') → twp (drain_drop now dst) s Q.
Proof.
  intros Hi HQ. unfold drain_drop. wp_step. apply (wp_drain s0 own dst _ (λ t, t = rtable s) n); [|done|done|].
  - intros n' d b v s1 Hi1 E1 _ _. wp_step. eapply wp_drop; [done|]. intros s2 Hi2 R2. apply wp_ret.
    split; [done|congruence].
  - intros d s1 Hi1 E1. apply wp_ret. by apply HQ.
Qed.

(** Waiting packets sent on a route that is up. *)
Definition drained (rt : Z) t t' : Prop :=
  routes t' = routes t ∧ ∀ d, d ≠ rt → rt_lookup d t' = rt_lookup d t.

#[local] Instance drained_preorder rt : PreOrder (drained rt).
Proof.
  split; [done|]. intros t1 t2 t3 [R1 L1] [R2 L2]. split; [congruence|]. intros d Hd. by rewrite L2, L1.
Qed.

Lemma drained_lookup rt t t' e :
  drained rt t t' → rt_lookup rt t = Some e → ∃ e', rt_lookup rt t' = Some e' ∧ route_of e' = route_of e.
Proof. intros [R _]. by apply routes_lookup. Qed.

Lemma drained_write rt f t :
  keeps_dst f → (∀ e, route_of (f e) = route_of e) → drained rt t (rt_write rt f t).
Proof.
  intros Hk Hf. split; [by apply routes_write_same|]. intros d Hd. by rewrite rt_lookup_write, decide_False.
Qed.

Lemma wp_drain_forward s0 own rt body n d s e Q :
  (∀ d b s e Q, rt_lookup rt (rtable s) = Some e → rt_flags e = RTF_UP → rt_hops e ≠ INFINITY2 →
     (∀ d' d'', twp (forward now here_addr (Some rt) b d') s (λ _ s', Q d'' s')) → twp (body d b) s Q) →
  inv s0 n own s → rt_lookup rt (rtable s) = Some e → rt_flags e = RTF_UP →
  (∀ d' s', inv s0 n own s' → drained rt (rtable s) (rtable s') → Q d' s') →
  twp (drain now rt body d) s Q.
Proof.
  intros Hbody Hi He Hup HQ. destruct (inv_lookup _ _ _ _ _ _ Hi He) as [Hok Hdst].
  apply (wp_drain s0 own rt body (drained rt (rtable s)) n); [|done|done|done].
  intros n' d0 b v s1 Hi1 Hd Hda Hty. destruct (drained_lookup _ _ _ _ Hd He) as (e1 & He1 & Hr).
  destruct (route_up _ _ Hr) as (Hf & Hh & _). eapply Hbody; [done|by apply Hf| |].
  { rewrite Hh. by apply up_hops. }
  intros d' d''. eapply wp_forward_some; [exact Hi1|done|by apply Hf| |done|].
  - rewrite Hda, <- Hdst. apply Hok.
  - intros s2 Hi2 R2 L2. split; [done|]. etrans; [exact Hd|by split].
Qed.

(** ** New messages *)

(** A new packet with the fields of a message is in use. *)
Lemma legal_message v me size ttl d h :
  legal_header (B + 1) ttl h → effect_ok (Scheduled 0%N (message me size ttl d h v) (Fixed d_zero)).
Proof. intros Hh _. by split_and!. Qed.

Lemma request_ttl_range e ttl cnt : entry_ok e → request_ttl e = (ttl, cnt) → 1 ≤ ttl ≤ NETWORK_DIAMETER.
Proof.
  intros (_ & _ & _ & Hl & Hr & _) E. unfold request_ttl in E.
  set (last := Z.max (rt_req_last_ttl e) (rt_last_hop_count e)) in *.
  assert (0 ≤ last) as Hlast by lia. destruct (decide (0 = last)) as [Hz|Hz]; [injection E as <- <-; unfold TTL_START, NETWORK_DIAMETER; lia|].
  destruct (bool_decide_reflect (last < TTL_THRESHOLD)) as [H1|H1]; injection E as <- <-; [|unfold NETWORK_DIAMETER; lia].
  unfold TTL_THRESHOLD, TTL_INCREMENT, NETWORK_DIAMETER in *. rewrite s32_small by lia. lia.
Qed.

Lemma wp_sendRequest s0 n own s dst Q :
  inv s0 n own s → is_Some (rt_lookup dst (rtable s)) →
  (∀ s', inv s0 n own s' → drained dst (rtable s) (rtable s') → Q tt s') →
  twp (sendRequest now dst) s Q.
Proof.
  intros Hi [e He] HQ. unfold sendRequest. wp_step. eapply wp_alloc; [done|]. intros p v s1 Hfresh Hi1 R1.
  unfold rt_find. wp_step. wp_step. rewrite R1, He. rewrite <- R1 in He, HQ.
  destruct (inv_lookup _ _ _ _ _ _ Hi1 He) as [Hok _].
  assert (∀ s2, inv s0 n ((p, v) :: own) s2 → drained dst (rtable s1) (rtable s2) →
    twp (on_pool (free p)) s2 Q) as Hfree.
  { intros s2 Hi2 R2. eapply wp_free; [done|]. intros s3 Hi3 R3 _. apply HQ; [done|by rewrite R3]. }
  case_decide as Hup.
  { wp_step. apply wp_assert; [apply bool_decide_eq_true; by apply up_hops|by apply Hfree]. }
  case_match; [by apply Hfree|]. case_match.
  { wp_step. eapply wp_upd_rt; [done|].
    assert (keeps_dst (with_request (dadd now MAX_RREQ_TIMEOUT) 0 (rt_req_last_ttl e))) as Hk by done.
    pose proof (inv_write _ _ _ _ _ _ _ Hi1 He Hk Hok ltac:(done)) as Hi2.
    wp_step. eapply wp_drain_drop; [exact Hi2|]. intros s3 Hi3 R3. apply Hfree; [done|]. rewrite R3.
    by apply drained_write. }
  destruct (request_ttl e) as [ttl cnt] eqn:Ettl. pose proof (request_ttl_range _ _ _ Hok Ettl) as Httl.
  wp_step. eapply wp_upd_rt; [done|].
  set (f := λ e, with_expire d_zero (with_request (request_timeout now e ttl cnt) cnt ttl e)).
  assert (inv s0 n ((p, v) :: own) (set_rtable (rt_write dst f (rtable s1)) s1)) as Hi2.
  { eapply inv_write; [done|done|done| |done]. destruct Hok as (O1 & O2 & O3 & O4 & _ & O6 & O7).
    refine (conj O1 (conj O2 (conj O3 (conj O4 (conj _ (conj O6 O7)))))). simpl. lia. }
  set (s2 := set_rtable _ s1) in *. do 4 wp_step.
  assert (inv s0 n ((p, v) :: own) (set_bid (s32 (bid s2 + 1)) s2)) as Hi3 by exact Hi2. wp_step. wp_step.
  set (s3 := set_bid _ s2) in *.
  assert (even_seqno (u32 (seqno s3 + 2))) as He3 by (apply even_plus_2, Hi3).
  wp_step. wp_step. wp_step. wp_step. wp_step. wp_step. wp_step. apply wp_assert; [apply bool_decide_eq_true, He3|].
  pose proof (inv_set_seqno _ _ _ _ _ Hi3 He3) as Hi4. set (s4 := set_seqno _ s3) in *.
  wp_step. eapply wp_upd; [done|done|]. intros s5 Hi5 R5 _. eapply wp_schedule; [done| |].
  - apply legal_message. simpl. unfold NETWORK_DIAMETER in *. split_and!; [done|lia|lia| |apply He3..|apply Hok].
    apply Hi2.
  - intros s6 Hi6 R6. apply HQ; [done|]. rewrite R6, R5. by apply drained_write.
Qed.

Lemma wp_sendReply s0 n own s ipdst hops dst sq life ts Q :
  inv s0 n own s → is_Some (rt_lookup ipdst (rtable s)) → 0 ≤ hops ≤ B + 1 → dst ≠ s32 IP_BROADCAST → even_seqno sq →
  (∀ s', inv s0 n own s' → rtable s' = rtable s → Q tt s') →
  twp (sendReply ipdst hops dst sq life ts) s Q.
Proof.
  intros Hi [e He] Hh Hd Hsq HQ. unfold sendReply. wp_step. eapply wp_alloc; [done|]. intros p v s1 Hfresh Hi1 R1.
  unfold rt_find. wp_step. wp_step. rewrite R1, He. wp_step. wp_step. wp_step.
  eapply wp_upd; [done|done|]. intros s2 Hi2 R2 _. eapply wp_schedule; [done| |].
  - apply legal_message. left. simpl. split_and!; try apply Hsq; try done; unfold u8; rewrite wrap_small; lia.
  - intros s3 Hi3 R3. apply HQ; [done|congruence].
Qed.

(** The destinations of an error message under construction. *)
Definition error_packet v (l : list (Z * Z)) : Prop := ∃ k, hdrs v = ErrorHdr (Error k l).

Lemma wp_sendError s0 n p v own s l jitter Q :
  inv s0 n ((p, v) :: own) s → error_packet v l → (length l ≤ AODV_MAX_ERRORS)%nat →
  (∀ x, x ∈ l → seqno_ok x.2) →
  (∀ s', inv s0 n own s' → rtable s' = rtable s → Q tt s') → twp (sendError p jitter) s Q.
Proof.
  intros Hi [t Ev] Hl Hs HQ. unfold sendError. wp_step. eapply wp_packet; [done|]. rewrite Ev. simpl.
  wp_step. wp_step. wp_step. eapply wp_upd; [done|done|]. intros s1 Hi1 R1 _. eapply wp_schedule; [done| |].
  - apply legal_message. done.
  - intros s2 Hi2 R2. apply HQ; [done|congruence].
Qed.

Lemma wp_sendHello s0 n own s Q :
  inv s0 n own s → (∀ s', inv s0 n own s' → rtable s' = rtable s → Q tt s') → twp sendHello s Q.
Proof.
  intros Hi HQ. unfold sendHello. wp_step. eapply wp_alloc; [done|]. intros p v s1 Hfresh Hi1 R1. wp_step.
  change (twp get s1 ?P) with (P s1 s1). cbv beta. wp_step. eapply wp_upd; [done|done|]. intros s2 Hi2 R2 _.
  eapply wp_schedule; [done|apply legal_message; by right|]. intros s3 Hi3 R3. apply HQ; [done|congruence].
Qed.

Lemma wp_no_destinations s0 n p v own s Q :
  inv s0 n ((p, v) :: own) s →
  (∀ v' s', inv s0 n ((p, v') :: own) s' → error_packet v' [] → rtable s' = rtable s → Q tt s') →
  twp (no_destinations p) s Q.
Proof.
  intros Hi HQ. eapply wp_upd; [done|done|]. intros s1 Hi1 R1 _. eapply HQ; [done|by eexists|done].
Qed.

Lemma wp_dest_count s0 n p v own s l Q :
  inv s0 n ((p, v) :: own) s → error_packet v l → Q (Z.of_nat (length l)) s → twp (dest_count p) s Q.
Proof. intros Hi [t Ev] HQ. unfold dest_count. wp_step. eapply wp_packet; [done|]. rewrite Ev. by apply wp_ret. Qed.

(** ** Routes that break *)

Definition down e : aodv_rt_entry := with_way INFINITY2 (rt_hops e) 0 RTF_DOWN d_zero e.

Lemma wp_rt_down s d e Q :
  rt_lookup d (rtable s) = Some e → rt_flags e ≠ RTF_DOWN →
  Q tt (set_rtable (rt_write d down (rtable s)) s) → twp (rt_down d) s Q.
Proof.
  intros He Hf HQ. unfold rt_down. wp_step. eapply wp_the_rt; [done|]. rewrite decide_False by done.
  by eapply wp_upd_rt.
Qed.

Lemma entry_down e n : entry_ok e → seqno_ok n → rt_flags e = RTF_UP → entry_ok (down (with_seqno n e)).
Proof.
  intros Hok Hn Hup. destruct (up_hops e Hok Hup) as [Hh _]. pose proof (hops_range e Hok Hh) as Hr.
  destruct Hok as (_ & O2 & _ & _ & O5 & O6 & O7).
  refine (conj Hn (conj O2 (conj _ (conj _ (conj O5 (conj O6 O7)))))); [by right|simpl; lia].
Qed.

(** The table with one route down. *)
Lemma inv_down s0 n own s s' n' own' es ys d e k f :
  inv s0 n own s → rt_lookup d (rtable s) = Some e → rt_flags e = RTF_UP → seqno_ok k → rt_seqno e ≤ k →
  f e = down (with_seqno k e) → keeps_dst f →
  memq es ys own' s' → (length es ≤ n')%nat → rest s' = rest (set_rtable (rt_write d f (rtable s)) s) →
  inv s0 n' own' s' ∧ rtable s' = rt_write d f (rtable s) ∧
  routes (rtable s') = (λ r, if decide (r_dst r = d) then lost k r else r) <$> routes (rtable s).
Proof.
  intros Hi He Hup Hk Hle Ef Hd Hm Hn Er. destruct (inv_lookup _ _ _ _ _ _ Hi He) as [Hok Hdst].
  assert (inv s0 n own (set_rtable (rt_write d f (rtable s)) s)) as Hi1.
  { eapply inv_write; [done|done|done|rewrite Ef; by apply entry_down|by rewrite Ef]. }
  destruct (inv_rest _ _ _ _ _ _ _ _ _ Hi1 Hm Hn Er) as [Hi' Et]. split; [done|]. split; [done|]. rewrite Et.
  apply (routes_write d f (rtable s) e (λ r, if decide (r_dst r = d) then lost k r else r));
    [by destruct (inv_table _ _ _ _ Hi)|done| |].
  - rewrite Ef. simpl. by rewrite decide_True.
  - intros r _ Hr. by rewrite decide_False.
Qed.

Lemma error_more es ys p v own s l rt e :
  memq es ys ((p, v) :: own) s → error_packet v l → (length l < AODV_MAX_ERRORS)%nat →
  rt_lookup rt (rtable s) = Some e →
  ∃ v' s', add_destination p rt s = Done tt s' ∧ memq es ys ((p, v') :: own) s' ∧ rest s' = rest s ∧
    error_packet v' (l ++ [(rt_dst e, rt_seqno e)]).
Proof.
  intros Hm [k Ev] Hl He. unfold add_destination.
  rewrite (bind_done _ _ _ e s) by (unfold the_rt, rt_find; rewrite (bind_done _ _ _ (Some e) s) by (by rewrite <- He); done).
  rewrite (bind_done _ _ _ _ _ (own_packet_done _ _ _ _ _ _ Hm)), Ev. simpl. rewrite decide_True by done.
  destruct (memq_head _ _ _ _ _ _ Hm) as (_ & _ & Hu & _).
  destruct (memq_upd _ _ _ _ _ _ (with_hdrs (ErrorHdr (Error k (l ++ [(rt_dst e, rt_seqno e)])))) Hm)
    as (s' & E & Hm' & R); [done|]. eexists _, s'. split_and!; [done|done|done|by eexists].
Qed.

(** The routes to [dsts] through [id] break. *)
Definition break_on (dsts : list Z) (id : Z) (r : route) : route :=
  if decide (r_dst r ∈ dsts ∧ r_hops r ≠ INFINITY2 ∧ r_next r = id) then lost (r_seqno r + 1) r else r.

Lemma break_on_cons rt dsts id (rs : list route) :
  break_on dsts id <$> (break_on [rt] id <$> rs) = break_on (rt :: dsts) id <$> rs.
Proof.
  rewrite <- list_fmap_compose. apply list_fmap_ext. intros i r _. unfold break_on. simpl.
  destruct (decide (r_dst r ∈ [rt] ∧ r_hops r ≠ INFINITY2 ∧ r_next r = id)) as [Hr|Hr].
  - rewrite decide_False by (simpl; naive_solver). rewrite decide_True; [done|set_solver].
  - apply decide_ext. set_solver.
Qed.
Lemma break_all id t : break_on (rt_dst <$> t) id <$> routes t = break id (routes t).
Proof.
  apply list_fmap_ext. intros i r Hr%list_elem_of_lookup_2. unfold break_on. apply decide_ext.
  split; [tauto|]. intros ?. split; [|done]. rewrite <- routes_dst. by apply list_elem_of_fmap_2.
Qed.

Lemma inv_unique s0 n own s d e :
  inv s0 n own s → rt_lookup d (rtable s) = Some e →
  ∀ r, r ∈ routes (rtable s) → r_dst r = d → r = route_of e.
Proof.
  intros Hi He r (x & -> & Hx)%list_elem_of_fmap Hr. simpl in Hr. destruct (inv_table _ _ _ _ Hi) as [Hnd _].
  pose proof (rt_lookup_elem _ _ Hnd Hx) as Ex. rewrite Hr, He in Ex. by injection Ex as ->.
Qed.
(** One entry of the table. *)
Lemma wp_fail_route s0 n rerr v own s l rt e id Q :
  inv s0 n ((rerr, v) :: own) s → rt_lookup rt (rtable s) = Some e → error_packet v l →
  (length l < AODV_MAX_ERRORS)%nat → (∀ x, x ∈ l → seqno_ok x.2) →
  (∀ v' l' s', inv s0 n ((rerr, v') :: own) s' → error_packet v' l' → (length l' ≤ S (length l))%nat →
     (∀ x, x ∈ l' → seqno_ok x.2) → routes (rtable s') = break_on [rt] id <$> routes (rtable s) → Q tt s') →
  twp (if decide (rt_hops e ≠ INFINITY2 ∧ rt_nexthop e = id) then
         _ ← assert_ (bool_decide (rt_flags e = RTF_UP));
         _ ← assert_ (bool_decide (rt_seqno e `mod` 2 = 0));
         _ ← upd_rt rt (λ e, with_seqno (u32 (rt_seqno e + 1)) e);
         _ ← add_destination rerr rt;
         rt_down rt
       else skip) s Q.
Proof.
  intros Hi He Hv Hl Hs HQ. destruct (inv_lookup _ _ _ _ _ _ Hi He) as [Hok Hdst].
  assert (rt_dst e = rt) as Ed by done. pose proof (inv_unique _ _ _ _ _ _ Hi He) as Huniq.
  case_decide as Hc.
  - destruct Hc as [Hh Hn]. pose proof (hops_up e Hok Hh) as Hup. destruct (up_hops e Hok Hup) as [_ Hev].
    destruct (even_next _ Hev) as (Hk & Eu & _).
    wp_step. apply wp_assert; [by apply bool_decide_eq_true|]. wp_step.
    apply wp_assert; [apply bool_decide_eq_true; by apply Hev|]. wp_step. eapply wp_upd_rt; [done|].
    set (g := λ e, with_seqno (u32 (rt_seqno e + 1)) e). set (s1 := set_rtable _ s).
    pose proof Hi as ((es & ys & Hm & Hn') & _).
    assert (keeps_dst g) as Hg by done.
    assert (rt_lookup rt (rtable s1) = Some (g e)) as He1 by (simpl; by rewrite rt_lookup_write_eq, He).
    destruct (error_more es ys rerr v own s1 l rt (g e)) as (v' & s2 & E2 & Hm2 & R2 & Hv'); [done..|].
    wp_step. eapply wp_done; [done|].
    assert (rtable s2 = rtable s1) as Et by by apply rest_rtable.
    eapply wp_rt_down; [by rewrite Et|by simpl; rewrite Hup|]. rewrite Et.
    destruct (inv_down s0 n _ s (set_rtable (rt_write rt down (rtable s1)) s2) n ((rerr, v') :: own) es ys rt e
      (rt_seqno e + 1) (down ∘ g) Hi He Hup Hk ltac:(lia)) as (Hi3 & Et3 & Er3); [| |exact Hm2|done| |].
    { unfold g. simpl. by rewrite Eu. }
    { done. }
    { rewrite (rest_set_table _ _ _ R2). simpl. by rewrite rt_write_write. }
    eapply HQ; [done|done| | |].
    + rewrite length_app. simpl. lia.
    + intros x [Hx| ->%list_elem_of_singleton]%elem_of_app; [by apply Hs|]. simpl. by rewrite Eu.
    + rewrite Er3. apply list_fmap_ext. intros i r Hr%list_elem_of_lookup_2. unfold break_on. case_decide as Hd.
      * rewrite (Huniq r Hr Hd). rewrite decide_True; [done|]. simpl. split; [by rewrite Ed; left|done].
      * rewrite decide_False; [done|]. intros [?%list_elem_of_singleton _]. done.
  - apply wp_ret. eapply HQ; [done|done|lia|done|]. apply list_fmap_same. intros r Hr. unfold break_on. rewrite decide_False; [done|].
    intros [Hd%list_elem_of_singleton Hr']. apply Hc. by rewrite (Huniq r Hr Hd) in Hr'.
Qed.

Lemma fail_routes_spec id rerr dsts n s0 own v l s :
  inv s0 n ((rerr, v) :: own) s → (∀ d, d ∈ dsts → d ∈ rt_dst <$> rtable s) → error_packet v l →
  (length l + length dsts ≤ AODV_MAX_ERRORS)%nat → (∀ x, x ∈ l → seqno_ok x.2) →
  twp (fail_routes id rerr dsts) s (λ _ s', ∃ v' l', inv s0 n ((rerr, v') :: own) s' ∧ error_packet v' l' ∧
    (length l' ≤ AODV_MAX_ERRORS)%nat ∧ (∀ x, x ∈ l' → seqno_ok x.2) ∧
    routes (rtable s') = break_on dsts id <$> routes (rtable s)).
Proof.
  revert v l s. induction dsts as [|rt dsts IH]; intros v l s Hi Hin Hv Hl Hs; cbn [fail_routes].
  - apply wp_ret. exists v, l. split_and!; [done|done|simpl in Hl; lia|done|]. apply list_fmap_same.
    intros r _. unfold break_on. rewrite decide_False; [done|]. by intros [?%elem_of_nil _].
  - destruct (proj2 (rt_lookup_is_Some rt (rtable s))) as [e He]; [apply Hin; by left|]. simpl in Hl.
    wp_step. eapply wp_the_rt; [done|]. wp_step.
    eapply wp_fail_route; [done|done|done|unfold AODV_MAX_ERRORS in *; lia|done|].
    intros v1 l1 s1 Hi1 Hv1 Hl1 Hs1 Er1.
    assert (rt_dst <$> rtable s1 = rt_dst <$> rtable s) as Ed.
    { rewrite <- !routes_dst, Er1, <- list_fmap_compose. apply list_fmap_ext. intros i r _. simpl.
      unfold break_on. by case_decide. }
    destruct (proj2 (rt_lookup_is_Some rt (rtable s1))) as [e1 He1]; [rewrite Ed; apply Hin; by left|].
    destruct (inv_lookup _ _ _ _ _ _ Hi1 He1) as [Hok1 _].
    wp_step. eapply wp_upd_rt; [done|].
    pose proof (inv_write _ _ _ _ _ _ (pc_delete id) Hi1 He1 ltac:(done) Hok1 ltac:(done)) as Hi2.
    set (s2 := set_rtable _ s1) in *.
    assert (routes (rtable s2) = routes (rtable s1)) as Er2 by by apply routes_write_same.
    eapply wp_mono; [apply (IH v1 l1 s2); [done| |done|lia|done]|].
    + intros d Hd. rewrite <- routes_dst, Er2, routes_dst, Ed. apply Hin. by right.
    + intros _ s3 (v3 & l3 & Hi3 & Hv3 & Hl3 & Hs3 & Er3). exists v3, l3. split_and!; try done.
      by rewrite Er3, Er2, Er1, break_on_cons.
Qed.

Lemma wp_handle_link_failure s0 n own s id Q :
  inv s0 n own s → (length (rtable s) ≤ AODV_MAX_ERRORS)%nat →
  (∀ s', inv s0 n own s' → routes (rtable s') = break id (routes (rtable s)) → Q tt s') →
  twp (handle_link_failure id) s Q.
Proof.
  intros Hi Hn HQ. unfold handle_link_failure. wp_step. eapply wp_alloc; [done|]. intros p v s1 _ Hi1 R1.
  wp_step. eapply wp_no_destinations; [done|]. intros v2 s2 Hi2 Hv2 R2. wp_step.
  change (twp get s2 ?P) with (P s2 s2). cbv beta. wp_step.
  assert (rtable s2 = rtable s) as R by congruence. rewrite <- R in HQ, Hn.
  eapply wp_mono; [eapply (fail_routes_spec id p _ n); [exact Hi2|done|exact Hv2| |set_solver]|].
  { rewrite length_fmap. done. }
  intros _ s3 (v3 & l3 & Hi3 & Hv3 & Hl3 & Hs3 & Er3). rewrite break_all in Er3. simpl.
  wp_step. eapply wp_dest_count; [done|done|]. case_bool_decide.
  - eapply wp_sendError; [done..|]. intros s4 Hi4 R4. apply HQ; congruence.
  - eapply wp_free; [done|]. intros s4 Hi4 R4 _. apply HQ; congruence.
Qed.

Lemma wp_nb_delete s0 n own s id Q :
  inv s0 n own s → (length (rtable s) ≤ AODV_MAX_ERRORS)%nat →
  (∀ s', inv s0 n own s' → routes (rtable s') = break id (routes (rtable s)) → Q tt s') →
  twp (nb_delete id) s Q.
Proof.
  intros Hi Hn HQ. unfold nb_delete. do 4 wp_step.
  assert (even_seqno (u32 (seqno s + 2))) as He by (apply even_plus_2, Hi).
  wp_step. apply wp_assert; [apply bool_decide_eq_true, He|]. wp_step. wp_step.
  pose proof (inv_set_seqno _ _ _ _ _ Hi He) as Hi1. by eapply wp_handle_link_failure.
Qed.

Lemma routes_length t t' : routes t' = routes t → length t' = length t.
Proof. intros E. apply (f_equal length) in E. unfold routes in E. by rewrite !length_fmap in E. Qed.

(** The breaks of several links. *)
Lemma nb_purge_loop_spec l s0 n own s :
  inv s0 n own s → (length (rtable s) ≤ AODV_MAX_ERRORS)%nat →
  twp (nb_purge_loop now l) s (λ _ s', inv s0 n own s' ∧
    routes (rtable s') = foldl (λ rs nb, break (nb_addr nb) rs) (routes (rtable s))
      (filter (λ nb, dle (nb_expire nb) now = true) l)).
Proof.
  revert s. induction l as [|nb l IH]; intros s Hi Hn; cbn [nb_purge_loop]; [by apply wp_ret|].
  rewrite filter_cons. wp_step. destruct (dle (nb_expire nb) now).
  - rewrite decide_True by done. eapply wp_nb_delete; [done|done|]. intros s1 Hi1 R1.
    eapply wp_mono; [apply IH; [done|]|].
    + apply (f_equal length) in R1. unfold routes, break in R1. rewrite !length_fmap in R1. congruence.
    + intros _ s2 [Hi2 R2]. split; [done|]. simpl. by rewrite R2, R1.
  - rewrite decide_False by done. apply wp_ret. by apply IH.
Qed.

(** ** Link failures *)

Lemma wp_rt_ll_failed s0 n p v own s (Q : unit → aodv → Prop) :
  inv s0 n ((p, v) :: own) s → (length (rtable s) ≤ AODV_MAX_ERRORS)%nat →
  (∀ e, rt_lookup (daddr (ip v)) (rtable s) = Some e → num_forwards_ (cmn v) ≤ rt_hops e) →
  (∀ s', inv s0 n own s' →
     routes (rtable s') =
       (if decide (DATA_PACKET (ptype_ (cmn v)) = true ∧ u32 (daddr (ip v)) ≠ IP_BROADCAST ∧
                   daddr (ip v) ∈ r_dst <$> routes (rtable s))
        then break (next_hop_ (cmn v)) (routes (rtable s)) else routes (rtable s)) → Q tt s') →
  twp (rt_ll_failed now p) s Q.
Proof.
  intros Hi Hn Hrep HQ. rewrite routes_dst in HQ. unfold rt_ll_failed. wp_step. eapply wp_packet; [done|]. cbv zeta.
  case_bool_decide as Hd.
  { rewrite decide_False in HQ by (destruct (DATA_PACKET _); naive_solver).
    eapply wp_drop; [done|]. intros s1 Hi1 R1. apply HQ; congruence. }
  unfold rt_find. wp_step. wp_step. destruct (rt_lookup (daddr (ip v)) (rtable s)) as [e|] eqn:E.
  - rewrite decide_True in HQ.
    2:{ split; [destruct (DATA_PACKET _); naive_solver|]. split; [naive_solver|].
        apply rt_lookup_is_Some. by eexists. }
    rewrite bool_decide_false by (specialize (Hrep e eq_refl); lia). wp_step.
    eapply wp_drop; [done|]. intros s1 Hi1 R1. wp_step. eapply wp_drop_ifq; [done|]. intros s2 Hi2 R2.
    assert (rtable s2 = rtable s) as R by congruence. rewrite <- R in *. by eapply wp_nb_delete.
  - rewrite decide_False in HQ.
    2:{ intros (_ & _ & Hx). apply rt_lookup_is_Some in Hx. rewrite E in Hx. by destruct Hx. }
    eapply wp_drop; [done|]. intros s1 Hi1 R1. apply HQ; congruence.
Qed.

(** ** Packets to forward *)

Lemma in_use_weaken s0 n own s : inv s0 n own s → inv s0 64 own s.
Proof.
  intros ((es & ys & Hm & _) & Hr). split; [|done]. exists es, ys. split; [done|].
  destruct Hm as ((_ & Hl & _) & _). unfold AODV_RTQ_MAX_LEN in Hl. lia.
Qed.

Lemma wp_add_destination s0 n p v own s l rt e Q :
  inv s0 n ((p, v) :: own) s → error_packet v l → (length l < AODV_MAX_ERRORS)%nat →
  rt_lookup rt (rtable s) = Some e →
  (∀ v' s', inv s0 n ((p, v') :: own) s' → error_packet v' (l ++ [(rt_dst e, rt_seqno e)]) →
     rtable s' = rtable s → Q tt s') →
  twp (add_destination p rt) s Q.
Proof.
  intros Hi Hv Hl He HQ. pose proof Hi as ((es & ys & Hm & Hn) & _).
  destruct (error_more _ _ _ _ _ _ _ _ _ Hm Hv Hl He) as (v' & s' & E & Hm' & R & Hv').
  eapply wp_done; [done|]. destruct (inv_rest _ _ _ _ _ _ _ _ _ Hi Hm' Hn R). by eapply HQ.
Qed.

Lemma wp_rt_resolve s0 n p v own s Q :
  inv s0 n ((p, v) :: own) s → daddr (ip v) ≠ s32 IP_BROADCAST → ptype_ (cmn v) ≠ PT_AODV →
  (∀ s', inv s0 64 own s' → routes (rtable s') = known (daddr (ip v)) (routes (rtable s)) → Q tt s') →
  twp (rt_resolve now here_addr p) s Q.
Proof.
  intros Hi Hd Hty HQ. unfold rt_resolve. wp_step. eapply wp_upd; [done|done|]. intros s1 Hi1 R1 _.
  wp_step. eapply wp_packet; [done|]. wp_step. eapply wp_ensure; [done|done|]. intros s2 e Hi2 R2 He _ _. simpl in He.
  rewrite R1 in R2. simpl in R2. wp_step. eapply wp_the_rt; [done|].
  wp_step. wp_step. destruct (inv_lookup _ _ _ _ _ _ Hi2 He) as [Hok Hdst]. simpl.
  case_decide as Hup.
  { wp_step. apply wp_assert; [by apply bool_decide_eq_true, up_hops|].
    eapply wp_forward_some; [exact Hi2|done|done|done|done|]. intros s3 Hi3 R3 _.
    apply HQ; [by eapply in_use_weaken|congruence]. }
  case_decide.
  { wp_step. eapply wp_enque; [exact Hi2|done|]. intros s3 Hi3 R3. eapply wp_sendRequest; [done|rewrite R3; by eexists|].
    intros s4 Hi4 [R4 _]. apply HQ; [done|congruence]. }
  case_decide as Hrep.
  { eapply wp_enque; [exact Hi2|done|]. intros s3 Hi3 R3. apply HQ; [done|congruence]. }
  unfold no_route. wp_step. eapply wp_alloc; [done|]. intros q w s3 _ Hi3 R3. rewrite <- R3 in He.
  wp_step. eapply wp_the_rt; [done|]. wp_step. apply wp_assert.
  { apply bool_decide_eq_true. destruct Hok as (_ & _ & [[? _]|[? _]] & _); done. }
  wp_step. eapply wp_no_destinations; [done|]. intros w4 s4 Hi4 Hw4 R4. rewrite <- R4 in He.
  wp_step. eapply wp_add_destination; [done|done|by unfold AODV_MAX_ERRORS; simpl; lia|done|].
  intros w5 s5 Hi5 Hw5 R5. wp_step. eapply wp_sendError; [done|done|by unfold AODV_MAX_ERRORS; simpl; lia| |].
  { intros x ->%list_elem_of_singleton. apply Hok. }
  intros s6 Hi6 R6. eapply wp_drop; [exact Hi6|]. intros s7 Hi7 R7.
  apply HQ; [by eapply in_use_weaken|congruence].
Qed.

(** ** Routes that expire *)

Definition expired t (d : Z) : bool :=
  match rt_lookup d t with Some e => dlt (rt_expire e) now | None => false end.
Definition expire_on t (dsts : list Z) (r : route) : route :=
  if decide (r_dst r ∈ dsts ∧ r_up r = true ∧ expired t (r_dst r) = true) then lost (r_seqno r + 1) r else r.
Definition expire t : list route := expire_on t (rt_dst <$> t) <$> routes t.

Lemma wp_purge_route s0 n own s rt e d Q :
  inv s0 n own s → rt_lookup rt (rtable s) = Some e →
  (∀ d' s', inv s0 n own s' → routes (rtable s') = expire_on (rtable s) [rt] <$> routes (rtable s) →
     (∀ x, x ≠ rt → rt_lookup x (rtable s') = rt_lookup x (rtable s)) → Q d' s') →
  twp (purge_route now here_addr rt d) s Q.
Proof.
  intros Hi He HQ. destruct (inv_lookup _ _ _ _ _ _ Hi He) as [Hok Hdst].
  pose proof (inv_unique _ _ _ _ _ _ Hi He) as Huniq.
  assert (expired (rtable s) rt = dlt (rt_expire e) now) as Ex by (unfold expired; by rewrite He).
  assert (∀ d' s', ¬ (rt_flags e = RTF_UP ∧ dlt (rt_expire e) now = true) →
    inv s0 n own s' → drained rt (rtable s) (rtable s') → Q d' s') as Hsame.
  { intros d' s' Hno Hi' [R L]. apply HQ; [done| |done]. rewrite R. apply list_fmap_same. intros r Hr.
    unfold expire_on. rewrite decide_False; [done|]. intros (Hd%list_elem_of_singleton & Hup & Hx). apply Hno.
    rewrite Hd, Ex in Hx. split; [|done]. rewrite (Huniq r Hr Hd) in Hup. by apply bool_decide_eq_true in Hup. }
  unfold purge_route. wp_step. eapply wp_the_rt; [done|].
  destruct (decide (rt_flags e = RTF_UP)) as [Hup|Hup].
  - rewrite (bool_decide_true (rt_flags e = RTF_UP)) by done. simpl. destruct (up_hops e Hok Hup) as [Hh Hev].
    destruct (dlt (rt_expire e) now) eqn:Hx.
    + wp_step. apply wp_assert; [by apply bool_decide_eq_true|]. wp_step.
      eapply wp_drain_drop; [done|]. intros s1 Hi1 R1. rewrite <- R1 in He.
      destruct (even_next _ Hev) as (Hk & Eu & Hodd).
      set (g := λ e, with_seqno (u32 (rt_seqno e + 1)) e).
      wp_step. eapply wp_upd_rt; [done|]. set (s2 := set_rtable _ s1). change (λ e, _) with g in (value of s2).
      assert (rt_lookup rt (rtable s2) = Some (g e)) as He2 by (simpl; by rewrite rt_lookup_write_eq, He).
      wp_step. eapply wp_the_rt; [exact He2|]. wp_step.
      apply wp_assert; [apply bool_decide_eq_true; simpl; by rewrite Eu|]. wp_step.
      eapply wp_rt_down; [exact He2|simpl; by rewrite Hup|]. apply wp_ret.
      pose proof Hi1 as ((es & ys & Hm & Hn') & _).
      destruct (inv_down s0 n own s1 (set_rtable (rt_write rt down (rtable s2)) s2) n own es ys rt e
        (rt_seqno e + 1) (down ∘ g) Hi1 He Hup Hk ltac:(lia)) as (Hi3 & Et3 & Er3); [|done|exact Hm|done| |].
      { unfold g. simpl. by rewrite Eu. }
      { simpl. by rewrite rt_write_write. }
      apply HQ; [done| |].
      * rewrite Er3, R1. apply list_fmap_ext. intros i r Hr%list_elem_of_lookup_2. unfold expire_on.
        case_decide as Hd.
        -- rewrite (Huniq r Hr Hd), decide_True; [done|]. rewrite <- (Huniq r Hr Hd), Hd. split_and!; [by left| |done].
           rewrite (Huniq r Hr Hd). by apply bool_decide_eq_true.
        -- rewrite decide_False; [done|]. by intros [?%list_elem_of_singleton _].
      * intros x Hne. rewrite Et3, rt_lookup_write, decide_False by done. by rewrite R1.
    + wp_step. apply wp_assert; [by apply bool_decide_eq_true|].
      eapply wp_drain_forward; [|exact Hi|exact He|exact Hup|].
      * intros d0 b s1 e1 Q1 _ _ _ Hf. wp_step. eapply wp_mono; [apply (Hf d0 (dadd d0 ARP_DELAY))|]. done.
      * intros d' s1 Hi1 Hd1. apply Hsame; [by intros [_ ?]|done|done].
  - rewrite bool_decide_false by done. simpl. wp_step. eapply wp_find; [done|].
    intros b. wp_step. destruct b.
    + eapply wp_sendRequest; [done|by eexists|]. intros s1 Hi1 Hd1. apply wp_ret. apply Hsame; [tauto|done|done].
    + apply wp_ret. apply wp_ret. apply Hsame; [tauto|done|done].
Qed.

Lemma purge_routes_spec dsts s0 n own s d :
  inv s0 n own s → NoDup dsts → (∀ x, x ∈ dsts → x ∈ rt_dst <$> rtable s) →
  twp (purge_routes now here_addr dsts d) s (λ _ s', inv s0 n own s' ∧
    routes (rtable s') = expire_on (rtable s) dsts <$> routes (rtable s)).
Proof.
  revert s d. induction dsts as [|rt dsts IH]; intros s d Hi Hnd Hin; cbn [purge_routes].
  - apply wp_ret. split; [done|]. apply list_fmap_same. intros r _. unfold expire_on. rewrite decide_False; [done|].
    by intros [?%elem_of_nil _].
  - apply NoDup_cons in Hnd as [Hrt Hnd].
    destruct (proj2 (rt_lookup_is_Some rt (rtable s))) as [e He]; [apply Hin; by left|].
    wp_step. eapply wp_purge_route; [done|done|]. intros d' s1 Hi1 R1 L1.
    eapply wp_mono; [apply IH; [done|done|]|].
    + intros x Hx. rewrite <- routes_dst, R1, <- list_fmap_compose.
      replace (r_dst ∘ expire_on (rtable s) [rt] <$> routes (rtable s)) with (r_dst <$> routes (rtable s)).
      { rewrite routes_dst. apply Hin. by right. }
      apply list_fmap_ext. intros i r _. simpl. unfold expire_on. by case_decide.
    + intros _ s2 [Hi2 R2]. split; [done|]. rewrite R2, R1, <- list_fmap_compose. apply list_fmap_ext.
      intros i r _. simpl.
      assert (∀ x, x ∈ dsts → expired (rtable s1) x = expired (rtable s) x) as Hsame.
      { intros x Hx. unfold expired. rewrite L1; [done|]. by intros ->. }
      unfold expire_on at 2. case_decide as Hc.
      * destruct Hc as (Hr%list_elem_of_singleton & Hup & Hx). unfold expire_on. simpl.
        rewrite decide_False by (by intros (_ & ? & _)). rewrite decide_True; [done|].
        split_and!; [rewrite Hr; by left|done|done].
      * unfold expire_on. apply decide_ext. split.
        -- intros (Hr & Hup & Hx). rewrite Hsame in Hx by done. split_and!; [by right|done|done].
        -- intros ([Hr|Hr]%elem_of_cons & Hup & Hx); [|by rewrite Hsame].
           destruct Hc. rewrite Hr in *. split_and!; [by apply list_elem_of_singleton|done|done].
Qed.

Lemma wp_rt_purge s0 n own s (Q : unit → aodv → Prop) :
  inv s0 n own s → (∀ s', inv s0 n own s' → routes (rtable s') = expire (rtable s) → Q tt s') →
  twp (rt_purge now here_addr) s Q.
Proof.
  intros Hi HQ. unfold rt_purge. wp_step. change (twp get s ?P) with (P s s). cbv beta.
  eapply wp_mono; [apply (purge_routes_spec _ s0 n own); [done|by apply inv_table in Hi as [? _]|done]|].
  intros [] s' [Hi' R]. by apply HQ.
Qed.

(** ** Routes that are learned *)

Definition learn_on (d k h next : Z) (r : route) : route :=
  if decide (r_dst r = d ∧ better k h r) then Route d k h next true else r.

(** The route heard of is better. *)
Lemma wp_rt_update s0 n own s d e k h next x Q :
  inv s0 n own s → rt_lookup d (rtable s) = Some e → even_seqno k → 0 ≤ h ≤ B → better k h (route_of e) →
  (∀ s' e', inv s0 n own s' → routes (rtable s') = learn_on d k h next <$> routes (rtable s) →
     (∀ y, y ≠ d → rt_lookup y (rtable s') = rt_lookup y (rtable s)) →
     rt_lookup d (rtable s') = Some e' → rt_flags e' = RTF_UP → Q tt s') →
  twp (rt_update d k h next x) s Q.
Proof.
  intros Hi He Hk Hh Hb HQ. destruct (inv_lookup _ _ _ _ _ _ Hi He) as [Hok Hdst]. unfold rt_update.
  pose proof (inv_unique _ _ _ _ _ _ Hi He) as Huniq. eapply wp_upd_rt; [done|].
  set (f := λ e, with_way (u16 h) (rt_last_hop_count e) next RTF_UP x (with_seqno (u32 k) e)).
  assert (u16 h = h) as Eh by (apply wrap_small; lia).
  assert (u32 k = k) as Ek by (apply wrap_small, Hk).
  assert (keeps_dst f) as Hf by done.
  eapply (HQ _ (f e)).
  - eapply inv_write; [done|done|done| |].
    + destruct Hok as (_ & O2 & _ & O4 & O5 & O6 & O7). unfold f. rewrite Eh, Ek.
      refine (conj (proj1 Hk) (conj O2 (conj _ (conj O4 (conj O5 (conj O6 O7)))))). left. split; [done|].
      split; [apply Hk|done].
    + unfold f. simpl. rewrite Ek. destruct Hb as [Hb|[Hb _]]; simpl in Hb; lia.
  - eapply routes_write; [by destruct (inv_table _ _ _ _ Hi)|done| |].
    + unfold f, learn_on, route_of. simpl. rewrite decide_True by (split; [done|exact Hb]). by rewrite Eh, Ek, Hdst.
    + intros r _ Hr. unfold learn_on. rewrite decide_False; [done|]. by intros [? _].
  - intros y Hy. simpl. by rewrite rt_lookup_write, decide_False.
  - simpl. by rewrite rt_lookup_write_eq, He.
  - done.
Qed.

(** The route heard of is not. *)
Lemma learn_nothing s0 n own s d e k h next :
  inv s0 n own s → rt_lookup d (rtable s) = Some e → ¬ better k h (route_of e) →
  routes (rtable s) = learn_on d k h next <$> routes (rtable s).
Proof.
  intros Hi He Hb. apply list_fmap_same. intros r Hr. unfold learn_on. rewrite decide_False; [done|].
  intros [Hd Hr']. by rewrite (inv_unique _ _ _ _ _ _ Hi He r Hr Hd) in Hr'.
Qed.

Lemma wp_reverse_route s0 n p v own s rq Q :
  inv s0 n ((p, v) :: own) s → rq_src rq ≠ s32 IP_BROADCAST → even_seqno (rq_src_seqno rq) →
  0 ≤ rq_hop_count rq ≤ B →
  (∀ s', inv s0 n ((p, v) :: own) s' →
     routes (rtable s') = learn (rq_src rq) (rq_src_seqno rq) (rq_hop_count rq) (saddr (ip v)) (routes (rtable s)) →
     (∀ d, d ≠ rq_src rq → rt_lookup d (rtable s') = rt_lookup d (rtable s)) →
     is_Some (rt_lookup (rq_src rq) (rtable s')) → Q tt s') →
  twp (reverse_route now here_addr p rq) s Q.
Proof.
  intros Hi Hsrc Hsq Hh HQ. unfold reverse_route. cbv zeta. set (d := rq_src rq) in *. wp_step.
  eapply wp_ensure; [done|done|]. intros s1 e1 Hi1 R1 He1 L1 _. wp_step. eapply wp_upd_rt; [done|].
  set (f := λ e, with_expire _ e). assert (keeps_dst f) as Hf by done.
  destruct (inv_lookup _ _ _ _ _ _ Hi1 He1) as [Hok1 _].
  assert (entry_ok (f e1)) as Hokf by exact Hok1.
  pose proof (inv_write _ _ _ _ _ _ _ Hi1 He1 Hf Hokf ltac:(done)) as Hi2.
  set (s2 := set_rtable _ s1) in *. wp_step.
  assert (drained d (rtable s1) (rtable s2)) as D2 by by apply drained_write.
  assert (rt_lookup d (rtable s2) = Some (f e1)) as He2 by (simpl; by rewrite rt_lookup_write_eq, He1).
  eapply wp_the_rt; [exact He2|]. change (rt_seqno (f e1)) with (r_seqno (route_of (f e1))).
  change (rt_hops (f e1)) with (r_hops (route_of (f e1))).
  assert (learn d (rq_src_seqno rq) (rq_hop_count rq) (saddr (ip v)) (routes (rtable s)) =
    learn_on d (rq_src_seqno rq) (rq_hop_count rq) (saddr (ip v)) <$> routes (rtable s2)) as El.
  { destruct D2 as [D2 _]. by rewrite D2, R1. }
  assert (∀ x, x ≠ d → rt_lookup x (rtable s2) = rt_lookup x (rtable s)) as L2.
  { intros x Hx. destruct D2 as [_ D2]. by rewrite D2, L1. }
  case_bool_decide as Hb.
  2:{ apply wp_ret. apply HQ; [done| |done|by eexists]. rewrite El. by eapply learn_nothing. }
  wp_step. eapply wp_packet; [done|]. wp_step. eapply wp_rt_update; [done|done|done|lia|exact Hb|].
  intros s3 e3 Hi3 R3 L3 He3 Hup3. wp_step.
  assert (∀ s4 e4, inv s0 n ((p, v) :: own) s4 → drained d (rtable s3) (rtable s4) →
    rt_lookup d (rtable s4) = Some e4 → rt_flags e4 = RTF_UP → twp (
      e ← the_rt d;
      _ ← assert_ (bool_decide (rt_flags e = RTF_UP));
      _ ← drain now d (λ d' b,
          e ← the_rt d;
          if decide (rt_flags e = RTF_UP) then
            _ ← assert_ (bool_decide (rt_hops e ≠ INFINITY2));
            _ ← forward now here_addr (Some d) b NO_DELAY;
            mret d'
          else mret d') d_zero;
      skip) s4 Q) as Hrest.
  { intros s4 e4 Hi4 D4 He4 Hup4. wp_step. eapply wp_the_rt; [done|]. wp_step.
    apply wp_assert; [by apply bool_decide_eq_true|]. wp_step.
    eapply wp_drain_forward; [|exact Hi4|exact He4|exact Hup4|].
    - intros d' b s5 e5 Q5 He5 Hup5 Hh5 Hfw. wp_step. eapply wp_the_rt; [done|]. rewrite decide_True by done.
      wp_step. apply wp_assert; [by apply bool_decide_eq_true|]. wp_step.
      eapply wp_mono; [apply (Hfw NO_DELAY d')|done].
    - intros _ s5 Hi5 D5. apply wp_ret. assert (drained d (rtable s3) (rtable s5)) as [R L] by by etrans.
      apply HQ; [done|by rewrite R, R3, El| |].
      + intros x Hx. by rewrite L, L3, L2.
      + destruct (drained_lookup d (rtable s3) (rtable s5) e3) as (e5 & -> & _); [by split|done|by eexists]. }
  case_match.
  - eapply wp_upd_rt; [done|]. destruct (inv_lookup _ _ _ _ _ _ Hi3 He3) as [Hok3 _].
    set (g := λ e, with_expire (dadd now ACTIVE_ROUTE_TIMEOUT) (with_request d_zero 0 (rq_hop_count rq) e)).
    assert (keeps_dst g) as Hg by done.
    assert (entry_ok (g e3)) as Hokg.
    { destruct Hok3 as (O1 & O2 & O3 & O4 & _ & O6 & O7).
      refine (conj O1 (conj O2 (conj O3 (conj O4 (conj _ (conj O6 O7)))))). simpl. lia. }
    eapply (Hrest _ (g e3)); [by eapply inv_write|by apply drained_write| |done].
    simpl. by rewrite rt_lookup_write_eq, He3.
  - by apply (Hrest s3 e3).
Qed.

(** ** Receiving requests *)

(** The members that only matter for counting lives. *)
Lemma wp_pc_insert s0 n own s d id (Q : unit → aodv → Prop) :
  inv s0 n own s → is_Some (rt_lookup d (rtable s)) →
  (∀ s', inv s0 n own s' → routes (rtable s') = routes (rtable s) → rest (set_rtable (rtable s) s') = rest s → Q tt s') →
  twp (upd_rt d (pc_insert id)) s Q.
Proof.
  intros Hi [e He] HQ. destruct (inv_lookup _ _ _ _ _ _ Hi He) as [Hok _]. eapply wp_upd_rt; [done|].
  assert (∀ e, route_of (pc_insert id e) = route_of e) as Hr by (intros x; unfold pc_insert; by case_match).
  assert (keeps_dst (pc_insert id)) as Hk by (intros x; unfold pc_insert; by case_match).
  apply HQ; [|by apply routes_write_same|by destruct s].
  eapply inv_write; [done|done|done| |]; unfold pc_insert; by case_match.
Qed.

Lemma wp_answer_request s0 n p v own s rq (Q : unit → aodv → Prop) :
  inv s0 n ((p, v) :: own) s → legal_header B (ttl_ (ip v) + 1) (RequestHdr rq) →
  sport (ip v) = RT_PORT → dport (ip v) = RT_PORT →
  is_Some (rt_lookup (rq_src rq) (rtable s)) →
  (∀ e, rt_lookup (rq_dst rq) (rtable s) = Some e → rt_flags e = RTF_UP → is_Some (remaining now e)) →
  (∀ s', inv s0 n own s' → routes (rtable s') = routes (rtable s) → Q tt s') →
  twp (answer_request now here_addr p rq) s Q.
Proof.
  intros Hi (L1 & L2 & L3 & L4 & L5 & L6) Hsp Hdp Hsrc Hlife HQ. unfold answer_request. wp_step. wp_step.
  unfold rt_find. wp_step. wp_step. cbv zeta.
  case_decide as Hme.
  - wp_step. wp_step. cbv zeta.
    set (k := if decide (u32 (Z.max (seqno s) (rq_dst_seqno rq) + 1) `mod` 2 = 0)
              then u32 (Z.max (seqno s) (rq_dst_seqno rq) + 1)
              else u32 (u32 (Z.max (seqno s) (rq_dst_seqno rq) + 1) + 1)).
    assert (even_seqno k) as Hk.
    { unfold k. case_decide as He; [split; [by apply wrap_range|done]|]. apply even_u32.
      rewrite Zplus_mod. pose proof (Z.mod_pos_bound (u32 (Z.max (seqno s) (rq_dst_seqno rq) + 1)) 2 ltac:(lia)).
      assert (u32 (Z.max (seqno s) (rq_dst_seqno rq) + 1) `mod` 2 = 1) as -> by lia. done. }
    wp_step. wp_step. pose proof (inv_set_seqno _ _ _ _ _ Hi Hk) as Hi1.
    wp_step. eapply wp_sendReply; [exact Hi1|done|lia|apply Hi|done|]. intros s2 Hi2 R2.
    eapply wp_free; [done|]. intros s3 Hi3 R3 _. apply HQ; [done|by rewrite R3, R2].
  - destruct (rt_lookup (rq_dst rq) (rtable s)) as [e|] eqn:E; [case_bool_decide as Hfresh|].
    + destruct (inv_lookup _ _ _ _ _ _ Hi E) as [Hok Hdst]. destruct Hfresh as [Hh _].
      pose proof (hops_up e Hok Hh) as Hup. pose proof (hops_range e Hok Hh).
      destruct (Hlife e eq_refl Hup) as [life Elife].
      wp_step. eapply wp_the_rt; [done|]. rewrite Elife. wp_step. apply wp_ret. wp_step.
      eapply wp_sendReply; [exact Hi|done|lia|rewrite <- Hdst; apply Hok|by apply up_hops|]. intros s1 Hi1 R1.
      wp_step. rewrite <- R1 in E, Hsrc. destruct Hsrc as [e0 He0]. eapply wp_the_rt; [done|].
      wp_step. eapply wp_pc_insert; [done|by eexists|]. intros s2 Hi2 R2 _.
      destruct (routes_lookup _ _ _ _ R2 E) as (e2 & He2 & _).
      destruct (routes_lookup _ _ _ _ R2 He0) as (e3 & He3 & _).
      wp_step. eapply wp_the_rt; [done|]. wp_step. eapply wp_pc_insert; [done|by eexists|]. intros s3 Hi3 R3 _.
      eapply wp_free; [done|]. intros s4 Hi4 R4 _. apply HQ; congruence.
    + assert (seqno_ok (Z.max (rt_seqno e) (rq_dst_seqno rq))) as Hk.
      { destruct (inv_lookup _ _ _ _ _ _ Hi E) as [(Hs & _) _]. unfold seqno_ok in *. lia. }
      wp_step. eapply wp_upd; [done|done|]. intros s1 Hi1 R1 _. eapply wp_forward_none; [exact Hi1|done| |].
      * intros _ Httl. simpl in Httl. split_and!; [done|done|]. simpl.
        unfold NETWORK_DIAMETER in *. unfold u8. rewrite wrap_small by lia. split_and!; try done; try lia; apply Hk || apply L5.
      * intros s2 Hi2 R2. apply HQ; [done|by rewrite R2, R1].
    + wp_step. eapply wp_upd; [done|done|]. intros s1 Hi1 R1 _. eapply wp_forward_none; [exact Hi1|done| |].
      * intros _ Httl. simpl in Httl. split_and!; [done|done|]. simpl.
        unfold NETWORK_DIAMETER in *. unfold u8. rewrite wrap_small by lia. split_and!; try done; try lia; apply L6 || apply L5.
      * intros s2 Hi2 R2. apply HQ; [done|by rewrite R2, R1].
Qed.

(** What a handler leaves behind: [bs] are the requests known. *)
Definition after (own : list (addr * packet)) s (bs : list BroadcastID) s' : Prop :=
  mem 64 own s' ∧ good s' ∧ newer (rtable s) (rtable s') ∧ index s' = index s ∧ bihead s' = bs.

Lemma inv_after s n own s' : inv s n own s' → after own s (bihead s) s'.
Proof. intros Hi. apply in_use_weaken in Hi. exact Hi. Qed.

Definition is_known (s : aodv) (rq : hdr_aodv_request) : bool :=
  existsb (λ b, bool_decide (bi_src b = rq_src rq ∧ bi_id b = rq_bcast_id rq)) (bihead s).

(** A request of this node, or one that was heard before, is ignored. *)
Definition ignored s (rq : hdr_aodv_request) : bool := bool_decide (rq_src rq = index s) || is_known s rq.

Lemma wp_recvRequest n p v own s rq (Q : unit → aodv → Prop) :
  inv s n ((p, v) :: own) s → legal_header B (ttl_ (ip v) + 1) (RequestHdr rq) →
  sport (ip v) = RT_PORT → dport (ip v) = RT_PORT →
  (∀ e, rt_lookup (rq_dst rq) (rtable s) = Some e → rt_flags e = RTF_UP → is_Some (remaining now e)) →
  rq_dst rq ≠ rq_src rq →
  (∀ s', after own s (if ignored s rq then bihead s
                      else MkBroadcastID (rq_src rq) (rq_bcast_id rq) (dadd now BCAST_ID_SAVE) :: bihead s) s' →
     routes (rtable s') =
       (if ignored s rq then routes (rtable s)
        else learn (rq_src rq) (rq_src_seqno rq) (rq_hop_count rq) (saddr (ip v)) (routes (rtable s))) →
     (ignored s rq = true → rest s' = rest s) → Q tt s') →
  twp (recvRequest now here_addr p rq) s Q.
Proof.
  intros Hi Hl Hsp Hdp Hlife Hne HQ. unfold recvRequest. wp_step. wp_step.
  unfold ignored in HQ. destruct (decide (rq_src rq = index s)) as [Hme|Hme].
  { rewrite bool_decide_true in HQ by done. simpl in HQ. eapply wp_free; [done|]. intros s1 Hi1 R1 R.
    apply HQ; [by apply (inv_after s n)|by rewrite R1|done]. }
  rewrite bool_decide_false in HQ by done. simpl in HQ.
  wp_step. unfold id_lookup. wp_step. fold (is_known s rq). destruct (is_known s rq) eqn:Ek.
  { eapply wp_free; [done|]. intros s1 Hi1 R1 R.
    apply HQ; [by apply (inv_after s n)|by rewrite R1|done]. }
  wp_step. unfold id_insert. wp_step.
  set (s1 := set_bihead _ s). destruct Hl as (L1 & L2 & L3 & L4 & L5 & L6).
  assert (inv s1 n ((p, v) :: own) s1) as Hi1.
  { destruct Hi as (Hm & Hg & _). split; [exact Hm|]. split; [exact Hg|]. by split_and!. }
  wp_step. eapply wp_reverse_route; [exact Hi1|done|done|unfold NETWORK_DIAMETER in *; lia|].
  intros s2 Hi2 R2 L2' Hsrc. eapply wp_answer_request; [done|done|done|done|done| |].
  - intros e He. rewrite L2' in He by done. by apply Hlife.
  - intros s3 Hi3 R3. apply HQ; [|by rewrite R3|done].
    exact (in_use_weaken _ _ _ _ Hi3).
Qed.

(** ** Receiving replies *)

Lemma wp_latency s0 n own s d ts h (Q : unit → aodv → Prop) :
  inv s0 n own s → is_Some (rt_lookup d (rtable s)) →
  (∀ s', inv s0 n own s' → drained d (rtable s) (rtable s') → Q tt s') →
  twp (e ← the_rt d;
       _ ← within (at_ (rt_disc_latency e) (u8 (hist_indx e)));
       let l := ddiv (dsub now ts) (d_of_Z h) in
       upd_rt d (λ e, with_latency (<[Z.to_nat (u8 (hist_indx e)) := l]> (rt_disc_latency e))
                        (s8 (Z.rem (hist_indx e + 1) MAX_HISTORY)) e)) s Q.
Proof.
  intros Hi [e He] HQ. destruct (inv_lookup _ _ _ _ _ _ Hi He) as [Hok _].
  pose proof Hok as (O1 & O2 & O3 & O4 & O5 & O6 & O7).
  assert (u8 (hist_indx e) = hist_indx e) as Eh by (apply wrap_small; lia).
  wp_step. eapply wp_the_rt; [done|]. wp_step. unfold at_. rewrite decide_True, Eh by (rewrite ?Eh; lia).
  destruct (lookup_lt_is_Some_2 (rt_disc_latency e) (Z.to_nat (hist_indx e))) as [x ->]; [lia|]. apply wp_ret. cbv zeta.
  eapply wp_upd_rt; [done|]. apply HQ; [|by apply drained_write].
  eapply inv_write; [done|done|done| |done]. cbv beta. rewrite Eh.
  refine (conj O1 (conj O2 (conj O3 (conj O4 (conj O5 (conj _ _)))))); simpl.
  - by rewrite length_insert.
  - assert (0 ≤ Z.rem (hist_indx e + 1) MAX_HISTORY < 3).
    { unfold MAX_HISTORY. apply Z.rem_bound_pos; lia. }
    unfold s8. rewrite swrap_small; lia.
Qed.

Lemma wp_forward_route s0 n p v own s rp (Q : bool → aodv → Prop) :
  inv s0 n ((p, v) :: own) s → rp_dst rp ≠ s32 IP_BROADCAST → even_seqno (rp_dst_seqno rp) →
  0 ≤ rp_hop_count rp ≤ B →
  (∀ b s', inv s0 n ((p, v) :: own) s' →
     routes (rtable s') = learn (rp_dst rp) (rp_dst_seqno rp) (rp_hop_count rp) (rp_src rp) (routes (rtable s)) →
     is_Some (rt_lookup (rp_dst rp) (rtable s')) → Q b s') →
  twp (forward_route now here_addr p rp) s Q.
Proof.
  intros Hi Hd Hk Hh HQ. unfold forward_route. cbv zeta. set (d := rp_dst rp) in *. wp_step.
  eapply wp_ensure; [done|done|]. intros s1 e1 Hi1 R1 He1 _ _. wp_step. eapply wp_the_rt; [done|].
  wp_step. eapply wp_packet; [done|]. wp_step. wp_step. unfold learn in HQ. rewrite <- R1 in HQ.
  change (λ r : route, if decide (r_dst r = d ∧ better (rp_dst_seqno rp) (rp_hop_count rp) r)
    then Route d (rp_dst_seqno rp) (rp_hop_count rp) (rp_src rp) true else r)
    with (learn_on d (rp_dst_seqno rp) (rp_hop_count rp) (rp_src rp)) in HQ.
  case_bool_decide as Hb.
  2:{ apply wp_ret. apply HQ; [done| |by eexists]. eapply learn_nothing; [done|done|].
      unfold better. simpl. lia. }
  wp_step. eapply wp_rt_update; [done|done|done|lia|unfold better; simpl; lia|].
  intros s2 e2 Hi2 R2 _ He2 Hup2. wp_step. eapply wp_upd_rt; [done|].
  destruct (inv_lookup _ _ _ _ _ _ Hi2 He2) as [Hok2 _].
  set (f := with_request d_zero 0 (rp_hop_count rp)). assert (keeps_dst f) as Hf by done.
  assert (entry_ok (f e2)) as Hokf.
  { destruct Hok2 as (O1 & O2 & O3 & O4 & _ & O6 & O7).
    refine (conj O1 (conj O2 (conj O3 (conj O4 (conj _ (conj O6 O7)))))). simpl. lia. }
  pose proof (inv_write _ _ _ _ _ _ _ Hi2 He2 Hf Hokf ltac:(done)) as Hi3.
  set (s3 := set_rtable _ s2) in *.
  assert (drained d (rtable s2) (rtable s3)) as D3 by by apply drained_write.
  assert (∀ s4, inv s0 n ((p, v) :: own) s4 → drained d (rtable s2) (rtable s4) → twp (
    _ ← drain now d (λ d' b,
          e ← the_rt d;
          if decide (rt_hops e ≠ INFINITY2) then
            _ ← assert_ (bool_decide (rt_flags e = RTF_UP));
            _ ← forward now here_addr (Some d) b d';
            mret (dadd d' ARP_DELAY)
          else mret d') d_zero;
    mret true) s4 Q) as Hrest.
  { intros s4 Hi4 D4. destruct (drained_lookup _ _ _ _ D4 He2) as (e4 & He4 & Hr4).
    destruct (route_up _ _ Hr4) as (Hup4 & _). wp_step.
    eapply wp_drain_forward; [|exact Hi4|exact He4|by apply Hup4|].
    - intros d' b s5 e5 Q5 He5 Hup5 Hh5 Hfw. wp_step. eapply wp_the_rt; [done|]. rewrite decide_True by done.
      wp_step. apply wp_assert; [by apply bool_decide_eq_true|]. wp_step.
      eapply wp_mono; [apply (Hfw d' (dadd d' ARP_DELAY))|done].
    - intros _ s5 Hi5 D5. apply wp_ret. assert (drained d (rtable s2) (rtable s5)) as D by by etrans.
      apply HQ; [done|by rewrite (proj1 D), R2|].
      destruct (drained_lookup _ _ _ _ D He2) as (e5 & -> & _). by eexists. }
  wp_step. case_decide.
  - eapply wp_latency; [exact Hi3| |].
    + destruct (drained_lookup _ _ _ _ D3 He2) as (e3 & -> & _). by eexists.
    + intros s4 Hi4 D4. apply Hrest; [done|by etrans].
  - by apply Hrest.
Qed.

Lemma wp_recvReply s0 n p v own s rp (Q : unit → aodv → Prop) :
  inv s0 n ((p, v) :: own) s → rp_type rp = AODVTYPE_RREP → rp_dst rp ≠ s32 IP_BROADCAST →
  even_seqno (rp_dst_seqno rp) → 0 ≤ rp_hop_count rp ≤ B → sport (ip v) = RT_PORT → dport (ip v) = RT_PORT →
  (∀ s', inv s0 n own s' →
     routes (rtable s') = learn (rp_dst rp) (rp_dst_seqno rp) (rp_hop_count rp) (rp_src rp) (routes (rtable s)) →
     Q tt s') →
  twp (recvReply now here_addr p rp) s Q.
Proof.
  intros Hi Hty Hd Hk Hh Hsp Hdp HQ. unfold recvReply. wp_step. eapply wp_forward_route; [done|done|done|done|].
  intros new s1 Hi1 R1 Hdst. wp_step. eapply wp_packet; [done|]. wp_step. wp_step. case_match.
  { eapply wp_free; [done|]. intros s2 Hi2 R2 _. apply HQ; [done|by rewrite R2]. }
  unfold rt_find. wp_step. wp_step.
  assert (twp (drop p DROP_RTR_NO_ROUTE) s1 Q) as Hdrop.
  { eapply wp_drop; [done|]. intros s2 Hi2 R2. apply HQ; [done|by rewrite R2]. }
  destruct (rt_lookup (daddr (ip v)) (rtable s1)) as [e0|] eqn:E0; [destruct (decide (rt_hops e0 ≠ INFINITY2)) as [Hh0|]|]; [|exact Hdrop..].
  destruct (inv_lookup _ _ _ _ _ _ Hi1 E0) as [Hok0 Hd0]. pose proof (hops_up e0 Hok0 Hh0) as Hup0.
  wp_step. apply wp_assert; [by apply bool_decide_eq_true|]. wp_step.
  eapply wp_upd; [done|done|]. intros s2 Hi2 R2 _. rewrite <- R2 in E0, Hdst.
  wp_step. eapply wp_forward_some; [exact Hi2|exact E0|done|simpl; rewrite <- Hd0; apply Hok0| |].
  - intros _ _. split_and!; [done|done|]. simpl. left. unfold u8. rewrite wrap_small by lia.
    split_and!; try done; try lia; apply Hk.
  - intros s3 Hi3 R3 _. destruct (routes_lookup _ _ _ _ R3 E0) as (e3 & He3 & _).
    wp_step. eapply wp_the_rt; [exact He3|]. destruct Hdst as [x Hx].
    destruct (routes_lookup _ _ _ _ R3 Hx) as (x3 & Hx3 & _).
    eapply wp_pc_insert; [done|by eexists|]. intros s4 Hi4 R4 _. apply HQ; [done|congruence].
Qed.

(** ** Receiving errors *)

Lemma wp_lose_route s0 n rerr w own s l from rt k (Q : unit → aodv → Prop) :
  inv s0 n ((rerr, w) :: own) s → error_packet w l → (length l < AODV_MAX_ERRORS)%nat →
  (∀ x, x ∈ l → seqno_ok x.2) → seqno_ok k →
  (∀ w' l' s', inv s0 n ((rerr, w') :: own) s' → error_packet w' l' → (length l' ≤ S (length l))%nat →
     (∀ x, x ∈ l' → seqno_ok x.2) → routes (rtable s') = lose from (routes (rtable s)) (rt, k) → Q tt s') →
  twp (lose_route from rerr rt k) s Q.
Proof.
  intros Hi Hw Hl Hs Hk HQ. unfold lose_route, rt_find. wp_step. wp_step.
  assert ((∀ e, rt_lookup rt (rtable s) = Some e →
    ¬ (rt_hops e ≠ INFINITY2 ∧ rt_nexthop e = from ∧ rt_seqno e ≤ k)) → Q tt s) as Hsame.
  { intros Hno. eapply HQ; [done|done|lia|done|]. apply list_fmap_same.
    intros r (x & -> & Hx)%list_elem_of_fmap. rewrite decide_False; [done|]. simpl. intros [Hd Hc].
    eapply Hno; [|exact Hc]. rewrite <- Hd. destruct (inv_table _ _ _ _ Hi) as [Hnd _]. by apply rt_lookup_elem. }
  destruct (rt_lookup rt (rtable s)) as [e|] eqn:He; [|by apply wp_ret, Hsame].
  case_bool_decide as Hc; [|apply wp_ret, Hsame; by intros x [= <-]]. clear Hsame.
  destruct (inv_lookup _ _ _ _ _ _ Hi He) as [Hok Hdst]. destruct Hc as (Hh & Hn & Hle).
  pose proof (hops_up e Hok Hh) as Hup. destruct (up_hops e Hok Hup) as [_ Hev].
  wp_step. apply wp_assert; [by apply bool_decide_eq_true|]. wp_step.
  apply wp_assert; [by apply bool_decide_eq_true, Hev|]. wp_step. eapply wp_upd_rt; [done|].
  set (s1 := set_rtable _ s).
  assert (rt_lookup rt (rtable s1) = Some (with_seqno k e)) as He1 by (simpl; by rewrite rt_lookup_write_eq, He).
  wp_step. eapply wp_rt_down; [exact He1|simpl; by rewrite Hup|].
  pose proof Hi as ((es & ys & Hm & Hn') & _).
  destruct (inv_down s0 n _ s (set_rtable (rt_write rt down (rtable s1)) s1) n ((rerr, w) :: own) es ys rt e
    k (down ∘ with_seqno k) Hi He Hup Hk Hle) as (Hi2 & Et2 & Er2); [done|done|exact Hm|done| |].
  { simpl. by rewrite rt_write_write. }
  set (s2 := set_rtable _ s1) in *.
  assert (routes (rtable s2) = lose from (routes (rtable s)) (rt, k)) as El.
  { rewrite Er2. apply list_fmap_ext. intros i r Hr%list_elem_of_lookup_2. simpl. case_decide as Hd.
    - rewrite decide_True; [done|]. by rewrite (inv_unique _ _ _ _ _ _ Hi He r Hr Hd).
    - rewrite decide_False; [done|]. by intros [? _]. }
  wp_step. eapply wp_drop_ifq; [exact Hi2|]. intros s3 Hi3 R3.
  destruct (proj2 (rt_lookup_is_Some rt (rtable s3))) as [e3 He3].
  { rewrite R3, <- routes_dst, El. unfold lose. rewrite <- list_fmap_compose.
    replace (r_dst ∘ _ <$> routes (rtable s)) with (r_dst <$> routes (rtable s)).
    - rewrite routes_dst. apply rt_lookup_is_Some. by eexists.
    - apply list_fmap_ext. intros i r _. simpl. by case_decide. }
  wp_step. eapply wp_the_rt; [exact He3|]. destruct (inv_lookup _ _ _ _ _ _ Hi3 He3) as [Hok3 _]. case_match.
  { apply wp_ret. eapply HQ; [done|done|lia|done|by rewrite R3]. }
  wp_step. eapply wp_add_destination; [done|done|done|done|]. intros w4 s4 Hi4 Hw4 R4. rewrite <- R4 in He3.
  eapply wp_upd_rt; [done|]. eapply HQ; [|done|rewrite length_app; simpl; lia| |].
  - by eapply inv_write.
  - intros x [Hx| ->%list_elem_of_singleton]%elem_of_app; [by apply Hs|apply Hok3].
  - simpl. rewrite routes_write_same by done. by rewrite R4, R3.
Qed.

Lemma lose_routes_spec dsts s0 n rerr w own s l from :
  inv s0 n ((rerr, w) :: own) s → error_packet w l → (length l + length dsts ≤ AODV_MAX_ERRORS)%nat →
  (∀ x, x ∈ l → seqno_ok x.2) → (∀ x, x ∈ dsts → seqno_ok x.2) →
  twp (lose_routes from rerr dsts) s (λ _ s', ∃ w' l', inv s0 n ((rerr, w') :: own) s' ∧ error_packet w' l' ∧
    (length l' ≤ AODV_MAX_ERRORS)%nat ∧ (∀ x, x ∈ l' → seqno_ok x.2) ∧
    routes (rtable s') = foldl (lose from) (routes (rtable s)) dsts).
Proof.
  revert w l s. induction dsts as [|[rt k] dsts IH]; intros w l s Hi Hw Hl Hs Hd; cbn [lose_routes].
  { apply wp_ret. exists w, l. split_and!; [done|done|simpl in Hl; lia|done..]. }
  simpl in Hl. wp_step. eapply wp_lose_route; [done|done|lia|done|by apply (Hd (rt, k)); left|].
  intros w1 l1 s1 Hi1 Hw1 Hl1 Hs1 R1. eapply wp_mono; [apply (IH w1 l1 s1)|]; [done|done|lia|done| |].
  { intros x Hx. apply Hd. by right. }
  intros _ s2 (w2 & l2 & Hi2 & Hw2 & Hl2 & Hs2 & R2). exists w2, l2. split_and!; [done..|]. simpl. by rewrite R2, R1.
Qed.

Lemma wp_recvError s0 n p v own s re (Q : unit → aodv → Prop) :
  inv s0 n ((p, v) :: own) s → legal_header B (ttl_ (ip v)) (ErrorHdr re) →
  (∀ s', inv s0 n own s' →
     routes (rtable s') = foldl (lose (saddr (ip v))) (routes (rtable s)) (unreachable re) → Q tt s') →
  twp (recvError p re) s Q.
Proof.
  intros Hi (_ & Hl & Hs) HQ. unfold recvError. wp_step. eapply wp_packet; [done|]. wp_step. eapply wp_alloc; [done|].
  intros q w s1 _ Hi1 R1. wp_step. eapply wp_no_destinations; [done|]. intros w2 s2 Hi2 Hw2 R2.
  wp_step. eapply wp_mono; [apply (lose_routes_spec _ s0 n q w2 ((p, v) :: own) s2 []); [done|done|done|set_solver|done]|].
  intros _ s3 (w3 & l3 & Hi3 & Hw3 & Hl3 & Hs3 & R3). rewrite R2, R1 in R3. simpl.
  wp_step. eapply wp_dest_count; [done|done|]. wp_step.
  assert (∀ s4, inv s0 n ((p, v) :: own) s4 → rtable s4 = rtable s3 → twp (on_pool (free p)) s4 Q) as Hfree.
  { intros s4 Hi4 R4. eapply wp_free; [done|]. intros s5 Hi5 R5 _. apply HQ; congruence. }
  case_bool_decide.
  - eapply wp_sendError; [done|done|done|done|]. intros s4 Hi4 R4. by apply Hfree.
  - eapply wp_free; [done|]. intros s4 Hi4 R4 _. by apply Hfree.
Qed.

(** ** Receiving packets *)

Lemma wp_recvHello s0 n p v own s rp (Q : unit → aodv → Prop) :
  inv s0 n ((p, v) :: own) s → (∀ s', inv s0 n own s' → rtable s' = rtable s → Q tt s') →
  twp (recvHello now p rp) s Q.
Proof.
  intros Hi HQ. unfold recvHello, nb_lookup. wp_step. wp_step.
  assert (∀ s1, inv s0 n ((p, v) :: own) s1 → rtable s1 = rtable s → twp (on_pool (free p)) s1 Q) as Hfree.
  { intros s1 Hi1 R1. eapply wp_free; [done|]. intros s2 Hi2 R2 _. apply HQ; congruence. }
  destruct (snd <$> _) as [nb|].
  - wp_step. wp_step. by apply Hfree.
  - unfold nb_insert. do 4 wp_step. wp_step.
    assert (even_seqno (u32 (seqno s + 2))) as He by (apply even_plus_2, Hi).
    apply wp_assert; [apply bool_decide_eq_true, He|].
    pose proof (inv_set_seqno _ _ _ _ _ Hi He) as Hi1. by apply Hfree.
Qed.

Lemma broadcast_iff d : - 2 ^ 31 ≤ d < 2 ^ 31 → u32 d = IP_BROADCAST ↔ d = s32 IP_BROADCAST.
Proof.
  intros Hd. assert (s32 IP_BROADCAST = -1) as -> by done. unfold u32, wrap, IP_BROADCAST.
  change 4294967295 with (2 ^ 32 - 1). split; [|by intros ->]. intros E.
  destruct (decide (0 ≤ d)); [rewrite Z.mod_small in E by lia; lia|].
  rewrite <- (Z_mod_plus_full d 1), Z.mod_small in E by lia. lia.
Qed.

(** What must hold of a packet that is received at [s]. *)
Definition receivable s v : Prop :=
  if decide (ptype_ (cmn v) = PT_AODV) then
    legal B v ∧
    match hdrs v with
    | RequestHdr rq =>
        rq_dst rq ≠ rq_src rq ∧
        ∀ e, rt_lookup (rq_dst rq) (rtable s) = Some e → rt_flags e = RTF_UP → is_Some (remaining now e)
    | _ => True
    end
  else - 2 ^ 31 ≤ daddr (ip v) < 2 ^ 31.

(** A data packet for which a route is looked up. *)
Definition routed s v : bool :=
  bool_decide (u32 (daddr (ip v)) ≠ IP_BROADCAST ∧
    (saddr (ip v) = index s ∧ num_forwards_ (cmn v) = 0 ∨ saddr (ip v) ≠ index s ∧ s32 (ttl_ (ip v) - 1) ≠ 0)).

(** The routes after a packet was received. *)
Definition received s v : list route :=
  let rs := routes (rtable s) in
  if decide (ptype_ (cmn v) = PT_AODV) then
    match hdrs v with
    | RequestHdr rq =>
        if ignored s rq then rs else learn (rq_src rq) (rq_src_seqno rq) (rq_hop_count rq) (saddr (ip v)) rs
    | ReplyHdr rp =>
        if decide (rp_type rp = AODVTYPE_RREP)
        then learn (rp_dst rp) (rp_dst_seqno rp) (rp_hop_count rp) (rp_src rp) rs else rs
    | ErrorHdr re => foldl (lose (saddr (ip v))) rs (unreachable re)
    | NoAodv => rs
    end
  else if routed s v then known (daddr (ip v)) rs else rs.

(** The requests known after a packet was received. *)
Definition heard s v : list BroadcastID :=
  match hdrs v with
  | RequestHdr rq =>
      if decide (ptype_ (cmn v) = PT_AODV ∧ ignored s rq = false)
      then MkBroadcastID (rq_src rq) (rq_bcast_id rq) (dadd now BCAST_ID_SAVE) :: bihead s else bihead s
  | _ => bihead s
  end.
Definition repeated s v : Prop :=
  ptype_ (cmn v) = PT_AODV ∧ match hdrs v with RequestHdr rq => ignored s rq = true | _ => False end.

(** A message. *)
Lemma wp_recvAODV n p v own s (Q : unit → aodv → Prop) :
  inv s n ((p, with_ip (add_ttl (-1)) v) :: own) s → ptype_ (cmn v) = PT_AODV → receivable s v →
  (∀ s', after own s (heard s v) s' → routes (rtable s') = received s v → (repeated s v → rest s' = rest s) → Q tt s') →
  twp (recvAODV now here_addr p) s Q.
Proof.
  intros Hi Hty Hr HQ. unfold receivable in Hr. rewrite decide_True in Hr by done. destruct Hr as [(Hsp & Hdp & Hl) Hr].
  unfold recvAODV. wp_step. eapply wp_packet; [done|]. wp_step. apply wp_assert; [by apply bool_decide_eq_true|].
  wp_step. apply wp_assert; [by apply bool_decide_eq_true|]. cbn [hdrs with_ip].
  unfold heard, received, repeated in HQ. rewrite decide_True in HQ by done.
  set (w := with_ip (add_ttl (-1)) v) in *.
  assert (sport (ip w) = RT_PORT ∧ dport (ip w) = RT_PORT ∧ saddr (ip w) = saddr (ip v)) as (Hsp' & Hdp' & Hsa) by done.
  destruct (hdrs v) as [|rq|rp|re]; [done|..].
  - destruct Hr as [Hne Hlife]. assert (ttl_ (ip w) + 1 = ttl_ (ip v)) as Ettl.
    { destruct Hl as (L1 & L2 & L3 & _). simpl. unfold NETWORK_DIAMETER in L2. rewrite s32_small by lia. lia. }
    eapply wp_recvRequest; [exact Hi|by rewrite Ettl|done|done|done|done|]. intros s1 Ha R Hrest. apply HQ; [|done|].
    + destruct (ignored s rq); [by rewrite decide_False by (by intros [_ ?])|by rewrite decide_True].
    + intros [_ Hig]. by apply Hrest.
  - simpl. case_decide as Hrep.
    + destruct Hl as [(_ & L1 & L2 & L3)|Hty']; [|by rewrite Hrep in Hty'].
      eapply wp_recvReply; [exact Hi|done|done|done|done|done|done|]. intros s1 Hi1 R1.
      apply HQ; [by eapply inv_after|done|by intros [_ ?]].
    + destruct Hl as [(? & _)|Hty']; [done|]. rewrite decide_True by done.
      eapply wp_recvHello; [exact Hi|]. intros s1 Hi1 R1.
      apply HQ; [by eapply inv_after|by rewrite R1|by intros [_ ?]].
  - simpl. rewrite decide_True by apply Hl. eapply wp_recvError; [exact Hi|exact Hl|]. intros s1 Hi1 R1.
    apply HQ; [by eapply inv_after|done|by intros [_ ?]].
Qed.

(** A copy of the state for which the same is known. *)
Lemma received_same s s1 v :
  rtable s1 = rtable s → index s1 = index s → bihead s1 = bihead s →
  received s1 v = received s v ∧ heard s1 v = heard s v ∧ (repeated s1 v ↔ repeated s v) ∧
  (receivable s v → receivable s1 v).
Proof.
  intros Et Ei Eb. assert (∀ rq, ignored s1 rq = ignored s rq) as Ek by (intros rq; unfold ignored, is_known; by rewrite Eb, Ei).
  unfold received, heard, repeated, routed, receivable. rewrite Et, Ei, Eb.
  split_and!; [| |by destruct (hdrs v); rewrite ?Ek|done].
  - case_decide; [|done]. destruct (hdrs v); try done. by rewrite Ek.
  - destruct (hdrs v); try done. by rewrite Ek.
Qed.

Lemma wp_recv_message n p v own s (Q : unit → aodv → Prop) :
  inv s n ((p, v) :: own) s → ptype_ (cmn v) = PT_AODV → receivable s v →
  (∀ s', after own s (heard s v) s' → routes (rtable s') = received s v → (repeated s v → rest s' = rest s) → Q tt s') →
  twp (_ ← upd p (with_ip (add_ttl (-1))); recvAODV now here_addr p) s Q.
Proof.
  intros Hi Hty Hr HQ. wp_step. eapply wp_upd; [done|done|]. intros s1 Hi1 R1 Rest1.
  assert (index s1 = index s ∧ bihead s1 = bihead s) as [Ei Eb] by (unfold rest in Rest1; split; congruence).
  destruct (received_same s s1 v R1 Ei Eb) as (E1 & E2 & E3 & E4).
  assert (inv s1 n ((p, with_ip (add_ttl (-1)) v) :: own) s1) as Hi1'.
  { destruct Hi1 as (Hm & Hg & _). split; [exact Hm|]. split; [exact Hg|]. by split_and!. }
  eapply wp_recvAODV; [exact Hi1'|done|by apply E4|].
  intros s2 (A1 & A2 & A3 & A4 & A5) R2 Rest2. apply HQ; [|by rewrite R2|].
  - split_and!; [done|apply A2..|by rewrite <- R1|congruence|congruence].
  - intros Hre. rewrite Rest2; [done|]. by apply E3.
Qed.

(** A data packet that is passed on. *)
Lemma wp_pass n p v w own s s1 (Q : unit → aodv → Prop) :
  inv s n ((p, w) :: own) s1 → rtable s1 = rtable s → daddr (ip w) = daddr (ip v) → ptype_ (cmn w) ≠ PT_AODV →
  - 2 ^ 31 ≤ daddr (ip v) < 2 ^ 31 → routed s v = bool_decide (u32 (daddr (ip v)) ≠ IP_BROADCAST) →
  (∀ s', inv s 64 own s' → routes (rtable s') = (if routed s v then known (daddr (ip v)) (routes (rtable s))
    else routes (rtable s)) → Q tt s') →
  twp (if bool_decide (u32 (daddr (ip v)) = IP_BROADCAST) then forward now here_addr None p NO_DELAY
       else rt_resolve now here_addr p) s1 Q.
Proof.
  intros Hi1 R1 Ed Et Hd Er HQ. destruct (bool_decide_reflect (u32 (daddr (ip v)) = IP_BROADCAST)) as [Hb|Hb].
  - eapply wp_forward_none; [exact Hi1|rewrite Ed; by apply broadcast_iff|by intros ?|].
    intros s2 Hi2 R2. apply HQ; [by eapply in_use_weaken|]. rewrite Er, bool_decide_false by tauto. by rewrite R2, R1.
  - eapply wp_rt_resolve; [exact Hi1|rewrite Ed; by rewrite <- broadcast_iff|done|].
    intros s2 Hi2 R2. apply HQ; [done|]. rewrite Er, bool_decide_true by done. by rewrite R2, Ed, R1.
Qed.

(** A packet of this node gets its headers. *)
Lemma wp_own_size n p v own s (Q : unit → aodv → Prop) :
  inv s n ((p, v) :: own) s →
  (∀ w s', inv s n ((p, w) :: own) s' → rtable s' = rtable s → daddr (ip w) = daddr (ip v) →
     ptype_ (cmn w) = ptype_ (cmn v) → Q tt s') →
  twp (if decide (ptype_ (cmn v) ≠ PT_TCP ∧ ptype_ (cmn v) ≠ PT_ACK)
       then upd p (with_cmn (λ c, cmn_size (s32 (size_ c + IP_HDR_LEN)) c)) else skip) s Q.
Proof.
  intros Hi HQ. destruct (decide (ptype_ (cmn v) ≠ PT_TCP ∧ ptype_ (cmn v) ≠ PT_ACK)).
  - eapply wp_upd; [done|done|]. intros s1 Hi1 R1 _. by eapply HQ.
  - apply wp_ret. by eapply HQ.
Qed.

Lemma wp_recv n p v own s (Q : unit → aodv → Prop) :
  inv s n ((p, v) :: own) s → receivable s v →
  (∀ s', after own s (heard s v) s' → routes (rtable s') = received s v → (repeated s v → rest s' = rest s) → Q tt s') →
  twp (recv now here_addr p) s Q.
Proof.
  intros Hi Hr HQ. unfold recv. wp_step. eapply wp_packet; [done|]. wp_step. wp_step. cbv zeta.
  destruct (decide (ptype_ (cmn v) = PT_AODV)) as [Hty|Hty]; [by eapply wp_recv_message|].
  unfold receivable in Hr. rewrite decide_False in Hr by done.
  assert (∀ s', inv s 64 own s' → routes (rtable s') = (if routed s v then known (daddr (ip v)) (routes (rtable s))
    else routes (rtable s)) → Q tt s') as HQ'.
  { intros s' Hi' R'. apply HQ; [|unfold received; by rewrite decide_False|by intros [? _]].
    replace (heard s v) with (bihead s); [by eapply inv_after|].
    unfold heard. destruct (hdrs v); try done. by rewrite decide_False by tauto. }
  destruct (decide (saddr (ip v) = index s ∧ num_forwards_ (cmn v) = 0)) as [Hown|Hown];
    [|destruct (decide (saddr (ip v) = index s)) as [Hloop|Hloop]].
  - assert (routed s v = bool_decide (u32 (daddr (ip v)) ≠ IP_BROADCAST)) as Er.
    { unfold routed. apply bool_decide_ext. tauto. }
    wp_step. eapply wp_own_size; [exact Hi|]. intros w s1 Hi1 R1 Ed Et.
    pose proof (λ w s1 Hi1 R1 Ed Et, wp_pass n p v w own s s1 Q Hi1 R1 Ed Et Hr Er HQ') as Hpass. wp_step.
    destruct (bool_decide (u32 (daddr (ip v)) = IP_BROADCAST)).
    + apply wp_ret. eapply Hpass; [exact Hi1|done|done|congruence].
    + eapply wp_upd; [exact Hi1|done|]. intros s2 Hi2 R2 _. eapply Hpass; [exact Hi2|congruence|done|simpl; congruence].
  - eapply wp_drop; [done|]. intros s1 Hi1 R1. apply HQ'; [by eapply in_use_weaken|]. unfold routed.
    rewrite bool_decide_false by tauto. by rewrite R1.
  - wp_step. eapply wp_upd; [done|done|]. intros s1 Hi1 R1 _. wp_step. eapply wp_packet; [done|].
    destruct (decide (s32 (ttl_ (ip v) - 1) = 0)) as [Ht|Ht].
    + rewrite decide_True by done. eapply wp_drop; [done|]. intros s2 Hi2 R2. apply HQ'; [by eapply in_use_weaken|].
      unfold routed. rewrite bool_decide_false by tauto. by rewrite R2, R1.
    + rewrite decide_False by done. eapply wp_pass; [exact Hi1|done|done|done|done| |done]. unfold routed.
      apply bool_decide_ext. tauto.
Qed.
End spec.
