(* ===== verification/AodvAgent.v ===== *)
(** * AODV: the agent

    The events of the agent of [Aodv.v], and what holds after each of them: its state is
    consistent, what it sent is well formed, and its routes are those of the abstract routing
    table of [AodvTable.v]. *)
From S2P Require Import Prelude Double Daemon SimChain SimPacket PacketQueue DropTail.
From S2P Require Import PriQueue.
From S2P Require Import AodvQueue AodvTable Aodv AodvMemory AodvSpec.
Open Scope Z_scope.

Implicit Types (s : aodv) (v : packet) (own : list (addr * packet)).

(** The calls of the simulator's other objects. *)
Inductive agent_event :=
  | Receive (p : addr)                (** [AODV::recv] *)
  | LinkFailed (p : addr)             (** [aodv_rt_failed_callback], of the link layer *)
  | Expired (t : timer)
  | RepairExpired (p : addr)          (** the timer [lrtimer] *)
  | Start.

Definition handle_event `{Allocator} (now : double) (here_addr : Z) (e : agent_event) : M aodv unit :=
  match e with
  | Receive p => recv now here_addr p
  | LinkFailed p => rt_ll_failed now p
  | Expired BroadcastTimer => BroadcastTimer_handle now
  | Expired HelloTimer => HelloTimer_handle
  | Expired NeighborTimer => NeighborTimer_handle now
  | Expired RouteCacheTimer => RouteCacheTimer_handle now here_addr
  | RepairExpired p => LocalRepairTimer_handle p
  | Start => start now here_addr
  end.

(** The packet an event brings, with its contents. *)
Definition brought (e : agent_event) v : list (addr * packet) :=
  match e with Receive p | LinkFailed p | RepairExpired p => [(p, v)] | _ => [] end.

(** A consistent state in which the agent owns the packets [own]: the queues are intact, the
    table is well formed with distances of at most [B], the node's sequence number is even,
    and the messages sent so far are legal. *)
Definition agent_ok (B : Z) own s : Prop := mem 64 own s ∧ good B s.

(** Local repair is not started: it leaves the table inconsistent, see [repair_aborts]. *)
Definition legal_event (B : Z) (now : double) s (e : agent_event) v : Prop :=
  match e with
  | Receive _ => receivable now B s v
  | LinkFailed _ =>
      (length (rtable s) ≤ AODV_MAX_ERRORS)%nat ∧
      ∀ e, rt_lookup (daddr (ip v)) (rtable s) = Some e → num_forwards_ (cmn v) ≤ rt_hops e
  | Expired NeighborTimer => (length (rtable s) ≤ AODV_MAX_ERRORS)%nat
  | _ => True
  end.

(** The routes after an event. *)
Definition routes_after (now : double) s (e : agent_event) v : list route :=
  let rs := routes (rtable s) in
  match e with
  | Receive _ => received s v
  | LinkFailed _ =>
      if decide (DATA_PACKET (ptype_ (cmn v)) = true ∧ u32 (daddr (ip v)) ≠ IP_BROADCAST ∧
                 daddr (ip v) ∈ r_dst <$> rs)
      then break (next_hop_ (cmn v)) rs else rs
  | Expired NeighborTimer =>
      foldl (λ rs nb, break (nb_addr nb) rs) rs (filter (λ nb, dle (nb_expire nb) now = true) (nbhead s))
  | Expired RouteCacheTimer | Start => expire now (rtable s)
  | _ => rs
  end.

Section agent.
Context `{Allocator} (Hmalloc : ∀ X, is_Some (malloc X)).
Context (now : double) (here_addr : Z) (B : Z) (HB : 30 ≤ B < 254).

Lemma agent_inv own s : agent_ok B own s → inv B s 64 own s.
Proof. intros [Hm Hg]. split; [done|]. split; [done|]. by split_and!. Qed.

Lemma wp_set_timer s0 n own s t d (Q : unit → aodv → Prop) :
  inv B s0 n own s → (∀ s', inv B s0 n own s' → rtable s' = rtable s → Q tt s') → twp (set_timer t d) s Q.
Proof. intros Hi HQ. unfold set_timer. wp_step. apply HQ; [by apply inv_record|done]. Qed.

Lemma wp_id_purge s n own (Q : unit → aodv → Prop) :
  inv B s n own s → (∀ s', inv B s' n own s' → rtable s' = rtable s → Q tt s') → twp (id_purge now) s Q.
Proof.
  intros (Hm & Hg & _) HQ. unfold id_purge. wp_step. apply HQ; [|done].
  split; [exact Hm|]. split; [exact Hg|]. by split_and!.
Qed.

Lemma handle_event_spec s e v :
  agent_ok B (brought e v) s → legal_event B now s e v →
  twp (handle_event now here_addr e) s (λ _ s',
    agent_ok B [] s' ∧ newer (rtable s) (rtable s') ∧ routes (rtable s') = routes_after now s e v).
Proof.
  intros Hok Hl. pose proof (agent_inv _ _ Hok) as Hi.
  assert (∀ s', inv B s 64 [] s' → routes (rtable s') = routes_after now s e v →
    agent_ok B [] s' ∧ newer (rtable s) (rtable s') ∧ routes (rtable s') = routes_after now s e v) as HQ.
  { by intros s' (? & ? & ? & _) R. }
  assert (∀ s', rtable s' = rtable s → agent_ok B [] s' → ∀ s1, inv B s' 64 [] s1 →
    routes (rtable s1) = routes_after now s e v →
    agent_ok B [] s1 ∧ newer (rtable s) (rtable s1) ∧ routes (rtable s1) = routes_after now s e v) as HQ'.
  { by intros s' Et _ s1 (? & ? & ? & _) R; rewrite <- Et. }
  destruct e as [p|p|[]|p|]; simpl in *.
  - eapply wp_recv; [done|done|exact Hi|exact Hl|]. intros s1 (A1 & A2 & A3 & _) R1 _. split; [by split|]. by split.
  - destruct Hl as [Hn Hrep]. eapply wp_rt_ll_failed; [done|done|exact Hi|done|done|]. intros s1 Hi1 R1. by apply HQ.
  - unfold BroadcastTimer_handle. wp_step. eapply wp_id_purge; [exact Hi|]. intros s1 Hi1 R1.
    eapply wp_set_timer; [exact Hi1|]. intros s2 Hi2 R2. apply (HQ' s1); [done| |done|by rewrite R2, R1].
    by destruct Hi1 as (? & ? & _).
  - unfold HelloTimer_handle. wp_step. eapply wp_sendHello; [done|exact Hi|]. intros s1 Hi1 R1.
    eapply wp_set_timer; [exact Hi1|]. intros s2 Hi2 R2. apply HQ; [done|by rewrite R2, R1].
  - unfold NeighborTimer_handle, nb_purge. wp_step. wp_step. change (twp get s ?P) with (P s s). cbv beta.
    eapply wp_mono; [by eapply nb_purge_loop_spec|]. intros _ s1 [Hi1 R1].
    eapply wp_set_timer; [exact Hi1|]. intros s2 Hi2 R2. apply HQ; [done|by rewrite R2].
  - unfold RouteCacheTimer_handle. wp_step. eapply wp_rt_purge; [done|done|exact Hi|]. intros s1 Hi1 R1.
    eapply wp_set_timer; [exact Hi1|]. intros s2 Hi2 R2. apply HQ; [done|by rewrite R2].
  - unfold LocalRepairTimer_handle. wp_step. eapply wp_packet; [exact Hi|]. unfold rt_find. wp_step. wp_step.
    wp_step. assert (twp match rt_lookup (daddr (ip v)) (rtable s) with
      | Some e => if decide (rt_flags e ≠ RTF_UP) then rt_down (daddr (ip v)) else skip
      | None => skip end s (λ _ s', s' = s)) as Hd.
    { destruct (rt_lookup (daddr (ip v)) (rtable s)) as [e|] eqn:E; [|by apply wp_ret].
      destruct (decide (rt_flags e ≠ RTF_UP)) as [Hf|]; [|by apply wp_ret].
      destruct (inv_lookup _ _ _ _ _ _ _ Hi E) as [Hoke _]. unfold rt_down. wp_step. eapply wp_the_rt; [done|].
      rewrite decide_True; [by apply wp_ret|]. by destruct Hoke as (_ & _ & [[? _]|[? _]] & _). }
    eapply wp_mono; [exact Hd|]. intros _ s1 ->. eapply wp_free; [exact Hi|]. intros s1 Hi1 R1 _.
    apply HQ; [done|by rewrite R1].
  - unfold start, BroadcastTimer_handle, RouteCacheTimer_handle. wp_step. wp_step. eapply wp_id_purge; [exact Hi|].
    intros s1 Hi1 R1. eapply wp_set_timer; [exact Hi1|]. intros s2 Hi2 R2. wp_step.
    eapply wp_rt_purge; [done|done|exact Hi2|]. intros s3 Hi3 R3. eapply wp_set_timer; [exact Hi3|]. intros s4 Hi4 R4.
    apply (HQ' s1); [done|by destruct Hi1 as (? & ? & _)|done|]. by rewrite R4, R3, R2, R1.
Qed.
End agent.

(** ** The properties *)

(** A new agent whose memory holds the packets [own]. *)
Lemma new_agent_ok B id pl (d : DropTail hdr_all_aodv) own :
  id ≠ s32 IP_BROADCAST → (∃ fs, pool_ok pl fs) → NoDup own.*1 →
  (∀ x, x ∈ own → packets pl !! x.1 = Some x.2 ∧ in_use x.2) → q_ d = PacketQueue_new ∅ →
  agent_ok B own (AODV_new id pl d).
Proof.
  intros Hid Hpl Hnd Ho Hd. split.
  - exists [], []. split; [|simpl; lia]. split_and!.
    + rewrite (app_nil_r own.*1). apply rep_new; [done|done|]. intros p (x & -> & Hx)%list_elem_of_fmap.
      exists x.2. by apply Ho.
    + intros e He. by apply elem_of_nil in He.
    + intros x Hx. by apply Ho.
    + unfold ifq_view. simpl. by rewrite Hd.
  - split; [done|]. split; [done|]. split; [|by intros f ?%elem_of_nil].
    split; [constructor|by intros e ?%elem_of_nil].
Qed.



Lemma aodv_recv_spec `{Allocator} B now here_addr s p v own
    (Hmalloc : ∀ X, is_Some (malloc X)) (HB : 30 ≤ B < 254) :
  agent_ok B ((p, v) :: own) s → receivable now B s v →
  ∃ s', recv now here_addr p s = Done tt s' ∧ agent_ok B own s' ∧ index s' = index s ∧
    bihead s' = heard now s v ∧ (repeated s v → rest s' = rest s).
Proof.
  intros Hok Hr. apply agent_inv in Hok.
  assert (twp (recv now here_addr p) s (λ _ s', agent_ok B own s' ∧ index s' = index s ∧
    bihead s' = heard now s v ∧ (repeated s v → rest s' = rest s))) as Hw.
  { eapply wp_recv; [done|done|exact Hok|done|]. intros s1 (A1 & A2 & _ & A4 & A5) _ Hrest. by split_and!. }
  destruct (twp_inv _ _ _ Hw) as ([] & s' & E & Hs'). by exists s'.
Qed.

(** C29. A node relays a request once: a later packet with the same source and identifier,
    which arrives before the time of the identifier is over, is taken without changing
    anything but the packets in memory, so that no message is sent for it. *)
Theorem request_relayed_once `{Allocator} B now here_addr s p v own rq
    (Hmalloc : ∀ X, is_Some (malloc X)) (HB : 30 ≤ B < 254)
    (Hok : agent_ok B ((p, v) :: own) s) (Hr : receivable now B s v) (Hty : ptype_ (cmn v) = PT_AODV)
    (Hv : hdrs v = RequestHdr rq) (Hfirst : is_known s rq = false) :
  ∃ s1, recv now here_addr p s = Done tt s1 ∧ agent_ok B own s1 ∧
    ∀ now2 q w rq2 own2 s2,
      agent_ok B ((q, w) :: own2) s2 → receivable now2 B s2 w → ptype_ (cmn w) = PT_AODV → hdrs w = RequestHdr rq2 →
      rq_src rq2 = rq_src rq → rq_bcast_id rq2 = rq_bcast_id rq →
      dle (dadd now BCAST_ID_SAVE) now2 = false → index s2 = index s1 →
      (∀ b, b ∈ bihead s1 → dle (bi_expire b) now2 = false → b ∈ bihead s2) →
      ∃ s3, recv now2 here_addr q s2 = Done tt s3 ∧ rest s3 = rest s2 ∧ agent_ok B own2 s3.
Proof.
  destruct (aodv_recv_spec B now here_addr s p v own Hmalloc HB Hok Hr) as (s1 & E1 & Hok1 & Ei & Eb & _).
  exists s1. split; [done|]. split; [done|].
  intros now2 q w rq2 own2 s2 Hok2 Hr2 Hty2 Hw Hsrc Hid Htime Ei2 Hkeep.
  destruct (aodv_recv_spec B now2 here_addr s2 q w own2 Hmalloc HB Hok2 Hr2) as (s3 & E3 & Hok3 & _ & _ & Hrest).
  exists s3. split; [done|]. split; [|done]. apply Hrest. split; [done|]. rewrite Hw.
  unfold ignored. apply orb_true_iff. unfold heard in Eb. rewrite Hv in Eb.
  destruct (ignored s rq) eqn:Eig.
  { left. apply bool_decide_eq_true. rewrite Hsrc, Ei2, Ei. unfold ignored in Eig. rewrite Hfirst, orb_false_r in Eig.
    by apply bool_decide_eq_true in Eig. }
  right. rewrite decide_True in Eb by done. apply existsb_exists.
  exists (MkBroadcastID (rq_src rq) (rq_bcast_id rq) (dadd now BCAST_ID_SAVE)). split.
  - apply list_elem_of_In, Hkeep; [|done]. rewrite Eb. by left.
  - by apply bool_decide_eq_true.
Qed.

(** ** Witnesses *)

#[local] Instance demo_memory : Allocator := bump_allocator false.
#[local] Lemma demo_malloc X : is_Some (malloc X).
Proof. by eexists. Qed.

Definition demo_packet (type fwd src dst ttl : Z) (h : hdr_all_aodv) : packet :=
  Pkt NULL 0 0 true None (Cmn type 512 0 0 d_zero UP (-2) 2 NS_AF_INET (-2) false 0 fwd) (Ip src RT_PORT dst RT_PORT ttl) h.
(** A request of node 2 for a route to node 9. *)
Definition demo_request (id : Z) : hdr_aodv_request := Request 1 id 9 0 2 4 d_zero.
Definition request_packet (id : Z) : packet :=
  demo_packet PT_AODV 0 2 (s32 IP_BROADCAST) 30 (RequestHdr (demo_request id)).
Definition demo_queue : DropTail hdr_all_aodv :=
  DropTail_new ∅ 50 false true false 500 (Queue_new (d_of_Z 1) 0 true (d_of_Z 100) 2 d_zero d_zero).
(** Node 1, with the packets [vs] in memory. *)
Definition demo_agent (vs : list (addr * packet)) : aodv :=
  AODV_new 1 (Pool (list_to_map vs) NULL) demo_queue.

Lemma demo_agent_ok vs :
  NoDup vs.*1 → NULL ∉ vs.*1 → (∀ x, x ∈ vs → in_use x.2) → agent_ok 30 vs (demo_agent vs).
Proof.
  intros Hnd Hnull Hu. apply new_agent_ok; [done| |done| |done].
  - exists []. split_and!; [done|by apply not_elem_of_list_to_map_1| |]; intros a v Hv.
    + simpl in Hv. apply elem_of_list_to_map_2, Hu in Hv. destruct Hv as (Hf & _). simpl in Hf. rewrite Hf.
      split; [done|by intros ?%elem_of_nil].
    + by intros ?%elem_of_nil.
  - intros [p v] Hx. split; [by apply elem_of_list_to_map_1|by apply Hu].
Qed.

Lemma demo_request_legal s id : rtable s = [] → receivable d_zero 30 s (request_packet id).
Proof.
  intros Ht. unfold receivable. rewrite decide_True by done. split; [|by split; [|rewrite Ht]].
  split_and!; [done|done|]. simpl. unfold NETWORK_DIAMETER. split_and!; try lia; try done; by vm_compute.
Qed.

Definition demo_own : list (addr * packet) := [(1%N, request_packet 1)].

Lemma demo_own_ok id : agent_ok 30 [(1%N, request_packet id)] (demo_agent [(1%N, request_packet id)]).
Proof.
  apply demo_agent_ok; [by apply (bool_decide_unpack _); vm_compute|by apply (bool_decide_unpack _); vm_compute|].
  by intros x ->%list_elem_of_singleton.
Qed.



Definition demo_twice : list (addr * packet) := [(1, request_packet 1); (2, request_packet 1)]%N.

Lemma demo_twice_ok : agent_ok 30 demo_twice (demo_agent demo_twice).
Proof.
  apply demo_agent_ok; [by apply (bool_decide_unpack _); vm_compute|by apply (bool_decide_unpack _); vm_compute|].
  by intros x [->| ->%list_elem_of_singleton]%elem_of_cons.
Qed.

(** The request is heard again one second later. *)
Lemma request_relayed_once_witness :
  ∃ s1 s3, recv d_zero 1 1 (demo_agent demo_twice) = Done tt s1 ∧ recv (d_of_Z 1) 1 2 s1 = Done tt s3 ∧
    length (a_log s1) = 1%nat ∧ rest s3 = rest s1.
Proof.
  destruct (request_relayed_once 30 d_zero 1 (demo_agent demo_twice) 1 (request_packet 1)
    [(2%N, request_packet 1)] (demo_request 1)) as (s1 & E1 & Hok1 & Hagain);
    [apply demo_malloc|lia|apply demo_twice_ok|by apply demo_request_legal|done|done|done|].
  assert (length (a_log s1) = 1%nat ∧ rt_lookup 9 (rtable s1) = None ∧ index s1 = 1) as (El & Et & Ei)
    by (clear -E1; vm_compute in E1; by injection E1 as <-).
  destruct (Hagain (d_of_Z 1) 2%N (request_packet 1) (demo_request 1) [] s1) as (s3 & E3 & R & _);
    [done| |done|done|done|done|by vm_compute|done|done|by exists s1, s3].
  destruct (demo_request_legal (demo_agent []) 1 eq_refl) as [Hl _]. split; [exact Hl|]. split; [done|].
  intros e He. simpl in He. congruence.
Defined.

(** ** Where the assumptions are needed *)

Definition run_events (es : list agent_event) : M aodv unit :=
  foldr (λ e m, _ ← handle_event d_zero 1 e; m) skip es.
Definition heard_from (src from seq id hops dst : Z) : packet :=
  demo_packet PT_AODV 0 from (s32 IP_BROADCAST) 30 (RequestHdr (Request hops id dst 0 src seq d_zero)).
Definition data_to (fwd dst : Z) : packet := demo_packet PT_CBR fwd 7 dst 30 NoAodv.

(** Routes to nodes 2 and 3 lead through node 2.  The link to it fails for a packet that
    came a long way, so that the route to 2 is repaired; then it fails for another packet,
    and the assertion that the route is up fails. *)
Lemma repair_aborts :
  ∃ s s', run_events [Receive 1; Receive 2; LinkFailed 3]%N
      (demo_agent [(1, heard_from 2 2 4 1 1 9); (2, heard_from 3 2 4 2 2 9); (3, data_to 5 2); (4, data_to 0 3)]%N) = Done tt s ∧
    handle_event d_zero 1 (LinkFailed 4) s = Abort s'.
Proof. eexists _, _. split; [vm_compute; reflexivity|]. vm_compute. reflexivity. Qed.

(** The first request for a destination already floods the network, since the last hop count
    of a new entry is infinite. *)
Lemma first_request_floods d : request_ttl (aodv_rt_entry_new d) = (NETWORK_DIAMETER, 1).
Proof. done. Qed.

(** A reply is sent although the way back is down: it goes to the next hop 0. *)
Definition last_sent s : option (Z * Z) :=
  match a_log s with Scheduled _ v _ :: _ => Some (daddr (ip v), next_hop_ (cmn v)) | _ => None end.
Lemma reply_without_route :
  ∃ s, run_events [Receive 1; LinkFailed 3; Receive 2]%N
      (demo_agent [(1, heard_from 2 2 4 1 1 9); (2, heard_from 2 2 4 2 1 1); (3, data_to 0 2)]%N) = Done tt s ∧
    last_sent s = Some (2, 0).
Proof. eexists. split; [vm_compute; reflexivity|]. by vm_compute. Qed.

(** A reply with the hop count 255 gives a route that is up and infinitely long: the next
    packet for its destination ends the process. *)
Lemma infinite_reply_aborts :
  ∃ s, run_events [Receive 1; Receive 2]%N
      (demo_agent [(1, demo_packet PT_AODV 0 2 1 30 (ReplyHdr (Reply AODVTYPE_RREP 255 9 4 2 (d_of_Z 10) d_zero)));
                   (2, data_to 0 9)]%N) = Abort s.
Proof. eexists. vm_compute. reflexivity. Qed.

(** A neighbour through which 101 routes lead: the error message has no room for them. *)
Lemma error_array_overflows :
  run_events [LinkFailed 1]
    (set_rtable ((λ d, with_way 1 0 2 RTF_UP (d_of_Z 10) (with_seqno 4 (aodv_rt_entry_new d))) <$> seqZ 100 101)
      (demo_agent [(1%N, data_to 0 100)])) = Stuck OutOfBounds.
Proof. vm_compute. reflexivity. Qed.
