(* ===== verification/MsvrNeigh.v ===== *)
(** * GeoSVR in the simulator: positions and neighbours

    [ns2/msvr/gps/msvr_gps.cc] and [ns2/msvr/neigh/]: the position of a simulated node,
    the neighbour list that an agent fills from the hello messages it receives, and the
    choice of a next hop among the neighbours.  The list is a [std::list] of entries; a
    pointer to an entry is returned as the entry, since its callers read it at once. *)
From S2P Require Import Prelude Double Utils Daemon.
Open Scope Z_scope.

(** [pow] of [<cmath>]. *)
Class MathPow := pow : double → double → double.

(** ** The nodes of the simulation and their positions *)

(** What is read of a [MobileNode]. *)
(* [ns2/common/mobilenode.h:150-159] class MobileNode *)
Record MobileNode := Mobile { address_ : Z; X_ : double; Y_ : double; speed_ : double }.

(** [nodehead_] is the list of all nodes; [None] is the null pointer. *)
(* [ns2/common/node.cc:314-324] Node::get_node_by_address *)
Definition get_node_by_address (nodehead_ : list MobileNode) (id : Z) : option MobileNode :=
  snd <$> list_find (λ n, address_ n = id) nodehead_.

Section gps.
Context `{Libm, MathPow}.
Open Scope double_scope.

(* [ns2/msvr/gps/msvr_gps.cc:9-22] MsvrGps::getPos *)
Definition getPos (nodes : list MobileNode) (id : Z) : option (double * double) :=
  n ← get_node_by_address nodes id; Some (X_ n, Y_ n).
(* [ns2/msvr/gps/msvr_gps.cc:24-33] MsvrGps::getSpeed *)
Definition getSpeed (nodes : list MobileNode) (id : Z) : option double :=
  n ← get_node_by_address nodes id; Some (speed_ n).

(* [ns2/msvr/gps/msvr_gps.cc:37-69] cal_angle *)
Definition cal_angle (dx dy : double) : double :=
  let small v := (dopp (d_lit 1 2) <? v) && (v <? d_lit 1 2) in
  let d0 := d_zero in
  if small dx then (if d0 <? dy then d0 else deg180)
  else if small dy then (if d0 <? dx then d_of_Z 90 else d_of_Z 270)
  else if small dx && small dy then d0
  else
    let at_ := atan (dx / dy) in
    let at_ := if at_ <? d0 then at_ + PI / d_of_Z 2 else at_ in
    let angle := at_ * deg180 / PI in
    if (d0 <? dx) && (d0 <? dy) then angle
    else if (d0 <? dx) && (dy <? d0) then angle + d_of_Z 90
    else if (dx <? d0) && (dy <? d0) then angle + deg180
    else angle + d_of_Z 270.

(** The heading is computed from the position, not from the movement. *)
(* [ns2/msvr/gps/msvr_gps.cc:71-75] MsvrGps::getHeading *)
Definition getHeading (nodes : list MobileNode) (id : Z) : option double :=
  p ← getPos nodes id; Some (cal_angle p.1 p.2).

(* [ns2/msvr/gps/msvr_gps.cc:77-94] msvr_cal_dist *)
Definition msvr_cal_dist (x1 y1 x2 y2 : double) : double :=
  dsqrt (pow (x1 - x2) (d_of_Z 2) + pow (y1 - y2) (d_of_Z 2)).
End gps.

(** ** The neighbour list *)

(* [ns2/msvr/neigh/msvr_nblist.h:12-22] struct msvr_ninfo *)
Record msvr_ninfo := Ninfo {
  n_id : Z;
  n_x : double;
  n_y : double;
  n_speed : double;
  n_heading : double;
  n_roadid : Z;
  n_dst : Z;
}.
(* [ns2/msvr/neigh/msvr_nblist.h:24-27] struct msvr_nbentry *)
Record msvr_nbentry := Nbentry { nbe_ninfo : msvr_ninfo; nbe_ts : timeval }.

Abbreviation nbl_t := (list msvr_nbentry).
Definition nid (e : msvr_nbentry) : Z := n_id (nbe_ninfo e).

(** The branch for an entry that exists writes the destination to the local variable
    [ep], not to the entry. *)
Definition refresh (ip : msvr_ninfo) (now : timeval) (e : msvr_nbentry) : msvr_nbentry :=
  Nbentry (Ninfo (nid e) (n_x ip) (n_y ip) (n_speed ip) (n_heading ip) (n_roadid ip)
             (n_dst (nbe_ninfo e))) now.
Fixpoint refresh_first (ip : msvr_ninfo) (now : timeval) (nbl : nbl_t) : option nbl_t :=
  match nbl with
  | [] => None
  | e :: nbl =>
      if decide (nid e = n_id ip) then Some (refresh ip now e :: nbl)
      else cons e <$> refresh_first ip now nbl
  end.
(* [ns2/msvr/neigh/msvr_nblist.cc:25-57] msvr_nbladd *)
Definition msvr_nbladd (now : timeval) (nbl : nbl_t) (ip : msvr_ninfo) : nbl_t :=
  match refresh_first ip now nbl with
  | Some nbl' => nbl'
  | None => Nbentry ip now :: nbl
  end.

(** Erasing an element and then advancing the iterator to it. *)
(* [ns2/msvr/neigh/msvr_nblist.cc:59-70] msvr_nbldel *)
Definition msvr_nbldel (ep : option msvr_nbentry) : M nbl_t unit := λ nbl,
  match ep with
  | None => Done tt nbl
  | Some ep =>
      if decide (Exists (λ e, nid e = nid ep) nbl) then Stuck UseAfterFree else Done tt nbl
  end.

(* [ns2/msvr/neigh/msvr_nblist.cc:72-87] msvr_nblupdate *)
Definition msvr_nblupdate (now : timeval) (nbl : nbl_t) (ip : msvr_ninfo) : nbl_t :=
  (λ e, if decide (nid e = n_id ip)
        then Nbentry (Ninfo (nid e) (n_x ip) (n_y ip) (n_speed ip) (n_heading ip) (n_roadid ip) (n_dst ip)) now
        else e) <$> nbl.

(* [ns2/msvr/neigh/msvr_nblist.cc:89-99] msvr_nblfind *)
Definition msvr_nblfind (nbl : nbl_t) (id : Z) : option msvr_nbentry :=
  snd <$> list_find (λ e, nid e = id) nbl.

(* [ns2/msvr/neigh/msvr_nblist.cc:101-111] msvr_nbl_find_dst *)
Definition msvr_nbl_find_dst (nbl : nbl_t) (dst : Z) : bool :=
  existsb (λ e, bool_decide (n_dst (nbe_ninfo e) = dst)) nbl.

Definition MSVR_MAX_NB_AGING : double := d_of_Z 4.
(** [float(now.tv_sec - iter->nbe_ts.tv_sec) >= MSVR_MAX_NB_AGING]. *)
Definition aged (now : timeval) (e : msvr_nbentry) : bool :=
  dle MSVR_MAX_NB_AGING (d_of_f (f_of_Z (tv_sec now - tv_sec (nbe_ts e)))).
(** Erases the first entry that is too old; [None] when there is none. *)
Fixpoint erase_aged (now : timeval) (nbl : nbl_t) : option nbl_t :=
  match nbl with
  | [] => None
  | e :: nbl => if aged now e then Some nbl else cons e <$> erase_aged now nbl
  end.
(** [goto tryagain]. *)
Fixpoint try_again (fuel : nat) (now : timeval) : M nbl_t unit := λ nbl,
  match fuel with
  | O => Stuck NoFuel
  | S fuel => match erase_aged now nbl with Some nbl => try_again fuel now nbl | None => Done tt nbl end
  end.
(* [ns2/msvr/neigh/msvr_nblist.cc:113-129] msvr_nblaging *)
Definition msvr_nblaging (now : timeval) : M nbl_t unit := λ nbl, try_again (S (length nbl)) now nbl.

Section next_hop.
Context `{Libm, MathPow, Platform}.

(** One entry of the loop; the accumulator is [len] and [res]. *)
Definition furthest_step (roadid1 roadid2 : Z) (x1 y1 : double)
    (acc : double * option msvr_nbentry) (e : msvr_nbentry) : double * option msvr_nbentry :=
  let i := nbe_ninfo e in
  if decide (n_roadid i = roadid1) then
    let tmplen := msvr_cal_dist x1 y1 (n_x i) (n_y i) in
    if dle acc.1 tmplen then (tmplen, Some e) else acc
  else if decide (roadid2 ≠ -1 ∧ n_roadid i = roadid2) then
    let tmplen := msvr_cal_dist x1 y1 (n_x i) (n_y i) in
    if dle acc.1 tmplen then (tmplen, Some e) else acc
  else acc.
(* [ns2/msvr/neigh/msvr_nblist.cc:131-163] msvr_nbl_find_furthest_nhop *)
Definition msvr_nbl_find_furthest_nhop (nbl : nbl_t) (roadid1 roadid2 : Z) (x1 y1 : double)
    : option msvr_nbentry :=
  (foldl (furthest_step roadid1 roadid2 x1 y1) (d_zero, None) nbl).2.

Definition goal : double := d_of_Z 100.
(** The test the three branches share; the accumulator is [len1] and [res]. *)
Definition closer_to_goal (x1 y1 x2 y2 len2 : double)
    (acc : double * option msvr_nbentry) (e : msvr_nbentry) : double * option msvr_nbentry :=
  let i := nbe_ninfo e in
  let tmplen := msvr_cal_dist x1 y1 (n_x i) (n_y i) in
  let dstlen := msvr_cal_dist x2 y2 (n_x i) (n_y i) in
  if dlt (abs_double (dsub tmplen goal)) acc.1 && dlt dstlen len2
  then (abs_double (dsub tmplen goal), Some e) else acc.
Definition next_hop_step (roadid1 roadid2 roadid3 : Z) (x1 y1 x2 y2 len2 : double)
    (acc : double * option msvr_nbentry) (e : msvr_nbentry) : double * option msvr_nbentry :=
  let r := n_roadid (nbe_ninfo e) in
  if decide (r = roadid1) then closer_to_goal x1 y1 x2 y2 len2 acc e
  else if decide (roadid2 ≠ -1 ∧ r = roadid2) then closer_to_goal x1 y1 x2 y2 len2 acc e
  else if decide (r = roadid3) then closer_to_goal x1 y1 x2 y2 len2 acc e
  else acc.
(* [ns2/msvr/neigh/msvr_nblist.cc:165-215] msvr_nbl_find_next_hop *)
Definition msvr_nbl_find_next_hop (nbl : nbl_t) (roadid1 roadid2 roadid3 : Z) (x1 y1 x2 y2 : double)
    : option msvr_nbentry :=
  let len2 := msvr_cal_dist x1 y1 x2 y2 in
  (foldl (next_hop_step roadid1 roadid2 roadid3 x1 y1 x2 y2 len2) (d_of_Z 200, None) nbl).2.

(** [in_addr_t] is unsigned: minus one is the broadcast address.  With [first] unset the
    function ends without a return value. *)
(* [ns2/msvr/neigh/msvr_neigh.cc:59-80] msvr_get_next_hop *)
Definition msvr_get_next_hop (nbl : nbl_t) (roadid1 roadid2 roadid3 : Z) (x1 y1 x2 y2 : double)
    (first : bool) : option Z :=
  if first then
    match msvr_nbl_find_next_hop nbl roadid1 roadid2 roadid3 x1 y1 x2 y2 with
    | None => Some (u32 (-1))
    | Some ep => Some (n_dst (nbe_ninfo ep))
    end
  else None.

(* [ns2/msvr/neigh/msvr_neigh.cc:82-86] msvr_find_dst *)
Definition msvr_find_dst (nbl : nbl_t) (dst : Z) : bool := msvr_nbl_find_dst nbl dst.
End next_hop.

(** ** The table of neighbours

    The list is a finite map from identifiers to what is known of a node and when it was
    heard. *)
Abbreviation table := (gmap Z (msvr_ninfo * timeval)).
Definition ids (nbl : nbl_t) : list Z := nid <$> nbl.
Definition table_of (nbl : nbl_t) : table := list_to_map ((λ e, (nid e, (nbe_ninfo e, nbe_ts e))) <$> nbl).

(** What happens to the list. *)
Inductive nbl_event := Heard (now : timeval) (ip : msvr_ninfo) | Aging (now : timeval).
Definition nbl_step (ev : nbl_event) : M nbl_t unit :=
  match ev with
  | Heard now ip => modify (λ nbl, msvr_nbladd now nbl ip)
  | Aging now => msvr_nblaging now
  end.
Fixpoint nbl_run (evs : list nbl_event) : M nbl_t unit :=
  match evs with [] => skip | ev :: evs => _ ← nbl_step ev; nbl_run evs end.

(** A node that is known keeps the destination it was first heard with. *)
Definition with_dst (dst : Z) (i : msvr_ninfo) : msvr_ninfo :=
  Ninfo (n_id i) (n_x i) (n_y i) (n_speed i) (n_heading i) (n_roadid i) dst.
Definition table_step (ev : nbl_event) (m : table) : table :=
  match ev with
  | Heard now ip => <[n_id ip := (default ip ((λ e, with_dst (n_dst e.1) ip) <$> m !! n_id ip), now)]> m
  | Aging now => filter (λ kv, tv_sec now - tv_sec kv.2.2 < 4) m
  end.

Lemma table_of_cons e nbl : table_of (e :: nbl) = <[nid e := (nbe_ninfo e, nbe_ts e)]> (table_of nbl).
Proof. done. Qed.

Lemma table_of_None nbl i : i ∉ ids nbl → table_of nbl !! i = None.
Proof.
  intros Hi. apply not_elem_of_list_to_map_1. unfold ids in Hi. rewrite <- list_fmap_compose. exact Hi.
Qed.

Lemma refresh_first_spec ip now nbl : NoDup (ids nbl) →
  match refresh_first ip now nbl with
  | None => n_id ip ∉ ids nbl
  | Some nbl' => ids nbl' = ids nbl ∧ ∃ old, table_of nbl !! n_id ip = Some old ∧
      table_of nbl' = <[n_id ip := (with_dst (n_dst old.1) ip, now)]> (table_of nbl)
  end.
Proof.
  induction nbl as [|e nbl IH]; [intros _; by apply not_elem_of_nil|].
  intros [He Hnd]%NoDup_cons. cbn [refresh_first]. destruct (decide (nid e = n_id ip)) as [E|E].
  - split; [done|]. exists (nbe_ninfo e, nbe_ts e). rewrite !table_of_cons, E, lookup_insert_eq. split; [done|].
    rewrite insert_insert_eq. unfold refresh, with_dst, nid in *. simpl. by rewrite E.
  - specialize (IH Hnd). destruct (refresh_first ip now nbl) as [nbl'|]; simpl.
    + destruct IH as [Ei (old & Eo & Et)]. split; [unfold ids in *; simpl; by rewrite Ei|]. exists old.
      rewrite !table_of_cons, lookup_insert_ne by done. split; [done|]. rewrite Et. by apply insert_insert_ne.
    + unfold ids in *. simpl. rewrite elem_of_cons. intros [?|?]; [by symmetry in H; apply E|done].
Qed.

Lemma nbladd_spec ip now nbl : NoDup (ids nbl) →
  NoDup (ids (msvr_nbladd now nbl ip)) ∧
  table_of (msvr_nbladd now nbl ip) = table_step (Heard now ip) (table_of nbl).
Proof.
  intros Hnd. pose proof (refresh_first_spec ip now nbl Hnd) as Hr. unfold msvr_nbladd, table_step.
  destruct (refresh_first ip now nbl) as [nbl'|].
  - destruct Hr as [Ei (old & Eo & Et)]. by rewrite Ei, Et, Eo.
  - rewrite table_of_None by done. split; [by apply NoDup_cons|]. by rewrite table_of_cons.
Qed.

(** *** Ages

    The age in seconds is rounded to a [float] before it is compared; that makes no
    difference for ages of less than 194 days. *)
Definition recent (now : timeval) (nbl : nbl_t) : Prop :=
  Forall (λ e, Z.abs (tv_sec now - tv_sec (nbe_ts e)) < 2 ^ 24) nbl.

Lemma aged_seconds now e : Z.abs (tv_sec now - tv_sec (nbe_ts e)) < 2 ^ 24 →
  aged now e = bool_decide (4 ≤ tv_sec now - tv_sec (nbe_ts e)).
Proof.
  intros Ha. unfold aged, MSVR_MAX_NB_AGING. rewrite d_of_f_Z, dle_d_of_Z by lia.
  apply eq_iff_eq_true. by rewrite Z.leb_le, bool_decide_eq_true.
Qed.

Definition young (now : timeval) (e : msvr_nbentry) : Prop := aged now e = false.
#[local] Instance young_dec now e : Decision (young now e) := bool_eq_dec _ _.

Lemma erase_aged_spec now nbl :
  match erase_aged now nbl with
  | None => Forall (young now) nbl
  | Some nbl' => filter (young now) nbl' = filter (young now) nbl ∧ S (length nbl') = length nbl
  end.
Proof.
  induction nbl as [|e nbl IH]; cbn [erase_aged]; [done|]. destruct (aged now e) eqn:Ea.
  - rewrite (filter_cons_False _ e) by (unfold young; congruence). done.
  - destruct (erase_aged now nbl) as [nbl'|]; simpl.
    + destruct IH as [IH El]. rewrite !(filter_cons_True _ e) by done. by rewrite IH, El.
    + by constructor.
Qed.

Lemma filter_young now nbl : Forall (young now) nbl → filter (young now) nbl = nbl.
Proof. induction 1; [done|]. rewrite filter_cons_True by done. by f_equal. Qed.

Lemma nblaging_spec now nbl : msvr_nblaging now nbl = Done tt (filter (young now) nbl).
Proof.
  unfold msvr_nblaging.
  cut (∀ fuel nbl, (length nbl < fuel)%nat → try_again fuel now nbl = Done tt (filter (young now) nbl)).
  { intros Hf. apply Hf. lia. }
  intros fuel. clear nbl. induction fuel as [|fuel IH]; [lia|]. intros nbl Hl. cbn [try_again].
  pose proof (erase_aged_spec now nbl) as He. destruct (erase_aged now nbl) as [nbl'|].
  - destruct He as [<- El]. apply IH. lia.
  - by rewrite filter_young.
Qed.

Lemma ids_filter now nbl : NoDup (ids nbl) → NoDup (ids (filter (young now) nbl)).
Proof. intros Hnd. eapply sublist_NoDup; [exact Hnd|]. apply fmap_sublist, sublist_filter. Qed.

Lemma table_of_filter now nbl : NoDup (ids nbl) → recent now nbl →
  table_of (filter (young now) nbl) = table_step (Aging now) (table_of nbl).
Proof.
  intros Hnd Hr. induction nbl as [|e nbl IH]; [done|].
  apply NoDup_cons in Hnd as [He Hnd]. apply Forall_cons in Hr as [Hre Hr]. specialize (IH Hnd Hr).
  pose proof (aged_seconds now e Hre) as Ea. cbn [table_step] in *. rewrite table_of_cons.
  destruct (decide (4 ≤ tv_sec now - tv_sec (nbe_ts e))) as [Hold|Hold].
  - rewrite (filter_cons_False _ e) by (unfold young; rewrite Ea, bool_decide_true; done).
    rewrite map_filter_insert_False by (simpl; lia). rewrite delete_id; [done|]. by apply table_of_None.
  - rewrite (filter_cons_True _ e) by (unfold young; by rewrite Ea, bool_decide_false).
    rewrite table_of_cons, map_filter_insert_True by (simpl; lia). by rewrite IH.
Qed.

(** The clock, when the list is scanned, is within 194 days of the times of the entries. *)
Fixpoint clock_ok (evs : list nbl_event) (m : table) : Prop :=
  match evs with
  | [] => True
  | ev :: evs =>
      match ev with
      | Heard _ _ => True
      | Aging now => map_Forall (λ _ v, Z.abs (tv_sec now - tv_sec v.2) < 2 ^ 24) m
      end ∧ clock_ok evs (table_step ev m)
  end.

Lemma recent_table now nbl : NoDup (ids nbl) →
  map_Forall (λ _ v, Z.abs (tv_sec now - tv_sec v.2) < 2 ^ 24) (table_of nbl) → recent now nbl.
Proof.
  induction nbl as [|e nbl IH]; [constructor|]. intros [He Hnd]%NoDup_cons.
  rewrite table_of_cons. rewrite map_Forall_insert by (by apply table_of_None). intros [Ha Hm].
  constructor; [exact Ha|by apply IH].
Qed.

(** C36. Over any history of hello messages and of scans by the neighbour timer, the list
    holds one entry for each node, and is a table: a message replaces what is known of its
    sender, all but the destination, which stays the one of the first message, and a scan
    removes exactly the nodes not heard of for four seconds.  The scan terminates. *)
Theorem neighbours_are_table evs nbl (Hnd : NoDup (ids nbl)) (Hc : clock_ok evs (table_of nbl)) :
  ∃ nbl', nbl_run evs nbl = Done tt nbl' ∧ NoDup (ids nbl') ∧
    table_of nbl' = foldl (λ m ev, table_step ev m) (table_of nbl) evs.
Proof.
  revert nbl Hnd Hc. induction evs as [|ev evs IH]; intros nbl Hnd Hc; [by exists nbl|].
  destruct Hc as [Hev Hc]. cbn [nbl_run foldl].
  assert (∃ nbl1, nbl_step ev nbl = Done tt nbl1 ∧ NoDup (ids nbl1) ∧ table_of nbl1 = table_step ev (table_of nbl))
    as (nbl1 & E & Hnd1 & Et).
  { destruct ev as [now ip|now]; cbn [nbl_step].
    - eexists. split; [done|]. by apply nbladd_spec.
    - eexists. split; [apply nblaging_spec|]. split; [by apply ids_filter|].
      apply table_of_filter; [done|]. by apply recent_table. }
  rewrite (bind_done _ _ _ _ _ E), <- Et. apply IH; [done|]. by rewrite Et.
Qed.

(** Deleting a neighbour that is in the list uses an iterator that was invalidated. *)
Lemma nbldel_dangles nbl e : e ∈ nbl → msvr_nbldel (Some e) nbl = Stuck UseAfterFree.
Proof.
  intros He. unfold msvr_nbldel. rewrite decide_True; [done|]. apply Exists_exists. by exists e.
Qed.

(** ** The choice of the next hop *)

Section next_hop_spec.
Context `{Libm, MathPow, Platform}.

(** A neighbour the loop considers: on one of the roads, nearer to the next crossing
    than the sender, and less than 200 metres off the goal of 100 metres. *)
Definition on_roads (roadid1 roadid2 roadid3 : Z) (e : msvr_nbentry) : Prop :=
  let r := n_roadid (nbe_ninfo e) in r = roadid1 ∨ (roadid2 ≠ -1 ∧ r = roadid2) ∨ r = roadid3.
Definition off_goal (x1 y1 : double) (e : msvr_nbentry) : double :=
  abs_double (dsub (msvr_cal_dist x1 y1 (n_x (nbe_ninfo e)) (n_y (nbe_ninfo e))) goal).
Definition makes_progress (x1 y1 x2 y2 : double) (e : msvr_nbentry) : Prop :=
  dlt (msvr_cal_dist x2 y2 (n_x (nbe_ninfo e)) (n_y (nbe_ninfo e))) (msvr_cal_dist x1 y1 x2 y2) = true.
Definition eligible (r1 r2 r3 : Z) (x1 y1 x2 y2 : double) (e : msvr_nbentry) : Prop :=
  on_roads r1 r2 r3 e ∧ makes_progress x1 y1 x2 y2 e ∧ dlt (off_goal x1 y1 e) (d_of_Z 200) = true.

Lemma next_hop_step_eq r1 r2 r3 x1 y1 x2 y2 len2 acc e :
  next_hop_step r1 r2 r3 x1 y1 x2 y2 len2 acc e =
  if decide (n_roadid (nbe_ninfo e) = r1 ∨ (r2 ≠ -1 ∧ n_roadid (nbe_ninfo e) = r2) ∨ n_roadid (nbe_ninfo e) = r3)
  then closer_to_goal x1 y1 x2 y2 len2 acc e else acc.
Proof. unfold next_hop_step. repeat case_decide; (done || tauto). Qed.

(** What the accumulator says after the entries [seen]. *)
Definition chosen (r1 r2 r3 : Z) (x1 y1 x2 y2 : double) (seen : nbl_t)
    (acc : double * option msvr_nbentry) : Prop :=
  (∀ c, c ∈ seen → eligible r1 r2 r3 x1 y1 x2 y2 c → dlt (off_goal x1 y1 c) acc.1 = false) ∧
  match acc.2 with
  | None => acc.1 = d_of_Z 200
  | Some e => e ∈ seen ∧ eligible r1 r2 r3 x1 y1 x2 y2 e ∧ acc.1 = off_goal x1 y1 e
  end.

Lemma chosen_step r1 r2 r3 x1 y1 x2 y2 seen acc e :
  chosen r1 r2 r3 x1 y1 x2 y2 seen acc →
  chosen r1 r2 r3 x1 y1 x2 y2 (seen ++ [e])
    (next_hop_step r1 r2 r3 x1 y1 x2 y2 (msvr_cal_dist x1 y1 x2 y2) acc e).
Proof.
  intros [Hmin Hacc].
  assert (dle acc.1 (d_of_Z 200) = true) as H200.
  { destruct acc as [len [b|]]; simpl in *; [|subst; by vm_compute].
    destruct Hacc as (_ & (_ & _ & Hb) & ->). by apply dlt_dle. }
  assert (Hkeep : (eligible r1 r2 r3 x1 y1 x2 y2 e → dlt (off_goal x1 y1 e) acc.1 = false) →
    chosen r1 r2 r3 x1 y1 x2 y2 (seen ++ [e]) acc).
  { intros He. split.
    - intros c [Hc| ->%list_elem_of_singleton]%elem_of_app; [by apply Hmin|done].
    - destruct acc.2 as [b|]; [|done]. destruct Hacc as (? & ? & ?). split; [apply elem_of_app; by left|done]. }
  rewrite next_hop_step_eq. case_decide as Hroad.
  2:{ apply Hkeep. by intros [? _]. }
  unfold closer_to_goal. fold (off_goal x1 y1 e).
  destruct (dlt (off_goal x1 y1 e) acc.1) eqn:El; simpl; [|by apply Hkeep].
  destruct (dlt (msvr_cal_dist x2 y2 _ _) _) eqn:Ep.
  2:{ apply Hkeep. intros (_ & Hp & _). unfold makes_progress in Hp. congruence. }
  assert (eligible r1 r2 r3 x1 y1 x2 y2 e) as He.
  { split; [done|]. split; [done|]. by eapply dlt_dle_trans. }
  split; simpl.
  - intros c [Hc| ->%list_elem_of_singleton]%elem_of_app Hec; [|by apply dlt_irrefl].
    specialize (Hmin c Hc Hec). apply not_true_iff_false. intros Hlt. apply not_true_iff_false in Hmin.
    apply Hmin. by eapply dlt_trans.
  - split; [apply elem_of_app; right; by left|done].
Qed.

(** The next hop is a neighbour on one of the given roads that is nearer to the next
    crossing than the sender, and of these one whose distance from the sender is nearest
    to 100 metres; the broadcast address is returned if there is none within 200 metres of
    that goal. *)
Theorem next_hop_nearest_goal nbl r1 r2 r3 x1 y1 x2 y2 :
  match msvr_get_next_hop nbl r1 r2 r3 x1 y1 x2 y2 true with
  | None => False
  | Some next =>
      (next = 2 ^ 32 - 1 ∧ ∀ c, c ∈ nbl → ¬ eligible r1 r2 r3 x1 y1 x2 y2 c) ∨
      ∃ e, e ∈ nbl ∧ next = n_dst (nbe_ninfo e) ∧ eligible r1 r2 r3 x1 y1 x2 y2 e ∧
        ∀ c, c ∈ nbl → eligible r1 r2 r3 x1 y1 x2 y2 c → dlt (off_goal x1 y1 c) (off_goal x1 y1 e) = false
  end.
Proof.
  assert (∀ l seen acc, chosen r1 r2 r3 x1 y1 x2 y2 seen acc → chosen r1 r2 r3 x1 y1 x2 y2 (seen ++ l)
    (foldl (next_hop_step r1 r2 r3 x1 y1 x2 y2 (msvr_cal_dist x1 y1 x2 y2)) acc l)) as Hfold.
  { intros l. induction l as [|e l IH]; intros seen acc Hc; [by rewrite (app_nil_r seen)|].
    cbn [foldl]. rewrite (cons_middle e seen), (assoc_L app). by apply IH, chosen_step. }
  destruct (Hfold nbl [] (d_of_Z 200, None)) as [Hmin Hacc].
  { split; [|done]. intros c Hc. by apply not_elem_of_nil in Hc. }
  unfold msvr_get_next_hop, msvr_nbl_find_next_hop. cbn [app] in *.
  destruct (foldl _ _ nbl) as [len [e|]]; cbn [fst snd] in *.
  - right. exists e. destruct Hacc as (? & ? & ->). by split_and!.
  - left. split; [done|]. intros c Hc Hec. specialize (Hmin c Hc Hec). destruct Hec as (_ & _ & Hlt). congruence.
Qed.
End next_hop_spec.

#[local] Instance msvr_ninfo_eq_dec : EqDecision msvr_ninfo.
Proof. solve_decision. Defined.
#[local] Instance timeval_eq_dec : EqDecision timeval.
Proof. solve_decision. Defined.

Definition demo_info (id dst : Z) : msvr_ninfo := Ninfo id d_zero d_zero d_zero d_zero 0 dst.
Definition demo_history : list nbl_event :=
  [Heard (Timeval 10 0) (demo_info 1 1); Heard (Timeval 12 0) (demo_info 2 2);
   Heard (Timeval 13 0) (demo_info 2 7); Aging (Timeval 14 0)].

Lemma neighbours_are_table_witness :
  ∃ nbl, nbl_run demo_history [] = Done tt nbl ∧ table_of nbl = {[2 := (demo_info 2 2, Timeval 13 0)]}.
Proof.
  destruct (neighbours_are_table demo_history []) as (nbl & E & _ & Et).
  - constructor.
  - cbn [clock_ok demo_history]. split_and!; try exact I. apply map_Forall_to_list.
    apply (bool_decide_unpack _). vm_compute. exact I.
  - exists nbl. split; [exact E|]. rewrite Et. apply (bool_decide_unpack _). vm_compute. exact I.
Defined.
