(* ===== verification/MsvrMap.v ===== *)
(** * GeoSVR in the simulator: the road map

    [ns2/msvr/map/msvr_map.cc]: the built-in map of five crossings, the road at a
    position, and the route between two positions.  The graph of the Boost Graph Library
    is the one of [MapManager.v]; here the distances of Dijkstra's algorithm are doubles,
    so that an edge of type [INT_MAX] still is an edge. *)
From S2P Require Import Prelude Double MsvrNeigh Database RoadMap MapManager.
Open Scope Z_scope.

(** Dijkstra's algorithm as documented: the predecessors form a tree rooted in the source,
    whose edges are edges of the graph; a vertex that cannot be reached is its own
    predecessor. *)
Class Predecessors := {
  preds : Map → Z → list Z;
  preds_length : ∀ g s, Z.of_nat (length (preds g s)) = num_vertices g;
  preds_source : ∀ g s, 0 ≤ s < num_vertices g → preds g s !! Z.to_nat s = Some s;
  preds_forest : ∀ g s, ∃ rank : Z → nat,
    ∀ v u, 0 ≤ v → preds g s !! Z.to_nat v = Some u → u ≠ v → (rank u < rank v)%nat;
  preds_edge : ∀ g s v u, 0 ≤ v → preds g s !! Z.to_nat v = Some u →
    0 ≤ u < num_vertices g ∧
    (u = v ∨ ∃ e, e ∈ edges g ∧ ((source e = v ∧ target e = u) ∨ (source e = u ∧ target e = v)));
  preds_reached : ∀ g s e a b, e ∈ edges g → 0 ≤ a < num_vertices g → 0 ≤ b < num_vertices g →
    ((source e = a ∧ target e = b) ∨ (source e = b ∧ target e = a)) →
    preds g s !! Z.to_nat a = Some a → a ≠ s → preds g s !! Z.to_nat b = Some b ∧ b ≠ s;
}.

Definition MSVR_ROAD_PAD : double := d_of_Z 30.

(** ** The built-in map *)

(* [ns2/msvr/map/msvr_map.cc:37-54] MsvrMap::MsvrMap *)
Definition edge_array : list (Z * Z) := [(0, 1); (1, 2); (2, 3); (3, 4)].
Definition weights : list Road := [MapRoad 0 100; MapRoad 1 100; MapRoad 2 100; MapRoad 3 100].
Definition point_arr : list Node :=
  [MapNode 0 d_zero d_zero; MapNode 1 (d_of_Z 100) d_zero; MapNode 2 (d_of_Z 1400) d_zero;
   MapNode 3 (d_of_Z 1500) (d_of_Z 1000); MapNode 4 (d_of_Z 1550) d_zero].

(** The edges are those of the constructor from iterators, the vertices those of the loop. *)
(* [ns2/msvr/map/msvr_map.cc:112-124] MsvrMap::MsvrMap *)
Definition MsvrMap_new : Map :=
  match make_map edge_array weights 5 with
  | Some g => Graph (take (length (vertices g)) point_arr) (edges g)
  | None => Graph [] []
  end.

Section msvr_map.
Context `{MathPow, Predecessors}.

Abbreviation msvr_map := Map.

(** [map_[v]]. *)
Definition vertex_of (v : Z) : M msvr_map Node := λ g,
  match (if decide (0 ≤ v) then vertices g !! Z.to_nat v else None) with
  | Some n => Done n g
  | None => Stuck OutOfBounds
  end.

(** The vertices adjacent to [v], in the order of its edges. *)
Definition adjacent_vertices (g : msvr_map) (v : Z) : list Z :=
  edges g ≫= λ e, (if decide (source e = v) then [target e] else []) ++
                  (if decide (target e = v) then [source e] else []).

Definition dmin (a b : double) : double := if dlt b a then b else a.
Definition dmax (a b : double) : double := if dlt a b then b else a.

(** Within the rectangle of two vertices, padded. *)
Definition in_rect (a b : Node) (px py : double) : bool :=
  dle (dsub (dmin (x a) (x b)) MSVR_ROAD_PAD) px && dle px (dadd (dmax (x a) (x b)) MSVR_ROAD_PAD) &&
  dle (dsub (dmin (y a) (y b)) MSVR_ROAD_PAD) py && dle py (dadd (dmax (y a) (y b)) MSVR_ROAD_PAD).

(** The pairs of a vertex and an adjacent one, in the order of the loops. *)
Definition adjacent_pairs (g : msvr_map) : list (Z * Z) :=
  seqZ 0 (num_vertices g) ≫= λ v, (λ a, (v, a)) <$> adjacent_vertices g v.
Definition in_rect_of (g : msvr_map) (px py : double) (va : Z * Z) : bool :=
  match vertices g !! Z.to_nat va.1, vertices g !! Z.to_nat va.2 with
  | Some a, Some b => in_rect a b px py
  | _, _ => false
  end.

(** The first pair, in whose rectangle the position is, that is an edge from its first to
    its second vertex; the type of the result is not initialised if there is none, and
    never read. *)
(* [ns2/msvr/map/msvr_map.cc:130-161] MsvrMap::getRoadByPos *)
Definition getRoadByPos (g : msvr_map) (px py : double) : Road :=
  default (MapRoad (-1) 0)
    (road <$> head
       (adjacent_pairs g ≫= λ va,
          if in_rect_of g px py va
          then take 1 (filter (λ e, source e = va.1 ∧ target e = va.2) (edges g)) else [])).

Definition node_id (g : msvr_map) (v : Z) : Z := default (-1) (id <$> vertices g !! Z.to_nat v).

(* [ns2/msvr/map/msvr_map.cc:163-178] MsvrMap::getRoadByNode *)
Definition getRoadByNode (g : msvr_map) (src dst : Z) : Z :=
  default (-1) ((λ ie, rid (road ie.2)) <$>
    list_find (λ e, let s := node_id g (source e) in let d := node_id g (target e) in
                    (s = src ∧ d = dst) ∨ (s = dst ∧ d = src)) (edges g)).

Definition dist (a b : Node) : double := msvr_cal_dist (x a) (y a) (x b) (y b).

(** An edge at the destination that no route uses yet, from a crossing nearer to the
    source. *)
Definition next_path_edge (g : msvr_map) (s d : Node) (e : edge) : bool :=
  match vertices g !! Z.to_nat (source e), vertices g !! Z.to_nat (target e) with
  | Some es, Some et =>
      (bool_decide (id es = id d) || bool_decide (id et = id d)) &&
      negb (bool_decide (type (road e) = INT_MAX)) &&
      dlt (if decide (id es = id d) then dist s et else dist s es) (dist s d)
  | _, _ => false
  end.
(* [ns2/msvr/map/msvr_map.cc:180-205] MsvrMap::hasNextPath *)
Definition hasNextPath (src dst : Z) : M msvr_map bool :=
  s ← vertex_of src;
  d ← vertex_of dst;
  g ← get;
  mret (existsb (next_path_edge g s d) (edges g)).

(** The sum is an [int]; the division is one of unsigned 64-bit integers. *)
(* [ns2/msvr/map/msvr_map.cc:207-229] MsvrMap::meanSquare *)
Definition meanSquare (types : list Z) : option double :=
  let sum := foldl (λ s t, s32 (s + t)) 0 types in
  if decide (types = []) then None
  else
    let n := Z.of_nat (length types) in
    let mean := d_of_Z (u64 sum / n) in
    let sum2 := foldl (λ s t, dadd s (dmul (dsub (d_of_Z t) mean) (dsub (d_of_Z t) mean))) d_zero types in
    Some (dsqrt (ddiv sum2 (d_of_Z n))).

(** The first loop: [cnt], the least sum and its index. *)
Fixpoint min_sum (types : list (list Z)) (i cnt imax index : Z) : Z * Z :=
  match types with
  | [] => (cnt, index)
  | ts :: types =>
      let sum := foldl (λ s t, s32 (s + t)) 0 ts in
      if decide (sum < imax) then min_sum types (i + 1) 1 sum i
      else if decide (sum = imax) then min_sum types (i + 1) 2 imax index
      else min_sum types (i + 1) cnt imax index
  end.
(** The second loop: the index of the least deviation. *)
Fixpoint min_mean (means : list double) (i : Z) (max : double) (index : Z) : Z :=
  match means with
  | [] => index
  | m :: means => if dlt m max then min_mean means (i + 1) m i else min_mean means (i + 1) max index
  end.
(* [ns2/msvr/map/msvr_map.cc:231-271] MsvrMap::findMeanMin *)
Definition findMeanMin (types : list (list Z)) (means : list double) : Z :=
  let '(cnt, index) := min_sum types 0 0 INT_MAX 0 in
  if decide (cnt = 1) then index else min_mean means 0 DBL_MAX index.

(** The nearer (for the source) and the farther (for the destination) end of the edges of
    a road.  The accumulator is the pair [path] and the point [x], [y], which is not
    initialised. *)
Definition src_dst_step (g : msvr_map) (srcRoad dstRoad : Z) (x1 y1 : double)
    (acc : outcome unit (Z * Z * option (double * double))) (e : edge)
    : outcome unit (Z * Z * option (double * double)) :=
  match acc, vertices g !! Z.to_nat (source e), vertices g !! Z.to_nat (target e) with
  | Done (first, second, xy) _, Some s, Some t =>
      let '(first, xy) :=
        if decide (rid (road e) = srcRoad) then
          if dlt (msvr_cal_dist (x s) (y s) x1 y1) (msvr_cal_dist (x t) (y t) x1 y1)
          then (id s, Some (x s, y s)) else (id t, Some (x t, y t))
        else (first, xy) in
      if decide (rid (road e) = dstRoad) then
        match xy with
        | None => Stuck UninitRead
        | Some (px, py) =>
            let srclen := msvr_cal_dist (x s) (y s) px py in
            let dstlen := msvr_cal_dist (x t) (y t) px py in
            Done (first,
                  (if decide (first = id s) then id t
                   else if decide (first = id t) then id s
                   else if dlt dstlen srclen then id s else id t), xy) tt
        end
      else Done (first, second, xy) tt
  | Done _ _, _, _ => Stuck OutOfBounds
  | _, _, _ => acc
  end.
(* [ns2/msvr/map/msvr_map.cc:376-433] MsvrMap::getSrcAndDst *)
Definition getSrcAndDst (x1 y1 x2 y2 : double) : M msvr_map (Z * Z) := λ g,
  let srcRoad := rid (getRoadByPos g x1 y1) in
  let dstRoad := rid (getRoadByPos g x2 y2) in
  match foldl (src_dst_step g srcRoad dstRoad x1 y1) (Done (0, 0, None) tt) (edges g) with
  | Done (first, second, _) _ => Done (first, second) g
  | Abort _ => Abort g
  | Stuck f => Stuck f
  end.

(** ** The route between two positions *)

(** The vertex with an identifier; the iterator is not initialised if there is none. *)
(* [ns2/msvr/map/msvr_map.cc:303-308] MsvrMap::getPaths *)
Definition find_iter (g : msvr_map) (i : Z) : option Z :=
  last (filter (λ v, node_id g v = i) (seqZ 0 (num_vertices g))).

Definition joins (e : edge) (v u : Z) : Prop :=
  (source e = v ∧ target e = u) ∨ (source e = u ∧ target e = v).
#[global] Instance joins_dec e v u : Decision (joins e v u) := _.

(** One step of the walk: the types of the edges between [v] and its predecessor are
    saved, and the edges marked. *)
(* [ns2/msvr/map/msvr_map.cc:317-324] MsvrMap::getPaths *)
Definition take_edges (v u : Z) : M msvr_map (list Z) := λ g,
  Done ((λ e, type (road e)) <$> filter (λ e, joins e v u) (edges g))
       (Graph (vertices g) ((λ e, if decide (joins e v u) then set_type INT_MAX e else e) <$> edges g)).

(** The walk from [v] to the source: the crossings passed after [v], and the types. *)
(* [ns2/msvr/map/msvr_map.cc:310-325] MsvrMap::getPaths *)
Fixpoint walk (fuel : nat) (p : list Z) (src v : Z) : M msvr_map (list Z * list Z) :=
  match fuel with
  | O => stuck NoFuel
  | S fuel =>
      if decide (v = src) then mret ([], [])
      else
        match (if decide (0 ≤ v) then p !! Z.to_nat v else None) with
        | None => stuck OutOfBounds
        | Some u =>
            n ← vertex_of u;
            ts ← take_edges v u;
            '(ids, types) ← walk fuel p src u;
            mret (id n :: ids, ts ++ types)
        end
  end.

(** A candidate: the predecessors of its search, its crossings, types and deviation. *)
Record candidate := Cand { c_preds : list Z; c_path : list Z; c_types : list Z; c_mean : double }.

(* [ns2/msvr/map/msvr_map.cc:290-342] MsvrMap::getPaths *)
Fixpoint paths_loop (fuel : nat) (path : Z * Z) : M msvr_map (list candidate) :=
  match fuel with
  | O => stuck NoFuel
  | S fuel =>
      more ← hasNextPath path.1 path.2;
      if negb more then mret []
      else
        g ← get;
        let p := preds g path.1 in
        match find_iter g path.1, find_iter g path.2 with
        | Some src, Some dst =>
            n ← vertex_of dst;
            '(ids, types) ← walk (S (length p)) p src dst;
            match meanSquare types with
            | None => stuck DivByZero
            | Some mean =>
                cs ← paths_loop fuel path;
                mret (Cand p (rev (id n :: ids)) types mean :: cs)
            end
        | _, _ => stuck UninitRead
        end
  end.

(** One step of a restoration: the edges between [v] and [u] get the next saved type. *)
(* [ns2/msvr/map/msvr_map.cc:362-370] MsvrMap::getPaths *)
Fixpoint restore (fuel : nat) (p : list Z) (src v : Z) (types : list Z) : M msvr_map unit :=
  match fuel with
  | O => stuck NoFuel
  | S fuel =>
      if decide (v = src) then skip
      else
        match (if decide (0 ≤ v) then p !! Z.to_nat v else None) with
        | None => stuck OutOfBounds
        | Some u =>
            g ← get;
            if bool_decide (filter (λ e, joins e v u) (edges g) = []) then
              restore fuel p src u (tail types)
            else
              match types with
              | [] => stuck OutOfBounds
              | t :: types =>
                  _ ← put (Graph (vertices g)
                        ((λ e, if decide (joins e v u) then set_type t e else e) <$> edges g));
                  restore fuel p src u types
              end
        end
  end.

(* [ns2/msvr/map/msvr_map.cc:347-371] MsvrMap::getPaths *)
Fixpoint restore_all (path : Z * Z) (cs : list candidate) : M msvr_map unit :=
  match cs with
  | [] => skip
  | c :: cs =>
      g ← get;
      match find_iter g path.1, find_iter g path.2 with
      | Some src, Some dst =>
          _ ← restore (S (length (c_preds c))) (c_preds c) src dst (c_types c);
          restore_all path cs
      | _, _ => stuck UninitRead
      end
  end.

(** [fuel] bounds the number of candidates. *)
(* [ns2/msvr/map/msvr_map.cc:273-374] MsvrMap::getPaths *)
Definition getPaths (fuel : nat) (x1 y1 x2 y2 : double) : M msvr_map (list Z) :=
  path ← getSrcAndDst x1 y1 x2 y2;
  cs ← paths_loop fuel path;
  let index := findMeanMin (c_types <$> cs) (c_mean <$> cs) in
  match cs !! Z.to_nat index with
  | None => stuck OutOfBounds
  | Some c => _ ← restore_all path cs; mret (c_path c)
  end.
End msvr_map.

(** ** Squares

    [pow(x, 2)] is the correctly rounded square; with that, distances can be computed. *)
Definition exact_pow : MathPow := λ a _, dmul a a.
Definition squares (p : MathPow) : Prop := ∀ a, @pow p a (d_of_Z 2) = dmul a a.

Section squares.
Context (P : MathPow) (Hsq : squares P) `{Predecessors}.

Lemma cal_dist_exact a b c d : @msvr_cal_dist P a b c d = @msvr_cal_dist exact_pow a b c d.
Proof. unfold msvr_cal_dist. by rewrite !Hsq. Qed.

Lemma hasNextPath_exact s d g : @hasNextPath P s d g = @hasNextPath exact_pow s d g.
Proof.
  unfold hasNextPath, mbind, M_bind. destruct (vertex_of s g) as [ns g1| |]; [|done|done].
  destruct (vertex_of d g1) as [nd g2| |]; [|done|done]. unfold get, mret, M_ret. f_equal.
  induction (edges g2) as [|e es IH]; [done|]. cbn [existsb]. rewrite IH. f_equal.
  unfold next_path_edge, dist. case_match; [|done]. case_match; [|done]. by rewrite !cal_dist_exact.
Qed.

Lemma paths_loop_exact fuel path g : @paths_loop P _ fuel path g = @paths_loop exact_pow _ fuel path g.
Proof.
  revert g. induction fuel as [|fuel IH]; intros g; [done|]. cbn [paths_loop].
  apply bind_ext; [apply hasNextPath_exact|]. intros more g1. destruct (negb more); [done|].
  apply bind_ext; [done|]. intros g2 s2. destruct (find_iter g2 path.1), (find_iter g2 path.2); try done.
  do 2 (apply bind_ext; [done|intros ? ?]). case_match. destruct (meanSquare _); [|done].
  by apply bind_ext.
Qed.

Lemma getSrcAndDst_exact x1 y1 x2 y2 g : @getSrcAndDst P x1 y1 x2 y2 g = @getSrcAndDst exact_pow x1 y1 x2 y2 g.
Proof.
  unfold getSrcAndDst. generalize (Done (0, 0, @None (double * double)) () : outcome unit (Z * Z * option (double * double))).
  generalize (edges g). intros es. induction es as [|e es IH]; intros acc; [done|]. cbn [foldl].
  assert (∀ r1 r2, @src_dst_step P g r1 r2 x1 y1 acc e = @src_dst_step exact_pow g r1 r2 x1 y1 acc e) as ->.
  { intros r1 r2. unfold src_dst_step. destruct acc as [[[? ?] xy] []| |]; try done.
    do 2 (case_match; [|done]). rewrite !cal_dist_exact.
    destruct (if decide (rid (road e) = r1) then _ else _) as [f [[px py]|]]; [|done].
    by rewrite !cal_dist_exact. }
  apply IH.
Qed.

Lemma getPaths_exact fuel x1 y1 x2 y2 g :
  @getPaths P _ fuel x1 y1 x2 y2 g = @getPaths exact_pow _ fuel x1 y1 x2 y2 g.
Proof.
  unfold getPaths. apply bind_ext; [apply getSrcAndDst_exact|]. intros path g1.
  apply bind_ext; [apply paths_loop_exact|done].
Qed.
End squares.

(** ** Routes on the built-in map

    The map is a line of crossings: from each there is one way to each other. *)
Definition builtin (t0 t1 t2 t3 : Z) : Map :=
  Graph point_arr [MapEdge 0 1 (MapRoad 0 t0); MapEdge 1 2 (MapRoad 1 t1);
                   MapEdge 2 3 (MapRoad 2 t2); MapEdge 3 4 (MapRoad 3 t3)].
Definition toward (s : Z) : list Z :=
  (λ v, if v <? s then v + 1 else if s <? v then v - 1 else v) <$> [0; 1; 2; 3; 4].

Section builtin.
Context `{Predecessors} (t0 t1 t2 t3 s : Z) (Hs : 0 ≤ s < 5).
Let g := builtin t0 t1 t2 t3.
Let pred (v : Z) : option Z := preds g s !! Z.to_nat v.

Lemma builtin_edge v u : 0 ≤ v → pred v = Some u → 0 ≤ u < 5 ∧ (u = v ∨ u = v + 1 ∨ u = v - 1).
Proof.
  intros Hv Hu. destruct (preds_edge g s v u Hv Hu) as [Hr He]. split; [exact Hr|].
  destruct He as [->|(e & He & Hj)]; [by left|]. right. simpl in He. rewrite !elem_of_cons, elem_of_nil in He.
  destruct He as [->|[->|[->|[->|[]]]]]; simpl in Hj; lia.
Qed.

Lemma builtin_pred v : 0 ≤ v < 5 → ∃ u, pred v = Some u.
Proof.
  intros Hv. pose proof (preds_length g s) as Hl. unfold num_vertices in Hl. simpl in Hl.
  destruct (lookup_lt_is_Some_2 (preds g s) (Z.to_nat v)) as [u Hu]; [lia|]. by exists u.
Qed.

Lemma builtin_unreached a b : 0 ≤ a < 5 → 0 ≤ b < 5 → (b = a + 1 ∨ a = b + 1) →
  pred a = Some a → a ≠ s → pred b = Some b ∧ b ≠ s.
Proof.
  intros Ha Hb Hab. set (k := Z.min a b).
  eapply (preds_reached g s (MapEdge k (k + 1) (MapRoad k (match k with 0 => t0 | 1 => t1 | 2 => t2 | _ => t3 end))));
    [|done|done|simpl; lia].
  assert (k = 0 ∨ k = 1 ∨ k = 2 ∨ k = 3) as [->|[->|[->| ->]]] by lia; simpl; rewrite !elem_of_cons; tauto.
Qed.

(** The map is connected: only the source is its own predecessor. *)
Lemma builtin_reached v : 0 ≤ v < 5 → v ≠ s → pred v ≠ Some v.
Proof.
  intros Hv Hne Ev.
  assert (∀ k d v, (d = 1 ∨ d = -1) → 0 ≤ v < 5 → 0 ≤ v + d * Z.of_nat k < 5 → pred v = Some v → v ≠ s →
    v + d * Z.of_nat k ≠ s) as Hk.
  { intros k d. induction k as [|k IH]; intros v' Hd ? ? E ?; [lia|].
    destruct (builtin_unreached v' (v' + d)) as [E' ?]; [lia..|done|done|].
    specialize (IH (v' + d) Hd ltac:(lia) ltac:(lia) E'). lia. }
  destruct (decide (v < s)).
  - apply (Hk (Z.to_nat (s - v)) 1 v); (done || lia).
  - apply (Hk (Z.to_nat (v - s)) (-1) v); (done || lia).
Qed.

(** Predecessors do not point at each other. *)
Lemma builtin_acyclic v u : 0 ≤ v → 0 ≤ u → v ≠ u → pred v = Some u → pred u ≠ Some v.
Proof.
  intros Hv Hu Hne E1 E2. destruct (preds_forest g s) as (rank & Hr).
  pose proof (Hr v u Hv E1 ltac:(done)). pose proof (Hr u v Hu E2 ltac:(done)). lia.
Qed.

(** The predecessor is the neighbour toward the source. *)
Lemma builtin_up n : Z.of_nat n < s → pred (Z.of_nat n) = Some (Z.of_nat n + 1).
Proof.
  induction n as [|n IH]; intros Hn.
  - destruct (builtin_pred 0) as [u Hu]; [lia|]. destruct (builtin_edge 0 u) as [Hr He]; [lia|done|].
    pose proof (builtin_reached 0 ltac:(lia) ltac:(lia)). change (Z.of_nat 0) with 0 in *. rewrite Hu in *. f_equal.
    destruct He as [->|]; [done|lia].
  - set (v := Z.of_nat (S n)) in *. assert (Z.of_nat n = v - 1) as En by lia. rewrite En in *.
    destruct (builtin_pred v) as [u Hu]; [lia|]. destruct (builtin_edge v u) as [Hr He]; [lia|done|].
    pose proof (builtin_reached v ltac:(lia) ltac:(lia)).
    pose proof (builtin_acyclic (v - 1) v ltac:(lia) ltac:(lia) ltac:(lia)) as Ha.
    specialize (IH ltac:(lia)). replace (v - 1 + 1) with v in IH by lia. specialize (Ha IH).
    rewrite Hu in *. f_equal. destruct He as [->|[->| ->]]; done.
Qed.

Lemma builtin_down n : s < 4 - Z.of_nat n ≤ 4 → pred (4 - Z.of_nat n) = Some (4 - Z.of_nat n - 1).
Proof.
  induction n as [|n IH]; intros Hn.
  - destruct (builtin_pred 4) as [u Hu]; [lia|]. destruct (builtin_edge 4 u) as [Hr He]; [lia|done|].
    pose proof (builtin_reached 4 ltac:(lia) ltac:(lia)). change (4 - Z.of_nat 0) with 4. rewrite Hu in *. f_equal.
    destruct He as [->|]; [done|lia].
  - set (v := 4 - Z.of_nat (S n)) in *. assert (4 - Z.of_nat n = v + 1) as En by lia. rewrite En in *.
    destruct (builtin_pred v) as [u Hu]; [lia|]. destruct (builtin_edge v u) as [Hr He]; [lia|done|].
    pose proof (builtin_reached v ltac:(lia) ltac:(lia)).
    pose proof (builtin_acyclic (v + 1) v ltac:(lia) ltac:(lia) ltac:(lia)) as Ha.
    specialize (IH ltac:(lia)). replace (v + 1 - 1) with v in IH by lia. specialize (Ha IH).
    rewrite Hu in *. f_equal. destruct He as [->|[->| ->]]; done.
Qed.

Lemma builtin_toward v : 0 ≤ v < 5 →
  pred v = Some (if v <? s then v + 1 else if s <? v then v - 1 else v).
Proof.
  intros Hv. destruct (Z.ltb_spec v s); [|destruct (Z.ltb_spec s v)].
  - pose proof (builtin_up (Z.to_nat v)) as Hu. rewrite Z2Nat.id in Hu by lia. by apply Hu.
  - pose proof (builtin_down (Z.to_nat (4 - v))) as Hd. rewrite Z2Nat.id in Hd by lia.
    replace (4 - (4 - v)) with v in Hd by lia. apply Hd. lia.
  - assert (v = s) as -> by lia. by apply preds_source.
Qed.

Lemma preds_builtin : preds g s = toward s.
Proof.
  apply list_eq. intros i. destruct (decide (i < 5)%nat) as [Hi|Hi].
  - pose proof (builtin_toward (Z.of_nat i) ltac:(lia)) as E. unfold pred in E. rewrite Nat2Z.id in E. rewrite E.
    unfold toward. do 5 (destruct i as [|i]; [done|]). lia.
  - rewrite !lookup_ge_None_2; [done|unfold toward; simpl; lia|].
    pose proof (preds_length g s) as Hl. unfold num_vertices in Hl. simpl in Hl. lia.
Qed.
End builtin.

(** Case analysis over the crossings. *)
Ltac crossings s :=
  assert (s = 0 ∨ s = 1 ∨ s = 2 ∨ s = 3 ∨ s = 4) as [->|[->|[->|[->| ->]]]] by lia.

(** One candidate of the loop, and its end. *)
Section builtin_loop.
Context `{Predecessors}.
#[local] Existing Instance exact_pow.

Lemma loop_more fuel s d g t0 t1 t2 t3 n ids types g' mean r :
  0 ≤ s < 5 → g = builtin t0 t1 t2 t3 →
  hasNextPath s d g = Done true g → find_iter g s = Some s → find_iter g d = Some d →
  vertex_of d g = Done n g → walk 6 (toward s) s d g = Done (ids, types) g' → rev (id n :: ids) = r →
  meanSquare types = Some mean →
  paths_loop (S fuel) (s, d) g =
    (cs ← paths_loop fuel (s, d); mret (Cand (toward s) r types mean :: cs)) g'.
Proof.
  intros Hs Eg Em Es Ed En Ew <- Et. cbn [paths_loop fst snd].
  rewrite (bind_done _ _ _ _ _ Em). cbn [negb]. rewrite (bind_done _ _ _ g g) by done.
  rewrite Es, Ed, (bind_done _ _ _ _ _ En).
  assert (preds g s = toward s) as -> by (subst; by apply preds_builtin).
  change (S (length (toward s))) with 6%nat. rewrite (bind_done _ _ _ _ _ Ew). cbv beta iota. rewrite Et. reflexivity.
Qed.

Lemma loop_last fuel s d g : hasNextPath s d g = Done false g → paths_loop (S fuel) (s, d) g = Done [] g.
Proof. intros Em. cbn [paths_loop fst snd]. by rewrite (bind_done _ _ _ _ _ Em). Qed.

(** The map with the edges between two crossings marked. *)
Definition marked_way (s d : Z) : Map :=
  let m i := if (Z.min s d <=? i) && (i <? Z.max s d) then INT_MAX else 100 in
  builtin (m 0) (m 1) (m 2) (m 3).
Definition route_of (s d : Z) : list Z :=
  if s <? d then seqZ s (d - s + 1) else rev (seqZ d (s - d + 1)).


(** The first candidate on the built-in map. *)
Lemma loop_first fuel s d :
  0 ≤ s < 5 → 0 ≤ d < 5 → s ≠ d → hasNextPath s d MsvrMap_new = Done true MsvrMap_new →
  paths_loop (S fuel) (s, d) MsvrMap_new =
    (cs ← paths_loop fuel (s, d);
     mret (Cand (toward s) (route_of s d) (replicate (Z.abs_nat (d - s)) 100) d_zero :: cs)) (marked_way s d).
Proof.
  intros Hs Hd Hne Hm. crossings s; crossings d; try (exfalso; clear Hm; lia);
    (vm_compute in Hm; try discriminate; clear Hm); eapply loop_more;
    lazymatch goal with |- _ ∧ _ => lia | |- _ => vm_compute; reflexivity end.
Qed.

(** To the crossing 3 there always seems to be another route. *)
Lemma loop_again fuel s : 0 ≤ s < 5 → s ≠ 3 →
  ∃ types mean, paths_loop (S fuel) (s, 3) (marked_way s 3) =
    (cs ← paths_loop fuel (s, 3); mret (Cand (toward s) (route_of s 3) types mean :: cs)) (marked_way s 3).
Proof.
  intros Hs Hne. crossings s; try (exfalso; lia); eexists _, _; eapply loop_more;
    lazymatch goal with |- _ ∧ _ => lia | |- _ => vm_compute; reflexivity end.
Qed.

Lemma loop_diverges fuel s : 0 ≤ s < 5 → s ≠ 3 → paths_loop fuel (s, 3) MsvrMap_new = Stuck NoFuel.
Proof.
  intros Hs Hne.
  assert (∀ fuel, paths_loop fuel (s, 3) (marked_way s 3) = Stuck NoFuel) as Hmarked.
  { clear fuel. intros fuel. induction fuel as [|fuel IH]; [done|].
    destruct (loop_again fuel s Hs Hne) as (types & mean & ->). unfold mbind, M_bind. by rewrite IH. }
  destruct fuel as [|fuel]; [done|]. rewrite loop_first; [|lia..|].
  - unfold mbind, M_bind. by rewrite Hmarked.
  - crossings s; try (exfalso; lia); vm_compute; reflexivity.
Qed.

(** No edge at the destination leads nearer to the source. *)
Definition cut_off (s d : Z) : Prop := (d = 4 ∧ s ≤ 2) ∨ (d = 2 ∧ s = 4).
#[global] Instance cut_off_dec s d : Decision (cut_off s d) := _.

Lemma loop_cut_off fuel s d : 0 ≤ s < 5 → 0 ≤ d < 5 → cut_off s d →
  paths_loop (S fuel) (s, d) MsvrMap_new = Done [] MsvrMap_new.
Proof.
  intros Hs Hd Hc. apply loop_last. unfold cut_off in Hc.
  crossings s; crossings d; try (exfalso; lia); vm_compute; reflexivity.
Qed.

Lemma loop_one fuel s d : 0 ≤ s < 5 → 0 ≤ d < 5 → s ≠ d → d ≠ 3 → ¬ cut_off s d →
  paths_loop (S (S fuel)) (s, d) MsvrMap_new =
    Done [Cand (toward s) (route_of s d) (replicate (Z.abs_nat (d - s)) 100) d_zero] (marked_way s d).
Proof.
  intros Hs Hd Hne H3 Hc. rewrite loop_first; [|lia..|].
  - rewrite (bind_done _ _ _ [] (marked_way s d)); [done|]. apply loop_last. unfold cut_off in Hc.
    crossings s; crossings d; try (exfalso; lia); vm_compute; reflexivity.
  - unfold cut_off in Hc. crossings s; crossings d; try (exfalso; lia); vm_compute; reflexivity.
Qed.
End builtin_loop.


(** A sender on the first road and a receiver on the third. *)
Lemma receiver_hangs (P : MathPow) `{Predecessors} fuel : squares P →
  getPaths fuel (d_of_Z 10) d_zero (d_of_Z 1450) (d_of_Z 500) MsvrMap_new = Stuck NoFuel.
Proof.
  intros Hsq. rewrite getPaths_exact by done. unfold getPaths.
  rewrite (bind_done _ _ _ (0, 3) MsvrMap_new) by (vm_compute; reflexivity).
  unfold mbind at 1, M_bind at 1. by rewrite loop_diverges.
Qed.
