(* ===== verification/SearchTree.v ===== *)
(** * A search tree

    A concrete search of a graph with the properties that [MsvrMap.v] asks of Dijkstra's
    algorithm: repeatedly, an edge from a vertex that was reached to one that was not. *)
From S2P Require Import Prelude Double MsvrNeigh Database RoadMap MapManager MsvrMap.
Open Scope Z_scope.

(** The vertices reached, with their predecessors and depths. *)
Abbreviation tree := (gmap Z (Z * nat)).

Definition in_range (g : Map) (v : Z) : Prop := 0 ≤ v < num_vertices g.
#[global] Instance in_range_dec g v : Decision (in_range g v) := _.

(** A step from [a] to [b], if only [a] was reached. *)
Definition reach (g : Map) (m : tree) (a b : Z) : list (Z * (Z * nat)) :=
  match m !! a, m !! b with
  | Some (_, d), None => if decide (in_range g b) then [(b, (a, S d))] else []
  | _, _ => []
  end.
Definition fringe (g : Map) (m : tree) : list (Z * (Z * nat)) :=
  edges g ≫= λ e, reach g m (source e) (target e) ++ reach g m (target e) (source e).
Fixpoint grow (fuel : nat) (g : Map) (m : tree) : tree :=
  match fuel with
  | O => m
  | S fuel => match head (fringe g m) with None => m | Some (b, x) => grow fuel g (<[b := x]> m) end
  end.
Definition root (g : Map) (s : Z) : tree := if decide (in_range g s) then {[s := (s, O)]} else ∅.
Definition search (g : Map) (s : Z) : tree := grow (Z.to_nat (num_vertices g)) g (root g s).
Definition search_preds (g : Map) (s : Z) : list Z :=
  (λ v, default v (fst <$> search g s !! v)) <$> seqZ 0 (num_vertices g).

Definition tree_ok (g : Map) (s : Z) (m : tree) : Prop :=
  (in_range g s → m !! s = Some (s, O)) ∧
  ∀ v u d, m !! v = Some (u, d) → in_range g v ∧
    ((v = s ∧ u = s) ∨
     ∃ w d', m !! u = Some (w, d') ∧ (d' < d)%nat ∧ ∃ e, e ∈ edges g ∧ joins e v u).

Lemma elem_of_reach g m a b c x :
  (c, x) ∈ reach g m a b → c = b ∧ m !! b = None ∧ in_range g b ∧ ∃ w d, m !! a = Some (w, d) ∧ x = (a, S d).
Proof.
  unfold reach. destruct (m !! a) as [[w d]|]; [|by intros ?%elem_of_nil].
  destruct (m !! b); [by intros ?%elem_of_nil|]. case_decide; [|by intros ?%elem_of_nil].
  intros [= -> ->]%list_elem_of_singleton. split_and!; try done. by exists w, d.
Qed.

Lemma elem_of_fringe g m b x :
  (b, x) ∈ fringe g m → m !! b = None ∧ in_range g b ∧
    ∃ a w d, m !! a = Some (w, d) ∧ x = (a, S d) ∧ ∃ e, e ∈ edges g ∧ joins e b a.
Proof.
  unfold fringe. rewrite list_elem_of_bind. intros (e & Hx & He). unfold joins.
  apply elem_of_app in Hx as [Hx|Hx]; apply elem_of_reach in Hx as (-> & ? & ? & w & d & ? & ->);
    split_and!; try done; eexists _, w, d; split_and!; try done; exists e; (split; [done|]); auto.
Qed.

Lemma tree_ok_insert g s m b x : tree_ok g s m → (b, x) ∈ fringe g m → tree_ok g s (<[b := x]> m).
Proof.
  intros [Hs Hm] (Hb & Hr & a & w & d & Ha & -> & He)%elem_of_fringe. split.
  - intros Hin. specialize (Hs Hin). rewrite lookup_insert_ne; [done|]. intros ->. congruence.
  - intros v u d'. destruct (decide (b = v)) as [->|Hne].
    + rewrite lookup_insert_eq. intros [= <- <-]. split; [done|]. right. exists w, d.
      rewrite lookup_insert_ne by (intros ->; simplify_eq). split_and!; [done|lia|done].
    + rewrite lookup_insert_ne by done. intros Hv. destruct (Hm v u d' Hv) as [? [?|(w' & d'' & Hu & ? & ?)]];
        (split; [done|]); [by left|right]. exists w', d''. rewrite lookup_insert_ne by (intros ->; simplify_eq).
      by split_and!.
Qed.

Lemma tree_size g s m : tree_ok g s m → (size m ≤ Z.to_nat (num_vertices g))%nat.
Proof.
  intros [_ Hm]. rewrite <- size_dom. assert (0 ≤ num_vertices g) by (unfold num_vertices; lia).
  replace (Z.to_nat (num_vertices g)) with (length (seqZ 0 (num_vertices g))) by (rewrite length_seqZ; done).
  rewrite <- (size_list_to_set (C := gset Z)) by apply NoDup_seqZ. apply subseteq_size. intros v Hv.
  apply elem_of_dom in Hv as [[u d] Hv]. apply elem_of_list_to_set, elem_of_seqZ.
  destruct (Hm v u d Hv) as [Hr _]. unfold in_range in Hr. lia.
Qed.

Lemma grow_ok fuel g s m : tree_ok g s m → (Z.to_nat (num_vertices g) ≤ size m + fuel)%nat →
  tree_ok g s (grow fuel g m) ∧ fringe g (grow fuel g m) = [].
Proof.
  revert m. induction fuel as [|fuel IH]; intros m Hm Hf; cbn [grow].
  - split; [done|]. destruct (fringe g m) as [|[b x] l] eqn:E; [done|].
    assert ((b, x) ∈ fringe g m) as Hx by (rewrite E; by left).
    pose proof (tree_size _ _ _ (tree_ok_insert _ _ _ _ _ Hm Hx)) as Hsz.
    apply elem_of_fringe in Hx as (Hb & _). rewrite map_size_insert_None in Hsz by done. lia.
  - destruct (fringe g m) as [|[b x] l] eqn:E; cbn [head]; [done|].
    assert ((b, x) ∈ fringe g m) as Hx by (rewrite E; by left).
    apply IH; [by apply tree_ok_insert|]. apply elem_of_fringe in Hx as (Hb & _).
    rewrite map_size_insert_None by done. lia.
Qed.

Lemma search_ok g s : tree_ok g s (search g s) ∧ fringe g (search g s) = [].
Proof.
  apply grow_ok; [|lia]. unfold root. case_decide; (split; [intros ?|]); try done.
  - by rewrite lookup_singleton_eq.
  - intros v u d [<- [= <- <-]]%lookup_singleton_Some. split; [done|]. by left.
Qed.

Lemma search_preds_lookup g s v u : 0 ≤ v → search_preds g s !! Z.to_nat v = Some u →
  in_range g v ∧ u = default v (fst <$> search g s !! v).
Proof.
  intros Hv. unfold search_preds. rewrite list_lookup_fmap_Some. intros (w & -> & Hw).
  apply lookup_seqZ in Hw as [-> Hw]. rewrite Z2Nat.id in * by done. split; [unfold in_range; lia|done].
Qed.

Lemma search_preds_at g s v : in_range g v →
  search_preds g s !! Z.to_nat v = Some (default v (fst <$> search g s !! v)).
Proof.
  intros Hv. unfold in_range in Hv. unfold search_preds. rewrite list_lookup_fmap, lookup_seqZ_lt by lia.
  simpl. by rewrite Z2Nat.id by lia.
Qed.

Lemma search_preds_length g s : Z.of_nat (length (search_preds g s)) = num_vertices g.
Proof. unfold search_preds. rewrite length_fmap, length_seqZ. unfold num_vertices. lia. Qed.

Lemma search_preds_source g s : 0 ≤ s < num_vertices g → search_preds g s !! Z.to_nat s = Some s.
Proof. intros Hs. rewrite search_preds_at by done. destruct (search_ok g s) as [[-> _] _]; done. Qed.

Lemma search_preds_forest g s : ∃ rank : Z → nat, ∀ v u, 0 ≤ v →
  search_preds g s !! Z.to_nat v = Some u → u ≠ v → (rank u < rank v)%nat.
Proof.
  exists (λ v, default O (snd <$> search g s !! v)). intros v u Hv Hu Hne.
  apply search_preds_lookup in Hu as [_ ->]; [|done]. destruct (search_ok g s) as [[_ Hm] _].
  destruct (search g s !! v) as [[u d]|] eqn:E; [|done]. simpl in *.
  destruct (Hm v u d E) as [_ [[-> ->]|(w & d' & -> & Hd & _)]]; done.
Qed.

Lemma search_preds_edge g s v u : 0 ≤ v → search_preds g s !! Z.to_nat v = Some u →
  0 ≤ u < num_vertices g ∧
  (u = v ∨ ∃ e, e ∈ edges g ∧ ((source e = v ∧ target e = u) ∨ (source e = u ∧ target e = v))).
Proof.
  intros Hv Hu. apply search_preds_lookup in Hu as [Hr ->]; [|done]. destruct (search_ok g s) as [[_ Hm] _].
  destruct (search g s !! v) as [[u d]|] eqn:E; simpl; [|split; [exact Hr|by left]].
  destruct (Hm v u d E) as [_ [[-> ->]|(w & d' & Hu & _ & He)]]; [split; [exact Hr|by left]|].
  destruct (Hm u w d' Hu) as [Hur _]. split; [exact Hur|by right].
Qed.

Lemma search_preds_reached g s e a b :
  e ∈ edges g → 0 ≤ a < num_vertices g → 0 ≤ b < num_vertices g →
  ((source e = a ∧ target e = b) ∨ (source e = b ∧ target e = a)) →
  search_preds g s !! Z.to_nat a = Some a → a ≠ s → search_preds g s !! Z.to_nat b = Some b ∧ b ≠ s.
Proof.
  intros He Ha Hb Hab Hpa Hne. destruct (search_ok g s) as [[Hs Hm] Hfr].
  apply search_preds_lookup in Hpa as [_ Hpa]; [|lia].
  assert (search g s !! a = None) as Ea.
  { destruct (search g s !! a) as [[u d]|] eqn:E; [|done]. simpl in Hpa. subst u.
    destruct (Hm a a d E) as [_ [[? _]|(w & d' & Hu & Hd & _)]]; [done|]. rewrite E in Hu. simplify_eq. lia. }
  assert (search g s !! b = None) as Eb.
  { destruct (search g s !! b) as [[u d]|] eqn:E; [|done]. exfalso.
    cut ((a, (b, S d)) ∈ fringe g (search g s)); [rewrite Hfr; apply not_elem_of_nil|].
    unfold fringe. rewrite list_elem_of_bind. exists e. split; [|done].
    assert (reach g (search g s) b a = [(a, (b, S d))]) as Er by (unfold reach; by rewrite E, Ea, decide_True).
    apply elem_of_app. destruct Hab as [[-> ->]|[-> ->]]; rewrite Er; [right|left]; by left. }
  rewrite search_preds_at, Eb by done. split; [done|]. intros ->. by rewrite Hs in Eb.
Qed.

Definition tree_search : Predecessors := {|
  preds := search_preds; preds_length := search_preds_length; preds_source := search_preds_source;
  preds_forest := search_preds_forest; preds_edge := search_preds_edge;
  preds_reached := search_preds_reached |}.

Lemma exact_pow_squares : squares exact_pow.
Proof. by intros a. Qed.

