(* ===== verification/CpcQueue.v ===== *)
(** * The packets that wait for a route

    [ns2/cpc/ns/cpc_queue_ns.cc] and [ns2/cpc/routing_table.c] with [cpc_rt.c]: the common
    part of the routing protocols, as the simulator uses it.  Both the queue of waiting
    packets and the routing table are intrusive lists (LinkedList.v) in one global
    variable each, which all agents of a simulation share. *)
From S2P Require Import Prelude LinkedList Double Daemon SimQueues.
Open Scope Z_scope.

(** ** The queue *)

(* [ns2/cpc/ns/cpc_queue_ns.h:10-14] struct queue_entry *)
Record queue_entry := QueueEntry { qe_dst : Z; qe_p : addr }.
(** The [list_t] members, with the head at [Q_HEAD], and the entries they start. *)
(* [ns2/cpc/ns/cpc_queue_ns.h:16-20] struct cpc_queue_ns *)
Record cpc_queue := CpcQueue {
  q_cells : gmap N list_t;
  q_entries : gmap N queue_entry;
  q_len : Z;
  q_agent : Z;
}.
Definition Q_HEAD : addr := 1%N.

Definition set_q_cells (c : gmap N list_t) (q : cpc_queue) : cpc_queue :=
  CpcQueue c (q_entries q) (q_len q) (q_agent q).
Definition set_q_entries (m : gmap N queue_entry) (q : cpc_queue) : cpc_queue :=
  CpcQueue (q_cells q) m (q_len q) (q_agent q).
Definition set_q_len (n : Z) (q : cpc_queue) : cpc_queue :=
  CpcQueue (q_cells q) (q_entries q) (u32 n) (q_agent q).
Definition on_q_cells {A} (m : M (gmap N list_t) A) : M cpc_queue A := zoom q_cells set_q_cells m.
(** [free(e)]. *)
Definition free_entry (e : addr) : M cpc_queue unit :=
  _ ← deref q_entries e;
  _ ← modify (λ q, set_q_entries (delete e (q_entries q)) q);
  modify (λ q, set_q_cells (delete e (q_cells q)) q).

(** An address is the agent's address; the head is a global variable. *)
(* [ns2/cpc/ns/cpc_queue_ns.cc:8-13] cpc_queue_ns_init *)
Definition cpc_queue_ns_init (agent : Z) : M cpc_queue unit :=
  _ ← on_q_cells (INIT_LIST_HEAD Q_HEAD);
  _ ← modify (set_q_len 0);
  modify (λ q, CpcQueue (q_cells q) (q_entries q) (q_len q) agent).

(** The packets to be dropped, in order. *)
(* [ns2/cpc/ns/cpc_queue_ns.cc:15-28] cpc_queue_ns_des *)
Definition cpc_queue_ns_des : M cpc_queue (list addr) :=
  r ← list_foreach_safe (A := Empty_set) q_cells Q_HEAD (λ pos dropped,
        _ ← on_q_cells (list_detach pos);
        e ← deref q_entries pos;
        _ ← free_entry pos;
        _ ← modify (λ q, set_q_len (q_len q - 1) q);
        mret (inr (dropped ++ [qe_p e]))) [];
  mret (match r with inl x => match x : Empty_set with end | inr l => l end).

(** [daddr] is the destination in the packet's IP header. *)
(* [ns2/cpc/ns/cpc_queue_ns.cc:30-54] cpc_queue_ns_add *)
Definition cpc_queue_ns_add `{Allocator} (daddr : Z) (p : addr) (dst : Z) : M cpc_queue unit :=
  if decide (u32 daddr ≠ dst) then abort
  else
    q ← get;
    match malloc (dom (q_cells q)) with
    | None => abort
    | Some e =>
        _ ← modify (λ q, set_q_entries (<[e := QueueEntry dst p]> (q_entries q)) q);
        _ ← modify (λ q, set_q_cells (<[e := ListT NULL NULL]> (q_cells q)) q);
        _ ← on_q_cells (list_add_tail Q_HEAD e);
        modify (λ q, set_q_len (q_len q + 1) q)
    end.

(* [ns2/cpc/ns/cpc_queue_ns.cc:56-70] cpc_queue_ns_remove *)
Definition cpc_queue_ns_remove (dst : Z) : M cpc_queue unit :=
  _ ← list_foreach_safe (A := Empty_set) q_cells Q_HEAD (λ pos _,
        e ← deref q_entries pos;
        _ ← (if decide (qe_dst e = dst) then
               _ ← on_q_cells (list_detach pos);
               _ ← modify (λ q, set_q_len (q_len q - 1) q);
               free_entry pos
             else skip);
        mret (inr tt)) tt;
  skip.

(** [send] is the call [q.agent->sendData(e->p, dst)]; it leaves the queue alone. *)
(* [ns2/cpc/ns/cpc_queue_ns.cc:72-91] cpc_queue_ns_send_packets *)
Definition cpc_queue_ns_send_packets {S} (get_q : S → cpc_queue) (set_q : cpc_queue → S → S)
    (send : addr → Z → M S unit) (dst : Z) : M S unit :=
  r ← list_foreach_safe (A := Empty_set) (λ s, q_cells (get_q s)) Q_HEAD (λ pos flag,
        e ← deref (λ s, q_entries (get_q s)) pos;
        if decide (qe_dst e = dst) then _ ← send (qe_p e) dst; mret (inr true)
        else mret (inr flag)) false;
  match r with
  | inr true => zoom get_q set_q (cpc_queue_ns_remove dst)
  | _ => skip
  end.

(* [ns2/cpc/ns/cpc_queue_ns.cc:93-96] cpc_queue_ns_drop_packets *)
Definition cpc_queue_ns_drop_packets (dst : Z) : M cpc_queue unit := cpc_queue_ns_remove dst.

(* [ns2/cpc/ns/cpc_queue_ns.cc:98-110] cpc_queue_ns_get *)
Definition cpc_queue_ns_get (dst : Z) : M cpc_queue addr :=
  r ← list_foreach_safe (A := addr) q_cells Q_HEAD (λ pos _,
        e ← deref q_entries pos;
        mret (if decide (qe_dst e = dst) then inl (qe_p e) else inr tt)) tt;
  mret (match r with inl p => p | inr _ => NULL end).

(** ** The routing table *)

(* [ns2/cpc/routing_table.h:12-22] struct rt_entry *)
Record rt_entry := RtEntry { rt_dst : Z; rt_next : Z }.
(* [ns2/cpc/routing_table.h:24-27] struct routing_table *)
Record routing_table := RtTable {
  rt_cells : gmap N list_t;
  rt_entries : gmap N rt_entry;
  nentries : Z;
}.
Definition RT_LIST : addr := 1%N.

Definition set_rt_cells (c : gmap N list_t) (t : routing_table) : routing_table :=
  RtTable c (rt_entries t) (nentries t).
Definition on_rt_cells {A} (m : M (gmap N list_t) A) : M routing_table A := zoom rt_cells set_rt_cells m.

(* [ns2/cpc/routing_table.c:9-13] rt_init *)
Definition rt_init : M routing_table unit :=
  _ ← modify (λ t, RtTable (rt_cells t) (rt_entries t) 0);
  on_rt_cells (INIT_LIST_HEAD RT_LIST).

(* [ns2/cpc/routing_table.c:85-96] rt_find *)
Definition rt_find (dst : Z) : M routing_table addr :=
  r ← list_foreach (A := addr) rt_cells RT_LIST (λ pos _,
        rt ← deref rt_entries pos;
        mret (if decide (rt_dst rt = dst) then inl pos else inr tt)) tt;
  mret (match r with inl p => p | inr _ => NULL end).

(* [ns2/cpc/routing_table.c:26-57] rt_add *)
Definition rt_add `{Allocator} (dst next : Z) : M routing_table unit :=
  rt ← rt_find dst;
  if decide (rt ≠ NULL) then skip
  else
    t ← get;
    match malloc (dom (rt_cells t)) with
    | None => abort
    | Some a =>
        _ ← modify (λ t, RtTable (<[a := ListT NULL NULL]> (rt_cells t))
                          (<[a := RtEntry dst next]> (rt_entries t)) (u32 (nentries t + 1)));
        _ ← on_rt_cells (list_add RT_LIST a);
        skip
    end.

(* [ns2/cpc/routing_table.c:59-72] rt_remove *)
Definition rt_remove (rt : addr) : M routing_table unit :=
  if decide (rt = NULL) then skip
  else
    _ ← on_rt_cells (list_detach rt);
    _ ← deref rt_entries rt;
    modify (λ t, RtTable (delete rt (rt_cells t)) (delete rt (rt_entries t)) (u32 (nentries t - 1))).

(* [ns2/cpc/routing_table.c:74-83] rt_update *)
Definition rt_update (rt : addr) (next : Z) : M routing_table unit :=
  e ← deref rt_entries rt;
  modify (λ t, RtTable (rt_cells t) (<[rt := RtEntry (rt_dst e) next]> (rt_entries t)) (nentries t)).

(* [ns2/cpc/routing_table.c:15-24] rt_des *)
Definition rt_des : M routing_table unit :=
  _ ← list_foreach_safe (A := Empty_set) rt_cells RT_LIST (λ pos _, _ ← rt_remove pos; mret (inr tt)) tt;
  skip.

(* [ns2/cpc/cpc_rt.c:26-35] cpc_rt_remove *)
Definition cpc_rt_remove (dst : Z) : M routing_table unit :=
  rt ← rt_find dst;
  if decide (rt = NULL) then skip else rt_remove rt.
(* [ns2/cpc/cpc_rt.c:37-46] cpc_rt_update *)
Definition cpc_rt_update `{Allocator} (dst next : Z) : M routing_table unit :=
  rt ← rt_find dst;
  if decide (rt = NULL) then rt_add dst next else rt_update rt next.
(** The next hop, or [None] for a null pointer. *)
(* [ns2/cpc/cpc_rt.c:48-57] cpc_rt_find *)
Definition cpc_rt_find (dst : Z) : M routing_table (option Z) :=
  rt ← rt_find dst;
  if decide (rt = NULL) then mret None
  else e ← deref rt_entries rt; mret (Some (rt_next e)).

(** ** The queue as a sequence

    [waits q es] : the queue holds the entries [es] in order. *)
Definition waits (q : cpc_queue) (es : list (addr * queue_entry)) : Prop :=
  ring (q_cells q) Q_HEAD es.*1 ∧ (∀ a e, (a, e) ∈ es → q_entries q !! a = Some e) ∧
  q_len q = u32 (Z.of_nat (length es)).

Lemma waits_lookup q es a e : waits q es → (a, e) ∈ es → a ≠ NULL ∧ q_entries q !! a = Some e.
Proof.
  intros (Hr & He & _) Hin. split; [|by apply He]. destruct Hr as (_ & H0 & _).
  intros ->. apply H0. right. apply list_elem_of_fmap. by exists (NULL, e).
Qed.

Lemma waits_NoDup q es : waits q es → NoDup es.*1.
Proof. intros ((Hnd & _) & _). by apply NoDup_cons in Hnd as [_ ?]. Qed.

Lemma u32_succ n : u32 (u32 n + 1) = u32 (n + 1).
Proof. unfold u32, wrap. by rewrite Zplus_mod_idemp_l. Qed.
Lemma u32_pred n : u32 (u32 n - 1) = u32 (n - 1).
Proof. unfold u32, wrap. by rewrite Zminus_mod_idemp_l. Qed.

(** A packet is put at the end. *)
Lemma waits_add `{Allocator} q es daddr p dst a :
  waits q es → u32 daddr = dst → malloc (dom (q_cells q)) = Some a →
  ∃ q', cpc_queue_ns_add daddr p dst q = Done tt q' ∧ waits q' (es ++ [(a, QueueEntry dst p)]) ∧
    q_agent q' = q_agent q.
Proof.
  intros (Hr & He & Hl) Hd Ha. destruct (malloc_fresh _ _ Ha) as [Hfresh H0]. apply not_elem_of_dom in Hfresh.
  assert (a ∉ Q_HEAD :: es.*1) as Hin.
  { intros Hx. by destruct (ring_dom _ _ _ a Hr Hx) as [c Hc]; rewrite Hfresh in Hc. }
  unfold cpc_queue_ns_add. rewrite decide_False by naive_solver. rewrite (bind_done _ _ _ q q) by done. rewrite Ha.
  set (q1 := set_q_entries (<[a := QueueEntry dst p]> (q_entries q)) q).
  rewrite (bind_done _ _ _ tt q1) by done.
  set (q2 := set_q_cells (<[a := ListT NULL NULL]> (q_cells q1)) q1).
  rewrite (bind_done _ _ _ tt q2) by done.
  assert (ring (q_cells q2) Q_HEAD es.*1) as Hr2.
  { eapply ring_frame; [exact Hr|]. intros x Hx. simpl. rewrite lookup_insert_ne; [done|]. by intros ->. }
  destruct (list_add_tail_ring (q_cells q2) Q_HEAD es.*1 a Hr2) as (c & E & Hr' & _ & _); [done|done| |].
  { simpl. rewrite lookup_insert_eq. by eexists. }
  rewrite (bind_done _ _ _ LIST_SUCCESS (set_q_cells c q2)) by (unfold on_q_cells, zoom; by rewrite E).
  eexists. split; [done|]. split; [|done]. split_and!; simpl.
  - by rewrite fmap_app.
  - intros b e [Hb|[= -> ->]%list_elem_of_singleton]%elem_of_app; [|by rewrite lookup_insert_eq].
    rewrite lookup_insert_ne; [by apply He|]. intros ->. apply Hin. right. apply list_elem_of_fmap. by exists (b, e).
  - rewrite Hl, length_app. simpl. rewrite u32_succ. f_equal. lia.
Qed.

Definition is_for (dst : Z) (x : addr * queue_entry) : Prop := qe_dst x.2 = dst.
#[global] Instance is_for_dec dst x : Decision (is_for dst x) := Z.eq_dec _ _.
Definition first_for (dst : Z) (es : list (addr * queue_entry)) : addr :=
  default NULL ((λ x, qe_p x.2) <$> head (filter (is_for dst) es)).
Definition others (dst : Z) (es : list (addr * queue_entry)) : list (addr * queue_entry) :=
  filter (λ x, ¬ is_for dst x) es.

(** The first packet for a destination is found. *)
Lemma waits_get q es dst : waits q es → cpc_queue_ns_get dst q = Done (first_for dst es) q.
Proof.
  intros Hq. pose proof Hq as (Hr & _). unfold cpc_queue_ns_get.
  assert (twp (list_foreach_safe (A := addr) q_cells Q_HEAD (λ pos _,
      e ← deref q_entries pos; mret (if decide (qe_dst e = dst) then inl (qe_p e) else inr tt)) tt) q
    (λ r q', q' = q ∧ match r with inl p => p | inr _ => NULL end = first_for dst es)) as Ht.
  { eapply (wp_list_foreach_safe _ _ es.*1) with
      (I := λ rem _ s, s = q ∧ ∃ pre post, es = pre ++ post ∧ rem = post.*1 ∧ filter (is_for dst) pre = []); [| | |exact Hr|].
    - intros rem _ s (-> & pre & post & -> & -> & _). exists pre.*1. by rewrite <- fmap_app.
    - intros x rem [] s (-> & pre & [|[a e] post] & -> & Erem & Hpre); [done|]. injection Erem as -> ->.
      destruct (waits_lookup q _ a e Hq) as [Ha He]; [apply elem_of_app; right; by left|].
      apply wp_bind. eapply wp_deref; [done|exact He|]. apply wp_ret. destruct (decide (qe_dst e = dst)) as [E|E].
      + split; [done|]. unfold first_for. by rewrite filter_app, Hpre, filter_cons_True by done.
      + split; [done|]. exists (pre ++ [(a, e)]), post. rewrite <- (assoc_L app). split_and!; [done..|].
        by rewrite filter_app, Hpre, filter_cons_False by done.
    - intros _ s (-> & pre & post & -> & Epost & Hpre). split; [done|].
      symmetry in Epost. apply fmap_nil_inv in Epost as ->. unfold first_for. by rewrite (app_nil_r pre), Hpre.
    - split; [done|]. by exists [], es. }
  apply twp_inv in Ht as (r & q' & E & -> & Er). rewrite (bind_done _ _ _ _ _ E), Er. done.
Qed.

(** One entry is unlinked and freed. *)
Lemma remove_one q pre a e post :
  waits q (pre ++ (a, e) :: post) →
  ∃ q', (_ ← on_q_cells (list_detach a); _ ← modify (λ q, set_q_len (q_len q - 1) q); free_entry a) q = Done tt q' ∧
    waits q' (pre ++ post) ∧ q_agent q' = q_agent q.
Proof.
  intros Hq. pose proof Hq as (Hr & He & Hl).
  destruct (waits_lookup q _ a e Hq) as [Ha Hea]; [apply elem_of_app; right; by left|].
  pose proof (waits_NoDup _ _ Hq) as Hnd. rewrite fmap_app in Hnd. simpl in Hnd.
  rewrite fmap_app in Hr. simpl in Hr.
  destruct (list_detach_ring _ _ _ _ _ Hr) as (c & E & Hr' & _).
  set (q1 := set_q_len (q_len q - 1) (set_q_cells c q)).
  rewrite (bind_done _ _ _ LIST_SUCCESS (set_q_cells c q)) by (unfold on_q_cells, zoom; by rewrite E).
  rewrite (bind_done _ _ _ tt q1) by done. unfold free_entry.
  rewrite (bind_done _ _ _ e q1) by (by apply deref_done).
  eexists. split; [done|]. split; [|done].
  assert (∀ b, b ∈ (pre ++ post).*1 → b ≠ a) as Hne.
  { intros b Hb ->. apply NoDup_app in Hnd as (_ & Hnd1 & Hnd2). apply NoDup_cons in Hnd2 as [Hnd2 _].
    rewrite fmap_app in Hb. apply elem_of_app in Hb as [Hb|Hb]; [|done]. apply (Hnd1 a Hb). by left. }
  split_and!; simpl.
  - rewrite fmap_app in *. eapply ring_frame; [exact Hr'|]. intros x Hx.
    rewrite lookup_delete_ne; [done|]. intros ->. apply elem_of_cons in Hx as [Hx|Hx]; [|by eapply Hne].
    destruct Hr as (Hnd' & _). apply NoDup_cons in Hnd' as [Hh _]. rewrite <- Hx in Hh. apply Hh, elem_of_app. right. by left.
  - intros b v Hb. rewrite lookup_delete_ne.
    + apply He. apply elem_of_app in Hb as [Hb|Hb]; apply elem_of_app; [by left|right; by right].
    + intros <-. apply (Hne a); [|done]. apply list_elem_of_fmap. by exists (a, v).
  - rewrite Hl, u32_pred, !length_app. simpl. f_equal. lia.
Qed.

(** All packets for a destination are removed. *)
Lemma waits_remove q es dst : waits q es →
  ∃ q', cpc_queue_ns_remove dst q = Done tt q' ∧ waits q' (others dst es) ∧ q_agent q' = q_agent q.
Proof.
  intros Hq. pose proof Hq as (Hr & _). unfold cpc_queue_ns_remove.
  set (body := λ (pos : addr) (_ : unit), _).
  assert (twp (list_foreach_safe (A := Empty_set) q_cells Q_HEAD body tt) q
    (λ _ q', waits q' (others dst es) ∧ q_agent q' = q_agent q)) as Ht.
  { eapply (wp_list_foreach_safe _ _ es.*1) with
      (I := λ rem _ s, ∃ pre post, es = pre ++ post ∧ rem = post.*1 ∧ waits s (others dst pre ++ post) ∧
                       q_agent s = q_agent q); [| | |exact Hr|].
    - intros rem _ s (pre & post & -> & -> & (Hr' & _) & _). rewrite fmap_app in Hr'. by eexists.
    - intros x rem [] s (pre & [|[a e] post] & -> & Erem & Hw & Hag); [done|]. injection Erem as -> ->.
      destruct (waits_lookup s _ a e Hw) as [Ha He]; [apply elem_of_app; right; by left|].
      unfold body. apply wp_bind. eapply wp_deref; [done|exact He|]. apply wp_bind.
      destruct (decide (qe_dst e = dst)) as [E|E].
      + destruct (remove_one s _ _ _ _ Hw) as (s' & Es & Hw' & Hag'). eapply wp_done; [exact Es|]. apply wp_ret.
        exists (pre ++ [(a, e)]), post. rewrite <- (assoc_L app). split_and!; [done..| |congruence].
        unfold others in *. rewrite filter_app, filter_cons_False, filter_nil, (app_nil_r (filter _ pre)); [done|].
        unfold is_for. simpl. tauto.
      + apply wp_ret, wp_ret. exists (pre ++ [(a, e)]), post. rewrite <- (assoc_L app). split_and!; [done..| |done].
        unfold others in *. rewrite filter_app, filter_cons_True, filter_nil by done. by rewrite <- (assoc_L app).
    - intros _ s (pre & post & -> & Epost & Hw & Hag). symmetry in Epost. apply fmap_nil_inv in Epost as ->.
      rewrite !app_nil_r in *. done.
    - exists [], es. by split_and!. }
  apply twp_inv in Ht as (r & q' & E & Hw & Hag). rewrite (bind_done _ _ _ _ _ E). by exists q'.
Qed.
