(* ===== verification/MsvrAgent.v ===== *)
(** * GeoSVR in the simulator: the agent

    [ns2/msvr/msvr_agent.cc], [ns2/msvr/neigh/msvr_neigh.cc] and the class [CpcAgent] of
    [ns2/cpc/ns/cpc_agent.cc] it derives from: what an agent does with a packet, the hello
    messages, and the choice of route and next hop for a packet that waits for one.  The
    map, the queue of waiting packets and the routing table are global variables that all
    agents share. *)
From S2P Require Import Prelude LinkedList Double Utils Daemon SimQueues SimPacket.
From S2P Require Import MsvrNeigh Database RoadMap MapManager MsvrMap SearchTree.
From S2P Require Import CpcQueue.
Open Scope Z_scope.

(** What the code depends on of its platform: the size of a pointer (4 or 8), which fixes
    the layout of [hdr_msvr_routing], and how many bytes of a block [malloc] returns can
    be used ([malloc_usable_size]). *)
Class Abi := {
  pointer_size : Z;
  usable_size : Z → Z;
  pointer_size_ok : pointer_size = 4 ∨ pointer_size = 8;
  usable_size_ok : ∀ n, 0 ≤ n → n ≤ usable_size n;
}.

(** ** Headers *)

Definition MSVR_TYPE_INFO : Z := 1.
Definition MSVR_TYPE_ROUTING : Z := 2.

(* [ns2/msvr/msvr_packet.h:15-22] struct hdr_msvr_info *)
Record hdr_msvr_info := MsvrInfo { i_id : Z; i_x : float; i_y : float; i_s : float; i_h : float; i_dst : Z }.
(** The bytes [sendInfo] copies; the structure has 28. *)
(* [ns2/msvr/msvr_packet.h:24-29] size *)
Definition info_size : Z := 1 + 4 + 8 * 4 + 4.

(** The bit fields are always zero and left out; [r_path] is [None] for a pointer of which
    only a part was copied. *)
(* [ns2/msvr/msvr_packet.h:32-45] struct hdr_msvr_routing *)
Record hdr_msvr_routing := MsvrRouting {
  r_length : Z;
  r_hlen : Z;
  r_seq : Z;
  r_sx : float;
  r_sy : float;
  r_dx : float;
  r_dy : float;
  r_path : option addr;
}.
(* [ns2/msvr/msvr_packet.h:47-54] size *)
Definition routing_size : Z := 1 * 2 + 2 + 4 + 4 + 4 * 4.

(** The area of a packet's headers that [access_cb] points to; zero in a new packet. *)
(* [ns2/msvr/msvr_packet.h:57-61] union hdr_all_msvr *)
Inductive hdr_all_msvr := NoHdr | InfoHdr (h : hdr_msvr_info) | RoutingHdr (h : hdr_msvr_routing).
#[global] Instance msvr_headers : Headers hdr_all_msvr := NoHdr.

(** The member [type]. *)
Definition hdr_type (h : hdr_all_msvr) : Z :=
  match h with NoHdr => 0 | InfoHdr _ => MSVR_TYPE_INFO | RoutingHdr _ => MSVR_TYPE_ROUTING end.
(** The area read as a routing header: its member [path]. *)
Definition read_path (h : hdr_all_msvr) : option addr :=
  match h with NoHdr => Some NULL | InfoHdr _ => None | RoutingHdr r => r_path r end.

Section layout.
Context `{Abi}.
(** The offset of [path]: the members before it end at 28, and it is aligned. *)
Definition path_offset : Z := if decide (pointer_size = 4) then 28 else 32.
(** [memcpy] of [n] bytes of a routing header onto the area; what follows the structure is
    not modelled. *)
Definition copy_routing (n : Z) (r : hdr_msvr_routing) (old : hdr_all_msvr) : hdr_all_msvr :=
  let path :=
    if decide (path_offset + pointer_size ≤ n) then r_path r
    else if decide (n ≤ path_offset) then read_path old
    else None in
  RoutingHdr (MsvrRouting (r_length r) (r_hlen r) (r_seq r) (r_sx r) (r_sy r) (r_dx r) (r_dy r) path).
End layout.

(** ** Paths in packets

    A path is stored in characters: its length in bytes less one, then the crossings, with
    a comma after each. *)
Definition COMMA : Z := 44.

(** What the loop writes. *)
Fixpoint fields (paths : list Z) : list Z :=
  match paths with [] => [] | p :: paths => s8 p :: COMMA :: fields paths end.
(** [None] for a write beyond the block; the last comma is at the index twice the number
    of crossings, which is the size asked for. *)
(* [ns2/msvr/msvr_agent.cc:168-185] encode_path *)
Definition encode_path `{Abi} (paths : list Z) : option (list Z) :=
  let size := 2 * Z.of_nat (length paths) in
  let bytes := s8 (size - 1) :: fields paths in
  if decide (Z.of_nat (length bytes) ≤ usable_size size) then Some bytes else None.

(* [ns2/msvr/msvr_agent.cc:190-194] decode_path *)
Fixpoint decode_loop (fuel : nat) (i len : Z) (enpaths : list Z) : option (list Z) :=
  match fuel with
  | O => None
  | S fuel =>
      if decide (i ≤ len) then
        b ← enpaths !! Z.to_nat i; rest ← decode_loop fuel (i + 2) len enpaths; Some (b :: rest)
      else Some []
  end.
(** [None] for a read beyond the block. *)
(* [ns2/msvr/msvr_agent.cc:187-195] decode_path *)
Definition decode_path (enpaths : list Z) : option (list Z) :=
  len ← enpaths !! 0%nat; decode_loop (S (length enpaths)) 1 len enpaths.

(** ** The simulation *)

(** [s_heap] holds the blocks of encoded paths; packets sent and delivered are recorded,
    latest first. *)
Record sim := Sim {
  s_map : Map;
  s_nodes : list MobileNode;
  s_nbls : gmap Z (list msvr_nbentry);
  s_queue : cpc_queue;
  s_rt : routing_table;
  s_pool : pool (P := hdr_all_msvr);
  s_heap : gmap N (list Z);
  s_uidcnt : Z;
  s_sent : list (Z * addr);
  s_delivered : list (Z * addr);
}.

Definition set_map_ (x : Map) (s : sim) : sim :=
  Sim x (s_nodes s) (s_nbls s) (s_queue s) (s_rt s) (s_pool s) (s_heap s) (s_uidcnt s) (s_sent s) (s_delivered s).
Definition set_nbls x (s : sim) : sim :=
  Sim (s_map s) (s_nodes s) x (s_queue s) (s_rt s) (s_pool s) (s_heap s) (s_uidcnt s) (s_sent s) (s_delivered s).
Definition set_squeue x (s : sim) : sim :=
  Sim (s_map s) (s_nodes s) (s_nbls s) x (s_rt s) (s_pool s) (s_heap s) (s_uidcnt s) (s_sent s) (s_delivered s).
Definition set_rt x (s : sim) : sim :=
  Sim (s_map s) (s_nodes s) (s_nbls s) (s_queue s) x (s_pool s) (s_heap s) (s_uidcnt s) (s_sent s) (s_delivered s).
Definition set_pool x (s : sim) : sim :=
  Sim (s_map s) (s_nodes s) (s_nbls s) (s_queue s) (s_rt s) x (s_heap s) (s_uidcnt s) (s_sent s) (s_delivered s).
Definition set_heap x (s : sim) : sim :=
  Sim (s_map s) (s_nodes s) (s_nbls s) (s_queue s) (s_rt s) (s_pool s) x (s_uidcnt s) (s_sent s) (s_delivered s).
Definition set_uidcnt x (s : sim) : sim :=
  Sim (s_map s) (s_nodes s) (s_nbls s) (s_queue s) (s_rt s) (s_pool s) (s_heap s) x (s_sent s) (s_delivered s).
Definition set_sent x (s : sim) : sim :=
  Sim (s_map s) (s_nodes s) (s_nbls s) (s_queue s) (s_rt s) (s_pool s) (s_heap s) (s_uidcnt s) x (s_delivered s).
Definition set_delivered x (s : sim) : sim :=
  Sim (s_map s) (s_nodes s) (s_nbls s) (s_queue s) (s_rt s) (s_pool s) (s_heap s) (s_uidcnt s) (s_sent s) x.

Definition on_map {A} (m : M Map A) : M sim A := zoom s_map set_map_ m.
Definition on_squeue {A} (m : M cpc_queue A) : M sim A := zoom s_queue set_squeue m.
Definition on_rt {A} (m : M routing_table A) : M sim A := zoom s_rt set_rt m.
Definition on_pool {A} (m : M (pool (P := hdr_all_msvr)) A) : M sim A := zoom s_pool set_pool m.
Definition the_packet (p : addr) : M sim (Packet hdr_all_msvr) := on_pool (deref packets p).
Definition upd (p : addr) (f : Packet hdr_all_msvr → Packet hdr_all_msvr) : M sim unit :=
  on_pool (upd_packet p f).


Section agent.
Context `{Libm, MathPow, Platform, Abi, Allocator, Predecessors}.

Definition nbl_of (me : Z) : M sim (list msvr_nbentry) := gets (λ s, default [] (s_nbls s !! me)).
Definition set_nbl (me : Z) (l : list msvr_nbentry) : M sim unit :=
  modify (λ s, set_nbls (<[me := l]> (s_nbls s)) s).
(** [send] and [portDmux_->recv]: the packet leaves the agent. *)
Definition send (me : Z) (p : addr) : M sim unit := modify (λ s, set_sent ((me, p) :: s_sent s) s).
Definition portDmux_recv (me : Z) (p : addr) : M sim unit :=
  modify (λ s, set_delivered ((me, p) :: s_delivered s) s).
(** Without a drop target a dropped packet is freed. *)
(* [ns2/common/connector.cc:106-120] Connector::drop *)
Definition drop (p : addr) : M sim unit :=
  if decide (p = NULL) then stuck NullDeref else on_pool (free p).

(** ** The common agent *)

(** The next hop, the direction and the address family of a packet that is sent. *)
Definition outgoing (me next : Z) (v : Packet hdr_all_msvr) : Packet hdr_all_msvr :=
  with_cmn (λ c, cmn_addr_type NS_AF_INET (cmn_direction DOWN (cmn_hops (s32 next) (s32 me) c))) v.

(* [ns2/cpc/ns/cpc_agent.cc:92-95] CpcAgent::dropPacket *)
Definition dropPacket (p : addr) : M sim unit := drop p.
(* [ns2/cpc/ns/cpc_agent.cc:97-101] CpcAgent::dropPacket *)
Definition dropPacket_for (dst : Z) : M sim unit :=
  p ← on_squeue (cpc_queue_ns_get dst); drop p.

(* [ns2/cpc/ns/cpc_agent.cc:103-119] CpcAgent::sendData *)
Definition sendData (me : Z) (p : addr) (dst : Z) : M sim unit :=
  next ← on_rt (cpc_rt_find dst);
  match next with
  | None => skip
  | Some next => _ ← upd p (outgoing me next); send me p
  end.

(** The interface, the flow and the flags of the packet are not modelled; the agent has no
    destination of its own. *)
(* [ns2/common/agent.cc:455-490] Agent::initpkt *)
Definition initpkt (me : Z) (now : double) (uid : Z) (v : Packet hdr_all_msvr) : Packet hdr_all_msvr :=
  with_ip (λ i, Ip (s32 me) 0 (-1) 0 IP_DEF_TTL)
    (with_cmn (λ c, Cmn PT_MSVR 0 uid 0 now 0 (prev_hop_ c) (next_hop_ c) (addr_type_ c) (last_hop_ c)
                      (xmit_failure_ c) (xmit_reason_ c) (num_forwards_ c)) v).
(* [ns2/common/agent.cc:516-522] Agent::allocpkt *)
Definition allocpkt (me : Z) (now : double) : M sim addr :=
  p ← on_pool alloc;
  uid ← gets s_uidcnt;
  _ ← modify (set_uidcnt (uid + 1));
  _ ← upd p (initpkt me now uid);
  mret p.

(* [ns2/cpc/ns/cpc_agent.cc:121-138] CpcAgent::sendProtPacket *)
Definition sendProtPacket (me : Z) (now : double) (h : hdr_all_msvr) (dst : Z) : M sim unit :=
  p ← allocpkt me now;
  _ ← upd p (λ v, outgoing me dst (with_ip (λ i, Ip (s32 me) (sport i) (s32 dst) (dport i) (ttl_ i)) v));
  _ ← upd p (with_hdrs h);
  send me p.

(** The packet that waits is copied, the copy gets the routing header, the original is
    freed, and every packet for the destination is taken out of the queue. *)
(* [ns2/cpc/ns/cpc_agent.cc:142-170] CpcAgent::sendProtPacketWithData *)
Definition sendProtPacketWithData (me : Z) (r : hdr_msvr_routing) (n src dst next : Z) : M sim unit :=
  opkt ← on_squeue (cpc_queue_ns_get dst);
  npkt ← on_pool (copy opkt);
  _ ← upd npkt (λ v, outgoing me next
        (with_ip (λ i, Ip (s32 src) (sport i) (s32 dst) (dport i) (ttl_ i)) v));
  _ ← upd npkt (λ v, with_hdrs (copy_routing n r (hdrs v)) v);
  _ ← on_pool (free opkt);
  _ ← on_squeue (cpc_queue_ns_remove dst);
  send me npkt.

(** [p] is null at the source. *)
Section handlers.
Context (prot_handler : Z → addr → M sim unit) (req_handler : Z → addr → Z → Z → M sim unit).

(* [ns2/cpc/ns/cpc_agent.cc:57-90] CpcAgent::processPacket *)
Definition processPacket (me : Z) (p : addr) : M sim unit :=
  v ← the_packet p;
  let src := u32 (saddr (ip v)) in
  let dst := u32 (daddr (ip v)) in
  if decide (dst = me) then portDmux_recv me p
  else
    next ← on_rt (cpc_rt_find dst);
    match next with
    | Some next => _ ← upd p (outgoing me next); send me p
    | None =>
        _ ← on_squeue (cpc_queue_ns_add (daddr (ip v)) p dst);
        req_handler me (if decide (src ≠ me) then p else NULL) src dst
    end.

(* [ns2/cpc/ns/cpc_agent.cc:25-55] CpcAgent::recv *)
Definition recv (me : Z) (p : addr) : M sim unit :=
  v ← the_packet p;
  if bool_decide (u32 (saddr (ip v)) = me) && bool_decide (0 < num_forwards_ (cmn v)) then drop p
  else if decide (ptype_ (cmn v) = PT_MSVR) then
    _ ← prot_handler me p;
    on_pool (free p)
  else processPacket me p.
End handlers.

(** ** The GeoSVR agent *)

(* [ns2/msvr/msvr_agent.cc:118-138] recv_info *)
Definition recv_info (now : timeval) (me : Z) (mih : hdr_msvr_info) : M sim unit :=
  g ← gets s_map;
  let px := d_of_f (i_x mih) in
  let py := d_of_f (i_y mih) in
  let info := Ninfo (s32 (i_id mih)) px py (d_of_f (i_s mih)) (d_of_f (i_h mih))
                (rid (getRoadByPos g px py)) (i_dst mih) in
  nbl ← nbl_of me;
  set_nbl me (msvr_nbladd now nbl info).

(** Messages of other types are only reported. *)
(* [ns2/msvr/msvr_agent.cc:147-166] routing_proto_cb *)
Definition routing_proto_cb (now : timeval) (me : Z) (p : addr) : M sim unit :=
  v ← the_packet p;
  match hdrs v with
  | InfoHdr mih => recv_info now me mih
  | _ => skip
  end.

(** The position of a node; a node that does not exist is a null pointer. *)
Definition node_pos (a : Z) : M sim (double * double) :=
  nodes ← gets s_nodes; the (getPos nodes (s32 a)).

(* [ns2/msvr/neigh/msvr_neigh.cc:37-57] MsvrNeighTimer::sendInfo *)
Definition sendInfo (me : Z) (now : double) : M sim unit :=
  nodes ← gets s_nodes;
  '(px, py) ← the (getPos nodes (s32 me));
  sp ← the (getSpeed nodes (s32 me));
  hd ← the (getHeading nodes (s32 me));
  sendProtPacket me now
    (InfoHdr (MsvrInfo me (f_of_d px) (f_of_d py) (f_of_d sp) (f_of_d hd) me)) IP_BROADCAST.

(** The timer is set again by [resched], which is modelled in SimScheduler.v. *)
(* [ns2/msvr/neigh/msvr_neigh.cc:25-35] MsvrNeighTimer::expire *)
Definition expire (me : Z) (now : double) (tv : timeval) : M sim unit :=
  _ ← sendInfo me now;
  nbl ← nbl_of me;
  match msvr_nblaging tv nbl with
  | Done _ nbl' => set_nbl me nbl'
  | Abort _ => abort
  | Stuck f => stuck f
  end.

(** A crossing of the map, by its index. *)
Definition crossing (i : Z) : M sim (double * double) :=
  g ← gets s_map;
  n ← within (at_ (vertices g) i);
  mret (x n, y n).

(** The roads ahead and the next hop for a packet with the route [paths]: at the source
    and at a relay, which differ in the position the hop starts from. *)
(* [ns2/msvr/msvr_agent.cc:301-325] request_routing_cb *)
Definition hop_along (me : Z) (paths : list Z) (srcPos dstPos hopPos : double * double) : M sim Z :=
  p0 ← within (paths !! 0%nat);
  p1 ← within (paths !! 1%nat);
  g ← gets s_map;
  let roadid1 := getRoadByNode g p0 p1 in
  nextPos ← crossing p1;
  '(roadid2, nextPos) ← (match paths !! 2%nat with
     | Some p2 => nextPos ← crossing p2; mret (getRoadByNode g p1 p2, nextPos)
     | None => mret (-1, nextPos)
     end);
  let dstRoad := rid (getRoadByPos g dstPos.1 dstPos.2) in
  let roadid2 := if bool_decide (roadid2 = -1) && negb (bool_decide (roadid1 = dstRoad)) then dstRoad else roadid2 in
  let roadid3 := rid (getRoadByPos g srcPos.1 srcPos.2) in
  nbl ← nbl_of me;
  within (msvr_get_next_hop nbl roadid1 roadid2 roadid3 hopPos.1 hopPos.2 nextPos.1 nextPos.2 true).

(** The path in a received packet, copied to a block of its own. *)
(* [ns2/msvr/msvr_agent.cc:289-294] request_routing_cb *)
Definition received_path (p : addr) : M sim (list Z) :=
  v ← the_packet p;
  match read_path (hdrs v) with
  | None => stuck UseAfterFree
  | Some a =>
      bytes ← deref s_heap a;
      pathlen ← within (bytes !! 0%nat);
      if decide (0 ≤ pathlen ∧ pathlen + 1 ≤ Z.of_nat (length bytes)) then
        within (decode_path (take (Z.to_nat (pathlen + 1)) bytes))
      else stuck OutOfBounds
  end.

(** A block for [bytes]. *)
Definition new_block (bytes : list Z) : M sim addr :=
  s ← get;
  match malloc (dom (s_heap s)) with
  | None => stuck NullDeref
  | Some a => _ ← put (set_heap (<[a := bytes]> (s_heap s)) s); mret a
  end.

(** What is sent once the route and the next hop are known.  [time] is the clock. *)
(* [ns2/msvr/msvr_agent.cc:329-363] request_routing_cb *)
Definition send_along (time me : Z) (paths : list Z) (next src dst : Z)
    (srcPos dstPos relayPos : double * double) : M sim unit :=
  let next := if decide (next = u32 (-1)) then dst else next in
  nextPos ← node_pos next;
  p0 ← within (paths !! 0%nat);
  p1 ← within (paths !! 1%nat);
  g ← gets s_map;
  let road := getRoadByNode g p0 p1 in
  let paths :=
    if negb (bool_decide (road = rid (getRoadByPos g nextPos.1 nextPos.2))) &&
       bool_decide (rid (getRoadByPos g relayPos.1 relayPos.2) = road)
    then tail paths else paths in
  let n := Z.of_nat (length paths) in
  enpaths ← within (encode_path paths);
  let len := u16 (routing_size + n * 2) in
  path ← new_block (take (Z.to_nat (n * 2)) enpaths);
  sendProtPacketWithData me
    (MsvrRouting len (u8 (routing_size + n * 2)) (u32 time) (f_of_d srcPos.1) (f_of_d srcPos.2)
       (f_of_d dstPos.1) (f_of_d dstPos.2) (Some path)) len src dst next.

(** [fuel] bounds the candidates of [getPaths]. *)
(* [ns2/msvr/msvr_agent.cc:197-364] request_routing_cb *)
Definition request_routing_cb (fuel : nat) (time me : Z) (p : addr) (src dst : Z) : M sim unit :=
  nbl ← nbl_of me;
  if msvr_find_dst nbl dst then
    srcPos ← node_pos src;
    dstPos ← node_pos dst;
    paths ← on_map (getPaths fuel srcPos.1 srcPos.2 dstPos.1 dstPos.2);
    _ ← within (encode_path paths);
    send_along time me paths dst src dst srcPos dstPos srcPos
  else if decide (p = NULL) then
    srcPos ← node_pos src;
    dstPos ← node_pos dst;
    paths ← on_map (getPaths fuel srcPos.1 srcPos.2 dstPos.1 dstPos.2);
    next ← hop_along me paths srcPos dstPos srcPos;
    send_along time me paths next src dst srcPos dstPos srcPos
  else
    srcPos ← node_pos src;
    dstPos ← node_pos dst;
    relayPos ← node_pos me;
    paths ← received_path p;
    if decide (length paths < 2)%nat then dropPacket_for dst
    else
      next ← hop_along me paths srcPos dstPos relayPos;
      send_along time me paths next src dst srcPos dstPos relayPos.
End agent.

(** ** Paths survive encoding *)

Definition encoded (ps : list Z) : list Z := s8 (2 * Z.of_nat (length ps) - 1) :: fields ps.

Lemma encoded_length ps : length (encoded ps) = S (2 * length ps).
Proof. unfold encoded. simpl. f_equal. induction ps as [|p ps IH]; [done|]. simpl. rewrite IH. lia. Qed.

Lemma decode_loop_body fuel pre ps last :
  Forall (λ p, -128 ≤ p < 128) ps → Z.odd (Z.of_nat (length pre)) = true →
  last = Z.of_nat (length pre) + 2 * Z.of_nat (length ps) - 2 → (length ps < fuel)%nat →
  decode_loop fuel (Z.of_nat (length pre)) last
    (take (Z.to_nat (last + 1)) (pre ++ fields ps)) = Some ps.
Proof.
  revert pre ps. induction fuel as [|fuel IH]; [lia|]. intros pre ps Hps Hodd Hlast Hf. cbn [decode_loop].
  destruct ps as [|p ps].
  - simpl in Hlast. by rewrite decide_False by lia.
  - simpl in Hlast, Hf. rewrite decide_True by lia. apply Forall_cons in Hps as [Hp Hps].
    rewrite lookup_take_lt, lookup_app_r, Nat2Z.id, Nat.sub_diag by lia. simpl.
    specialize (IH (pre ++ [s8 p; COMMA]) ps Hps). rewrite length_app in IH. simpl in IH.
    rewrite Nat2Z.inj_add, <- (assoc_L app) in IH. simpl in IH. change (Z.of_nat 2) with 2 in IH. rewrite IH; [|by rewrite Z.odd_add, Hodd|lia|lia].
    unfold s8. by rewrite swrap_small by lia.
Qed.

(** C38. A route of at most 64 crossings, whose identifiers are characters, survives being
    encoded, stored in a packet without its last comma, and decoded, if the block that
    [malloc] returns has a byte to spare; if it has not, encoding writes beyond it, for
    every route. *)
Theorem encode_decode `{Abi} ps (Hids : Forall (λ p, -128 ≤ p < 128) ps)
    (Hn : (1 ≤ length ps ≤ 64)%nat) :
  let n := Z.of_nat (length ps) in
  (2 * n < usable_size (2 * n) →
     ∃ bytes, encode_path ps = Some bytes ∧ decode_path (take (Z.to_nat (n * 2)) bytes) = Some ps) ∧
  (usable_size (2 * n) = 2 * n → encode_path ps = None).
Proof.
  intros n. pose proof (encoded_length ps) as Hl. unfold encode_path. cbv zeta. fold (encoded ps). fold n.
  split; intros Hu; [|by rewrite decide_False by lia].
  rewrite decide_True by lia. eexists. split; [done|]. unfold decode_path.
  pose proof (decode_loop_body (S (length (take (Z.to_nat (n * 2)) (encoded ps)))) [s8 (2 * n - 1)] ps (2 * n - 1)
    Hids eq_refl) as Hd.
  rewrite length_take in *. simpl length in Hd. replace (2 * n - 1 + 1) with (n * 2) in Hd by lia.
  change ([s8 (2 * n - 1)] ++ fields ps) with (encoded ps) in Hd.
  assert (take (Z.to_nat (n * 2)) (encoded ps) !! 0%nat = Some (2 * n - 1)) as ->.
  { rewrite lookup_take_lt by lia. unfold encoded, s8. simpl. by rewrite swrap_small by lia. }
  cbn [mbind option_bind]. simpl in Hl. apply Hd; lia.
Qed.

(** [glibc] on a 64-bit machine: blocks of 24 bytes and more, in steps of 16. *)
Definition glibc_usable (n : Z) : Z := Z.max 24 ((n + 8 + 15) / 16 * 16 - 8).
Lemma glibc_usable_ok n : 0 ≤ n → n ≤ glibc_usable n.
Proof.
  intros Hn. unfold glibc_usable. pose proof (Z_div_mod_eq_full (n + 8 + 15) 16).
  pose proof (Z.mod_pos_bound (n + 8 + 15) 16). lia.
Qed.
Definition lp64 : Abi := {|
  pointer_size := 8; usable_size := glibc_usable;
  pointer_size_ok := or_intror eq_refl; usable_size_ok := glibc_usable_ok |}.

Lemma encode_decode_witness :
  (∃ bytes, @encode_path lp64 [0; 1; 2] = Some bytes ∧ decode_path (take 6 bytes) = Some [0; 1; 2]) ∧
  @encode_path lp64 [0; 1; 2; 3; 0; 1; 2; 3; 0; 1; 2; 3] = None.
Proof.
  split.
  - apply (@encode_decode lp64 [0; 1; 2]); [by_decision|simpl; lia|vm_compute; reflexivity].
  - apply (@encode_decode lp64 [0; 1; 2; 3; 0; 1; 2; 3; 0; 1; 2; 3]); [by_decision|simpl; lia|vm_compute; reflexivity].
Defined.

(** ** Sending the packet that waits *)

Section sending.
Context `{MathPow, Platform, Abi, Allocator, Predecessors}.
Abbreviation packet := (Packet hdr_all_msvr).
Implicit Types (s : sim) (v w : packet).

(** A packet in use that nobody else refers to. *)
Definition in_use s (p : addr) v : Prop :=
  packets (s_pool s) !! p = Some v ∧ fflag_ v = true ∧ ref_count_ v = 0 ∧ pk_uid v ≤ 0.

(** The copy of a packet, and the packet that is sent. *)
Definition copied v : packet := Pkt NULL 0 0 true (data_ v) (cmn v) (ip v) (hdrs v).
Definition forwarded (me : Z) (r : hdr_msvr_routing) (n src dst next : Z) v : packet :=
  let w := outgoing me next (with_ip (λ i, Ip (s32 src) (sport i) (s32 dst) (dport i) (ttl_ i)) (copied v)) in
  with_hdrs (copy_routing n r (hdrs w)) w.

Lemma copy_spec (pl : pool (P := hdr_all_msvr)) fs o v :
  pool_ok pl fs → (fs = [] → is_Some (malloc (dom (packets pl)))) → packets pl !! o = Some v → fflag_ v = true →
  ∃ np pl', copy o pl = Done np pl' ∧ pool_ok pl' (tail fs) ∧ np ≠ NULL ∧ np ≠ o ∧ np ∉ tail fs ∧
    packets pl' !! np = Some (copied v) ∧
    (∀ b u, packets pl !! b = Some u → fflag_ u = true → b ≠ np ∧ packets pl' !! b = Some u).
Proof.
  intros Hok Hm Hv Hf. destruct (alloc_spec pl fs Hok Hm) as (np & pl1 & u & E1 & Hok1 & Hnp & Hfs & Eu & Hu & Hk).
  destruct (Hk o v Hv Hf) as [Hne Ho]. assert (o ≠ NULL) as Ho0 by (intros ->; destruct Hok as (_ & ? & _); congruence).
  unfold copy. rewrite (bind_done _ _ _ _ _ E1), (bind_done _ _ _ v pl1) by (by apply deref_done).
  rewrite (bind_done _ _ _ _ _ (upd_packet_done np _ pl1 u Hnp Eu)).
  destruct Hu as (? & ? & ? & ? & ? & _). destruct u as [un uu ur uf ud uc ui uh]. simpl in *. subst.
  eexists _, _. split; [done|]. split_and!; simpl; try done.
  - by eapply pool_ok_insert.
  - by rewrite lookup_insert_eq.
  - intros b x Hb Hx. destruct (Hk b x Hb Hx) as [? Eb]. split; [done|]. by rewrite lookup_insert_ne.
Qed.

Lemma upd_done p f s v : p ≠ NULL → packets (s_pool s) !! p = Some v →
  upd p f s = Done tt (set_pool (set_packets (<[p := f v]> (packets (s_pool s))) (s_pool s)) s).
Proof. intros Hp Hv. unfold upd, on_pool, zoom. by rewrite (upd_packet_done p f (s_pool s) v Hp Hv). Qed.

Lemma on_squeue_done {A} (m : M cpc_queue A) s a q' : m (s_queue s) = Done a q' →
  on_squeue m s = Done a (set_squeue q' s).
Proof. unfold on_squeue, zoom. by intros ->. Qed.
Lemma on_pool_done {A} (m : M (pool (P := hdr_all_msvr)) A) s a q' : m (s_pool s) = Done a q' →
  on_pool m s = Done a (set_pool q' s).
Proof. unfold on_pool, zoom. by intros ->. Qed.

End sending.

(** ** Relays *)

Section relays.
Context `{MathPow, Platform, Abi, Allocator, Predecessors}.
Implicit Types (s : sim) (v : Packet hdr_all_msvr).

(** A packet that a relay does not know a neighbour for: nothing else waits, the routing
    table is empty (this protocol never fills it), and the nodes exist. *)
Record at_relay s (me : Z) (p : addr) v (dst : Z) : Prop := {
  ar_packet : in_use s p v;
  ar_nonnull : p ≠ NULL;
  ar_data : ptype_ (cmn v) ≠ PT_MSVR;
  ar_src : u32 (saddr (ip v)) ≠ me;
  ar_dst : u32 (daddr (ip v)) = dst;
  ar_me : dst ≠ me;
  ar_rt : ring (rt_cells (s_rt s)) RT_LIST [];
  ar_queue : waits (s_queue s) [];
  ar_memory : is_Some (malloc (dom (q_cells (s_queue s))));
  ar_neighbour : msvr_find_dst (default [] (s_nbls s !! me)) dst = false;
  ar_nodes : ∀ a, a = u32 (saddr (ip v)) ∨ a = dst ∨ a = me → is_Some (getPos (s_nodes s) (s32 a));
}.

Lemma the_packet_done s p v : p ≠ NULL → packets (s_pool s) !! p = Some v → the_packet p s = Done v s.
Proof.
  intros Hp Hv. unfold the_packet, on_pool, zoom. rewrite (deref_done packets p v (s_pool s) Hp Hv). by destruct s.
Qed.

Lemma rt_empty s dst : ring (rt_cells (s_rt s)) RT_LIST [] → on_rt (cpc_rt_find dst) s = Done None s.
Proof.
  intros Hr. unfold on_rt, zoom, cpc_rt_find, rt_find.
  set (body := λ (pos : addr) (_ : unit), _).
  pose proof (list_foreach_pure rt_cells (s_rt s) RT_LIST [] body (λ _ _, inr tt) tt Hr) as E.
  unfold mbind, M_bind. rewrite E; [by destruct s|]. intros x b Hx. by apply not_elem_of_nil in Hx.
Qed.

Lemma node_pos_done s a pos : getPos (s_nodes s) (s32 a) = Some pos → node_pos a s = Done pos s.
Proof. intros E. unfold node_pos. rewrite (bind_done _ _ _ (s_nodes s) s) by done. by rewrite E. Qed.

(** The packet joins the queue, and the path is read from it. *)
Lemma relay_recv prot fuel time s me p v dst : at_relay s me p v dst →
  ∃ e q1 srcPos dstPos relayPos, waits q1 [(e, QueueEntry dst p)] ∧
    recv prot (request_routing_cb fuel time) me p s =
    (paths ← received_path p;
     if decide (length paths < 2)%nat then dropPacket_for dst
     else
       next ← hop_along me paths srcPos dstPos relayPos;
       send_along time me paths next (u32 (saddr (ip v))) dst srcPos dstPos relayPos) (set_squeue q1 s).
Proof.
  intros [(Hv & _) Hp Hdata Hsrc Hdst Hme Hrt Hq [e He] Hn Hpos].
  destruct (waits_add (s_queue s) [] (daddr (ip v)) p dst e Hq Hdst He) as (q1 & Eq & Hq1 & _).
  destruct (Hpos (u32 (saddr (ip v)))) as [srcPos Es]; [by left|].
  destruct (Hpos dst) as [dstPos Ed]; [by right; left|]. destruct (Hpos me) as [relayPos Em]; [by right; right|].
  exists e, q1, srcPos, dstPos, relayPos. split; [done|].
  unfold recv. rewrite (bind_done _ _ _ _ _ (the_packet_done _ _ _ Hp Hv)).
  rewrite bool_decide_false by done. cbn [andb]. rewrite decide_False by done.
  unfold processPacket. rewrite (bind_done _ _ _ _ _ (the_packet_done _ _ _ Hp Hv)). cbv zeta.
  rewrite Hdst, decide_False by done. rewrite (bind_done _ _ _ _ _ (rt_empty s dst Hrt)).
  rewrite (bind_done _ _ _ _ _ (on_squeue_done _ _ _ _ Eq)). rewrite decide_True by done.
  set (s1 := set_squeue q1 s). unfold request_routing_cb.
  rewrite (bind_done _ _ _ (default [] (s_nbls s !! me)) s1) by done. rewrite Hn, decide_False by done.
  rewrite (bind_done _ _ _ _ _ (node_pos_done s1 _ _ Es)).
  rewrite (bind_done _ _ _ _ _ (node_pos_done s1 _ _ Ed)).
  by rewrite (bind_done _ _ _ _ _ (node_pos_done s1 _ _ Em)).
Qed.

(** Copying the packet that was freed last: the copy is the packet itself, cleared. *)
Lemma recopy_spec (pl : pool (P := hdr_all_msvr)) p fs : pool_ok pl (p :: fs) →
  ∃ pl' w, copy p pl = Done p pl' ∧ pool_ok pl' fs ∧ packets pl' !! p = Some w ∧
    (fflag_ w = true ∧ ref_count_ w = 0 ∧ pk_uid w = 0 ∧ p ∉ fs) ∧
    ∀ b u, packets pl !! b = Some u → fflag_ u = true → packets pl' !! b = Some u.
Proof.
  intros Hok. destruct (alloc_spec pl (p :: fs) Hok) as (q & pl1 & u & E1 & Hok1 & Hq & Hfs & Eu & Hu & Hk); [done|].
  pose proof (alloc_first _ _ _ _ _ Hok E1) as ->. simpl in Hok1, Hfs.
  unfold copy. rewrite (bind_done _ _ _ _ _ E1), (bind_done _ _ _ u pl1) by (by apply deref_done).
  rewrite (bind_done _ _ _ _ _ (upd_packet_done p _ pl1 u Hq Eu)).
  destruct Hu as (? & ? & ? & ? & ? & _). destruct u as [un uu ur uf ud uc ui uh]. simpl in *. subst.
  eexists _, _. split; [done|]. split_and!; simpl; try done.
  - by eapply pool_ok_insert.
  - by rewrite lookup_insert_eq.
  - done.
  - done.
  - done.
  - intros b x Hb Hx. destruct (Hk b x Hb Hx) as [? Eb]. by rewrite lookup_insert_ne.
Qed.

(** With the dropped packet [p] at the head of the queue and of the free list, the packet
    that is sent is [p]. *)
Lemma sends_freed s p fs e e' p' dst me r n src next :
  p ≠ NULL → pool_ok (s_pool s) (p :: fs) →
  waits (s_queue s) [(e, QueueEntry dst p); (e', QueueEntry dst p')] →
  ∃ s' w, sendProtPacketWithData me r n src dst next s = Done tt s' ∧
    s_sent s' = (me, p) :: s_sent s ∧ packets (s_pool s') !! p = Some w ∧ fflag_ w = false ∧
    (∀ b u, b ≠ p → packets (s_pool s) !! b = Some u → fflag_ u = true → packets (s_pool s') !! b = Some u) ∧
    waits (s_queue s') [].
Proof.
  intros Hp Hok Hq. unfold sendProtPacketWithData.
  assert (first_for dst [(e, QueueEntry dst p); (e', QueueEntry dst p')] = p) as Efor.
  { unfold first_for. by rewrite filter_cons_True by done. }
  rewrite (bind_done _ _ _ _ _ (on_squeue_done _ s _ _ (waits_get _ _ dst Hq))), Efor.
  destruct (recopy_spec (s_pool s) p fs Hok) as (l1 & w & E1 & Hok1 & Ew & (Hw1 & Hw2 & Hw3 & Hw4) & Hk1).
  set (s4 := set_squeue _ s). change (s_pool s) with (s_pool s4) in E1.
  rewrite (bind_done _ _ _ _ _ (on_pool_done _ _ _ _ E1)). set (s5 := set_pool l1 s4).
  rewrite (bind_done _ _ _ _ _ (upd_done p _ s5 _ Hp Ew)). set (s6 := set_pool _ s5).
  rewrite (bind_done _ _ _ _ _ (upd_done p _ s6 _ Hp (lookup_insert_eq _ _ _))). set (s7 := set_pool _ s6).
  assert (pool_ok (s_pool s7) fs) as Hok7.
  { assert (pool_ok (s_pool s6) fs) as Hok6 by (eapply (pool_ok_insert l1); [exact Hok1|exact Ew|done|exact Hw1]).
    eapply (pool_ok_insert (s_pool s6)); [exact Hok6|apply lookup_insert_eq|done|exact Hw1]. }
  destruct (free_spec (s_pool s7) fs p _ Hok7 (lookup_insert_eq _ _ _)) as (l2 & E2 & Hok2 & Hk2);
    [exact Hw1|exact Hw2|simpl; lia|].
  rewrite (bind_done _ _ _ _ _ (on_pool_done _ _ _ _ E2)). set (s8 := set_pool l2 s7).
  destruct (waits_remove _ _ dst Hq) as (q3 & Eq3 & Hq3 & _).
  rewrite (bind_done _ _ _ _ _ (on_squeue_done _ s8 _ _ Eq3)).
  destruct Hok2 as ((_ & _ & k & Ek & _) & _ & Hfl & _). unfold pnx in Ek.
  destruct (packets l2 !! p) as [w2|] eqn:Ew2; [|done].
  eexists _, w2. split; [done|]. split_and!; simpl; try done.
  - apply (Hfl p w2 Ew2). by left.
  - intros b u Hb Hu Hf. rewrite Hk2 by done. simpl. rewrite !lookup_insert_ne by done. by apply Hk1.
  - revert Hq3. unfold others. by rewrite !filter_cons_False by (unfold is_for; simpl; tauto).
Qed.

(** A relay that receives a packet whose path has shrunk to one crossing drops it, but
    leaves it in the queue; when a node then routes the next packet for that destination,
    it sends the dropped packet's memory, which is free and was just cleared, and the
    packet it should send stays in use with nothing left to refer to it. *)
Theorem short_path_poisons prot fuel time s me p v dst r a c fs
    (Hrelay : at_relay s me p v dst) (Hok : pool_ok (s_pool s) fs)
    (Hhdr : hdrs v = RoutingHdr r) (Hpath : r_path r = Some a) (Ha : a ≠ NULL)
    (Hheap : s_heap s !! a = Some [1; c]) :
  ∃ s1, recv prot (request_routing_cb fuel time) me p s = Done tt s1 ∧
    s_sent s1 = s_sent s ∧ pool_ok (s_pool s1) (p :: fs) ∧
    (∀ b, b ≠ p → packets (s_pool s1) !! b = packets (s_pool s) !! b) ∧
    ∀ me' p' v' r' n src next e', in_use s1 p' v' → u32 (daddr (ip v')) = dst →
      malloc (dom (q_cells (s_queue s1))) = Some e' →
      ∃ s2 w, (_ ← on_squeue (cpc_queue_ns_add (daddr (ip v')) p' dst);
               sendProtPacketWithData me' r' n src dst next) s1 = Done tt s2 ∧
        s_sent s2 = (me', p) :: s_sent s ∧ packets (s_pool s2) !! p = Some w ∧ fflag_ w = false ∧
        packets (s_pool s2) !! p' = Some v' ∧ waits (s_queue s2) [].
Proof.
  destruct (relay_recv prot fuel time s me p v dst Hrelay) as (e & q1 & sp & dp & rp & Hq1 & ->).
  destruct Hrelay as [(Hv & Hf & Hr & Hu) Hp _ _ _ _ _ _ _ _ _]. set (s1 := set_squeue q1 s).
  assert (received_path p s1 = Done [c] s1) as Erp.
  { unfold received_path. rewrite (bind_done _ _ _ _ _ (the_packet_done s1 _ _ Hp Hv)), Hhdr. simpl.
    rewrite Hpath, (bind_done _ _ _ [1; c] s1) by (by apply deref_done).
    rewrite (bind_done _ _ _ 1 s1) by done. done. }
  rewrite (bind_done _ _ _ _ _ Erp), decide_True by (simpl; lia). unfold dropPacket_for.
  assert (first_for dst [(e, QueueEntry dst p)] = p) as Efor.
  { unfold first_for. rewrite filter_cons_True by done. done. }
  rewrite (bind_done _ _ _ _ _ (on_squeue_done _ s1 _ _ (waits_get q1 _ dst Hq1))), Efor.
  unfold drop. rewrite decide_False by done.
  destruct (free_spec (s_pool s) fs p v Hok Hv Hf Hr Hu) as (l & El & Hokl & Hkl).
  rewrite (on_pool_done _ (set_squeue q1 s1) _ _ El). set (s2 := set_pool l _).
  eexists. split; [done|]. split_and!; [done|done|exact Hkl|].
  intros me' p' v' r' n src next e' (Hv' & Hf' & _) Hdst' He'.
  destruct (waits_add q1 _ (daddr (ip v')) p' dst e' Hq1 Hdst' He') as (q2 & Eq2 & Hq2 & _).
  rewrite (bind_done _ _ _ _ _ (on_squeue_done _ s2 _ _ Eq2)). set (s3 := set_squeue q2 s2).
  destruct (sends_freed s3 p fs e e' p' dst me' r' n src next Hp Hokl Hq2)
    as (s' & w & -> & Es & Ew & Hw & Hk & Hq').
  exists s', w. split_and!; try done. apply Hk; [|done|done].
  intros ->. destruct Hokl as (_ & _ & Hfl & _).
  assert (fflag_ v' = false) by (apply (Hfl p v' Hv'); by left). congruence.
Qed.

End relays.

(** ** A small simulation

    Node 5 relays a packet from node 4 for node 6; the packet is at 10, a second one for
    the same destination at 11. *)
#[local] Instance demo_platform : Platform := x86_64.
#[local] Instance demo_alloc : Allocator := bump_allocator false.

Definition demo_ip : hdr_ip := Ip 4 0 6 0 32.
Definition demo_routing (path : addr) : hdr_msvr_routing :=
  MsvrRouting 32 32 0 d_zero d_zero d_zero d_zero (Some path).
Definition demo_data (h : hdr_all_msvr) : Packet hdr_all_msvr :=
  Pkt NULL 0 0 true None (cmn_size 512 zero_cmn) demo_ip h.
Definition demo_sim (h : hdr_all_msvr) : sim :=
  Sim MsvrMap_new [Mobile 4 d_zero d_zero d_zero; Mobile 5 d_zero d_zero d_zero; Mobile 6 d_zero d_zero d_zero]
    ∅ (CpcQueue {[1%N := ListT 1 1]} ∅ 0 5) (RtTable {[1%N := ListT 1 1]} ∅ 0)
    (Pool (<[10%N := demo_data h]> {[11%N := demo_data NoHdr]}) NULL)
    {[20%N := [1; 3]]} 0 [] [].

Lemma demo_ring : ring {[1%N := ListT 1 1]} 1 [].
Proof. split; [|split]; [by_decision|by_decision|]. by simpl. Qed.

Lemma demo_waits : waits (s_queue (demo_sim NoHdr)) [].
Proof. split; [apply demo_ring|]. split; [intros a e Ha; by apply not_elem_of_nil in Ha|done]. Qed.

Lemma demo_at_relay h : at_relay (demo_sim h) 5 10 (demo_data h) 6.
Proof.
  split; try done; [apply demo_ring|apply demo_waits|].
  intros a Ha. cut (a = 4 ∨ a = 6 ∨ a = 5); [intros [->|[->| ->]]; by eexists|exact Ha].
Qed.

Lemma demo_pool_used h : pool_ok (s_pool (demo_sim h)) [].
Proof.
  split; [done|]. split; [done|]. split.
  - intros a v. simpl. rewrite !lookup_insert, lookup_singleton.
    repeat case_decide; intros; simplify_eq; (split; [done|by intros ?%not_elem_of_nil]).
  - intros a v _ Ha. by apply not_elem_of_nil in Ha.
Qed.


Lemma short_path_poisons_witness :
  ∃ s1 s2 e, recv (routing_proto_cb (Timeval 0 0)) (@request_routing_cb exact_pow demo_platform lp64 demo_alloc tree_search 2 0)
      5 10 (demo_sim (RoutingHdr (demo_routing 20))) = Done tt s1 ∧
    (_ ← on_squeue (cpc_queue_ns_add 6 11 6);
     @sendProtPacketWithData lp64 demo_alloc 5 (demo_routing 20) 32 4 6 6) s1 = Done tt s2 ∧
    s_sent s2 = [(5, 10%N)] ∧ fflag_ <$> packets (s_pool s2) !! 10%N = Some false ∧ waits (s_queue s2) e.
Proof.
  edestruct (@short_path_poisons exact_pow demo_platform lp64 demo_alloc tree_search
    (routing_proto_cb (Timeval 0 0)) 2 0 (demo_sim (RoutingHdr (demo_routing 20))) 5 10
    (demo_data (RoutingHdr (demo_routing 20))) 6 (demo_routing 20) 20 3 []) as (s1 & E1 & _ & _ & Hb & Hnext).
  - apply demo_at_relay.
  - apply demo_pool_used.
  - done.
  - done.
  - done.
  - done.
  - edestruct (Hnext 5 11%N (demo_data NoHdr) (demo_routing 20) 32 4 6) as (s2 & w & E2 & Es & Ew & Hw & _ & Hq).
    + split; [|done]. by rewrite Hb.
    + done.
    + done.
    + exists s1, s2, []. split_and!; [done|done|done| |done]. by rewrite Ew; simpl; rewrite Hw.
Defined.

